(* ===== verification/_CoqProject ===== *)
-Q . S2P
Prelude.v
Heap.v
LinkedList.v
Stddef.v
Timer.v
Hash.v
Float.v
Mempool.v
MempoolShared.v
Page.v
Dispatch.v
Context.v
Dispatcher.v
Bytes.v
ByteMem.v
Switch.v
IpAddr.v
Chksum.v
Mbuf.v
Pbuf.v
PbufOwn.v
PbufLink.v
PbufStep.v
PbufData.v
PbufSearch.v
Packet.v
LwipChksum.v
NetInput.v
EthQueue.v
RxRing.v
TxRing.v
NetOutput.v
Arp.v
ArpTable.v
Transmit.v
Worker.v
Reply.v
Networker.v
System.v
Steps.v
Boot.v
Safety.v
