(* ===== verification/Prelude.v ===== *)
(** * Shinjuku: a verification development

    Shinjuku schedules microsecond-scale requests on dedicated cores.  The
    networker core receives packets and hands them to the dispatcher core, which
    queues them by port and gives them to worker cores, preempting long ones; a
    worker runs a request and answers it with a UDP datagram.  The development
    models this program (C, under src/dp and src/inc) as executable functions and
    proves what makes its parts correct.

    ** Style

    C code that reads and writes memory is a function on a store that maps an
    object and a byte offset to the value there ([Heap]); it returns [None] where
    the code would dereference NULL, leave an array, fail an assertion, panic or
    wait for ever.  Longer code is written in the state monad [ST].  Integers are
    [Z], reduced at their width where the code's types do so.  Packet data are
    lists of bytes ([Bytes]).  Loops that are not structural have fuel; the
    theorems that say that such code returns fix an amount that is enough, which
    is the length of the list or ring they walk, and for the waiting loop of a
    request eight times its run time.  A walk along a chain of packet buffers has
    [walk_fuel], two more than the number of fields in the store: a chain that
    ends is shorter, since all its pbufs but the last have a stored link.  A search for
    a non-empty string moves on by at least a byte and has fuel for every 16-bit
    position.

    ** Files

    - [Prelude], [Heap], [Bytes], [Stddef]: machine integers, the monad, records,
      the store, byte buffers, the macros and byte-order functions of
      inc/ix/stddef.h, bitmap.h and byteorder.h.
    - [LinkedList]: inc/ix/list.h.  [Timer]: dp/core/timer.c.  [Hash]:
      inc/ix/hash.h.  [Float]: the IEEE arithmetic of the scheduler's comparison
      and of the waiting loop.
    - [Mempool], [MempoolShared]: dp/core/mempool.c, on one core and shared by
      many; clients of a pool rely on the class [StackAllocator].  [Page]: dp/core/page.c, mem.c, inc/ix/page.h, atomic.h.
    - [Dispatch]: task queues and the stack of returned buffers of
      inc/ix/dispatch.h.  [Context]: inc/ix/context.h, dp/core/context.c.
      [Dispatcher]: dp/core/dispatcher.c, one definition per handler.
    - [Switch]: the assembly of dp/core/context_fast.S, as lists of instructions on
      registers, x87 environment, MXCSR and byte-addressed memory ([ByteMem]).
    - [Chksum]: the assembly of inc/asm/chksum.h.  [Mbuf]: inc/ix/mbuf.h.
      [NetInput]: eth_input, ip_input and udp_input.  [EthQueue]: receive queues of
      inc/ix/ethqueue.h.  [RxRing], [TxRing]: the rings of dp/drivers/ixgbe.c and
      i40e.c.  [Transmit]: the transmit queue over a ring.
    - [NetOutput]: the headers the program writes.  [Arp], [ArpTable]:
      dp/net/arp.c and ip_send_one.  [Reply]: generic_work of dp/core/worker.c,
      udp_send of inc/ix/transmit.h, udp_output of dp/net/udp.c.
    - [Pbuf]: the packet buffers of lwIP (dp/lwip/pbuf.c, misc.c, inc/lwip/lwip/pbuf.h,
      memp.h).  [PbufOwn]: who owns them, and their allocation and release;
      [PbufLink]: joining, trimming and splitting; [PbufStep]: sequences of calls;
      [PbufData], [PbufSearch], [Packet]: copying, searching, and packets as strings of
      bytes.  [LwipChksum]: dp/lwip/inet_chksum.c.  [IpAddr]: dp/lwip/ip4_addr.c.
    - [Worker], [Networker]: dp/core/worker.c, networker.c.  [System], [Steps],
      [Boot], [Safety]: the cores and the network card as a step relation, start-up
      (dp/core/init.c), the invariant, and what follows for every execution.

    ** Theorems

    - The whole system: in every interleaving of the cores and the card no handler
      faults, no buffer or context is lost or held twice, and every packet a worker
      gets can be parsed.
    - Scheduling: the served queue is the one with the largest delay relative to
      its target, and a waiting request is always found.
    - Refinements: pools are stacks, also with many cores; task queues are FIFOs;
      lists are sequences; armed timers are a map; the ARP table is a finite map
      with timers; a transmit queue is a sequence that leaves in order, once; a
      context switch swaps two threads of control; operations on packets are
      operations on strings of bytes.
    - Packet buffers: in every sequence of calls by users that hold the references
      they give up, each call returns and no buffer is lost or released twice.
    - Preemption: a preempted request resumes with its registers, stack and
      floating-point control.
    - Behaviour: polling a ring, receiving a batch, deciding on a frame, parsing,
      answering a request, resolving an address, running timers on time, descriptors
      of a packet, page allocation and references, the checksums against RFC 1071,
      the texts accepted as addresses, searching in a packet.
    - Round trips: indices and addresses of pool elements, the halves of an
      argument, an ARP request and its reply, an address and its text, bytes put into
      a packet and taken out.
    - Errors: what happens when memory, buffers or descriptors run out, and inputs
      on which the code does something it does not mean to: a datagram freed twice,
      a batch that overflows or ends in panic, a timer behind its wheel, wrapped
      sizes, a failed mapping used as memory, a lock that is not released, a reply
      sent as a fragment.

    ** Assumptions and limits

    - A run of a worker between two context switches is one step; whether the
      request ended or was preempted is arbitrary.  A handler of the dispatcher, a
      turn of a worker and a part of the networker's loop are steps; the mailboxes'
      flags are written last, as in the code.
    - The network card may write any descriptors and frames at any time, but only
      into buffers of its rings.
    - mmap is a parameter with its documented behaviour: it fails, or maps the
      pages it was asked for.  Time is a parameter of each call that reads it.
    - The proofs about timers running on time are for delays of the first two
      wheels (about one second) and a start at a multiple of 16 us; without the
      latter a timer can run early.  The ARP refinement is for entries without
      waiting packets, which only TCP creates.
    - [udp_send] is modelled for data that crosses a page as well, the theorem about
      replies is for responses inside one page.

    ** Not modelled

    TCP (of lwIP the creation of its pools, too), the IX user library, system calls and the Dune sandbox, which the
    three cores do not run; DPDK, PCI and device registers, NUMA policy and signal
    handlers, which are hardware and operating system; parsing of the configuration file (libconfig); flow-group migration
    beyond what the timers do for it; statistics, logging and tear-down. *)

From stdpp Require Export base tactics option list gmap.
From Stdlib Require Export ZArith Lia.

(** ** Machine integers

    A [w]-bit C integer is a [Z] kept in range by an explicit reduction. *)

Declare Scope cint_scope.
Delimit Scope cint_scope with cint.

Definition U8_MOD : Z := 256.
Definition U16_MOD : Z := 65536.
Definition U32_MOD : Z := 4294967296.
Definition U64_MOD : Z := 18446744073709551616.

Definition u8 (x : Z) : Z := (x mod U8_MOD)%Z.
Definition u16 (x : Z) : Z := (x mod U16_MOD)%Z.
Definition u32 (x : Z) : Z := (x mod U32_MOD)%Z.
Definition u64 (x : Z) : Z := (x mod U64_MOD)%Z.

(** Conversion to a signed 32- or 64-bit integer, as gcc implements it: the
    representative of the residue class in the signed range. *)
Definition s32 (x : Z) : Z :=
  (let r := u32 x in if r <? 2147483648 then r else r - U32_MOD)%Z.
Definition s64 (x : Z) : Z :=
  (let r := u64 x in if r <? 9223372036854775808 then r else r - U64_MOD)%Z.

Notation "x '+u64' y" := (u64 (x + y)) (at level 50, left associativity) : cint_scope.
Notation "x '-u64' y" := (u64 (x - y)) (at level 50, left associativity) : cint_scope.
Notation "x '*u64' y" := (u64 (x * y)) (at level 40, left associativity) : cint_scope.

Create HintDb cint.
Create Rewrite HintDb cint.

Ltac unfold_cint :=
  unfold u8, u16, u32, u64, U8_MOD, U16_MOD, U32_MOD, U64_MOD in *.

Lemma u8_range x : (0 ≤ u8 x < 256)%Z.
Proof. unfold_cint. by apply Z.mod_pos_bound. Qed.
Lemma u16_range x : (0 ≤ u16 x < 65536)%Z.
Proof. unfold_cint. by apply Z.mod_pos_bound. Qed.
Lemma u32_range x : (0 ≤ u32 x < U32_MOD)%Z.
Proof. by apply Z.mod_pos_bound. Qed.
Lemma u64_range x : (0 ≤ u64 x < U64_MOD)%Z.
Proof. by apply Z.mod_pos_bound. Qed.

Lemma u8_small x : (0 ≤ x < 256)%Z → u8 x = x.
Proof. apply Z.mod_small. Qed.
Lemma u16_small x : (0 ≤ x < 65536)%Z → u16 x = x.
Proof. apply Z.mod_small. Qed.
Lemma u32_small x : (0 ≤ x < U32_MOD)%Z → u32 x = x.
Proof. apply Z.mod_small. Qed.
Lemma u64_small x : (0 ≤ x < U64_MOD)%Z → u64 x = x.
Proof. apply Z.mod_small. Qed.

Lemma u64_u64 x : u64 (u64 x) = u64 x.
Proof. apply u64_small, u64_range. Qed.

Lemma s32_small x : (- 2147483648 ≤ x < 2147483648)%Z → s32 x = x.
Proof.
  intros H. unfold s32. unfold_cint.
  destruct (Z.ltb_spec (x mod 4294967296) 2147483648)%Z; Z.div_mod_to_equations; lia.
Qed.

Lemma s64_small x :
  (- 9223372036854775808 ≤ x < 9223372036854775808)%Z → s64 x = x.
Proof.
  intros H. unfold s64. unfold_cint.
  destruct (Z.ltb_spec (x mod 18446744073709551616) 9223372036854775808)%Z;
    Z.div_mod_to_equations; lia.
Qed.

#[export] Hint Resolve u8_range u16_range u32_range u64_range : cint.
#[export] Hint Rewrite u64_u64 : cint.

(** ** Record updates

    [r <| f := v |>] is the C assignment [r->f = v] on a record value. *)

Class Settable (R : Type) := mkT : R → R.
Arguments mkT R mk : clear implicits, rename.

Class Setter {R E : Type} (proj : R → E) := set : (E → E) → R → R.
Arguments set {R E} proj {_}.

Ltac build_setter :=
  match goal with
  | |- @Setter ?R _ ?proj =>
      let eta := eval hnf in (@mkT R _) in
      match eta with context [proj] => idtac end;
      match eval pattern proj in eta with
      | ?setter _ =>
          let s := constr:(fun f => setter (fun r => f (proj r))) in
          let s := eval cbv beta in s in
          exact s
      end
  end.
#[export] Hint Extern 1 (Setter _) => build_setter : typeclass_instances.

Declare Scope record_set.
Delimit Scope record_set with rs.
Open Scope record_set.
Notation "x <| proj := v |>" := (set proj (fun _ => v) x)
  (at level 1, left associativity) : record_set.
Notation "x <| proj ::= f |>" := (set proj f x)
  (at level 1, left associativity) : record_set.

#[global] Arguments set : simpl never.

(** Reduce a projection of an updated record, one update at a time, so that a
    chain of updates is never expanded. *)
Ltac rstep_term p q i f r k :=
  let _ := constr:(_ : Setter p) in
  first [ k (p r) | let v := eval cbv beta in (f (p r)) in k v ].
Ltac rstep :=
  match goal with
  | |- context [?p (@set _ _ ?q ?i ?f ?r)] =>
      rstep_term p q i f r ltac:(fun v => change (p (@set _ _ q i f r)) with v)
  | H : context [?p (@set _ _ ?q ?i ?f ?r)] |- _ =>
      rstep_term p q i f r ltac:(fun v => change (p (@set _ _ q i f r)) with v in H)
  end.
Ltac rsimpl := simpl in *; repeat (rstep; simpl in *).

(** ** Fallible state passing

    A C function that changes a state [St] and returns an [A] is a function
    [St → option (A * St)]; [None] is an abnormal end (a failed [assert], a
    [panic], a NULL dereference, an access outside an array). *)

Definition ST (St A : Type) : Type := St → option (A * St).

#[export] Instance st_ret {St} : MRet (ST St) := λ A a s, Some (a, s).
#[export] Instance st_bind {St} : MBind (ST St) :=
  λ A B k c s, match c s with Some (a, s') => k a s' | None => None end.

Definition st_get {St} : ST St St := λ s, Some (s, s).
Definition st_mod {St} (f : St → St) : ST St unit := λ s, Some (tt, f s).
Definition st_fail {St A} : ST St A := λ _, None.
Definition st_lift {St A} (o : option A) : ST St A :=
  λ s, match o with Some a => Some (a, s) | None => None end.

(** Running the first of two computations. *)
Lemma st_run {St A B} (c : ST St A) (k : A → ST St B) s a s' : c s = Some (a, s') → (c ≫= k) s = k a s'.
Proof. intros E. unfold mbind, st_bind. by rewrite E. Qed.
Lemma st_bind_assoc {St A B D} (c : ST St A) (k : A → ST St B) (h : B → ST St D) s : ((c ≫= k) ≫= h) s = (c ≫= λ a, k a ≫= h) s.
Proof. unfold mbind, st_bind. by destruct (c s) as [[a s']|]. Qed.
Ltac st_run E := rewrite (st_run _ _ _ _ _ E); cbv beta.

(** The loop [for (i = i0; i < i0 + n; i++) body(i)]. *)
Fixpoint st_for {St} (n i0 : nat) (body : nat → ST St unit) : ST St unit :=
  match n with
  | O => mret ()
  | S n' => body i0 ≫= λ _, st_for n' (i0 + 1) body
  end.

Lemma st_for_inv {St} (P : nat → St → Prop) body n i0 s :
  P i0 s →
  (∀ i s, i0 ≤ i < i0 + n → P i s → ∃ s', body i s = Some (tt, s') ∧ P (i + 1) s') →
  ∃ s', st_for n i0 body s = Some (tt, s') ∧ P (i0 + n) s'.
Proof.
  revert i0 s. induction n as [|n IH]; intros i0 s HP Hb; simpl.
  - exists s. by rewrite Nat.add_0_r.
  - destruct (Hb i0 s) as (s1 & E1 & P1); [lia|done|].
    destruct (IH (i0 + 1) s1 P1) as (s2 & E2 & P2).
    { intros i s' Hi. apply Hb. lia. }
    exists s2. unfold mbind, st_bind. rewrite E1. split; [done|].
    by replace (i0 + S n) with (i0 + 1 + n) by lia.
Qed.

(** ** Lists *)

Lemma rev_concat_elem {A} (ls : list (list A)) x : x ∈ concat (rev ls) ↔ x ∈ concat ls.
Proof.
  induction ls as [|l ls IH]; simpl; [done|].
  rewrite concat_app. simpl. rewrite app_nil_r, !elem_of_app, IH. tauto.
Qed.

Lemma NoDup_app_sub {A} (l k k' : list A) : NoDup (l ++ k) → sublist k' k → NoDup (l ++ k').
Proof.
  intros H Hs. eapply sublist_NoDup; [exact H|]. by apply sublist_app.
Qed.

Lemma seq_prefix_sublist i n k : n ≤ k → sublist (seq i n) (seq i k).
Proof.
  intros H. replace k with (n + (k - n)) by lia. rewrite seq_app. by apply sublist_inserts_r.
Qed.

Lemma rev_concat_perm {A} (ls : list (list A)) : concat (rev ls) ≡ₚ concat ls.
Proof.
  induction ls as [|l ls IH]; simpl; [done|].
  rewrite concat_app. simpl. rewrite app_nil_r, IH. apply Permutation_app_comm.
Qed.

Lemma elem_of_list_concat_fmap {A B} (f : A → list B) (l : list A) x :
  x ∈ concat (f <$> l) ↔ ∃ a, a ∈ l ∧ x ∈ f a.
Proof.
  induction l as [|a l IH]; simpl; [set_solver|].
  rewrite elem_of_app, IH. set_solver.
Qed.

(** Replacing one element of a list changes only its part of a concatenation. *)
Lemma concat_fmap_insert {A B} (f : A → list B) (ls : list A) i a :
  ls !! i = Some a →
  ∃ rest, concat (f <$> ls) ≡ₚ f a ++ rest ∧
    (∀ a', concat (f <$> <[i := a']> ls) ≡ₚ f a' ++ rest) ∧
    (∀ j a2, j ≠ i → ls !! j = Some a2 → ∀ x, x ∈ f a2 → x ∈ rest).
Proof.
  intros Hi. exists (concat (f <$> take i ls) ++ concat (f <$> drop (S i) ls)).
  split_and!.
  - rewrite <-(take_drop_middle ls i a Hi) at 1. rewrite fmap_app, concat_app. simpl.
    rewrite !app_assoc. apply Permutation_app_tail, Permutation_app_comm.
  - intros a'. rewrite insert_take_drop by (by eapply lookup_lt_Some).
    rewrite fmap_app, concat_app. simpl. rewrite !app_assoc. apply Permutation_app_tail, Permutation_app_comm.
  - intros j a2 Hj Ha x Hx. rewrite <-concat_app, <-fmap_app.
    apply elem_of_list_concat_fmap. exists a2. split; [|done].
    rewrite elem_of_app. destruct (decide (j < i)).
    + left. apply list_elem_of_lookup. exists j. by rewrite lookup_take_lt.
    + right. apply list_elem_of_lookup. exists (j - S i). rewrite lookup_drop.
      by replace (S i + (j - S i)) with j by lia.
Qed.

(** Permutations of concatenations. *)
Ltac solve_Permutation :=
  repeat rewrite <-app_assoc; simpl;
  repeat match goal with
  | |- ?x ++ _ ≡ₚ ?x ++ _ => apply Permutation_app_head
  | |- ?x :: _ ≡ₚ ?x :: _ => apply Permutation_skip
  end;
  try solve [set_unfold; done | apply Permutation_app_comm | done];
  (let H := fresh in
   apply (Permutation_count_occ Z.eq_dec); intros H;
   repeat (progress (rewrite ?count_occ_app; simpl)); repeat case_match; lia).

(** Membership in concatenations. *)
Ltac in_app := rewrite ?elem_of_app in *; tauto.
