(* ===== verification/Heap.v ===== *)
(** * Shared store and linked structures

    The C code passes pointers to structs around and overlays one struct on
    another (a free pool element is a [struct mempool_hdr]; the same bytes hold
    a [struct mbuf_cell] or a [struct task] while the element is allocated).  The
    store therefore maps an object address and a byte offset in the object to
    the value of the field that starts there.  Fields of different structs that
    share an offset share the cell, as they share the bytes.  All fields of an
    object that overlap have the same offset and width (pointers and 64-bit
    words), so no access is partial.  Memory that was never written reads 0, as
    the anonymous mappings the pools live in do. *)

From S2P Require Import Prelude.
Local Open Scope Z_scope.

Abbreviation ptr := Z (only parsing).
Abbreviation NULL := 0 (only parsing).
Abbreviation heap := (gmap (Z * Z) Z).

Definition rd (m : heap) (p off : Z) : Z := default 0 (m !! (p, off)).

(** [*(p + off)] and [*(p + off) = v]; a NULL base faults. *)
Definition ld (m : heap) (p off : Z) : option Z :=
  if p =? NULL then None else Some (rd m p off).
Definition sto (m : heap) (p off v : Z) : option heap :=
  if p =? NULL then None else Some (<[(p, off) := v]> m).

Lemma rd_insert m p o v q o' :
  rd (<[(p, o) := v]> m) q o' = if decide ((p, o) = (q, o')) then v else rd m q o'.
Proof. unfold rd. rewrite lookup_insert. by case_decide. Qed.

Lemma rd_insert_eq m p o v : rd (<[(p, o) := v]> m) p o = v.
Proof. rewrite rd_insert. by rewrite decide_True. Qed.

Lemma rd_insert_ne m p o v q o' :
  p ≠ q ∨ o ≠ o' → rd (<[(p, o) := v]> m) q o' = rd m q o'.
Proof. intros H. rewrite rd_insert. rewrite decide_False; [done|]. naive_solver. Qed.

Lemma rd_insert_other m p o v q o' :
  ¬ (q = p ∧ o' = o) → rd (<[(p, o) := v]> m) q o' = rd m q o'.
Proof. intros H. rewrite rd_insert. rewrite decide_False; [done|]. naive_solver. Qed.

Lemma ld_some m p o : p ≠ NULL → ld m p o = Some (rd m p o).
Proof. intros H. unfold ld. by rewrite (proj2 (Z.eqb_neq _ _) H). Qed.

Lemma sto_some m p o v : p ≠ NULL → sto m p o v = Some (<[(p, o) := v]> m).
Proof. intros H. unfold sto. by rewrite (proj2 (Z.eqb_neq _ _) H). Qed.

(** Two heaps agree on the field [off] of the objects in [l]. *)
Definition agree_on (off : Z) (l : list ptr) (m m' : heap) : Prop :=
  ∀ x, x ∈ l → rd m' x off = rd m x off.

Lemma agree_on_insert_ne off l m p o v :
  p ∉ l ∨ o ≠ off → agree_on off l m (<[(p, o) := v]> m).
Proof.
  intros H x Hx. apply rd_insert_ne.
  destruct H as [H|H]; [left; by intros ->|by right].
Qed.

Lemma agree_on_trans off l m1 m2 m3 :
  agree_on off l m1 m2 → agree_on off l m2 m3 → agree_on off l m1 m3.
Proof. intros H1 H2 x Hx. by rewrite H2, H1. Qed.

(** The store is unchanged outside the objects in [X]. *)
Definition same_outside (X : list ptr) (m m' : heap) : Prop :=
  ∀ q off, q ∉ X → rd m' q off = rd m q off.

Lemma same_outside_refl X m : same_outside X m m.
Proof. done. Qed.

Lemma same_outside_trans X m1 m2 m3 :
  same_outside X m1 m2 → same_outside X m2 m3 → same_outside X m1 m3.
Proof. intros H1 H2 q off Hq. by rewrite H2, H1. Qed.

Lemma same_outside_weaken X Y m m' :
  same_outside X m m' → (∀ x, x ∈ X → x ∈ Y) → same_outside Y m m'.
Proof. intros H Hs q off Hq. apply H. auto. Qed.

Lemma same_outside_insert X m p o v : p ∈ X → same_outside X m (<[(p, o) := v]> m).
Proof. intros Hp q off Hq. apply rd_insert_ne. left. by intros ->. Qed.

Lemma same_outside_agree X m m' l off :
  same_outside X m m' → (∀ x, x ∈ l → x ∉ X) → agree_on off l m m'.
Proof. intros H Hd x Hx. apply H. auto. Qed.

#[export] Hint Resolve same_outside_refl : core.

(** ** Singly linked segments

    [lseg m off p l e]: following the field [off] from [p] visits the non-NULL
    objects [l] in order and arrives at [e]. *)
Fixpoint lseg (m : heap) (off p : Z) (l : list ptr) (e : Z) : Prop :=
  match l with
  | [] => p = e
  | x :: l' => p = x ∧ x ≠ NULL ∧ lseg m off (rd m x off) l' e
  end.

Abbreviation chain m off p l := (lseg m off p l NULL).

Lemma lseg_frame m m' off p l e :
  agree_on off l m m' → lseg m off p l e → lseg m' off p l e.
Proof.
  revert p. induction l as [|x l IH]; intros p Ha; simpl; [done|].
  intros (-> & Hx & Hl). split_and!; [done..|].
  rewrite Ha; [|apply elem_of_cons; by left].
  apply IH; [|done]. intros y Hy. apply Ha, elem_of_cons. by right.
Qed.

Lemma lseg_app m off p l1 l2 e :
  lseg m off p (l1 ++ l2) e ↔ ∃ q, lseg m off p l1 q ∧ lseg m off q l2 e.
Proof.
  revert p. induction l1 as [|x l1 IH]; intros p; simpl.
  - naive_solver.
  - setoid_rewrite IH. naive_solver.
Qed.

Lemma lseg_non_null m off p l e x : lseg m off p l e → x ∈ l → x ≠ NULL.
Proof.
  revert p. induction l as [|y l IH]; intros p Hl Hx; [by apply elem_of_nil in Hx|].
  destruct Hl as (_ & Hy & Hl). apply elem_of_cons in Hx as [->|Hx]; eauto.
Qed.

Lemma chain_head_null m off p l : chain m off p l → p = NULL ↔ l = [].
Proof. destruct l; simpl; naive_solver. Qed.

Lemma chain_inj m off p l1 l2 : chain m off p l1 → chain m off p l2 → l1 = l2.
Proof.
  revert p l2. induction l1 as [|x l1 IH]; intros p [|y l2]; simpl; [naive_solver..|].
  intros (-> & Hx & H1) (<- & _ & H2). f_equal. eauto.
Qed.

Lemma chain_cons_inv m off x l :
  chain m off x l → x ≠ NULL → ∃ l', l = x :: l' ∧ chain m off (rd m x off) l'.
Proof. destruct l; simpl; naive_solver. Qed.

(** Linking [x] after the last object of a segment. *)
Lemma lseg_snoc_store m off p l y x :
  lseg m off p (l ++ [y]) NULL → NoDup (l ++ [y]) → x ∉ l ++ [y] → x ≠ NULL →
  lseg (<[(x, off) := NULL]> (<[(y, off) := x]> m)) off p ((l ++ [y]) ++ [x]) NULL.
Proof.
  intros Hl Hnd Hx Hx0. apply NoDup_app in Hnd as (_ & Hd & _).
  apply lseg_app in Hl as (q & Hl & -> & Hy & Hq).
  rewrite <-app_assoc. apply lseg_app. exists y. split.
  - eapply lseg_frame, Hl. eapply agree_on_trans; apply agree_on_insert_ne; left.
    + intros Hy'. apply (Hd y Hy'). set_solver.
    + set_solver.
  - assert (x ≠ y) by set_solver. simpl.
    rewrite rd_insert_ne by auto. rewrite !rd_insert_eq. done.
Qed.

(** Linking an object whose link field is NULL already. *)
Lemma lseg_link_last m off p l y x :
  lseg m off p (l ++ [y]) NULL → NoDup (l ++ [y]) → x ∉ l ++ [y] → x ≠ NULL →
  rd m x off = NULL →
  lseg (<[(y, off) := x]> m) off p ((l ++ [y]) ++ [x]) NULL.
Proof.
  intros Hl Hnd Hx Hx0 Hr. eapply lseg_frame, lseg_snoc_store; [|done..].
  intros z Hz. rewrite !rd_insert. repeat case_decide; try done.
  - naive_solver set_solver.
  - simplify_eq. done.
Qed.

(** Two literal field offsets differ. *)
Ltac solve_off := solve [done | auto | vm_compute; congruence].

(** Run the loads and stores at the head of the goal, all through non-NULL pointers. *)
Ltac heap_step := repeat (first [rewrite sto_some by done | rewrite ld_some by done]; simpl).

(** The same without computing inside the program. *)
Ltac heap_step_head := repeat (first [rewrite sto_some by done | rewrite ld_some by done]; cbn [mbind option_bind]).
