(* ===== verification/LinkedList.v ===== *)
(** * Linked lists (inc/ix/list.h)

    The doubly linked circular lists with a head node, the singly linked lists,
    and the doubly linked lists with a single head pointer that the timer wheel
    and the ARP table use.  A node is an object of the shared store: [next] is
    its first word, [prev] the second, and a head lines up with a node. *)

From S2P Require Import Prelude Heap.
Local Open Scope Z_scope.

(** ** Circular lists *)

Definition LN_NEXT : Z := 0.
Definition LN_PREV : Z := 8.

Definition list_head_init (m : heap) (h : ptr) : option heap :=
  m ← sto m h LN_PREV h;
  sto m h LN_NEXT h.

Definition list_add (m : heap) (h n : ptr) : option heap :=
  x ← ld m h LN_NEXT;
  m ← sto m n LN_NEXT x;
  m ← sto m n LN_PREV h;
  x ← ld m h LN_NEXT;
  m ← sto m x LN_PREV n;
  sto m h LN_NEXT n.

Definition list_add_tail (m : heap) (h n : ptr) : option heap :=
  m ← sto m n LN_NEXT h;
  x ← ld m h LN_PREV;
  m ← sto m n LN_PREV x;
  x ← ld m h LN_PREV;
  m ← sto m x LN_NEXT n;
  sto m h LN_PREV n.

Definition list_empty (m : heap) (h : ptr) : option bool := x ← ld m h LN_NEXT; Some (x =? h).

Definition list_del (m : heap) (n : ptr) : option heap :=
  x ← ld m n LN_NEXT;
  y ← ld m n LN_PREV;
  m ← sto m x LN_PREV y;
  y ← ld m n LN_PREV;
  x ← ld m n LN_NEXT;
  sto m y LN_NEXT x.

Definition list_del_from (m : heap) (h n : ptr) : option heap := list_del m n.

(** The entry that contains a node at offset [off]. *)
Definition list_node_to_off (node off : Z) : ptr := node - off.
Definition list_node_from_off (p off : Z) : ptr := p + off.

Definition list_top (m : heap) (h off : Z) : option ptr :=
  e ← list_empty m h;
  if e : bool then Some NULL else x ← ld m h LN_NEXT; Some (list_node_to_off x off).

Definition list_pop (m : heap) (h off : Z) : option (ptr * heap) :=
  e ← list_empty m h;
  if e : bool then Some (NULL, m) else
  n ← ld m h LN_NEXT;
  m ← list_del m n;
  Some (list_node_to_off n off, m).

Definition list_tail (m : heap) (h off : Z) : option ptr :=
  e ← list_empty m h;
  if e : bool then Some NULL else x ← ld m h LN_PREV; Some (list_node_to_off x off).

Definition list_entry_or_null (h n off : Z) : ptr := if n =? h then NULL else list_node_to_off n off.
Definition list_next (m : heap) (h i off : Z) : option ptr :=
  x ← ld m (list_node_from_off i off) LN_NEXT; Some (list_entry_or_null h x off).
Definition list_prev (m : heap) (h i off : Z) : option ptr :=
  x ← ld m (list_node_from_off i off) LN_PREV; Some (list_entry_or_null h x off).

(** The entries [list_for_each] and [list_for_each_rev] visit, in order; [None]
    when the fuel does not suffice. *)
Fixpoint list_walk (fuel : nat) (m : heap) (link h x off : Z) : option (list ptr) :=
  match fuel with
  | O => None
  | S fuel' =>
      if x =? h then Some [] else
      y ← ld m x link;
      l ← list_walk fuel' m link h y off;
      Some (list_node_to_off x off :: l)
  end.
Definition list_for_each (fuel : nat) (m : heap) (h off : Z) : option (list ptr) :=
  x ← ld m h LN_NEXT; list_walk fuel m LN_NEXT h x off.
Definition list_for_each_rev (fuel : nat) (m : heap) (h off : Z) : option (list ptr) :=
  x ← ld m h LN_PREV; list_walk fuel m LN_PREV h x off.

Definition list_append_list (m : heap) (to from : ptr) : option heap :=
  from_tail ← ld m from LN_PREV;
  to_tail ← ld m to LN_PREV;
  m ← sto m to LN_PREV from_tail;
  m ← sto m from_tail LN_NEXT to;
  m ← sto m to_tail LN_NEXT from;
  m ← sto m from LN_PREV to_tail;
  m ← list_del m from;
  list_head_init m from.

Definition list_prepend_list (m : heap) (to from : ptr) : option heap :=
  from_tail ← ld m from LN_PREV;
  to_head ← ld m to LN_NEXT;
  m ← sto m to LN_NEXT from;
  m ← sto m from LN_PREV to;
  m ← sto m to_head LN_PREV from_tail;
  m ← sto m from_tail LN_NEXT to_head;
  m ← list_del m from;
  list_head_init m from.

(** ** Singly linked lists *)

Definition SL_NEXT : Z := 0.
Definition slist_init_head (m : heap) (h : ptr) : option heap := sto m h SL_NEXT NULL.
Definition slist_add_head (m : heap) (h n : ptr) : option heap :=
  x ← ld m h SL_NEXT; m ← sto m n SL_NEXT x; sto m h SL_NEXT n.
Definition slist_del_head (m : heap) (h : ptr) : option heap :=
  x ← ld m h SL_NEXT; y ← ld m x SL_NEXT; sto m h SL_NEXT y.
Definition slist_del (m : heap) (prev n : ptr) : option heap := x ← ld m n SL_NEXT; sto m prev SL_NEXT x.
Definition slist_empty (m : heap) (h : ptr) : option bool := x ← ld m h SL_NEXT; Some (x =? NULL).

(** ** Lists with a single head pointer *)

Definition hlist_init_head (m : heap) (h : ptr) : option heap := sto m h LN_NEXT NULL.

Definition hlist_add_head (m : heap) (h n : ptr) : option heap :=
  x ← ld m h LN_NEXT;
  m ← sto m n LN_NEXT x;
  m ← sto m n LN_PREV h;
  x ← ld m n LN_NEXT;
  m ← (if x =? NULL then Some m else sto m x LN_PREV n);
  sto m h LN_NEXT n.

Definition hlist_del_head (m : heap) (h : ptr) : option heap :=
  x ← ld m h LN_NEXT;
  y ← ld m x LN_NEXT;
  m ← sto m h LN_NEXT y;
  y ← ld m h LN_NEXT;
  if y =? NULL then Some m else sto m y LN_PREV h.

Definition hlist_del (m : heap) (n : ptr) : option heap :=
  y ← ld m n LN_PREV;
  x ← ld m n LN_NEXT;
  m ← sto m y LN_NEXT x;
  x ← ld m n LN_NEXT;
  y ← ld m n LN_PREV;
  if x =? NULL then Some m else sto m x LN_PREV y.

Definition hlist_empty (m : heap) (h : ptr) : option bool := x ← ld m h LN_NEXT; Some (x =? NULL).

(** [hlist_for_each_safe]: the body may change the store; the next node is read
    before it runs. *)
Section for_each.
Context {S : Type} (mem : S → heap) (body : ptr → S → option S).

Fixpoint hlist_loop (fuel : nat) (pos : ptr) (s : S) : option S :=
  if pos =? NULL then Some s else
  match fuel with
  | O => None
  | Datatypes.S fuel' => tmp ← ld (mem s) pos LN_NEXT; s ← body pos s; hlist_loop fuel' tmp s
  end.
Definition hlist_for_each_safe (fuel : nat) (h : ptr) (s : S) : option S :=
  x ← ld (mem s) h LN_NEXT; hlist_loop fuel x s.
End for_each.

(** ** Representation *)

(** [a] is followed by [b]; the end of an hlist is NULL and has no back link. *)
Definition dlink (m : heap) (a b : ptr) : Prop := rd m a LN_NEXT = b ∧ (b ≠ NULL → rd m b LN_PREV = a).

(** The nodes [l] behind the head [h], up to [e]: the head itself for a circular
    list, NULL for an hlist. *)
Record dlist (m : heap) (h : ptr) (l : list ptr) (e : ptr) : Prop := {
  dl_nodup : NoDup (h :: l);
  dl_nonnull : NULL ∉ h :: l;
  dl_end : e ∉ l;
  dl_links : Forall2 (dlink m) (h :: l) (l ++ [e]);
}.
Abbreviation list_rep m h l := (dlist m h l h).
Abbreviation hlist_rep m h l := (dlist m h l NULL).

(** Cutting the list behind [l1]: [p] precedes the cut and [s] follows it. *)
Lemma dlist_cut m h l1 l2 e p s :
  dlist m h (l1 ++ l2) e → last (h :: l1) = Some p → head (l2 ++ [e]) = Some s →
  ∃ a b, h :: l1 = a ++ [p] ∧ l2 ++ [e] = s :: b ∧
    Forall2 (dlink m) a l1 ∧ dlink m p s ∧ Forall2 (dlink m) l2 b.
Proof.
  intros [_ _ _ Hl] Hp Hs. apply last_Some in Hp as [a Ha]. exists a. destruct (l2 ++ [e]) as [|s' b] eqn:Eb; [done|].
  injection Hs as ->. exists b. split; [done|]. split; [done|].
  change (h :: l1 ++ l2) with ((h :: l1) ++ l2) in Hl. rewrite Ha, <-!app_assoc, Eb in Hl. simpl in Hl.
  assert (length a = length l1) by (apply (f_equal length) in Ha; rewrite length_app in Ha; simpl in Ha; lia).
  apply Forall2_app_inv in Hl as [Hl1 Hl2]; [|done]. inversion Hl2; subst. done.
Qed.

Lemma dlink_frame m m' a b :
  rd m' a LN_NEXT = rd m a LN_NEXT → (b ≠ NULL → rd m' b LN_PREV = rd m b LN_PREV) → dlink m a b → dlink m' a b.
Proof. intros H1 H2 [H3 H4]. split; [congruence|]. intros Hb. rewrite H2, H4; done. Qed.

Lemma dlinks_frame m m' la lb :
  (∀ x, x ∈ la → rd m' x LN_NEXT = rd m x LN_NEXT) → (∀ x, x ∈ lb → x ≠ NULL → rd m' x LN_PREV = rd m x LN_PREV) →
  Forall2 (dlink m) la lb → Forall2 (dlink m') la lb.
Proof.
  intros Ha Hb HF. induction HF as [|x y la lb Hxy _ IH]; [done|]. constructor.
  - eapply dlink_frame; [apply Ha; set_solver|intros; apply Hb; set_solver|done].
  - apply IH; intros; [apply Ha|apply Hb]; set_solver.
Qed.

Lemma dlist_frame m m' h l e :
  (∀ x, x ∈ h :: l → rd m' x LN_NEXT = rd m x LN_NEXT) → (∀ x, x ∈ l ++ [e] → x ≠ NULL → rd m' x LN_PREV = rd m x LN_PREV) →
  dlist m h l e → dlist m' h l e.
Proof. intros Ha Hb [H1 H2 H3 H4]. split; [done..|]. by eapply dlinks_frame. Qed.

(** Linking [n] into the cut. *)
Lemma dlist_insert m m' h l1 l2 e n p s :
  dlist m h (l1 ++ l2) e → last (h :: l1) = Some p → head (l2 ++ [e]) = Some s →
  n ∉ h :: l1 ++ l2 → n ≠ NULL → n ≠ e →
  rd m' n LN_NEXT = s → rd m' n LN_PREV = p → rd m' p LN_NEXT = n → (s ≠ NULL → rd m' s LN_PREV = n) →
  (∀ x, x ≠ n → x ≠ p → rd m' x LN_NEXT = rd m x LN_NEXT) → (∀ x, x ≠ n → x ≠ s → rd m' x LN_PREV = rd m x LN_PREV) →
  dlist m' h (l1 ++ n :: l2) e.
Proof.
  intros Hd Hp Hs Hn Hn0 Hne E1 E2 E3 E4 Hfn Hfp.
  destruct (dlist_cut m h l1 l2 e p s Hd Hp Hs) as (a & b & Ea & Eb & Ha & Hps & Hb). destruct Hd as [Hnd Hnn He _].
  change (h :: l1 ++ l2) with ((h :: l1) ++ l2) in *. rewrite Ea in *.
  assert (NoDup (a ++ [p] ++ l2)) as Hnd' by (by rewrite app_assoc).
  assert (NoDup (l1 ++ s :: b)) as Hnd2.
  { rewrite <-Eb, app_assoc. apply NoDup_app. split_and!.
    - change ((h :: l1) ++ l2) with (h :: l1 ++ l2) in *. rewrite <-Ea in Hnd. by apply NoDup_cons in Hnd as [_ ?].
    - intros x Hx ->%list_elem_of_singleton. done.
    - apply NoDup_singleton. }
  split.
  - change (h :: l1 ++ n :: l2) with ((h :: l1) ++ n :: l2). rewrite Ea.
    rewrite <-Permutation_middle. by apply NoDup_cons.
  - change (h :: l1 ++ n :: l2) with ((h :: l1) ++ n :: l2). rewrite Ea. set_solver.
  - set_solver.
  - change (h :: l1 ++ n :: l2) with ((h :: l1) ++ n :: l2). rewrite Ea, <-!app_assoc. cbn [app]. rewrite Eb.
    rewrite NoDup_app in Hnd', Hnd2. destruct Hnd' as (_ & Hd1 & Hd2), Hnd2 as (_ & Hd3 & Hd4).
    apply NoDup_cons in Hd2 as [Hd2 _]. apply NoDup_cons in Hd4 as [Hd4 _].
    assert (n ∉ a ∧ n ∉ l2 ∧ n ≠ p) as (Hna & Hnl2 & Hnp) by set_solver.
    assert (n ∉ l1) as Hnl1.
    { intros Hx. apply Hn. rewrite <-Ea. set_solver. }
    assert (n ∉ b) as Hnb.
    { intros Hx. assert (n ∈ l2 ++ [e]) as Hy by (rewrite Eb; set_solver). set_solver. }
    assert (n ≠ s) as Hns by (intros ->; assert (s ∈ l2 ++ [e]) by (rewrite Eb; set_solver); set_solver).
    apply Forall2_app; [|constructor; [|constructor]].
    + eapply dlinks_frame; [| |exact Ha]; intros x Hx; [|intros _].
      * apply Hfn; [set_solver|]. intros ->. apply (Hd1 p Hx). set_solver.
      * apply Hfp; [set_solver|]. intros ->. apply (Hd3 s Hx). set_solver.
    + by split.
    + by split.
    + eapply dlinks_frame; [| |exact Hb]; intros x Hx; [|intros _].
      * apply Hfn; [set_solver|]. by intros ->.
      * apply Hfp; [set_solver|]. by intros ->.
Qed.

(** Unlinking [n]. *)
Lemma dlist_remove m m' h l1 l2 e n p s :
  dlist m h (l1 ++ n :: l2) e → last (h :: l1) = Some p → head (l2 ++ [e]) = Some s →
  rd m' p LN_NEXT = s → (s ≠ NULL → rd m' s LN_PREV = p) →
  (∀ x, x ≠ p → rd m' x LN_NEXT = rd m x LN_NEXT) → (∀ x, x ≠ s → rd m' x LN_PREV = rd m x LN_PREV) →
  dlist m' h (l1 ++ l2) e.
Proof.
  intros Hd Hp Hs E1 E2 Hfn Hfp.
  destruct (dlist_cut m h l1 (n :: l2) e p n Hd Hp) as (a & b & Ea & Eb & Ha & _ & Hb); [done|].
  injection Eb as Eb. destruct (l2 ++ [e]) as [|s' b'] eqn:Eb'; [done|]. injection Hs as ->. subst b. apply Forall2_cons in Hb as [_ Hb2].
  destruct Hd as [Hnd Hnn He _].
  assert (NoDup (l1 ++ l2)) as Hl12.
  { apply NoDup_cons in Hnd as [_ Hnd]. rewrite <-Permutation_middle in Hnd. by apply NoDup_cons in Hnd as [_ ?]. }
  change (h :: l1 ++ n :: l2) with ((h :: l1) ++ n :: l2) in *. rewrite Ea in *.
  assert (NoDup (a ++ [p] ++ n :: l2)) as Hnd' by (by rewrite app_assoc).
  assert (NoDup (l1 ++ s :: b')) as Hnd2.
  { rewrite <-Eb', app_assoc. apply NoDup_app. split_and!.
    - done.
    - intros x Hx ->%list_elem_of_singleton. set_solver.
    - apply NoDup_singleton. }
  split.
  - change (h :: l1 ++ l2) with ((h :: l1) ++ l2). rewrite Ea. rewrite <-Permutation_middle in Hnd. by apply NoDup_cons in Hnd as [_ ?].
  - change (h :: l1 ++ l2) with ((h :: l1) ++ l2). rewrite Ea. set_solver.
  - set_solver.
  - change (h :: l1 ++ l2) with ((h :: l1) ++ l2). rewrite Ea, <-!app_assoc. cbn [app]. rewrite Eb'.
    rewrite NoDup_app in Hnd', Hnd2. destruct Hnd' as (_ & Hd1 & Hd2), Hnd2 as (_ & Hd3 & Hd4).
    apply NoDup_cons in Hd2 as [Hd2 _]. apply NoDup_cons in Hd4 as [Hd4 _].
    apply Forall2_app; [|constructor].
    + eapply dlinks_frame; [| |exact Ha]; intros x Hx; [|intros _].
      * apply Hfn. intros ->. apply (Hd1 p Hx). set_solver.
      * apply Hfp. intros ->. apply (Hd3 s Hx). set_solver.
    + by split.
    + eapply dlinks_frame; [| |exact Hb2]; intros x Hx; [|intros _].
      * apply Hfn. intros ->. set_solver.
      * apply Hfp. by intros ->.
Qed.

(** ** Operations *)

Lemma last_cons_some {A} (x : A) l : ∃ p, last (x :: l) = Some p ∧ p ∈ x :: l.
Proof.
  destruct (last (x :: l)) as [p|] eqn:E; [|by apply last_None in E].
  exists p. split; [done|]. apply last_Some in E as [l' ->]. set_solver.
Qed.

Lemma head_snoc_some {A} (l : list A) x : ∃ s, head (l ++ [x]) = Some s ∧ (s = x ∨ s ∈ l).
Proof. destruct l as [|y l]; [by exists x; split; [|left]|]. exists y. split; [done|]. right. set_solver. Qed.

Lemma dlist_nonnull m h l e x : dlist m h l e → x = h ∨ x ∈ l → x ≠ NULL.
Proof. intros Hl Hx ->. apply (dl_nonnull _ _ _ _ Hl), elem_of_cons. naive_solver. Qed.

(** The neighbours of a node, as the links have them. *)
Lemma dlist_links m h l1 l2 e p s :
  dlist m h (l1 ++ l2) e → last (h :: l1) = Some p → head (l2 ++ [e]) = Some s →
  p ∈ h :: l1 ∧ p ≠ NULL ∧ rd m p LN_NEXT = s ∧ (s ≠ NULL → rd m s LN_PREV = p).
Proof.
  intros Hd Hp Hs. destruct (dlist_cut m h l1 l2 e p s Hd Hp Hs) as (a & b & Ea & _ & _ & [H1 H2] & _).
  assert (p ∈ h :: l1) as Hin by (rewrite Ea; set_solver). split; [done|]. split; [|done].
  intros ->. apply (dl_nonnull _ _ _ _ Hd). set_solver.
Qed.

(** Looking a field up after a sequence of stores. *)
Ltac heap_cases :=
  repeat first
    [ rewrite rd_insert_eq
    | rewrite rd_insert_ne by (first [right; discriminate | left; congruence])
    | rewrite rd_insert; case_decide; simplify_eq/= ];
  try done; try congruence.

Ltac heap_dec := intros; rewrite ?rd_insert; repeat case_decide; simplify_eq/=; try done; naive_solver.

Section circular.
Context (m : heap) (h : ptr).

Lemma list_head_init_ok : h ≠ NULL → ∃ m', list_head_init m h = Some m' ∧ list_rep m' h [] ∧ same_outside [h] m m'.
Proof.
  intros Hh. unfold list_head_init. heap_step. eexists. split; [done|]. split.
  - split; [apply NoDup_singleton|set_solver|apply not_elem_of_nil|]. repeat constructor; by heap_cases.
  - eapply same_outside_trans; apply same_outside_insert; set_solver.
Qed.

Lemma list_add_ok l n : list_rep m h l → n ∉ h :: l → n ≠ NULL →
  ∃ m', list_add m h n = Some m' ∧ list_rep m' h (n :: l) ∧ same_outside (n :: h :: l) m m'.
Proof.
  intros Hl Hn Hn0. destruct (head_snoc_some l h) as (s & Hs & Hsl).
  destruct (dlist_links m h [] l h h s Hl eq_refl Hs) as (_ & Hh & E1 & E2).
  assert (s ≠ NULL) as Hs0 by (by eapply dlist_nonnull). rewrite elem_of_cons in Hn.
  assert (n ≠ h ∧ n ≠ s) as [Hnh Hns] by naive_solver.
  unfold list_add. rewrite (ld_some m h) by done. cbn [mbind option_bind]. rewrite E1, !sto_some by done. cbn [mbind option_bind].
  rewrite sto_some by done. cbn [mbind option_bind]. rewrite ld_some by done. cbn [mbind option_bind].
  assert (rd (<[(n, LN_PREV):=h]> (<[(n, LN_NEXT):=s]> m)) h LN_NEXT = s) as -> by heap_cases.
  rewrite sto_some by done. cbn [mbind option_bind]. rewrite sto_some by done. eexists. split; [done|]. split.
  - eapply (dlist_insert m _ h [] l h n h s); try done; try (intros; heap_cases); set_solver.
  - do 3 (eapply same_outside_trans; [|apply same_outside_insert; set_solver]). apply same_outside_insert. set_solver.
Qed.

Lemma list_add_tail_ok l n : list_rep m h l → n ∉ h :: l → n ≠ NULL →
  ∃ m', list_add_tail m h n = Some m' ∧ list_rep m' h (l ++ [n]) ∧ same_outside (n :: h :: l) m m'.
Proof.
  intros Hl Hn Hn0. destruct (last_cons_some h l) as (p & Hp & Hpl). rewrite <-(app_nil_r l) in Hl.
  destruct (dlist_links m h l [] h p h Hl Hp eq_refl) as (_ & Hp0 & E1 & E2).
  assert (h ≠ NULL) as Hh by (pose proof (dl_nonnull _ _ _ _ Hl); set_solver). specialize (E2 Hh).
  assert (n ≠ h ∧ n ≠ p) as [Hnh Hnp] by set_solver.
  unfold list_add_tail. rewrite sto_some by done. cbn [mbind option_bind]. rewrite ld_some by done. cbn [mbind option_bind].
  assert (rd (<[(n, LN_NEXT):=h]> m) h LN_PREV = p) as -> by heap_cases.
  rewrite sto_some by done. cbn [mbind option_bind]. rewrite ld_some by done. cbn [mbind option_bind].
  assert (rd (<[(n, LN_PREV):=p]> (<[(n, LN_NEXT):=h]> m)) h LN_PREV = p) as -> by heap_cases.
  rewrite sto_some by done. cbn [mbind option_bind]. rewrite sto_some by done. eexists. split; [done|]. split.
  - eapply (dlist_insert m _ h l [] h n p h); try done; try (intros; heap_cases). by rewrite app_nil_r.
  - do 3 (eapply same_outside_trans; [|apply same_outside_insert; set_solver]). apply same_outside_insert. set_solver.
Qed.

Lemma list_del_ok l1 l2 n : list_rep m h (l1 ++ n :: l2) →
  ∃ m', list_del m n = Some m' ∧ list_rep m' h (l1 ++ l2) ∧ same_outside (h :: l1 ++ l2) m m'.
Proof.
  intros Hl. destruct (last_cons_some h l1) as (p & Hp & Hpl). destruct (head_snoc_some l2 h) as (s & Hs & Hsl).
  destruct (dlist_links m h l1 (n :: l2) h p n Hl Hp eq_refl) as (_ & Hp0 & E1 & E2).
  assert (NoDup (h :: l1 ++ n :: l2)) as Hnd by apply (dl_nodup _ _ _ _ Hl).
  assert (n ≠ NULL) as Hn0 by (eapply dlist_nonnull; [done|right; apply elem_of_app; right; apply elem_of_cons; by left]).
  specialize (E2 Hn0).
  assert (list_rep m h ((l1 ++ [n]) ++ l2)) as Hl' by (by rewrite <-app_assoc).
  destruct (dlist_links m h (l1 ++ [n]) l2 h n s Hl') as (_ & _ & E3 & E4); [by rewrite app_comm_cons, last_snoc|done|].
  assert (s ≠ NULL) as Hs0 by (apply (dlist_nonnull m h _ h s Hl); rewrite elem_of_app, elem_of_cons; tauto).
  assert (n ∉ h :: l1 ++ l2) as Hn.
  { rewrite app_comm_cons, <-Permutation_middle in Hnd. by apply NoDup_cons in Hnd as [? _]. }
  rewrite !elem_of_cons, elem_of_app in *. assert (n ≠ p ∧ n ≠ s) as [Hnp Hns] by (split; intros <-; tauto).
  unfold list_del. rewrite !ld_some by done. cbn [mbind option_bind]. rewrite E2, E3. cbn [mbind option_bind].
  rewrite sto_some by done. cbn [mbind option_bind]. rewrite !ld_some by done. cbn [mbind option_bind].
  assert (rd (<[(s, LN_PREV):=p]> m) n LN_PREV = p) as -> by heap_cases.
  assert (rd (<[(s, LN_PREV):=p]> m) n LN_NEXT = s) as -> by heap_cases.
  rewrite sto_some by done. eexists. split; [done|]. split.
  - eapply (dlist_remove m _ h l1 l2 h n p s); try done; try (intros; heap_cases).
  - eapply same_outside_trans; apply same_outside_insert; set_solver.
Qed.

Lemma list_empty_ok l : list_rep m h l → list_empty m h = Some (bool_decide (l = [])).
Proof.
  intros Hl. destruct (head_snoc_some l h) as (s & Hs & Hsl).
  destruct (dlist_links m h [] l h h s Hl eq_refl Hs) as (_ & Hh & E1 & _).
  unfold list_empty. rewrite ld_some by done. cbn [mbind option_bind]. rewrite E1. f_equal.
  destruct l as [|x l]; injection Hs as <-; [by rewrite Z.eqb_refl|]. rewrite bool_decide_false by done.
  apply Z.eqb_neq. intros ->. apply (dl_end _ _ _ _ Hl). set_solver.
Qed.

Lemma list_pop_ok l off : list_rep m h l →
  ∃ m', list_pop m h off = Some (match l with [] => NULL | x :: _ => list_node_to_off x off end, m') ∧ list_rep m' h (tail l) ∧
    same_outside (h :: l) m m'.
Proof.
  intros Hl. unfold list_pop. rewrite (list_empty_ok l Hl). cbn [mbind option_bind]. destruct l as [|x l].
  { exists m. by rewrite bool_decide_true. }
  rewrite bool_decide_false by done.
  destruct (dlist_links m h [] (x :: l) h h x Hl eq_refl eq_refl) as (_ & Hh & E1 & _).
  rewrite ld_some, E1 by done. cbn [mbind option_bind]. destruct (list_del_ok [] l x Hl) as (m' & -> & Hl' & Hs).
  cbn [mbind option_bind]. exists m'. split; [done|]. split; [done|]. eapply same_outside_weaken; [done|]. set_solver.
Qed.
End circular.

(** ** Traversal *)

Lemma list_walk_next m h off l2 : ∀ l1 s fuel,
  list_rep m h (l1 ++ l2) → head (l2 ++ [h]) = Some s → (length l2 < fuel)%nat →
  list_walk fuel m LN_NEXT h s off = Some ((λ x, list_node_to_off x off) <$> l2).
Proof.
  induction l2 as [|x l2 IH]; intros l1 s [|fuel] Hl Hs Hf; simpl in Hf; try lia; cbn [list_walk].
  - injection Hs as <-. by rewrite Z.eqb_refl.
  - injection Hs as <-. assert (x ∈ l1 ++ x :: l2) as Hx by (apply elem_of_app; right; apply elem_of_cons; by left).
    rewrite (proj2 (Z.eqb_neq _ _)) by (intros ->; by apply (dl_end _ _ _ _ Hl)).
    rewrite ld_some by (eapply dlist_nonnull; [done|by right]). cbn [mbind option_bind].
    assert (list_rep m h ((l1 ++ [x]) ++ l2)) as Hl' by (by rewrite <-app_assoc).
    destruct (head_snoc_some l2 h) as (s & Hs & _).
    destruct (dlist_links m h (l1 ++ [x]) l2 h x s Hl') as (_ & _ & -> & _); [by rewrite app_comm_cons, last_snoc|done|].
    rewrite (IH (l1 ++ [x]) s fuel Hl' Hs) by lia. done.
Qed.

Lemma list_walk_prev m h off l1 : ∀ l2 p fuel,
  list_rep m h (l1 ++ l2) → last (h :: l1) = Some p → (length l1 < fuel)%nat →
  list_walk fuel m LN_PREV h p off = Some ((λ x, list_node_to_off x off) <$> rev l1).
Proof.
  induction l1 as [|x l1 IH] using rev_ind; intros l2 p [|fuel] Hl Hp Hf; rewrite ?length_app in Hf; simpl in Hf; try lia; cbn [list_walk].
  - injection Hp as <-. by rewrite Z.eqb_refl.
  - rewrite app_comm_cons, last_snoc in Hp. injection Hp as <-. rewrite <-app_assoc in Hl. simpl in Hl.
    assert (x ∈ l1 ++ x :: l2) as Hx by (apply elem_of_app; right; apply elem_of_cons; by left).
    rewrite (proj2 (Z.eqb_neq _ _)) by (intros ->; by apply (dl_end _ _ _ _ Hl)).
    assert (x ≠ NULL) as Hx0 by (eapply dlist_nonnull; [done|by right]). rewrite ld_some by done. cbn [mbind option_bind].
    destruct (last_cons_some h l1) as (p & Hp & _).
    destruct (dlist_links m h l1 (x :: l2) h p x Hl Hp eq_refl) as (_ & _ & _ & E). rewrite (E Hx0).
    rewrite (IH (x :: l2) p fuel Hl Hp) by lia. cbn [mbind option_bind]. by rewrite rev_app_distr.
Qed.

Lemma list_for_each_ok m h l off fuel : list_rep m h l → (length l < fuel)%nat →
  list_for_each fuel m h off = Some ((λ x, list_node_to_off x off) <$> l) ∧
  list_for_each_rev fuel m h off = Some ((λ x, list_node_to_off x off) <$> rev l).
Proof.
  intros Hl Hf. assert (h ≠ NULL) as Hh by (eapply dlist_nonnull; [done|by left]).
  unfold list_for_each, list_for_each_rev. rewrite !ld_some by done. cbn [mbind option_bind]. split.
  - destruct (head_snoc_some l h) as (s & Hs & _).
    destruct (dlist_links m h [] l h h s Hl eq_refl Hs) as (_ & _ & -> & _). by apply (list_walk_next m h off l []).
  - destruct (last_cons_some h l) as (p & Hp & _). rewrite <-(app_nil_r l) in Hl.
    destruct (dlist_links m h l [] h p h Hl Hp eq_refl) as (_ & _ & _ & E). rewrite (E Hh). by apply (list_walk_prev m h off l []).
Qed.

(** ** Joining two lists *)

(** A list whose links are in place. *)
Lemma dlist_links_intro m h l e a p :
  NoDup (h :: l) → NULL ∉ h :: l → e ∉ l → h :: l = a ++ [p] → Forall2 (dlink m) a l → dlink m p e → dlist m h l e.
Proof. intros H1 H2 H3 Ha H4 H5. split; [done..|]. rewrite Ha. apply Forall2_app; [done|]. by constructor. Qed.

Lemma dlist_links_elim m h l e : dlist m h l e →
  ∃ a p, last (h :: l) = Some p ∧ h :: l = a ++ [p] ∧ Forall2 (dlink m) a l ∧ dlink m p e.
Proof.
  intros Hd. destruct (last_cons_some h l) as (p & Hp & _). rewrite <-(app_nil_r l) in Hd.
  destruct (dlist_cut m h l [] e p e Hd Hp eq_refl) as (a & b & Ha & _ & H1 & H2 & _). by exists a, p.
Qed.

(** The links inside the two lists do not change when their ends are sewn. *)
Lemma inner_links m m' h l a p e :
  dlist m h l e → h :: l = a ++ [p] → Forall2 (dlink m) a l →
  (∀ x, x ∈ h :: l → x ≠ p → rd m' x LN_NEXT = rd m x LN_NEXT) → (∀ x, x ∈ l → rd m' x LN_PREV = rd m x LN_PREV) →
  Forall2 (dlink m') a l.
Proof.
  intros Hd Ha HF Hn Hp. eapply dlinks_frame; [| |exact HF].
  - intros x Hx. apply Hn; [rewrite Ha; apply elem_of_app; by left|]. intros ->.
    pose proof (dl_nodup _ _ _ _ Hd) as Hnd. rewrite Ha in Hnd. apply NoDup_app in Hnd as (_ & Hnd & _).
    apply (Hnd p Hx), list_elem_of_singleton. done.
  - intros x Hx _. by apply Hp.
Qed.

Section join.
Context (m : heap) (to from : ptr) (lt lf : list ptr).
Context (Hto : list_rep m to lt) (Hfrom : list_rep m from lf).
Context (Hdisj : ∀ x, x ∈ to :: lt → x ∉ from :: lf).

Lemma sewn_nodup l : l ≡ₚ lt ++ from :: lf → NoDup (to :: l) ∧ NULL ∉ to :: l ∧ to ∉ l.
Proof.
  intros ->. pose proof (dl_nodup _ _ _ _ Hto) as Hn1. pose proof (dl_nodup _ _ _ _ Hfrom) as Hn2.
  assert (NoDup (to :: lt ++ from :: lf)) as Hnd by (rewrite app_comm_cons; by apply NoDup_app).
  split; [done|]. split; [|by apply NoDup_cons in Hnd as [? _]].
  pose proof (dl_nonnull _ _ _ _ Hto) as H1. pose proof (dl_nonnull _ _ _ _ Hfrom) as H2.
  rewrite elem_of_cons, elem_of_app in *. rewrite elem_of_cons in *. tauto.
Qed.

Lemma list_append_list_ok :
  ∃ m', list_append_list m to from = Some m' ∧ list_rep m' to (lt ++ lf) ∧ list_rep m' from [].
Proof.
  destruct (dlist_links_elim _ _ _ _ Hto) as (a & pt & Hpt & Ea & Ha & Ht1 & Ht2).
  destruct (dlist_links_elim _ _ _ _ Hfrom) as (c & pf & Hpf & Ec & Hc & Hf1 & Hf2).
  assert (to ≠ NULL) as H0 by (apply (dlist_nonnull _ _ _ _ _ Hto); by left). specialize (Ht2 H0).
  assert (from ≠ NULL) as H1 by (apply (dlist_nonnull _ _ _ _ _ Hfrom); by left). specialize (Hf2 H1).
  assert (pt ∈ to :: lt) as Hin1 by (rewrite Ea; apply elem_of_app; right; by apply list_elem_of_singleton).
  assert (pf ∈ from :: lf) as Hin2 by (rewrite Ec; apply elem_of_app; right; by apply list_elem_of_singleton).
  assert (pt ≠ NULL) as H2 by (eapply dlist_nonnull; [exact Hto|by apply elem_of_cons]).
  assert (pf ≠ NULL) as H3 by (eapply dlist_nonnull; [exact Hfrom|by apply elem_of_cons]).
  assert (pt ≠ pf) as Hpp by (intros ->; by apply (Hdisj pf)).
  assert (to ≠ from) as Hhh by (intros E; apply (Hdisj to); [|rewrite E]; apply elem_of_cons; by left).
  unfold list_append_list. rewrite !ld_some by done. cbn [mbind option_bind]. rewrite Ht2, Hf2.
  do 4 (rewrite sto_some by done; cbn [mbind option_bind]). set (m1 := <[(from, LN_PREV) := pt]> _).
  assert (list_rep m1 to (lt ++ from :: lf)) as Hr.
  { destruct (sewn_nodup (lt ++ from :: lf)) as (? & ? & ?); [done|].
    eapply (dlist_links_intro _ _ _ _ (a ++ [pt] ++ c) pf); try done.
    - by rewrite app_comm_cons, Ea, Ec, <-!app_assoc.
    - apply Forall2_app; [|constructor; [split; intros; unfold m1; heap_cases|]].
      + eapply inner_links; [exact Hto|done..| |].
        * intros x Hx Hxp. unfold m1. assert (x ≠ pf) by (intros ->; by eapply Hdisj). heap_cases.
        * intros x Hx. assert (x ≠ to) by (intros ->; by apply (dl_end _ _ _ _ Hto)).
          assert (x ≠ from) by (intros ->; eapply (Hdisj from); apply elem_of_cons; tauto). unfold m1. heap_cases.
      + eapply inner_links; [exact Hfrom|done..| |].
        * intros x Hx Hxp. unfold m1. assert (x ≠ pt) by (intros ->; by eapply Hdisj). heap_cases.
        * intros x Hx. assert (x ≠ from) by (intros ->; by apply (dl_end _ _ _ _ Hfrom)).
          assert (x ≠ to) by (intros ->; eapply (Hdisj to); apply elem_of_cons; tauto). unfold m1. heap_cases.
    - split; intros; unfold m1; heap_cases. }
  destruct (list_del_ok m1 to lt lf from Hr) as (m2 & -> & Hr2 & _). cbn [mbind option_bind].
  destruct (list_head_init_ok m2 from H1) as (m3 & -> & Hr3 & Hs3). exists m3. split; [done|]. split; [|done].
  pose proof (dl_nodup _ _ _ _ Hr) as Hnd. rewrite app_comm_cons, <-Permutation_middle in Hnd. apply NoDup_cons in Hnd as [Hnd _].
  eapply dlist_frame; [| |exact Hr2]; intros x Hx; [|intros _]; apply Hs3; intros ->%list_elem_of_singleton;
    apply Hnd; rewrite ?elem_of_cons, ?elem_of_app, ?list_elem_of_singleton in *; simpl; rewrite ?elem_of_cons, ?elem_of_app; tauto.
Qed.

Lemma list_prepend_list_ok :
  ∃ m', list_prepend_list m to from = Some m' ∧ list_rep m' to (lf ++ lt) ∧ list_rep m' from [].
Proof.
  destruct (head_snoc_some lt to) as (s & Hs & Hsl).
  destruct (dlist_cut m to [] lt to to s Hto eq_refl Hs) as (a & b & Ea & Eb & _ & [Ht1 Ht2] & Hb).
  destruct (dlist_links_elim _ _ _ _ Hfrom) as (c & pf & Hpf & Ec & Hc & Hf1 & Hf2).
  assert (to ≠ NULL) as H0 by (apply (dlist_nonnull _ _ _ _ _ Hto); by left).
  assert (from ≠ NULL) as H1 by (apply (dlist_nonnull _ _ _ _ _ Hfrom); by left). specialize (Hf2 H1).
  assert (s ≠ NULL) as H2 by (by apply (dlist_nonnull _ _ _ _ _ Hto)). specialize (Ht2 H2).
  assert (pf ∈ from :: lf) as Hin2 by (rewrite Ec; apply elem_of_app; right; by apply list_elem_of_singleton).
  assert (pf ≠ NULL) as H3 by (eapply dlist_nonnull; [exact Hfrom|by apply elem_of_cons]).
  assert (s ∈ to :: lt) as Hin1 by (by apply elem_of_cons).
  assert (to ≠ from) as Hhh by (intros E; apply (Hdisj to); [|rewrite E]; apply elem_of_cons; by left).
  assert (to ≠ pf) as Htp by (intros E; apply (Hdisj to); [|by rewrite E]; apply elem_of_cons; by left).
  assert (s ≠ from) as Hsf by (intros E; apply (Hdisj s Hin1); rewrite E; apply elem_of_cons; by left).
  unfold list_prepend_list. rewrite !ld_some by done. cbn [mbind option_bind]. rewrite Ht1, Hf2.
  do 4 (rewrite sto_some by done; cbn [mbind option_bind]). set (m1 := <[(pf, LN_NEXT) := s]> _).
  assert (list_rep m1 to (from :: lf ++ lt)) as Hr.
  { destruct (sewn_nodup (from :: lf ++ lt)) as (? & ? & ?); [by rewrite <-Permutation_middle, (Permutation_app_comm lf)|].
    split; [done..|]. cbn [app]. constructor; [split; intros; unfold m1; heap_cases|].
    change (from :: lf ++ lt) with ((from :: lf) ++ lt). rewrite Ec, <-!app_assoc. cbn [app]. rewrite Eb.
    apply Forall2_app; [|constructor; [split; intros; unfold m1; heap_cases|]].
    - eapply inner_links; [exact Hfrom|done..| |].
      + intros x Hx Hxp. unfold m1. assert (x ≠ to) by (intros ->; eapply (Hdisj to); [apply elem_of_cons; by left|done]). heap_cases.
      + intros x Hx. assert (x ≠ from) by (intros ->; by apply (dl_end _ _ _ _ Hfrom)).
        assert (x ≠ s) by (intros ->; apply (Hdisj s Hin1), elem_of_cons; by right). unfold m1. heap_cases.
    - assert (NoDup (lt ++ [to])) as Hnd by (apply (NoDup_Permutation_proper _ _ (Permutation_app_comm lt [to])), (dl_nodup _ _ _ _ Hto)).
      rewrite Eb in Hnd. apply NoDup_cons in Hnd as [Hnd _].
      eapply dlinks_frame; [| |exact Hb]; intros x Hx; [|intros _].
      + assert (x ≠ to) by (intros ->; by apply (dl_end _ _ _ _ Hto)).
        assert (x ≠ pf) by (intros ->; apply (Hdisj pf); [apply elem_of_cons; by right|done]). unfold m1. heap_cases.
      + assert (x ∈ lt ++ [to]) as Hx' by (rewrite Eb; apply elem_of_cons; by right).
        rewrite elem_of_app, list_elem_of_singleton in Hx'.
        assert (x ≠ from) by (intros ->; apply (Hdisj from); apply elem_of_cons; tauto). assert (x ≠ s) by (by intros ->).
        unfold m1. heap_cases. }
  destruct (list_del_ok m1 to [] (lf ++ lt) from Hr) as (m2 & -> & Hr2 & _). cbn [mbind option_bind].
  destruct (list_head_init_ok m2 from H1) as (m3 & -> & Hr3 & Hs3). exists m3. split; [done|]. split; [|done].
  pose proof (dl_nodup _ _ _ _ Hr) as Hnd. apply NoDup_cons in Hnd as [_ Hnd]. apply NoDup_cons in Hnd as [Hnd _].
  eapply dlist_frame; [| |exact Hr2]; intros x Hx; [|intros _]; apply Hs3; intros ->%list_elem_of_singleton;
    rewrite ?elem_of_cons, ?elem_of_app, ?list_elem_of_singleton in *; simpl in *; rewrite ?elem_of_cons, ?elem_of_app in *; naive_solver.
Qed.
End join.

(** ** The lists with a single head pointer *)

Section hlist.
Context (m : heap) (h : ptr).

Lemma hlist_head_ok l : hlist_rep m h l → ld m h LN_NEXT = Some (default NULL (head l)).
Proof.
  intros Hl. destruct (head_snoc_some l NULL) as (s & Hs & _).
  destruct (dlist_links m h [] l NULL h s Hl eq_refl Hs) as (_ & Hh & E & _). rewrite ld_some, E by done.
  by destruct l; injection Hs as <-.
Qed.

Lemma hlist_init_head_ok : h ≠ NULL → ∃ m', hlist_init_head m h = Some m' ∧ hlist_rep m' h [] ∧ same_outside [h] m m'.
Proof.
  intros Hh. unfold hlist_init_head. rewrite sto_some by done. eexists. split; [done|]. split.
  - split; [apply NoDup_singleton|by intros ?%list_elem_of_singleton|apply not_elem_of_nil|]. repeat constructor; by heap_cases.
  - apply same_outside_insert. by apply list_elem_of_singleton.
Qed.

Lemma hlist_add_head_ok l n : hlist_rep m h l → n ∉ h :: l → n ≠ NULL →
  ∃ m', hlist_add_head m h n = Some m' ∧ hlist_rep m' h (n :: l) ∧ same_outside (n :: h :: l) m m'.
Proof.
  intros Hl Hn Hn0. destruct (head_snoc_some l NULL) as (s & Hs & Hsl).
  destruct (dlist_links m h [] l NULL h s Hl eq_refl Hs) as (_ & Hh & E1 & E2). pose proof Hn as Hn'. rewrite elem_of_cons in Hn'.
  assert (n ≠ h ∧ n ≠ s) as [Hnh Hns] by (split; [tauto|intros <-; tauto]).
  unfold hlist_add_head. rewrite (ld_some m h), E1 by done. cbn [mbind option_bind].
  do 2 (rewrite sto_some by done; cbn [mbind option_bind]). rewrite ld_some by done. cbn [mbind option_bind].
  assert (rd (<[(n, LN_PREV):=h]> (<[(n, LN_NEXT):=s]> m)) n LN_NEXT = s) as -> by heap_cases.
  assert (∃ m1, (if s =? NULL then Some (<[(n, LN_PREV):=h]> (<[(n, LN_NEXT):=s]> m))
      else sto (<[(n, LN_PREV):=h]> (<[(n, LN_NEXT):=s]> m)) s LN_PREV n) = Some m1 ∧
    (∀ x, rd m1 x LN_NEXT = if decide (x = n) then s else rd m x LN_NEXT) ∧
    (∀ x, rd m1 x LN_PREV = if decide (x = n) then h else if decide (x = s ∧ s ≠ NULL) then n else rd m x LN_PREV) ∧
    same_outside (n :: h :: l) m m1) as (m1 & -> & Hnx & Hpv & Hso).
  { destruct (Z.eqb_spec s NULL) as [E0|E0].
    - eexists. split; [done|]. split_and!; [heap_dec..|].
      eapply same_outside_trans; apply same_outside_insert, elem_of_cons; by left.
    - rewrite sto_some by done. eexists. split; [done|]. split_and!; [heap_dec..|].
      do 2 (eapply same_outside_trans; [|apply same_outside_insert; rewrite !elem_of_cons; tauto]). apply same_outside_insert, elem_of_cons. by left. }
  cbn [mbind option_bind]. rewrite sto_some by done. eexists. split; [done|]. split.
  - eapply (dlist_insert m _ h [] l NULL n h s); try done; intros; rewrite ?rd_insert, ?Hnx, ?Hpv; repeat case_decide; simplify_eq/=; try done; naive_solver.
  - eapply same_outside_trans; [done|]. apply same_outside_insert. rewrite !elem_of_cons. tauto.
Qed.

Lemma hlist_del_ok l1 l2 n : hlist_rep m h (l1 ++ n :: l2) →
  ∃ m', hlist_del m n = Some m' ∧ hlist_rep m' h (l1 ++ l2) ∧ same_outside (h :: l1 ++ l2) m m'.
Proof.
  intros Hl. destruct (last_cons_some h l1) as (p & Hp & Hpl). destruct (head_snoc_some l2 NULL) as (s & Hs & Hsl).
  destruct (dlist_links m h l1 (n :: l2) NULL p n Hl Hp eq_refl) as (_ & Hp0 & E1 & E2).
  assert (NoDup (h :: l1 ++ n :: l2)) as Hnd by apply (dl_nodup _ _ _ _ Hl).
  assert (n ≠ NULL) as Hn0 by (eapply dlist_nonnull; [done|right; apply elem_of_app; right; apply elem_of_cons; by left]).
  specialize (E2 Hn0). assert (hlist_rep m h ((l1 ++ [n]) ++ l2)) as Hl' by (by rewrite <-app_assoc).
  destruct (dlist_links m h (l1 ++ [n]) l2 NULL n s Hl') as (_ & _ & E3 & E4); [by rewrite app_comm_cons, last_snoc|done|].
  assert (n ∉ h :: l1 ++ l2) as Hn.
  { rewrite app_comm_cons, <-Permutation_middle in Hnd. by apply NoDup_cons in Hnd as [? _]. }
  rewrite !elem_of_cons, elem_of_app in *. assert (n ≠ p ∧ n ≠ s) as [Hnp Hns] by (split; intros <-; tauto).
  unfold hlist_del. rewrite !ld_some by done. cbn [mbind option_bind]. rewrite E2, E3, sto_some by done. cbn [mbind option_bind].
  rewrite !ld_some by done. cbn [mbind option_bind].
  assert (rd (<[(p, LN_NEXT):=s]> m) n LN_PREV = p) as -> by heap_cases.
  assert (rd (<[(p, LN_NEXT):=s]> m) n LN_NEXT = s) as -> by heap_cases.
  destruct (Z.eqb_spec s NULL) as [E0|E0]; [|rewrite sto_some by done]; (eexists; split; [done|]; split;
    [eapply (dlist_remove m _ h l1 l2 NULL n p s); try done; intros; heap_cases|]).
  - apply same_outside_insert. rewrite elem_of_cons, elem_of_app. tauto.
  - eapply same_outside_trans; apply same_outside_insert; rewrite elem_of_cons, elem_of_app; tauto.
Qed.

Lemma hlist_empty_ok l : hlist_rep m h l → hlist_empty m h = Some (bool_decide (l = [])).
Proof.
  intros Hl. unfold hlist_empty. rewrite (hlist_head_ok l Hl). cbn [mbind option_bind]. f_equal. destruct l as [|x l]; [done|].
  rewrite bool_decide_false by done. apply Z.eqb_neq. simpl. eapply dlist_nonnull; [done|]. right. apply elem_of_cons. by left.
Qed.
End hlist.

(** ** Refinement *)

Inductive list_op := LAdd (n : ptr) | LAddTail (n : ptr) | LDel (n : ptr) | LPop.

Definition list_step (op : list_op) (h : ptr) (m : heap) : option (option ptr * heap) :=
  match op with
  | LAdd n => m ← list_add m h n; Some (None, m)
  | LAddTail n => m ← list_add_tail m h n; Some (None, m)
  | LDel n => m ← list_del_from m h n; Some (None, m)
  | LPop => '(x, m) ← list_pop m h 0; Some (Some x, m)
  end.
Fixpoint list_run (ops : list list_op) (h : ptr) (m : heap) : option (list (option ptr) * heap) :=
  match ops with
  | [] => Some ([], m)
  | op :: ops => '(r, m) ← list_step op h m; '(rs, m) ← list_run ops h m; Some (r :: rs, m)
  end.

(** The same operations on a sequence. *)
Definition seq_step (op : list_op) (l : list ptr) : option ptr * list ptr :=
  match op with
  | LAdd n => (None, n :: l)
  | LAddTail n => (None, l ++ [n])
  | LDel n => (None, filter (λ x, x ≠ n) l)
  | LPop => (Some (default NULL (head l)), tail l)
  end.
Fixpoint seq_run (ops : list list_op) (l : list ptr) : list (option ptr) * list ptr :=
  match ops with
  | [] => ([], l)
  | op :: ops => let '(r, l) := seq_step op l in let '(rs, l) := seq_run ops l in (r :: rs, l)
  end.

(** New nodes are added, present ones are deleted. *)
Definition list_op_ok (h : ptr) (op : list_op) (l : list ptr) : Prop :=
  match op with LAdd n | LAddTail n => n ∉ h :: l ∧ n ≠ NULL | LDel n => n ∈ l | LPop => True end.
Fixpoint list_ops_ok (h : ptr) (ops : list list_op) (l : list ptr) : Prop :=
  match ops with [] => True | op :: ops => list_op_ok h op l ∧ list_ops_ok h ops (seq_step op l).2 end.

Lemma filter_absent (l : list ptr) n : n ∉ l → filter (λ x, x ≠ n) l = l.
Proof.
  induction l as [|x l IH]; intros Hn; [done|]. rewrite elem_of_cons in Hn.
  rewrite filter_cons_True by (intros ->; tauto). rewrite IH; tauto.
Qed.

Lemma filter_delete (l1 l2 : list ptr) n : NoDup (l1 ++ n :: l2) → filter (λ x, x ≠ n) (l1 ++ n :: l2) = l1 ++ l2.
Proof.
  intros Hnd. rewrite <-Permutation_middle in Hnd. apply NoDup_cons in Hnd as [Hn _]. rewrite elem_of_app in Hn.
  rewrite filter_app, filter_cons_False by (intros H; by apply H). by rewrite !filter_absent by tauto.
Qed.

Lemma list_step_ok m h l op : list_rep m h l → list_op_ok h op l →
  ∃ m', list_step op h m = Some ((seq_step op l).1, m') ∧ list_rep m' h (seq_step op l).2.
Proof.
  intros Hl Hop. destruct op as [n|n|n|]; cbn [list_step seq_step fst snd list_op_ok] in *.
  - destruct Hop as [Hn Hn0]. destruct (list_add_ok m h l n Hl Hn Hn0) as (m' & -> & Hl' & _). by exists m'.
  - destruct Hop as [Hn Hn0]. destruct (list_add_tail_ok m h l n Hl Hn Hn0) as (m' & -> & Hl' & _). by exists m'.
  - apply list_elem_of_split in Hop as (l1 & l2 & ->).
    destruct (list_del_ok m h l1 l2 n Hl) as (m' & E & Hl' & _). unfold list_del_from. rewrite E. exists m'. split; [done|].
    rewrite filter_delete; [done|]. pose proof (dl_nodup _ _ _ _ Hl) as Hnd. by apply NoDup_cons in Hnd as [_ ?].
  - destruct (list_pop_ok m h l 0 Hl) as (m' & -> & Hl' & _). exists m'. split; [|done]. cbn [mbind option_bind]. do 3 f_equal.
    destruct l; [done|]. simpl. unfold list_node_to_off. lia.
Qed.

(** C18: A circular list refines a sequence of nodes: every run of additions at
    either end, deletions of nodes and removals of the first node goes through
    and returns what it returns on the sequence, and afterwards the traversals
    end and visit exactly the nodes of the sequence, forwards and backwards. *)
Theorem list_refines_sequence m h l ops :
  list_rep m h l → list_ops_ok h ops l →
  ∃ m', list_run ops h m = Some ((seq_run ops l).1, m') ∧ list_rep m' h (seq_run ops l).2 ∧
    ∀ off fuel, (length (seq_run ops l).2 < fuel)%nat →
      list_for_each fuel m' h off = Some ((λ x, list_node_to_off x off) <$> (seq_run ops l).2) ∧
      list_for_each_rev fuel m' h off = Some ((λ x, list_node_to_off x off) <$> rev (seq_run ops l).2).
Proof.
  revert m l. induction ops as [|op ops IH]; intros m l Hl Hok.
  { exists m. split; [done|]. split; [done|]. intros off fuel. by apply list_for_each_ok. }
  destruct Hok as [Hop Hok]. destruct (list_step_ok m h l op Hl Hop) as (m1 & E1 & Hl1). cbn [list_run seq_run]. rewrite E1.
  destruct (seq_step op l) as [r l1]. cbn [mbind option_bind fst snd] in *. destruct (IH m1 l1 Hl1 Hok) as (m2 & E2 & H2).
  destruct (seq_run ops l1) as [rs l2]. cbn [fst snd] in *. rewrite E2. by exists m2.
Qed.

(** An empty list at 64. *)
Definition ex_list : heap := <[(64, LN_NEXT) := 64]> (<[(64, LN_PREV) := 64]> ∅).

Lemma ex_list_rep : list_rep ex_list 64 [].
Proof. split; [apply NoDup_singleton|by intros ?%list_elem_of_singleton|apply not_elem_of_nil|]. by repeat constructor. Qed.

Lemma list_refines_sequence_witness :
  ∃ m', list_run [LAdd 128; LAddTail 192; LAdd 256; LDel 128; LPop] 64 ex_list = Some ([None; None; None; None; Some 256], m') ∧
    list_for_each 2 m' 64 0 = Some [192].
Proof.
  destruct (list_refines_sequence ex_list 64 [] [LAdd 128; LAddTail 192; LAdd 256; LDel 128; LPop] ex_list_rep) as (m' & E & _ & H).
  - cbn [list_ops_ok list_op_ok seq_step snd app]. rewrite !elem_of_cons, !elem_of_nil. split_and!; try done; try (intros H; naive_solver lia); auto.
  - exists m'. split; [exact E|]. destruct (H 0 2%nat) as [-> _]; [vm_compute; lia|]. by vm_compute.
Defined.

(** [list_append_list] and [list_prepend_list] move all nodes of one list, in
    order, behind or before those of another and leave the first one empty. *)
Theorem list_join_moves_all m to from lt lf :
  list_rep m to lt → list_rep m from lf → (∀ x, x ∈ to :: lt → x ∉ from :: lf) →
  (∃ m', list_append_list m to from = Some m' ∧ list_rep m' to (lt ++ lf) ∧ list_rep m' from []) ∧
  (∃ m', list_prepend_list m to from = Some m' ∧ list_rep m' to (lf ++ lt) ∧ list_rep m' from []).
Proof. intros Hto Hfrom Hd. split; [by apply list_append_list_ok|by apply list_prepend_list_ok]. Qed.

Definition ex_lists : heap := <[(32, LN_NEXT) := 32]> (<[(32, LN_PREV) := 32]> ex_list).

Lemma list_join_moves_all_witness : ∃ m', list_append_list ex_lists 64 32 = Some m' ∧ list_rep m' 64 [] ∧ list_rep m' 32 [].
Proof.
  apply (list_join_moves_all ex_lists 64 32 [] []).
  - split; [apply NoDup_singleton|by intros ?%list_elem_of_singleton|apply not_elem_of_nil|]. by repeat constructor.
  - split; [apply NoDup_singleton|by intros ?%list_elem_of_singleton|apply not_elem_of_nil|]. by repeat constructor.
  - intros x ->%list_elem_of_singleton. by intros ?%list_elem_of_singleton.
Defined.
