(* ===== verification/Stddef.v ===== *)
(** * Basic definitions (inc/ix/stddef.h, inc/ix/errno.h, inc/ix/bitmap.h,
      inc/ix/byteorder.h)

    Alignment and rounding macros, the error numbers the models return, bitmaps
    over arrays of 64-bit words, and byte-order conversion. *)

From S2P Require Import Prelude.
Local Open Scope Z_scope.

(** ** Error numbers *)
Definition EIO : Z := 5.
Definition E2BIG : Z := 7.
Definition ENOMEM : Z := 12.
Definition EBUSY : Z := 16.
Definition ENODEV : Z := 19.
Definition EINVAL : Z := 22.
Definition EAGAIN : Z := 35.

(** ** Rounding macros, at type [size_t] *)
Definition align_up (x a : Z) : Z := u64 (Z.lor (u64 (x - 1)) (u64 (a - 1)) + 1).
Definition align_down (x a : Z) : Z := Z.land x (u64 (Z.lnot (u64 (a - 1)))).

(** [div_up] at type [int]; C division truncates. *)
Definition div_up (x d : Z) : Z := Z.quot (x + d - 1) d.

(** ** Bitmaps *)
Definition BITS_PER_LONG : Z := 64.
Definition BITMAP_LONG_SIZE (nbits : Z) : Z := div_up nbits BITS_PER_LONG.
Definition BITMAP_POS_IDX (pos : Z) : nat := Z.to_nat (u64 pos / BITS_PER_LONG).
Definition BITMAP_POS_SHIFT (pos : Z) : Z := Z.land (u64 pos) (BITS_PER_LONG - 1).

(** A write outside the array is an abnormal end. *)
Definition bitmap_set (bits : list Z) (pos : Z) : option (list Z) :=
  w ← bits !! BITMAP_POS_IDX pos;
  Some (<[BITMAP_POS_IDX pos := Z.lor w (u64 (Z.shiftl 1 (BITMAP_POS_SHIFT pos)))]> bits).

Definition bitmap_clear (bits : list Z) (pos : Z) : option (list Z) :=
  w ← bits !! BITMAP_POS_IDX pos;
  Some (<[BITMAP_POS_IDX pos :=
    Z.land w (u64 (Z.lnot (u64 (Z.shiftl 1 (BITMAP_POS_SHIFT pos)))))]> bits).

Definition bitmap_test (bits : list Z) (pos : Z) : option bool :=
  w ← bits !! BITMAP_POS_IDX pos;
  Some (negb (Z.land w (u64 (Z.shiftl 1 (BITMAP_POS_SHIFT pos))) =? 0)).

(** [memset] of every byte of the covered words to 0xff or 0x00. *)
Definition bitmap_init (bits : list Z) (nbits : Z) (state : bool) : option (list Z) :=
  let n := Z.to_nat (BITMAP_LONG_SIZE nbits) in
  if bool_decide (n ≤ length bits)%nat then
    Some (replicate n (if state then U64_MOD - 1 else 0) ++ drop n bits)
  else None.

(** ** Byte order *)
Definition bswap16 (val : Z) : Z :=
  Z.lor (Z.shiftl (Z.land val 0x00ff) 8) (Z.shiftr (Z.land val 0xff00) 8).

Definition bswap32 (val : Z) : Z :=
  Z.lor (Z.lor (Z.shiftl (Z.land val 0x000000ff) 24) (Z.shiftl (Z.land val 0x0000ff00) 8))
        (Z.lor (Z.shiftr (Z.land val 0x00ff0000) 8) (Z.shiftr (Z.land val 0xff000000) 24)).

Definition bswap64 (val : Z) : Z :=
  Z.lor
    (Z.lor (Z.lor (Z.shiftl (Z.land val 0x00000000000000ff) 56)
                  (Z.shiftl (Z.land val 0x000000000000ff00) 40))
           (Z.lor (Z.shiftl (Z.land val 0x0000000000ff0000) 24)
                  (Z.shiftl (Z.land val 0x00000000ff000000) 8)))
    (Z.lor (Z.lor (Z.shiftr (Z.land val 0x000000ff00000000) 8)
                  (Z.shiftr (Z.land val 0x0000ff0000000000) 24))
           (Z.lor (Z.shiftr (Z.land val 0x00ff000000000000) 40)
                  (Z.shiftr (Z.land val 0xff00000000000000) 56))).

Definition hton16 := bswap16.
Definition hton32 := bswap32.
Definition ntoh16 := bswap16.
Definition ntoh32 := bswap32.

(** ** Facts about the macros *)

(** A word is determined by its low bits. *)
Lemma testbit_high w x i : 0 ≤ x < 2 ^ w → 0 ≤ w ≤ i → Z.testbit x i = false.
Proof.
  intros Hx Hw. rewrite <-(Z.mod_small x (2 ^ w)) by done.
  by apply Z.mod_pow2_bits_high.
Qed.

Lemma Zlor_low_ones x k :
  0 ≤ k → Z.lor x (Z.ones k) = x / 2 ^ k * 2 ^ k + (2 ^ k - 1).
Proof.
  intros Hk.
  replace (2 ^ k - 1) with (Z.ones k) by (rewrite Z.ones_equiv; lia).
  rewrite <-Z.shiftr_div_pow2, <-Z.shiftl_mul_pow2 by done.
  rewrite Z.add_nocarry_lxor.
  2:{ apply Z.bits_inj'. intros i Hi. rewrite Z.land_spec, Z.bits_0.
      rewrite Z.shiftl_spec by done. destruct (decide (i < k)).
      - by rewrite Z.testbit_neg_r by lia.
      - rewrite Z.ones_spec_high by lia. by rewrite andb_false_r. }
  apply Z.bits_inj'. intros i Hi.
  rewrite Z.lor_spec, Z.lxor_spec, Z.shiftl_spec by done.
  destruct (decide (i < k)).
  - rewrite Z.ones_spec_low, (Z.testbit_neg_r _ (i - k)) by lia. by rewrite orb_true_r.
  - rewrite Z.ones_spec_high by lia. rewrite Z.shiftr_spec by lia.
    rewrite orb_false_r, xorb_false_r. f_equal; lia.
Qed.

Lemma align_up_spec x k :
  0 ≤ k < 64 → 0 < x → x ≤ U64_MOD - 2 ^ k →
  align_up x (2 ^ k) = (x + 2 ^ k - 1) / 2 ^ k * 2 ^ k.
Proof.
  intros Hk Hx Hmax. unfold align_up.
  assert (0 < 2 ^ k) by (apply Z.pow_pos_nonneg; lia).
  assert (2 ^ k < U64_MOD).
  { change U64_MOD with (2 ^ 64). apply Z.pow_lt_mono_r; lia. }
  rewrite (u64_small (x - 1)), (u64_small (2 ^ k - 1)) by lia.
  replace (2 ^ k - 1) with (Z.ones k) at 1 by (rewrite Z.ones_equiv; lia).
  rewrite Zlor_low_ones by lia.
  replace (x + 2 ^ k - 1) with (x - 1 + 1 * 2 ^ k) by lia.
  rewrite Z.div_add by lia.
  rewrite u64_small; [lia|].
  pose proof (Z.mul_div_le (x - 1) (2 ^ k)).
  pose proof (Z.div_pos (x - 1) (2 ^ k)).
  unfold U64_MOD in *. nia.
Qed.

(** Masking with the complement of [2^k - 1] at 64 bits. *)
Lemma u64_land_mask x k :
  0 ≤ x < U64_MOD → 0 ≤ k → Z.land x (u64 (- 2 ^ k)) = x - x mod 2 ^ k.
Proof.
  intros Hx Hk. change (u64 (- 2 ^ k)) with ((- 2 ^ k) mod 2 ^ 64). rewrite <-Z.land_ones by lia.
  rewrite (Z.land_comm _ (Z.ones 64)), Z.land_assoc, Z.land_ones, Z.mod_small by done.
  replace (- 2 ^ k) with (Z.lnot (Z.ones k)) by (rewrite Z.ones_equiv; unfold Z.lnot; lia).
  by rewrite <-Z.sub_land_same_l, Z.land_ones.
Qed.

Lemma align_up_ge x k :
  0 ≤ k < 64 → 0 < x → x ≤ U64_MOD - 2 ^ k →
  x ≤ align_up x (2 ^ k) < x + 2 ^ k ∧ align_up x (2 ^ k) mod 2 ^ k = 0.
Proof.
  intros Hk Hx Hm. rewrite align_up_spec by done.
  assert (0 < 2 ^ k) by (apply Z.pow_pos_nonneg; lia).
  split; [|by rewrite Z.mod_mul by lia].
  pose proof (Z.div_mod (x + 2 ^ k - 1) (2 ^ k)).
  pose proof (Z.mod_pos_bound (x + 2 ^ k - 1) (2 ^ k)). lia.
Qed.

Lemma div_up_spec x d : 0 ≤ x → 0 < d → x ≤ div_up x d * d < x + d.
Proof.
  intros Hx Hd. unfold div_up. rewrite Z.quot_div_nonneg by lia.
  pose proof (Z.div_mod (x + d - 1) d). pose proof (Z.mod_pos_bound (x + d - 1) d). lia.
Qed.

(** ** Bitmaps are finite sets of positions *)

Section bitmap.
Implicit Types (bits : list Z) (pos : Z).

Lemma land_pow2_test w s : 0 ≤ s → (Z.land w (2 ^ s) =? 0) = negb (Z.testbit w s).
Proof.
  intros Hs. destruct (Z.testbit w s) eqn:E; simpl.
  - apply Z.eqb_neq. intros H0.
    assert (Z.testbit (Z.land w (2 ^ s)) s = false) as H1 by (by rewrite H0, Z.bits_0).
    rewrite Z.land_spec, E, Z.pow2_bits_true in H1 by done. done.
  - apply Z.eqb_eq, Z.bits_inj'. intros i Hi. rewrite Z.land_spec, Z.bits_0.
    destruct (decide (i = s)) as [->|]; [by rewrite E|].
    rewrite Z.pow2_bits_false by lia. apply andb_false_r.
Qed.

Lemma bitmap_pos pos :
  0 ≤ pos < 2 ^ 31 →
  BITMAP_POS_IDX pos = Z.to_nat (pos / 64) ∧ BITMAP_POS_SHIFT pos = pos mod 64 ∧
  u64 (Z.shiftl 1 (BITMAP_POS_SHIFT pos)) = 2 ^ (pos mod 64).
Proof.
  intros H. unfold BITMAP_POS_IDX, BITMAP_POS_SHIFT, BITS_PER_LONG.
  rewrite u64_small by (unfold U64_MOD; lia).
  change (64 - 1) with (Z.ones 6). rewrite Z.land_ones by lia. change (2 ^ 6) with 64.
  split_and!; [done..|]. rewrite Z.shiftl_1_l.
  pose proof (Z.mod_pos_bound pos 64).
  apply u64_small. split; [apply Z.pow_nonneg; lia|].
  change U64_MOD with (2 ^ 64). apply Z.pow_lt_mono_r; lia.
Qed.

Lemma bitmap_test_testbit bits pos :
  0 ≤ pos < 2 ^ 31 →
  bitmap_test bits pos = (λ w, Z.testbit w (pos mod 64)) <$> bits !! Z.to_nat (pos / 64).
Proof.
  intros H. unfold bitmap_test. destruct (bitmap_pos pos H) as (-> & _ & ->).
  destruct (bits !! _) as [w|]; simpl; [|done].
  rewrite land_pow2_test, negb_involutive by (apply Z.mod_pos_bound; lia). done.
Qed.

(** A position written in a word reads back; the other positions are unchanged. *)
Lemma bitmap_write_test bits pos q (f : Z → Z) (b : bool) w :
  0 ≤ pos < 2 ^ 31 → 0 ≤ q < 2 ^ 31 →
  bits !! Z.to_nat (pos / 64) = Some w →
  (∀ s, 0 ≤ s < 64 → Z.testbit (f w) s = if decide (s = pos mod 64) then b else Z.testbit w s) →
  bitmap_test (<[Z.to_nat (pos / 64) := f w]> bits) q =
    if decide (pos = q) then Some b else bitmap_test bits q.
Proof.
  intros Hp Hq Hw Hf. rewrite !bitmap_test_testbit by done.
  assert (0 ≤ q mod 64 < 64) by (apply Z.mod_pos_bound; lia).
  destruct (decide (pos / 64 = q / 64)) as [E|E].
  - rewrite <-E, Hw, list_lookup_insert_eq by (by eapply lookup_lt_Some). simpl.
    rewrite Hf by done. case_decide as D1; case_decide as D2; [done|..|done].
    + contradict D2. rewrite (Z.div_mod pos 64), (Z.div_mod q 64) by lia. congruence.
    + subst. done.
  - rewrite list_lookup_insert_ne.
    2:{ intros E'. apply E. apply Z2Nat.inj in E'; [done|apply Z.div_pos; lia..]. }
    rewrite decide_False; [done|]. by intros ->.
Qed.

Lemma bitmap_set_test bits bits' pos q :
  0 ≤ pos < 2 ^ 31 → 0 ≤ q < 2 ^ 31 →
  bitmap_set bits pos = Some bits' →
  bitmap_test bits' q = if decide (pos = q) then Some true else bitmap_test bits q.
Proof.
  intros Hp Hq. unfold bitmap_set. destruct (bitmap_pos pos Hp) as (-> & _ & ->).
  destruct (bits !! _) as [w|] eqn:Hw; simpl; [|done]. intros [= <-].
  apply (bitmap_write_test bits pos q (λ w, Z.lor w (2 ^ (pos mod 64))) true w); [done..|].
  intros s Hs. rewrite Z.lor_spec. pose proof (Z.mod_pos_bound pos 64).
  case_decide; [subst; rewrite Z.pow2_bits_true by lia; apply orb_true_r|].
  rewrite Z.pow2_bits_false by lia. apply orb_false_r.
Qed.

Lemma bitmap_clear_test bits bits' pos q :
  0 ≤ pos < 2 ^ 31 → 0 ≤ q < 2 ^ 31 →
  bitmap_clear bits pos = Some bits' →
  bitmap_test bits' q = if decide (pos = q) then Some false else bitmap_test bits q.
Proof.
  intros Hp Hq. unfold bitmap_clear. destruct (bitmap_pos pos Hp) as (-> & _ & ->).
  destruct (bits !! _) as [w|] eqn:Hw; simpl; [|done]. intros [= <-].
  apply (bitmap_write_test bits pos q
    (λ w, Z.land w (u64 (Z.lnot (2 ^ (pos mod 64))))) false w); [done..|].
  intros s Hs. rewrite Z.land_spec. pose proof (Z.mod_pos_bound pos 64).
  unfold u64. change U64_MOD with (2 ^ 64).
  rewrite Z.mod_pow2_bits_low, Z.lnot_spec by lia.
  case_decide; [subst; rewrite Z.pow2_bits_true by lia; apply andb_false_r|].
  rewrite Z.pow2_bits_false by lia. apply andb_true_r.
Qed.

Lemma bitmap_init_test bits bits' nbits state q :
  0 ≤ q < nbits → nbits < 2 ^ 31 →
  bitmap_init bits nbits state = Some bits' → bitmap_test bits' q = Some state.
Proof.
  intros Hq Hn. unfold bitmap_init. case_bool_decide as Hl; [|done]. intros [= <-].
  rewrite bitmap_test_testbit by lia.
  pose proof (div_up_spec nbits 64). unfold BITMAP_LONG_SIZE, BITS_PER_LONG in *.
  assert (q / 64 < div_up nbits 64) by (apply Z.div_lt_upper_bound; lia).
  assert (0 ≤ q / 64) by (apply Z.div_pos; lia).
  rewrite lookup_app_l by (rewrite length_replicate; lia).
  rewrite lookup_replicate_2 by lia. simpl. pose proof (Z.mod_pos_bound q 64).
  destruct state; [|by rewrite Z.bits_0].
  change (U64_MOD - 1) with (Z.ones 64). by rewrite Z.ones_spec_low by lia.
Qed.
End bitmap.

(** ** Byte order conversion is an involution *)

(** Decide an index in a literal range by trying each value. *)
Ltac each_index i n :=
  let rec go k :=
    match k with
    | n => exfalso; lia
    | _ => let D := fresh in
           destruct (decide (i = k)) as [D|D];
           [subst i | let k' := eval compute in (k + 1) in go k']
    end in go 0.

Create Rewrite HintDb bits.
#[export] Hint Rewrite Z.lor_spec Z.land_spec Z.lxor_spec : bits.
#[export] Hint Rewrite Z.shiftl_spec Z.shiftr_spec using lia : bits.
#[export] Hint Rewrite orb_false_r orb_true_r andb_false_r andb_true_r orb_false_l andb_true_l : bits.

Ltac eval_bits := autorewrite with bits; simpl; autorewrite with bits.

Lemma bswap16_bits v i :
  0 ≤ v < 2 ^ 16 → 0 ≤ i →
  Z.testbit (bswap16 v) i = (i <? 16) && Z.testbit v (8 * (1 - i / 8) + i mod 8).
Proof.
  intros Hv Hi. unfold bswap16. destruct (Z.ltb_spec i 16).
  - each_index i 16; eval_bits; done.
  - rewrite Z.lor_spec, Z.shiftl_spec, Z.shiftr_spec, !Z.land_spec by lia.
    rewrite (testbit_high 8 0xff), (testbit_high 16 0xff00) by lia.
    by rewrite !andb_false_r.
Qed.

Lemma bswap32_bits v i :
  0 ≤ v < 2 ^ 32 → 0 ≤ i →
  Z.testbit (bswap32 v) i = (i <? 32) && Z.testbit v (8 * (3 - i / 8) + i mod 8).
Proof.
  intros Hv Hi. unfold bswap32. destruct (Z.ltb_spec i 32).
  - each_index i 32; eval_bits; done.
  - rewrite !Z.lor_spec, !Z.shiftl_spec, !Z.shiftr_spec, !Z.land_spec by lia.
    rewrite (testbit_high 8 0xff), (testbit_high 16 0xff00),
      (testbit_high 24 0xff0000), (testbit_high 32 0xff000000) by lia.
    by rewrite !andb_false_r.
Qed.

Lemma bswap64_bits v i :
  0 ≤ v < 2 ^ 64 → 0 ≤ i →
  Z.testbit (bswap64 v) i = (i <? 64) && Z.testbit v (8 * (7 - i / 8) + i mod 8).
Proof.
  intros Hv Hi. unfold bswap64. destruct (Z.ltb_spec i 64).
  - each_index i 64; eval_bits; done.
  - rewrite !Z.lor_spec, !Z.shiftl_spec, !Z.shiftr_spec, !Z.land_spec by lia.
    rewrite (testbit_high 8 0xff), (testbit_high 16 0xff00), (testbit_high 24 0xff0000),
      (testbit_high 32 0xff000000), (testbit_high 40 0xff00000000),
      (testbit_high 48 0xff0000000000), (testbit_high 56 0xff000000000000),
      (testbit_high 64 0xff00000000000000) by lia.
    by rewrite !andb_false_r.
Qed.

Lemma bits_bound w x :
  0 ≤ w → (∀ i, w ≤ i → Z.testbit x i = false) → 0 ≤ x < 2 ^ w.
Proof.
  intros Hw Hx. replace x with (x mod 2 ^ w).
  { apply Z.mod_pos_bound, Z.pow_pos_nonneg; lia. }
  apply Z.bits_inj'. intros i Hi. destruct (decide (i < w)).
  - by apply Z.mod_pow2_bits_low.
  - rewrite Z.mod_pow2_bits_high by lia. by rewrite Hx by lia.
Qed.

(** Reversing the order of [n] bytes twice, given the bit equation of the swap. *)
Lemma bswap_twice (f : Z → Z) (n v : Z) :
  0 < n →
  (∀ v i, 0 ≤ v < 2 ^ (8 * n) → 0 ≤ i →
     Z.testbit (f v) i = (i <? 8 * n) && Z.testbit v (8 * (n - 1 - i / 8) + i mod 8)) →
  0 ≤ v < 2 ^ (8 * n) → 0 ≤ f v < 2 ^ (8 * n) ∧ f (f v) = v.
Proof.
  intros Hn Hf Hv.
  assert (0 ≤ f v < 2 ^ (8 * n)) as Hr.
  { apply bits_bound; [lia|]. intros i Hi. rewrite Hf by lia.
    by rewrite (proj2 (Z.ltb_ge _ _)) by lia. }
  split; [done|]. apply Z.bits_inj'. intros i Hi. rewrite Hf by done.
  destruct (Z.ltb_spec i (8 * n)); simpl.
  - pose proof (Z.div_mod i 8). pose proof (Z.mod_pos_bound i 8).
    assert (0 ≤ i / 8 < n) by (split; [apply Z.div_pos|apply Z.div_lt_upper_bound]; lia).
    assert ((8 * (n - 1 - i / 8) + i mod 8) / 8 = n - 1 - i / 8) as E1.
    { rewrite Z.mul_comm, Z.div_add_l, (Z.div_small (i mod 8)) by lia. lia. }
    assert ((8 * (n - 1 - i / 8) + i mod 8) mod 8 = i mod 8) as E2.
    { rewrite Z.add_comm, Z.mul_comm, Z.mod_add, Z.mod_mod by lia. done. }
    rewrite Hf by lia. rewrite (proj2 (Z.ltb_lt _ _)) by lia. simpl.
    rewrite E1, E2. f_equal. lia.
  - by rewrite (testbit_high (8 * n)) by lia.
Qed.

Lemma bswap16_invol v : 0 ≤ v < 2 ^ 16 → 0 ≤ bswap16 v < 2 ^ 16 ∧ bswap16 (bswap16 v) = v.
Proof. by apply (bswap_twice bswap16 2); [|apply bswap16_bits]. Qed.

Lemma bswap32_invol v : 0 ≤ v < 2 ^ 32 → 0 ≤ bswap32 v < 2 ^ 32 ∧ bswap32 (bswap32 v) = v.
Proof. by apply (bswap_twice bswap32 4); [|apply bswap32_bits]. Qed.

Lemma bswap64_invol v : 0 ≤ v < 2 ^ 64 → 0 ≤ bswap64 v < 2 ^ 64 ∧ bswap64 (bswap64 v) = v.
Proof. by apply (bswap_twice bswap64 8); [|apply bswap64_bits]. Qed.

(** *** The swaps as sums of bytes *)

Lemma Zlor_add b a k : 0 ≤ k → 0 ≤ a < 2 ^ k → Z.lor (b * 2 ^ k) a = b * 2 ^ k + a.
Proof.
  intros Hk Ha. assert (Z.land (b * 2 ^ k) a = 0) as H0.
  { apply Z.bits_inj'. intros i Hi. rewrite Z.land_spec, Z.bits_0. destruct (decide (i < k)).
    - by rewrite Z.mul_pow2_bits_low.
    - by rewrite (testbit_high k a i), andb_false_r by lia. }
  by rewrite Z.add_nocarry_lxor, Z.lxor_lor by done.
Qed.

Lemma Zland_byte v s : 0 ≤ s → Z.land v (Z.shiftl 255 s) = ((v / 2 ^ s) mod 256) * 2 ^ s.
Proof.
  intros Hs. change 256 with (2 ^ 8). rewrite <-Z.land_ones, <-Z.shiftr_div_pow2, <-Z.shiftl_mul_pow2 by lia.
  apply Z.bits_inj'. intros i Hi. rewrite Z.land_spec, !Z.shiftl_spec, Z.land_spec by lia.
  destruct (decide (i < s)).
  - rewrite !(Z.testbit_neg_r _ (i - s)) by lia. by rewrite andb_false_r.
  - rewrite Z.shiftr_spec by lia. by replace (i - s + s) with i by lia.
Qed.

Lemma bswap16_sum v : 0 ≤ v < 2 ^ 16 → bswap16 v = (v mod 256) * 256 + v / 256.
Proof.
  intros Hv. unfold bswap16. pose proof (Zland_byte v 0 ltac:(lia)) as E0. pose proof (Zland_byte v 8 ltac:(lia)) as E1.
  change (Z.shiftl 255 0) with 255 in E0. change (Z.shiftl 255 8) with 65280 in E1.
  rewrite E0, E1, Z.shiftl_mul_pow2, Z.shiftr_div_pow2 by lia. change (2 ^ 0) with 1. change (2 ^ 8) with 256.
  rewrite Z.div_1_r, Z.mul_1_r, Z.div_mul by lia.
  assert (0 ≤ v / 256 < 256) by (split; [apply Z.div_pos|apply Z.div_lt_upper_bound]; lia).
  rewrite (Z.mod_small (v / 256)) by lia. by rewrite (Zlor_add _ _ 8) by lia.
Qed.

Lemma bswap32_sum v :
  0 ≤ v < 2 ^ 32 →
  bswap32 v = (v mod 256) * 2 ^ 24 + ((v / 2 ^ 8) mod 256) * 2 ^ 16 + ((v / 2 ^ 16) mod 256) * 2 ^ 8 + v / 2 ^ 24.
Proof.
  intros Hv. unfold bswap32. pose proof (Zland_byte v 0 ltac:(lia)) as E0. pose proof (Zland_byte v 8 ltac:(lia)) as E1.
  pose proof (Zland_byte v 16 ltac:(lia)) as E2. pose proof (Zland_byte v 24 ltac:(lia)) as E3.
  change (Z.shiftl 255 0) with 0xff in E0. change (Z.shiftl 255 8) with 0xff00 in E1.
  change (Z.shiftl 255 16) with 0xff0000 in E2. change (Z.shiftl 255 24) with 0xff000000 in E3.
  rewrite E0, E1, E2, E3, !Z.shiftl_mul_pow2, !Z.shiftr_div_pow2 by lia.
  rewrite Z.div_1_r, Z.mul_1_r, Z.div_mul by lia.
  set (a := v mod 256). set (b := (v / 2 ^ 8) mod 256). set (c := (v / 2 ^ 16) mod 256). set (d := v / 2 ^ 24).
  assert (0 ≤ d < 256) as Hd by (split; [apply Z.div_pos|apply Z.div_lt_upper_bound]; lia).
  rewrite (Z.mod_small d) by lia.
  assert (0 ≤ b < 256) by (apply Z.mod_pos_bound; lia). assert (0 ≤ c < 256) by (apply Z.mod_pos_bound; lia).
  replace (c * 2 ^ 16 / 2 ^ 8) with (c * 2 ^ 8)
    by (change (2 ^ 16) with (2 ^ 8 * 2 ^ 8); rewrite Z.mul_assoc, Z.div_mul; lia).
  replace (b * 2 ^ 8 * 2 ^ 8) with (b * 2 ^ 16) by lia.
  rewrite (Zlor_add a (b * 2 ^ 16) 24), (Zlor_add c d 8) by lia.
  replace (a * 2 ^ 24 + b * 2 ^ 16) with ((a * 2 ^ 8 + b) * 2 ^ 16) by lia.
  rewrite (Zlor_add _ _ 16) by lia. lia.
Qed.

(** Masking a word keeps it at or below the mask. *)
Lemma land_le_mask x b : 0 ≤ b → 0 ≤ Z.land x b ≤ b.
Proof.
  intros Hb. split; [apply Z.land_nonneg; lia|].
  assert (Z.ldiff (Z.land x b) b = 0) as H0.
  { apply Z.bits_inj'. intros i Hi. rewrite Z.ldiff_spec, Z.land_spec, Z.bits_0. by destruct (Z.testbit x i), (Z.testbit b i). }
  pose proof (Z.sub_nocarry_ldiff b (Z.land x b) H0).
  assert (0 ≤ Z.ldiff b (Z.land x b)) by (apply Z.ldiff_nonneg; lia). lia.
Qed.
