(* ===== verification/Timer.v ===== *)
(** * Timers (dp/core/timer.c, inc/ix/timer.h)

    A hierarchical timing wheel: three wheels of 256 buckets, 16 us, 4 ms and 1 s
    apart.  A bucket is an hlist of timers, linked through the first field of the
    timer.  [timer_run] advances a position in steps of 16 us; it runs the timers
    of the bucket of the finest wheel and, every 256 steps, moves the timers of
    the next bucket of the coarser wheels down. *)

From S2P Require Import Prelude Stddef Heap LinkedList.
Local Open Scope Z_scope.

(** ** Layout *)

Definition TM_HANDLER : Z := 16.
Definition TM_EXPIRES : Z := 24.
Definition TM_FG_ID : Z := 32.
Definition FG_FG_ID : Z := 0.
Definition FG_CUR_CPU : Z := 4.

Definition WHEEL_SHIFT_LOG2 : Z := 3.
Definition WHEEL_SHIFT : Z := Z.shiftl 1 WHEEL_SHIFT_LOG2.
Definition WHEEL_SIZE : Z := Z.shiftl 1 WHEEL_SHIFT.
Definition WHEEL_MASK : Z := WHEEL_SIZE - 1.
Definition WHEEL_COUNT : Z := 3.
Definition MIN_DELAY_SHIFT : Z := 4.
Definition MIN_DELAY_US : Z := Z.shiftl 1 MIN_DELAY_SHIFT.
Definition MAX_DELAY_US : Z := MIN_DELAY_US * Z.shiftl 1 (WHEEL_COUNT * WHEEL_SHIFT).

Definition WHEEL_IDX_TO_SHIFT (idx : Z) : Z := idx * WHEEL_SHIFT + MIN_DELAY_SHIFT.
Definition WHEEL_OFFSET (val idx : Z) : Z := Z.land (Z.shiftr val (WHEEL_IDX_TO_SHIFT idx)) WHEEL_MASK.

(** [struct timerwheel] of a core; the bucket heads lie at [tw] in the store. *)
Record timerwheel := mk_timerwheel { tw_mem : heap; tw_now_us : Z; tw_timer_pos : Z }.
#[export] Instance eta_timerwheel : Settable timerwheel := λ w, mk_timerwheel (tw_mem w) (tw_now_us w) (tw_timer_pos w).

(** ** Single timers *)

Definition timer_init_entry (m : heap) (t handler : ptr) : option heap :=
  m ← sto m t LN_PREV NULL; sto m t TM_HANDLER handler.

Definition timer_pending (m : heap) (t : ptr) : option bool := p ← ld m t LN_PREV; Some (negb (p =? NULL)).

(** [__timer_del] *)
Definition timer_unlink (m : heap) (t : ptr) : option heap := m ← hlist_del m t; sto m t LN_PREV NULL.

Definition timer_del (m : heap) (t : ptr) : option heap :=
  p ← timer_pending m t; if p : bool then timer_unlink m t else Some m.

(** [clz64]; the builtin is undefined at 0. *)
Definition clz64 (x : Z) : option Z := if x =? 0 then None else Some (63 - Z.log2 x).

Section wheel.
Context (tw : ptr).

(** [&wheels[index][offset]]; an index outside the array is an error. *)
Definition bucket (index offset : Z) : ptr := tw + 8 * (WHEEL_SIZE * index + offset).
Definition bucket_at (index offset : Z) : option ptr :=
  if (0 <=? index) && (index <? WHEEL_COUNT) && (0 <=? offset) && (offset <? WHEEL_SIZE)
  then Some (bucket index offset) else None.

Definition timer_expired (w : timerwheel) (t : ptr) : option bool :=
  e ← ld (tw_mem w) t TM_EXPIRES; Some (e <=? tw_now_us w).

Definition timer_insert (cur_fg : ptr) (w : timerwheel) (t : ptr) : option timerwheel :=
  expires ← ld (tw_mem w) t TM_EXPIRES;
  let expire_us := u64 (expires + MIN_DELAY_US) in
  let delay_us := u64 (expire_us - tw_now_us w) in
  z ← clz64 delay_us;
  let index := Z.shiftr (63 - z - MIN_DELAY_SHIFT) WHEEL_SHIFT_LOG2 in
  h ← bucket_at index (WHEEL_OFFSET expire_us index);
  m ← hlist_add_head (tw_mem w) h t;
  fg_id ← (if cur_fg =? NULL then Some (-1) else ld m cur_fg FG_FG_ID);
  m ← sto m t TM_FG_ID fg_id;
  Some (w <| tw_mem := m |>).

(** [__timer_add] at time [now] (from the time stamp counter): the failed
    assertion and the [panic] end the program. *)
Definition timer_add (now : Z) (cur_fg : ptr) (w : timerwheel) (t : ptr) (delay_us : Z) : option (Z * timerwheel) :=
  if negb (0 <? delay_us) then None else
  if MAX_DELAY_US <=? delay_us then None else
  m ← sto (tw_mem w) t TM_EXPIRES (u64 (now + delay_us));
  w ← timer_insert cur_fg (w <| tw_mem := m |>) t;
  Some (0, w).

Definition timer_mod (now : Z) (cur_fg : ptr) (w : timerwheel) (t : ptr) (usecs : Z) : option (Z * timerwheel) :=
  m ← timer_del (tw_mem w) t;
  timer_add now cur_fg (w <| tw_mem := m |>) t usecs.

Definition timer_add_abs (cur_fg : ptr) (w : timerwheel) (t : ptr) (abs_usecs : Z) : option timerwheel :=
  if negb (tw_timer_pos w <? abs_usecs) then None else
  p ← timer_pending (tw_mem w) t;
  if p : bool then None else
  m ← sto (tw_mem w) t TM_EXPIRES abs_usecs;
  timer_insert cur_fg (w <| tw_mem := m |>) t.

Definition timer_add_for_next_tick (cur_fg : ptr) (w : timerwheel) (t : ptr) : option timerwheel :=
  m ← sto (tw_mem w) t TM_EXPIRES (u64 (tw_now_us w + MIN_DELAY_US));
  timer_insert cur_fg (w <| tw_mem := m |>) t.

(** ** Running

    [fgs i] is the word at index [i] of the array of flow groups; the code also
    reads it at -1.  Handlers are other code: [handler f t fg] is a call of the
    function [f]; it works on the wheel and on a state [X] of its own. *)
Context {X : Type} (handler : ptr → ptr → ptr → timerwheel * X → option (timerwheel * X)).
Context (fgs : Z → ptr) (cpu_id : Z).

(** [if (t->fg_id >= 0) eth_fg_set_current(fgs[t->fg_id]); t->handler(t, fgs[t->fg_id]);] *)
Definition timer_call (t : ptr) (s : timerwheel * X) : option (timerwheel * X) :=
  fg_id ← ld (tw_mem s.1) t TM_FG_ID;
  ok ← (if 0 <=? fg_id then c ← ld (tw_mem s.1) (fgs fg_id) FG_CUR_CPU; Some (c =? cpu_id) else Some true);
  if negb (ok : bool) then None else
  f ← ld (tw_mem s.1) t TM_HANDLER;
  fg_id ← ld (tw_mem s.1) t TM_FG_ID;
  handler f t (fgs fg_id) s.

Definition unlink_step (t : ptr) (s : timerwheel * X) : option (timerwheel * X) :=
  m ← timer_unlink (tw_mem s.1) t; Some (s.1 <| tw_mem := m |>, s.2).

Definition timer_run_bucket (fuel : nat) (h : ptr) (s : timerwheel * X) : option (timerwheel * X) :=
  s ← hlist_for_each_safe (λ s : timerwheel * X, tw_mem s.1) (λ t s, s ← unlink_step t s; timer_call t s) fuel h s;
  m ← sto (tw_mem s.1) h LN_NEXT NULL;
  Some (s.1 <| tw_mem := m |>, s.2).

(** The body of [timer_reinsert_bucket]: an expired timer runs, another one is
    inserted again.  The count it keeps is used nowhere. *)
Definition reinsert_step (t : ptr) (s : timerwheel * X) : option (timerwheel * X) :=
  s ← unlink_step t s;
  e ← timer_expired s.1 t;
  if e : bool then timer_call t s else
  fg_id ← ld (tw_mem s.1) t TM_FG_ID;
  w ← timer_insert (if fg_id <? 0 then NULL else fgs fg_id) s.1 t;
  Some (w, s.2).

Definition timer_reinsert_bucket (fuel : nat) (h : ptr) (s : timerwheel * X) : option (timerwheel * X) :=
  hlist_for_each_safe (λ s : timerwheel * X, tw_mem s.1) reinsert_step fuel h s.

(** The loop over the wheels from [wheel] with [n] to go. *)
Fixpoint collapse_loop (fuel : nat) (pos wheel : Z) (n : nat) (s : timerwheel * X) : option (timerwheel * X) :=
  match n with
  | O => Some s
  | S n' =>
      let off := WHEEL_OFFSET pos wheel in
      h ← bucket_at wheel off;
      s ← timer_reinsert_bucket fuel h s;
      if negb (off =? 0) then Some s else collapse_loop fuel pos (wheel + 1) n' s
  end.
Definition timer_collapse (fuel : nat) (pos : Z) (s : timerwheel * X) : option (timerwheel * X) :=
  collapse_loop fuel pos 1 (Z.to_nat (WHEEL_COUNT - 1)) s.

(** The loop of [timer_run]; [n] bounds its rounds. *)
Definition timer_tick (fuel : nat) (pos : Z) (s : timerwheel * X) : option (timerwheel * X) :=
  let high_off := WHEEL_OFFSET pos 0 in
  s ← (if high_off =? 0 then timer_collapse fuel pos s else Some s);
  h ← bucket_at 0 high_off;
  timer_run_bucket fuel h s.

Fixpoint run_loop (fuel n : nat) (pos : Z) (s : timerwheel * X) : option (Z * (timerwheel * X)) :=
  if tw_now_us s.1 <? pos then Some (pos, s) else
  match n with
  | O => None
  | S n' => s ← timer_tick fuel pos s; run_loop fuel n' (u64 (pos + MIN_DELAY_US)) s
  end.

Definition timer_run (fuel n : nat) (now : Z) (s : timerwheel * X) : option (timerwheel * X) :=
  '(pos, s) ← run_loop fuel n (tw_timer_pos s.1) (s.1 <| tw_now_us := now |>, s.2);
  Some (s.1 <| tw_timer_pos := pos |>, s.2).

(** ** Deadlines *)

(** The scan of one wheel from [start] to [end_]. *)
Fixpoint deadline_scan (m : heap) (idx start : Z) (n : nat) : option (option Z) :=
  match n with
  | O => Some None
  | S n' =>
      h ← bucket_at idx (Z.land start WHEEL_MASK);
      e ← hlist_empty m h;
      if e : bool then deadline_scan m idx (start + 1) n' else Some (Some (u64 (Z.shiftl start (WHEEL_IDX_TO_SHIFT idx))))
  end.

Fixpoint deadline_loop (now : Z) (w : timerwheel) (future_us max_deadline_us idx : Z) (n : nat) : option Z :=
  match n with
  | O => Some max_deadline_us
  | S n' =>
      let start := Z.shiftr (tw_now_us w) (WHEEL_IDX_TO_SHIFT idx) in
      let end_ := Z.shiftr future_us (WHEEL_IDX_TO_SHIFT idx) in
      if start =? end_ then Some max_deadline_us else
      let end_ := Z.min end_ (start + WHEEL_SIZE) in
      r ← deadline_scan (tw_mem w) idx (start + 1) (Z.to_nat (end_ - start));
      match r with
      | Some deadline_us => Some (if deadline_us <=? now then 0 else deadline_us - now)
      | None => deadline_loop now w future_us max_deadline_us (idx + 1) n'
      end
  end.
Definition timer_deadline (now : Z) (w : timerwheel) (max_deadline_us : Z) : option Z :=
  deadline_loop now w (u64 (tw_now_us w + max_deadline_us)) max_deadline_us 0 (Z.to_nat WHEEL_COUNT).

(** ** Moving the timers of flow groups to another core *)

(** The body of [timer_collect_fgs] for a timer; the state is the store and the count. *)
Definition collect_step (fg_vector : list Z) (l : ptr) (t : ptr) (s : heap * Z) : option (heap * Z) :=
  fg_id ← ld s.1 t TM_FG_ID;
  if 0 <=? fg_id then
    v ← fg_vector !! Z.to_nat fg_id;
    if negb (v =? 0) then
      m ← hlist_del s.1 t;
      m ← hlist_add_head m l t;
      Some (m, s.2 + 1)
    else Some s
  else Some s.

Fixpoint collect_buckets (fuel : nat) (fg_vector : list Z) (l : ptr) (k : Z) (n : nat) (s : heap * Z) : option (heap * Z) :=
  match n with
  | O => Some s
  | S n' =>
      s ← hlist_for_each_safe fst (collect_step fg_vector l) fuel (bucket 0 k) s;
      collect_buckets fuel fg_vector l (k + 1) n' s
  end.
Definition timer_collect_fgs (fuel : nat) (w : timerwheel) (fg_vector : list Z) (l : ptr) : option (Z * Z * timerwheel) :=
  '(m, count) ← collect_buckets fuel fg_vector l 0 (Z.to_nat (WHEEL_COUNT * WHEEL_SIZE)) (tw_mem w, 0);
  Some (count, tw_timer_pos w, w <| tw_mem := m |>).

Definition reinject_step (now t_base : Z) (t : ptr) (w : timerwheel) : option timerwheel :=
  fg_id ← ld (tw_mem w) t TM_FG_ID;
  if negb (0 <=? fg_id) then None else
  expires ← ld (tw_mem w) t TM_EXPIRES;
  let delay := s64 (expires - t_base) in
  if delay <=? 0 then timer_add_for_next_tick (fgs fg_id) w t
  else '(_, w) ← timer_add now (fgs fg_id) w t delay; Some w.

Definition timer_reinject_fgs (fuel : nat) (now : Z) (w : timerwheel) (l : ptr) (timer_pos : Z) : option timerwheel :=
  let t_base := if tw_timer_pos w <=? timer_pos then tw_timer_pos w else timer_pos in
  hlist_for_each_safe tw_mem (reinject_step now t_base) fuel l w.
End wheel.

Definition timer_init_cpu (now : Z) (w : timerwheel) : timerwheel := w <| tw_now_us := now |> <| tw_timer_pos := now |>.

(** ** The wheel as a family of buckets *)

Definition NB : Z := 768.
Definition upd (W : Z → list ptr) (k : Z) (l : list ptr) : Z → list ptr := λ j, if decide (j = k) then l else W j.

Section rep.
Context (tw : ptr).

(** Bucket [k] holds the timers [W k]; no timer is in two buckets. *)
Record wheel_rep (m : heap) (W : Z → list ptr) : Prop := {
  wr_bucket : ∀ k, 0 ≤ k < NB → hlist_rep m (tw + 8 * k) (W k);
  wr_once : ∀ j k x, 0 ≤ j < NB → 0 ≤ k < NB → x ∈ W j → x ∈ W k → j = k;
  wr_heads : ∀ j k, 0 ≤ j < NB → 0 ≤ k < NB → tw + 8 * j ∉ W k;
}.

(** A timer that is in no bucket. *)
Definition unarmed (W : Z → list ptr) (t : ptr) : Prop :=
  t ≠ NULL ∧ (∀ k, 0 ≤ k < NB → t ∉ W k) ∧ (∀ k, 0 ≤ k < NB → t ≠ tw + 8 * k).

(** The list operations write links only. *)
Definition links_only (m m' : heap) : Prop := ∀ x o, o ≠ LN_NEXT → o ≠ LN_PREV → rd m' x o = rd m x o.

Lemma links_only_trans m1 m2 m3 : links_only m1 m2 → links_only m2 m3 → links_only m1 m3.
Proof. intros H1 H2 x o Hn Hp. by rewrite H2, H1. Qed.

Lemma links_only_sto m x o v m' : o = LN_NEXT ∨ o = LN_PREV → sto m x o v = Some m' → links_only m m'.
Proof. unfold sto. destruct (x =? NULL); [done|]. intros Ho [= <-] y p Hn Hp. apply rd_insert_ne. naive_solver. Qed.

Lemma hlist_add_head_links m h n m' : hlist_add_head m h n = Some m' → links_only m m'.
Proof.
  unfold hlist_add_head. intros (x & _ & (m1 & E1 & (m2 & E2 & (y & _ & (m3 & E3 & E4)%bind_Some)%bind_Some)%bind_Some)%bind_Some)%bind_Some.
  eapply links_only_trans; [eapply links_only_sto, E1; by left|]. eapply links_only_trans; [eapply links_only_sto, E2; by right|].
  eapply links_only_trans; [|eapply links_only_sto, E4; by left].
  destruct (y =? NULL); [injection E3 as <-; done|]. eapply links_only_sto, E3. by right.
Qed.

Lemma hlist_del_links m n m' : hlist_del m n = Some m' → links_only m m'.
Proof.
  unfold hlist_del. intros (y & _ & (x & _ & (m1 & E1 & (x' & _ & (y' & _ & E2)%bind_Some)%bind_Some)%bind_Some)%bind_Some)%bind_Some.
  eapply links_only_trans; [eapply links_only_sto, E1; by left|].
  destruct (x' =? NULL); [injection E2 as <-; done|]. eapply links_only_sto, E2. by right.
Qed.

Lemma hlist_rep_frame X m m' h l : hlist_rep m h l → same_outside X m m' → (∀ x, x ∈ h :: l → x ∉ X) → hlist_rep m' h l.
Proof.
  intros Hl Hs Hd. eapply dlist_frame; [| |exact Hl].
  - intros x Hx. by apply Hs, Hd.
  - intros x Hx Hx0. apply Hs, Hd. rewrite elem_of_app, list_elem_of_singleton in Hx. destruct Hx as [Hx|Hx]; [|done]. apply elem_of_cons. by right.
Qed.

(** Buckets other than [k] do not see a change of the nodes of bucket [k] and of
    unarmed timers. *)
Lemma wheel_rep_change m m' W k l X :
  wheel_rep m W → 0 ≤ k < NB → hlist_rep m' (tw + 8 * k) l →
  same_outside (X ++ (tw + 8 * k) :: W k) m m' → (∀ x, x ∈ l → x ∈ X ∨ x ∈ W k) → (∀ x, x ∈ X → unarmed W x) →
  wheel_rep m' (upd W k l).
Proof.
  intros [Hb Ho Hh] Hk Hl Hs Hsub HX. split.
  - intros j Hj. unfold upd. case_decide as Hjk; [by subst j|]. eapply hlist_rep_frame; [by apply Hb|exact Hs|].
    intros x Hx Hin. rewrite elem_of_cons in Hx. rewrite elem_of_app, elem_of_cons in Hin.
    destruct Hin as [Hin|[Hin|Hin]].
    + destruct (HX x Hin) as (_ & H1 & H2). destruct Hx as [->|Hx]; [by eapply H2|by apply (H1 j)].
    + subst x. destruct Hx as [Hx|Hx]; [lia|]. by apply (Hh k j).
    + destruct Hx as [->|Hx]; [by apply (Hh j k)|]. apply Hjk. by eapply Ho.
  - assert (∀ j x, 0 ≤ j < NB → x ∈ upd W k l j → (j = k ∧ x ∈ X) ∨ x ∈ W j) as Hin.
    { intros j x Hj. unfold upd. case_decide; [subst|tauto]. intros Hx. destruct (Hsub x Hx); tauto. }
    intros i j x Hi Hj Hxi Hxj. destruct (Hin i x Hi Hxi) as [[-> H1]|H1], (Hin j x Hj Hxj) as [[-> H2]|H2]; [done| | |by eapply Ho].
    + destruct (HX x H1) as (_ & H3 & _). exfalso. by apply (H3 j).
    + destruct (HX x H2) as (_ & H3 & _). exfalso. by apply (H3 i).
  - intros i j Hi Hj. unfold upd. case_decide; [subst|by apply Hh]. intros Hx. destruct (Hsub _ Hx) as [H1|H1]; [|by apply (Hh i k)].
    destruct (HX _ H1) as (_ & _ & H2). by apply (H2 i).
Qed.

(** Only the heads, the armed timers and [t] may change. *)
Definition wheel_frame (W : Z → list ptr) (t : ptr) (m m' : heap) : Prop :=
  ∀ x o, x ≠ t → (∀ k, 0 ≤ k < NB → x ≠ tw + 8 * k ∧ x ∉ W k) → rd m' x o = rd m x o.

Lemma wheel_add_ok m W k t :
  wheel_rep m W → 0 ≤ k < NB → unarmed W t →
  ∃ m', hlist_add_head m (tw + 8 * k) t = Some m' ∧ wheel_rep m' (upd W k (t :: W k)) ∧ links_only m m' ∧
    (∀ x, unarmed W x → x ≠ t → rd m' x LN_PREV = rd m x LN_PREV) ∧ rd m' t LN_PREV ≠ NULL ∧ wheel_frame W t m m'.
Proof.
  intros Hw Hk Ht. pose proof Ht as (Ht0 & Ht1 & Ht2).
  destruct (hlist_add_head_ok m (tw + 8 * k) (W k) t) as (m' & E & Hl & Hs); [by apply Hw| |done|].
  { rewrite elem_of_cons. intros [Hx|Hx]; [by apply (Ht2 k)|by apply (Ht1 k)]. }
  exists m'. split; [done|]. split.
  - eapply (wheel_rep_change m m' W k _ [t]); try done.
    + intros x. rewrite elem_of_cons, list_elem_of_singleton. tauto.
    + by intros x ->%list_elem_of_singleton.
  - split; [by eapply hlist_add_head_links|]. split; [|split].
    + intros x (_ & Hx1 & Hx2) Hxt. apply Hs. rewrite !elem_of_cons. intros [Hx|[Hx|Hx]]; [done|by apply (Hx2 k)|by apply (Hx1 k)].
    + destruct (dlist_links m' (tw + 8 * k) [] (t :: W k) NULL (tw + 8 * k) t Hl eq_refl eq_refl) as (_ & Hh & _ & Hp). by rewrite (Hp Ht0).
    + intros x o Hxt Hx. destruct (Hx k Hk) as [H1 H2]. apply Hs. rewrite !elem_of_cons. tauto.
Qed.

Lemma timer_unlink_ok m W k l1 t l2 :
  wheel_rep m W → 0 ≤ k < NB → W k = l1 ++ t :: l2 →
  ∃ m', timer_unlink m t = Some m' ∧ wheel_rep m' (upd W k (l1 ++ l2)) ∧ links_only m m' ∧ unarmed (upd W k (l1 ++ l2)) t ∧
    rd m' t LN_PREV = NULL ∧ (∀ x, unarmed W x → rd m' x LN_PREV = rd m x LN_PREV) ∧ wheel_frame W t m m'.
Proof.
  intros Hw Hk EW. pose proof (wr_bucket _ _ Hw k Hk) as Hl. rewrite EW in Hl.
  assert (t ∈ W k) as Htk by (rewrite EW; apply elem_of_app; right; apply elem_of_cons; by left).
  assert (t ≠ NULL) as Ht0 by (eapply dlist_nonnull; [exact Hl|right; by rewrite <-EW]).
  destruct (hlist_del_ok m (tw + 8 * k) l1 l2 t Hl) as (m1 & E1 & Hl1 & Hs1). unfold timer_unlink. rewrite E1. cbn [mbind option_bind].
  rewrite sto_some by done. eexists. split; [done|].
  pose proof (dl_nodup _ _ _ _ Hl) as Hnd. rewrite app_comm_cons, <-Permutation_middle in Hnd. apply NoDup_cons in Hnd as [Hnt _].
  assert (hlist_rep (<[(t, LN_PREV):=NULL]> m1) (tw + 8 * k) (l1 ++ l2)) as Hl2.
  { eapply (hlist_rep_frame [t]); [exact Hl1|apply same_outside_insert; by apply list_elem_of_singleton|].
    intros x Hx ->%list_elem_of_singleton. done. }
  assert (same_outside ((tw + 8 * k) :: W k) m (<[(t, LN_PREV):=NULL]> m1)) as Hs.
  { eapply same_outside_trans; [eapply same_outside_weaken; [exact Hs1|]|apply same_outside_insert; apply elem_of_cons; by right].
    intros x. rewrite EW, !elem_of_cons, !elem_of_app, elem_of_cons. tauto. }
  split; [|split; [|split; [|split; [|split]]]].
  - eapply (wheel_rep_change m _ W k _ []); try done.
    + intros x Hx. right. rewrite EW. rewrite elem_of_app in *. rewrite elem_of_cons. tauto.
    + intros x Hx. by apply elem_of_nil in Hx.
  - eapply links_only_trans; [by eapply hlist_del_links|]. intros x o Hn Hp. apply rd_insert_ne. by right.
  - split; [done|]. split.
    + intros j Hj. unfold upd. case_decide as Hjk; [rewrite elem_of_app, elem_of_cons in Hnt; rewrite elem_of_app; tauto|]. intros Hx. apply Hjk. by apply (wr_once _ _ Hw j k t).
    + intros j Hj E. apply (wr_heads _ _ Hw j k Hj Hk). by rewrite <-E.
  - apply rd_insert_eq.
  - intros x (_ & H1 & H2). apply Hs. rewrite elem_of_cons. intros [Hx|Hx]; [by apply (H2 k)|by apply (H1 k)].
  - intros x o _ Hx. destruct (Hx k Hk) as [H1 H2]. apply Hs. rewrite elem_of_cons. tauto.
Qed.

(** A pending timer has a back link. *)
Lemma armed_prev m W k t : wheel_rep m W → 0 ≤ k < NB → t ∈ W k → t ≠ NULL ∧ rd m t LN_PREV ≠ NULL.
Proof.
  intros Hw Hk (l1 & l2 & E)%list_elem_of_split. pose proof (wr_bucket _ _ Hw k Hk) as Hl. rewrite E in Hl.
  assert (t ≠ NULL) as Ht by (eapply dlist_nonnull; [exact Hl|right; apply elem_of_app; right; apply elem_of_cons; by left]).
  destruct (last_cons_some (tw + 8 * k) l1) as (p & Hp & _).
  destruct (dlist_links m _ l1 (t :: l2) NULL p t Hl Hp eq_refl) as (_ & Hp0 & _ & H). by rewrite (H Ht).
Qed.
End rep.

(** ** Placement *)

(** The wheel for a delay (with the 16 us that are added), and the bucket. *)
Definition wheel_of (d : Z) : Z := if d <? 4096 then 0 else if d <? 1048576 then 1 else 2.
Definition slot_of (i x : Z) : Z := WHEEL_SIZE * i + x mod WHEEL_SIZE.
Definition place (now e : Z) : Z :=
  let i := wheel_of (e + MIN_DELAY_US - now) in slot_of i ((e + MIN_DELAY_US) / 2 ^ WHEEL_IDX_TO_SHIFT i).

Lemma wheel_of_index d : 16 ≤ d < 2 ^ 28 → Z.shiftr (63 - (63 - Z.log2 d) - MIN_DELAY_SHIFT) WHEEL_SHIFT_LOG2 = wheel_of d.
Proof.
  intros Hd. rewrite Z.shiftr_div_pow2 by done. change (2 ^ WHEEL_SHIFT_LOG2) with 8. unfold MIN_DELAY_SHIFT, wheel_of.
  assert (∀ a b, 0 ≤ a → 2 ^ a ≤ d < 2 ^ b → a ≤ Z.log2 d < b) as Hlog.
  { intros a b Ha Hab. split; [by apply Z.log2_le_pow2; lia|]. apply Z.log2_lt_pow2; lia. }
  destruct (Z.ltb_spec d 4096); [|destruct (Z.ltb_spec d 1048576)].
  - specialize (Hlog 4 12 ltac:(lia) ltac:(lia)). apply Z.div_small. lia.
  - specialize (Hlog 12 20 ltac:(lia) ltac:(lia)). symmetry. apply (Z.div_unique_pos _ _ _ (Z.log2 d - 12)); lia.
  - specialize (Hlog 20 28 ltac:(lia) ltac:(lia)). symmetry. apply (Z.div_unique_pos _ _ _ (Z.log2 d - 20)); lia.
Qed.

Lemma wheel_of_range d : 0 ≤ wheel_of d ≤ 2.
Proof. unfold wheel_of. repeat case_match; lia. Qed.

Lemma WHEEL_OFFSET_mod x i : 0 ≤ i → WHEEL_OFFSET x i = (x / 2 ^ WHEEL_IDX_TO_SHIFT i) mod WHEEL_SIZE.
Proof.
  intros Hi. unfold WHEEL_OFFSET. change WHEEL_MASK with (Z.ones 8). rewrite Z.land_ones by lia.
  rewrite Z.shiftr_div_pow2; [done|]. unfold WHEEL_IDX_TO_SHIFT. change WHEEL_SHIFT with 8. unfold MIN_DELAY_SHIFT. lia.
Qed.

Lemma slot_of_bucket tw i x : 0 ≤ i ≤ 2 → bucket_at tw i (x mod WHEEL_SIZE) = Some (tw + 8 * slot_of i x) ∧ 0 ≤ slot_of i x < NB.
Proof.
  intros Hi. unfold bucket_at, bucket, slot_of, NB, WHEEL_COUNT. change WHEEL_SIZE with 256.
  pose proof (Z.mod_pos_bound x 256 ltac:(lia)).
  rewrite !(proj2 (Z.leb_le _ _)), !(proj2 (Z.ltb_lt _ _)) by lia. split; [done|lia].
Qed.

Section insert.
Context (tw : ptr).

(** What [timer_insert] does to a timer [t] that expires at [e]. *)
Lemma timer_insert_ok cur_fg w W t e :
  wheel_rep tw (tw_mem w) W → unarmed tw W t → rd (tw_mem w) t TM_EXPIRES = e →
  0 ≤ tw_now_us w ≤ e → e + MIN_DELAY_US < U64_MOD → e + MIN_DELAY_US - tw_now_us w < 2 ^ 28 →
  ∃ m', timer_insert tw cur_fg w t = Some (w <| tw_mem := m' |>) ∧
    wheel_rep tw m' (upd W (place (tw_now_us w) e) (t :: W (place (tw_now_us w) e))) ∧ 0 ≤ place (tw_now_us w) e < NB ∧
    rd m' t LN_PREV ≠ NULL ∧ (∀ x o, o ≠ LN_NEXT → o ≠ LN_PREV → o ≠ TM_FG_ID ∨ x ≠ t → rd m' x o = rd (tw_mem w) x o) ∧
    (∀ x, unarmed tw W x → x ≠ t → rd m' x LN_PREV = rd (tw_mem w) x LN_PREV) ∧
    (cur_fg = NULL → rd m' t TM_FG_ID = -1) ∧ wheel_frame tw W t (tw_mem w) m'.
Proof.
  intros Hw Ht He Hn Hb Hd. pose proof Ht as (Ht0 & _ & _). unfold timer_insert. rewrite ld_some, He by done. cbn [mbind option_bind].
  change MIN_DELAY_US with 16 in *. rewrite !u64_small by lia. unfold clz64. rewrite (proj2 (Z.eqb_neq (e + 16 - tw_now_us w) 0)) by lia. cbn [mbind option_bind].
  rewrite wheel_of_index by lia. set (i := wheel_of _). pose proof (wheel_of_range (e + 16 - tw_now_us w)) as Hi. fold i in Hi.
  rewrite WHEEL_OFFSET_mod by lia. destruct (slot_of_bucket tw i ((e + 16) / 2 ^ WHEEL_IDX_TO_SHIFT i) Hi) as [-> Hk].
  cbn [mbind option_bind]. set (k := slot_of _ _) in *. change (place (tw_now_us w) e) with k.
  destruct (wheel_add_ok tw (tw_mem w) W k t Hw Hk Ht) as (m1 & -> & Hw1 & Hlinks & Hother & Hp1 & Hfr). cbn [mbind option_bind].
  assert (∃ f, (if cur_fg =? NULL then Some (-1) else ld m1 cur_fg FG_FG_ID) = Some f ∧ (cur_fg = NULL → f = -1)) as (f & -> & Hf1).
  { destruct (Z.eqb_spec cur_fg NULL); [by eexists|]. rewrite ld_some by done. by eexists. }
  cbn [mbind option_bind]. rewrite sto_some by done. cbn [mbind option_bind]. eexists. split; [done|].
  assert (∀ x o, o ≠ TM_FG_ID → rd (<[(t, TM_FG_ID):=f]> m1) x o = rd m1 x o) as Hf by (intros; apply rd_insert_ne; naive_solver).
  split; [|split; [done|split; [by rewrite Hf|split; [|split; [|split]]]]].
  - destruct Hw1 as [H1 H2 H3]. split; [|done..]. intros j Hj. eapply dlist_frame; [| |by apply H1]; intros; by apply Hf.
  - intros x o Ho1 Ho2 Hor. rewrite rd_insert_ne by naive_solver. by apply Hlinks.
  - intros x Hx Hxt. rewrite Hf by done. by apply Hother.
  - intros Hc. rewrite rd_insert_eq. by apply Hf1.
  - intros x o Hxt Hx. rewrite rd_insert_ne by (left; congruence). by apply Hfr.
Qed.

(** The bucket is reached after the timer has expired for the finest wheel, and in
    time to be moved down for the others, and within one turn of the wheel. *)
Lemma place_reached now e i x :
  0 ≤ now ≤ e → e + MIN_DELAY_US - now < 2 ^ 28 →
  i = wheel_of (e + MIN_DELAY_US - now) → x = (e + MIN_DELAY_US) / 2 ^ WHEEL_IDX_TO_SHIFT i →
  place now e = slot_of i x ∧ now / 2 ^ WHEEL_IDX_TO_SHIFT i < x ≤ now / 2 ^ WHEEL_IDX_TO_SHIFT i + WHEEL_SIZE ∧
  x * 2 ^ WHEEL_IDX_TO_SHIFT i ≤ e + MIN_DELAY_US ∧ (i = 0 → e < x * MIN_DELAY_US).
Proof.
  change MIN_DELAY_US with 16. change WHEEL_SIZE with 256. intros Hn Hd Hi Hx. split; [unfold place; change MIN_DELAY_US with 16; by subst|].
  assert (∃ g, 2 ^ WHEEL_IDX_TO_SHIFT i = g ∧ 0 < g ∧ g ≤ e + 16 - now < g * 256 ∧ (i = 0 → g = 16)) as (g & Eg & Hg & Hdg & Hg0).
  { subst i. unfold wheel_of, WHEEL_IDX_TO_SHIFT, MIN_DELAY_SHIFT. change WHEEL_SHIFT with 8.
    destruct (Z.ltb_spec (e + 16 - now) 4096); [exists 16|destruct (Z.ltb_spec (e + 16 - now) 1048576); [exists 4096|exists 1048576]];
      split_and!; done || lia. }
  rewrite Eg in *. subst x. pose proof (Z.div_mod now g ltac:(lia)). pose proof (Z.mod_pos_bound now g Hg).
  pose proof (Z.div_mod (e + 16) g ltac:(lia)). pose proof (Z.mod_pos_bound (e + 16) g Hg).
  set (a := now / g) in *. set (b := (e + 16) / g) in *. split_and!; [nia|nia|nia|]. intros Hi0. specialize (Hg0 Hi0). subst g. lia.
Qed.
End insert.

(** ** Arming and disarming *)

Inductive timer_op :=
  | OAdd (now : Z) (t : ptr) (usecs : Z)
  | OMod (now : Z) (t : ptr) (usecs : Z)
  | ONextTick (t : ptr)
  | ODel (t : ptr).

Section api.
Context (tw cur_fg : ptr) (U : list ptr).

Definition timer_step (op : timer_op) (w : timerwheel) : option timerwheel :=
  match op with
  | OAdd now t us => '(_, w) ← timer_add tw now cur_fg w t us; Some w
  | OMod now t us => '(_, w) ← timer_mod tw now cur_fg w t us; Some w
  | ONextTick t => timer_add_for_next_tick tw cur_fg w t
  | ODel t => m ← timer_del (tw_mem w) t; Some (w <| tw_mem := m |>)
  end.
Fixpoint timer_steps (ops : list timer_op) (w : timerwheel) : option timerwheel :=
  match ops with [] => Some w | op :: ops => w ← timer_step op w; timer_steps ops w end.

(** The armed timers with their expiration times. *)
Definition armed_step (now_us : Z) (op : timer_op) (A : gmap Z Z) : gmap Z Z :=
  match op with
  | OAdd now t us | OMod now t us => <[t := now + us]> A
  | ONextTick t => <[t := now_us + MIN_DELAY_US]> A
  | ODel t => delete t A
  end.
Definition armed_steps (now_us : Z) (ops : list timer_op) (A : gmap Z Z) : gmap Z Z :=
  foldl (λ A op, armed_step now_us op A) A ops.

(** Delays that fit the wheel, and no timer added twice. *)
Definition delay_ok (now_us now us : Z) : Prop :=
  0 < us ∧ now_us ≤ now ∧ now + us + MIN_DELAY_US < U64_MOD ∧ now + us + MIN_DELAY_US - now_us < 2 ^ 28.
Definition timer_op_ok (now_us : Z) (op : timer_op) (A : gmap Z Z) : Prop :=
  match op with
  | OAdd now t us => t ∈ U ∧ A !! t = None ∧ delay_ok now_us now us
  | OMod now t us => t ∈ U ∧ delay_ok now_us now us
  | ONextTick t => t ∈ U ∧ A !! t = None
  | ODel t => t ∈ U
  end.
Fixpoint timer_ops_ok (now_us : Z) (ops : list timer_op) (A : gmap Z Z) : Prop :=
  match ops with [] => True | op :: ops => timer_op_ok now_us op A ∧ timer_ops_ok now_us ops (armed_step now_us op A) end.

(** The wheel holds exactly the armed timers, each in its bucket. *)
Record timers_rep (w : timerwheel) (A : gmap Z Z) (W : Z → list ptr) : Prop := {
  tr_wheel : wheel_rep tw (tw_mem w) W;
  tr_timer : ∀ t, t ∈ U → t ≠ NULL ∧ ∀ k, 0 ≤ k < NB → t ≠ tw + 8 * k;
  tr_now : 0 ≤ tw_now_us w ∧ tw_now_us w + 2 * MIN_DELAY_US < U64_MOD;
  tr_armed : ∀ t e, A !! t = Some e → t ∈ U ∧ rd (tw_mem w) t TM_EXPIRES = e ∧ tw_now_us w ≤ e ∧ e + MIN_DELAY_US - tw_now_us w < 2 ^ 28;
  tr_bucket : ∀ t k, 0 ≤ k < NB → t ∈ W k ↔ ∃ e, A !! t = Some e ∧ k = place (tw_now_us w) e;
  tr_idle : ∀ t, t ∈ U → A !! t = None → rd (tw_mem w) t LN_PREV = NULL;
}.

Lemma place_range now e : 0 ≤ place now e < NB.
Proof. unfold place. by apply (slot_of_bucket tw), wheel_of_range. Qed.

Lemma idle_unarmed w A W t : timers_rep w A W → t ∈ U → A !! t = None → unarmed tw W t.
Proof.
  intros Hr Ht HA. destruct (tr_timer _ _ _ Hr t Ht) as [H1 H2]. split; [done|]. split; [|done].
  intros k Hk Hx. apply (tr_bucket _ _ _ Hr) in Hx as (e & He & _); [congruence|done].
Qed.

Lemma timers_rep_pending w A W t : timers_rep w A W → t ∈ U → timer_pending (tw_mem w) t = Some (bool_decide (is_Some (A !! t))).
Proof.
  intros Hr Ht. destruct (tr_timer _ _ _ Hr t Ht) as [H0 _]. unfold timer_pending. rewrite ld_some by done. cbn [mbind option_bind]. f_equal.
  destruct (A !! t) as [e|] eqn:E.
  - rewrite bool_decide_true by done. destruct (armed_prev tw (tw_mem w) W (place (tw_now_us w) e) t) as [_ Hp].
    + apply Hr.
    + apply place_range.
    + apply (tr_bucket _ _ _ Hr); [apply place_range|]. by exists e.
    + by rewrite (proj2 (Z.eqb_neq _ _) Hp).
  - rewrite bool_decide_false by (by intros []). by rewrite (tr_idle _ _ _ Hr t Ht E).
Qed.

Lemma timers_rep_in w A W t k : timers_rep w A W → 0 ≤ k < NB → t ∈ W k → t ∈ U.
Proof. intros Hr Hk (e & He & _)%(tr_bucket _ _ _ Hr t k Hk). by apply (tr_armed _ _ _ Hr t e). Qed.

(** Calls change the timers and the heads of the wheel only. *)
Definition timers_frame (m m' : heap) : Prop :=
  ∀ x o, x ∉ U → (∀ k, 0 ≤ k < NB → x ≠ tw + 8 * k) → rd m' x o = rd m x o.

Lemma timers_frame_refl m : timers_frame m m.
Proof. done. Qed.

Lemma timers_frame_trans m1 m2 m3 : timers_frame m1 m2 → timers_frame m2 m3 → timers_frame m1 m3.
Proof. intros H1 H2 x o Hx Hh. by rewrite H2, H1. Qed.

(** Arming an idle timer. *)
Lemma arm_ok w A W t e :
  timers_rep w A W → t ∈ U → A !! t = None → tw_now_us w ≤ e → e + MIN_DELAY_US < U64_MOD → e + MIN_DELAY_US - tw_now_us w < 2 ^ 28 →
  ∃ m' W', timer_insert tw cur_fg (w <| tw_mem := <[(t, TM_EXPIRES) := e]> (tw_mem w) |>) t = Some (w <| tw_mem := m' |>) ∧
    timers_rep (w <| tw_mem := m' |>) (<[t := e]> A) W' ∧ timers_frame (tw_mem w) m'.
Proof.
  intros Hr Ht HA Hn Hb Hd. pose proof (idle_unarmed w A W t Hr Ht HA) as Hun.
  set (m1 := <[(t, TM_EXPIRES) := e]> (tw_mem w)).
  assert (∀ x o, o ≠ TM_EXPIRES ∨ x ≠ t → rd m1 x o = rd (tw_mem w) x o) as Hm1 by (intros; apply rd_insert_ne; naive_solver).
  assert (wheel_rep tw m1 W) as Hw1.
  { destruct (tr_wheel _ _ _ Hr) as [H1 H2 H3]. split; [|done..]. intros j Hj.
    eapply dlist_frame; [| |by apply H1]; intros; apply Hm1; by left. }
  destruct (timer_insert_ok tw cur_fg (w <| tw_mem := m1 |>) W t e) as (m' & E & Hw' & Hk & Hp & Hf & Ho & _ & Hfr); try done; rsimpl.
  { apply rd_insert_eq. }
  { pose proof (tr_now _ _ _ Hr). lia. }
  exists m'. eexists. split; [exact E|]. set (k := place (tw_now_us w) e) in *. split.
  2: { intros x o Hx Hh. rewrite Hfr; [apply Hm1; right; by intros ->|by intros ->|]. intros j Hj. split; [by apply Hh|].
       intros Hx'. apply Hx. by eapply timers_rep_in. }
  split; rsimpl; [exact Hw'|apply (tr_timer _ _ _ Hr)|apply (tr_now _ _ _ Hr)|..].
  - intros x e' [[-> ->]|[Hx He]]%lookup_insert_Some.
    + split; [done|]. split; [|done]. rewrite Hf by (done || left; done). apply rd_insert_eq.
    + destruct (tr_armed _ _ _ Hr x e' He) as (H1 & H2 & H3). split; [done|]. split; [|done].
      rewrite Hf by (done || left; done). rewrite Hm1 by (right; congruence). done.
  - intros x j Hj. unfold upd. case_decide as Hjk.
    + subst j. rewrite elem_of_cons, (tr_bucket _ _ _ Hr) by done. split.
      * intros [->|(e' & He & Hk')]; [exists e; by rewrite lookup_insert_eq|]. exists e'. rewrite lookup_insert_ne by congruence. done.
      * intros (e' & [[-> ->]|[Hx He]]%lookup_insert_Some & Hk'); [by left|]. right. by exists e'.
    + rewrite (tr_bucket _ _ _ Hr) by done. split.
      * intros (e' & He & Hk'). exists e'. rewrite lookup_insert_ne by congruence. done.
      * intros (e' & [[-> ->]|[Hx He]]%lookup_insert_Some & Hk'); [done|]. by exists e'.
  - intros x Hx [HA' Hne]%lookup_insert_None. rewrite Ho; [|by eapply idle_unarmed|done]. rewrite Hm1 by (by left). by apply (tr_idle _ _ _ Hr).
Qed.

(** Disarming. *)
Lemma disarm_ok w A W t :
  timers_rep w A W → t ∈ U →
  ∃ m' W', timer_del (tw_mem w) t = Some m' ∧ timers_rep (w <| tw_mem := m' |>) (delete t A) W' ∧ timers_frame (tw_mem w) m'.
Proof.
  intros Hr Ht. unfold timer_del. rewrite (timers_rep_pending w A W t Hr Ht). cbn [mbind option_bind].
  destruct (A !! t) as [e|] eqn:HA.
  2: { rewrite bool_decide_false by (by intros []). exists (tw_mem w), W. split; [done|]. rewrite delete_id by done. split; [by destruct w|apply timers_frame_refl]. }
  rewrite bool_decide_true by done. set (k := place (tw_now_us w) e). pose proof (place_range (tw_now_us w) e) as Hk. fold k in Hk.
  assert (t ∈ W k) as (l1 & l2 & EW)%list_elem_of_split by (apply (tr_bucket _ _ _ Hr); [done|]; by exists e).
  destruct (timer_unlink_ok tw (tw_mem w) W k l1 t l2 (tr_wheel _ _ _ Hr) Hk EW) as (m' & -> & Hw' & Hlinks & Hun & Hp & Ho & Hfr).
  exists m'. eexists. split; [done|]. split.
  2: { intros x o Hx Hh. apply Hfr; [by intros ->|]. intros j Hj. split; [by apply Hh|]. intros Hx'. apply Hx. by eapply timers_rep_in. }
  split; rsimpl; [exact Hw'|apply (tr_timer _ _ _ Hr)|apply (tr_now _ _ _ Hr)|..].
  - intros x e' [Hx He]%lookup_delete_Some. rewrite Hlinks by done. by apply (tr_armed _ _ _ Hr).
  - intros x j Hj. destruct (decide (x = t)) as [->|Hxt].
    { split; [intros Hx; exfalso; by apply (proj1 (proj2 Hun) j)|]. intros (e' & He & _). by rewrite lookup_delete_eq in He. }
    rewrite lookup_delete_ne by done. rewrite <-(tr_bucket _ _ _ Hr x j Hj). unfold upd. case_decide as Hjk; [subst j|done].
    rewrite EW, !elem_of_app, elem_of_cons. tauto.
  - intros x Hx Hnone. destruct (decide (x = t)) as [->|Hxt]; [done|]. rewrite lookup_delete_ne in Hnone by done.
    rewrite Ho by (by eapply idle_unarmed). by apply (tr_idle _ _ _ Hr).
Qed.

Lemma timer_add_ok w A W now t us :
  timers_rep w A W → t ∈ U → A !! t = None → delay_ok (tw_now_us w) now us →
  ∃ m' W', timer_add tw now cur_fg w t us = Some (0, w <| tw_mem := m' |>) ∧ timers_rep (w <| tw_mem := m' |>) (<[t := now + us]> A) W' ∧
    timers_frame (tw_mem w) m'.
Proof.
  intros Hr Ht HA (H1 & H2 & H3 & H4). change MIN_DELAY_US with 16 in *. pose proof (tr_now _ _ _ Hr).
  destruct (tr_timer _ _ _ Hr t Ht) as [H0 _]. unfold timer_add. rewrite (proj2 (Z.ltb_lt _ _)) by lia. cbn [negb].
  change MAX_DELAY_US with (2 ^ 28). rewrite (proj2 (Z.leb_gt _ _)) by lia. rewrite sto_some by done. cbn [mbind option_bind].
  rewrite u64_small by lia.
  destruct (arm_ok w A W t (now + us) Hr Ht HA) as (m' & W' & E & Hr' & Hf); change MIN_DELAY_US with 16 in *; try lia.
  rewrite E. cbn [mbind option_bind]. by exists m', W'.
Qed.

Lemma timer_mod_ok w A W now t us :
  timers_rep w A W → t ∈ U → delay_ok (tw_now_us w) now us →
  ∃ m' W', timer_mod tw now cur_fg w t us = Some (0, w <| tw_mem := m' |>) ∧ timers_rep (w <| tw_mem := m' |>) (<[t := now + us]> A) W' ∧
    timers_frame (tw_mem w) m'.
Proof.
  intros Hr Ht Hd. unfold timer_mod. destruct (disarm_ok w A W t Hr Ht) as (m1 & W1 & -> & Hr1 & Hf1). cbn [mbind option_bind].
  destruct (timer_add_ok _ _ _ now t us Hr1 Ht) as (m' & W' & E & Hr' & Hf); [by rewrite lookup_delete_eq|done|]. rewrite E.
  exists m', W'. split; [by destruct w|]. rewrite insert_delete_eq in Hr'. split; [done|]. by eapply timers_frame_trans.
Qed.

Lemma timer_step_ok w A W op : timers_rep w A W → timer_op_ok (tw_now_us w) op A →
  ∃ m' W', timer_step op w = Some (w <| tw_mem := m' |>) ∧ timers_rep (w <| tw_mem := m' |>) (armed_step (tw_now_us w) op A) W'.
Proof.
  intros Hr Hop. destruct op as [now t us|now t us|t|t]; cbn [timer_step armed_step timer_op_ok] in *.
  - destruct Hop as (Ht & HA & Hd). destruct (timer_add_ok w A W now t us Hr Ht HA Hd) as (m' & W' & -> & Hr' & _). by exists m', W'.
  - destruct Hop as [Ht Hd]. destruct (timer_mod_ok w A W now t us Hr Ht Hd) as (m' & W' & -> & Hr' & _). by exists m', W'.
  - destruct Hop as [Ht HA]. destruct (tr_timer _ _ _ Hr t Ht) as [H0 _]. unfold timer_add_for_next_tick.
    rewrite sto_some by done. cbn [mbind option_bind]. pose proof (tr_now _ _ _ Hr) as Hn. change MIN_DELAY_US with 16 in *.
    rewrite u64_small by lia. destruct (arm_ok w A W t (tw_now_us w + 16) Hr Ht HA) as (m' & W' & E & Hr' & _); change MIN_DELAY_US with 16; try lia.
    by exists m', W'.
  - destruct (disarm_ok w A W t Hr Hop) as (m' & W' & -> & Hr' & _). by exists m', W'.
Qed.

(** The representation looks at timers and heads only. *)
Lemma timers_rep_frame w A W m' : timers_rep w A W → (∀ x o, x ∈ U ∨ (∃ k, 0 ≤ k < NB ∧ x = tw + 8 * k) → o ≠ TM_HANDLER → rd m' x o = rd (tw_mem w) x o) →
  timers_rep (w <| tw_mem := m' |>) A W.
Proof.
  intros Hr Hm. pose proof Hr as [[H1 H2 H3] H4 H5 H6 H7 H8]. split; rsimpl; [split; [|done..]|done|done| |done|].
  - intros k Hk. eapply dlist_frame; [| |by apply H1].
    + intros x [->|Hx]%elem_of_cons; apply Hm; [right; by exists k|done|left; by eapply timers_rep_in|done].
    + intros x Hx Hx0. apply Hm; [|done]. rewrite elem_of_app, list_elem_of_singleton in Hx. destruct Hx as [Hx|Hx]; [left; by eapply timers_rep_in|done].
  - intros t e He. destruct (H6 t e He) as (Ht & Hexp & Hb). rewrite Hm by (done || by left). done.
  - intros t Ht HA. rewrite Hm by (done || by left). by apply H8.
Qed.

End api.

(** ** Running the timers that are due

    For handlers that do not touch the wheel, and timers of no flow group. *)

Section due.
Context (tw : ptr) (U : list ptr).

Record wst (m : heap) (W : Z → list ptr) : Prop := {
  ws_wheel : wheel_rep tw m W;
  ws_timer : ∀ t, t ∈ U → t ≠ NULL ∧ ∀ k, 0 ≤ k < NB → t ≠ tw + 8 * k;
  ws_in : ∀ k t, 0 ≤ k < NB → t ∈ W k → t ∈ U ∧ rd m t TM_FG_ID = -1;
  ws_idle : ∀ t, t ∈ U → (∀ k, 0 ≤ k < NB → t ∉ W k) → rd m t LN_PREV = NULL;
}.

(** Everything but links and flow group ids is kept. *)
Definition kept (m m' : heap) : Prop := ∀ x o, o ≠ LN_NEXT → o ≠ LN_PREV → o ≠ TM_FG_ID → rd m' x o = rd m x o.

Lemma kept_refl m : kept m m.
Proof. done. Qed.
Lemma kept_trans m1 m2 m3 : kept m1 m2 → kept m2 m3 → kept m1 m3.
Proof. intros H1 H2 x o ? ? ?. by rewrite H2, H1. Qed.

Lemma wst_unarmed m W t : wst m W → t ∈ U → (∀ k, 0 ≤ k < NB → t ∉ W k) → unarmed tw W t.
Proof. intros Hw Ht Hk. destruct (ws_timer _ _ Hw t Ht) as [H1 H2]. by split. Qed.

Lemma wst_unlink m W k l1 t l2 : wst m W → 0 ≤ k < NB → W k = l1 ++ t :: l2 →
  ∃ m', timer_unlink m t = Some m' ∧ wst m' (upd W k (l1 ++ l2)) ∧ kept m m' ∧ rd m' t TM_FG_ID = rd m t TM_FG_ID ∧
    (∀ j, 0 ≤ j < NB → t ∉ upd W k (l1 ++ l2) j).
Proof.
  intros Hw Hk EW. destruct (timer_unlink_ok tw m W k l1 t l2 (ws_wheel _ _ Hw) Hk EW) as (m' & E & Hw' & Hlinks & Hun & Hp & Ho & _).
  exists m'. split; [done|]. split; [|split; [|split; [by apply Hlinks|apply Hun]]].
  - split; [done|apply (ws_timer _ _ Hw)|..].
    + intros j x Hj Hx. assert (x ∈ W j) as Hx'.
      { revert Hx. unfold upd. case_decide; [subst|done]. rewrite EW, !elem_of_app, elem_of_cons. tauto. }
      rewrite Hlinks by done. by apply (ws_in _ _ Hw j).
    + intros x Hx Hnone. destruct (decide (x = t)) as [->|Hxt]; [done|].
      assert (∀ j, 0 ≤ j < NB → x ∉ W j) as Hn.
      { intros j Hj Hxj. apply (Hnone j Hj). unfold upd. case_decide; [subst|done]. rewrite EW, elem_of_app, elem_of_cons in Hxj.
        rewrite elem_of_app. tauto. }
      rewrite Ho by (by eapply wst_unarmed). by apply (ws_idle _ _ Hw).
  - intros x o H1 H2 _. by apply Hlinks.
Qed.

Lemma wst_insert w W t e :
  wst (tw_mem w) W → t ∈ U → (∀ k, 0 ≤ k < NB → t ∉ W k) → rd (tw_mem w) t TM_EXPIRES = e →
  0 ≤ tw_now_us w ≤ e → e + MIN_DELAY_US < U64_MOD → e + MIN_DELAY_US - tw_now_us w < 2 ^ 28 →
  ∃ m', timer_insert tw NULL w t = Some (w <| tw_mem := m' |>) ∧
    wst m' (upd W (place (tw_now_us w) e) (t :: W (place (tw_now_us w) e))) ∧ kept (tw_mem w) m'.
Proof.
  intros Hw Ht Hk He Hn Hb Hd. pose proof (wst_unarmed _ _ _ Hw Ht Hk) as Hun.
  destruct (timer_insert_ok tw NULL w W t e (ws_wheel _ _ Hw) Hun He Hn Hb Hd) as (m' & E & Hw' & Hpl & Hp & Hf & Ho & Hfg & _).
  exists m'. split; [done|]. split; [|intros x o H1 H2 H3; apply Hf; try done; by left].
  split; [done|apply (ws_timer _ _ Hw)|..].
  - intros j x Hj Hx. assert (x = t ∨ x ∈ W j) as Hx'.
    { revert Hx. unfold upd. case_decide; [subst j|tauto]. rewrite elem_of_cons. tauto. }
    destruct (decide (x = t)) as [->|Hxt]; [split; [done|by apply Hfg]|]. destruct Hx' as [|Hx']; [done|].
    rewrite Hf by (done || by right). by apply (ws_in _ _ Hw j).
  - intros x Hx Hnone. destruct (decide (x = t)) as [->|Hxt].
    { exfalso. apply (Hnone _ Hpl). unfold upd. rewrite decide_True by done. apply elem_of_cons. by left. }
    assert (∀ j, 0 ≤ j < NB → x ∉ W j) as Hn'.
    { intros j Hj Hxj. apply (Hnone j Hj). unfold upd. case_decide; [subst j|done]. apply elem_of_cons. by right. }
    rewrite Ho; [|by eapply wst_unarmed|done]. by apply (ws_idle _ _ Hw).
Qed.

Context {X : Type} (handler : ptr → ptr → ptr → timerwheel * X → option (timerwheel * X)).
Context (fgs : Z → ptr) (cpu_id : Z) (note : ptr → X → X).
Context (Hquiet : ∀ f t g w x, handler f t g (w, x) = Some (w, note t x)).

Definition notes (ts : list ptr) (x : X) : X := foldl (λ x t, note t x) x ts.

Lemma timer_call_ok t w x : t ≠ NULL → rd (tw_mem w) t TM_FG_ID = -1 →
  timer_call handler fgs cpu_id t (w, x) = Some (w, note t x).
Proof.
  intros Ht Hf. unfold timer_call. cbn [fst]. rewrite ld_some, Hf by done. cbn [mbind option_bind].
  change (0 <=? -1) with false. cbn [mbind option_bind negb]. rewrite ld_some by done. cbn [mbind option_bind]. by apply Hquiet.
Qed.

Lemma unlink_step_eq t w (x : X) m : timer_unlink (tw_mem w) t = Some m → unlink_step t (w, x) = Some (w <| tw_mem := m |>, x).
Proof. intros E. unfold unlink_step. cbn [fst snd]. by rewrite E. Qed.

(** The first timer of a bucket: its link, and the bucket without it. *)
Lemma first_unlink m W k t l : wst m W → 0 ≤ k < NB → W k = t :: l →
  t ∈ U ∧ t ≠ NULL ∧ rd m t TM_FG_ID = -1 ∧ ld m t LN_NEXT = Some (default NULL (head l)) ∧
  ∃ m', timer_unlink m t = Some m' ∧ wst m' (upd W k l) ∧ kept m m' ∧ rd m' t TM_FG_ID = -1 ∧ ∀ j, 0 ≤ j < NB → t ∉ upd W k l j.
Proof.
  intros Hw Hk EW. destruct (ws_in _ _ Hw k t Hk) as [Ht Hf]; [rewrite EW; apply elem_of_cons; by left|].
  destruct (ws_timer _ _ Hw t Ht) as [H0 _]. split; [done|]. split; [done|]. split; [done|].
  split.
  - pose proof (wr_bucket _ _ _ (ws_wheel _ _ Hw) k Hk) as Hl. rewrite EW in Hl. destruct (head_snoc_some l NULL) as (s & Hs & _).
    destruct (dlist_links m (tw + 8 * k) [t] l NULL t s Hl eq_refl Hs) as (_ & _ & E & _). rewrite ld_some, E by done.
    by destruct l; injection Hs as <-.
  - destruct (wst_unlink m W k [] t l Hw Hk EW) as (m' & E & Hw' & Hk' & Hf' & Hn). exists m'. by rewrite Hf', Hf.
Qed.

Lemma run_bucket_loop fuel k l : ∀ w W x,
  wst (tw_mem w) W → 0 ≤ k < NB → W k = l → (length l ≤ fuel)%nat →
  ∃ m' W', hlist_loop (λ s : timerwheel * X, tw_mem s.1) (λ t s, s ← unlink_step t s; timer_call handler fgs cpu_id t s) fuel
      (default NULL (head l)) (w, x) = Some (w <| tw_mem := m' |>, notes l x) ∧
    wst m' W' ∧ kept (tw_mem w) m' ∧ W' k = [] ∧ ∀ j, j ≠ k → W' j = W j.
Proof.
  revert fuel. induction l as [|t l IH]; intros fuel w W x Hw Hk EW Hf.
  { exists (tw_mem w), W. split_and!; try done. destruct fuel; by destruct w. }
  destruct fuel as [|fuel]; simpl in Hf; [lia|]. destruct (first_unlink _ _ _ _ _ Hw Hk EW) as (Ht & H0 & _ & Hnx & m1 & E1 & Hw1 & Hk1 & Hf1 & _).
  change (default NULL (head (t :: l))) with t. cbn [hlist_loop]. rewrite (proj2 (Z.eqb_neq _ _) H0). cbn [fst]. rewrite Hnx. cbn [mbind option_bind].
  rewrite (unlink_step_eq _ _ _ _ E1). cbn [mbind option_bind]. rewrite timer_call_ok by done. cbn [mbind option_bind].
  destruct (IH fuel (w <| tw_mem := m1 |>) (upd W k l) (note t x)) as (m2 & W2 & E2 & Hw2 & Hk2 & EW2 & Ho2); [done|done| |lia|].
  { unfold upd. by rewrite decide_True. }
  exists m2, W2. split; [exact E2|]. split; [done|]. split; [by eapply kept_trans|]. split; [done|].
  intros j Hj. rewrite Ho2 by done. unfold upd. by rewrite decide_False.
Qed.

Lemma timer_run_bucket_ok fuel k w W x :
  wst (tw_mem w) W → 0 ≤ k < NB → (length (W k) ≤ fuel)%nat →
  ∃ m' W', timer_run_bucket handler fgs cpu_id fuel (tw + 8 * k) (w, x) = Some (w <| tw_mem := m' |>, notes (W k) x) ∧
    wst m' W' ∧ kept (tw_mem w) m' ∧ W' k = [] ∧ ∀ j, j ≠ k → W' j = W j.
Proof.
  intros Hw Hk Hf. unfold timer_run_bucket, hlist_for_each_safe. cbn [fst].
  rewrite (hlist_head_ok _ _ (W k)) by (by apply (ws_wheel _ _ Hw)). cbn [mbind option_bind].
  destruct (run_bucket_loop fuel k (W k) w W x Hw Hk eq_refl Hf) as (m' & W' & -> & Hw' & Hk' & EW & Ho). cbn [mbind option_bind fst snd].
  pose proof (wr_bucket _ _ _ (ws_wheel _ _ Hw') k Hk) as Hl. rewrite EW in Hl.
  destruct (dlist_links m' (tw + 8 * k) [] [] NULL (tw + 8 * k) NULL Hl eq_refl eq_refl) as (_ & Hh & Hnx & _).
  rsimpl. rewrite sto_some by done. cbn [mbind option_bind]. exists (<[(tw + 8 * k, LN_NEXT):=NULL]> m'), W'.
  assert (∀ y o, rd (<[(tw + 8 * k, LN_NEXT):=NULL]> m') y o = rd m' y o) as Hsame.
  { intros y o. rewrite rd_insert. case_decide as E; [|done]. injection E as <- <-. done. }
  split; [done|]. split; [|split; [|done]].
  - destruct Hw' as [[H1 H2 H3] H4 H5 H6]. split; [split; [|done..]|done|..].
    + intros j Hj. eapply dlist_frame; [| |by apply H1]; intros; by rewrite Hsame.
    + intros j t Hj Ht. rewrite Hsame. by apply (H5 j).
    + intros t Ht Hn. rewrite Hsame. by apply H6.
  - intros y o ? ? ?. rewrite Hsame. by apply Hk'.
Qed.

(** At tick [q] (16 us each), with the second wheel moved down up to its index
    [r], a timer that expires at [e] is in bucket [k]. *)
Definition located (q r e k : Z) : Prop :=
  let b := (e + 16) / 16 in let c := (e + 16) / 4096 in
  (k = b mod 256 ∧ q ≤ b < q + 256) ∨ (k = 256 + c mod 256 ∧ r < c ≤ r + 256).

Record tick_inv (q r : Z) (w : timerwheel) (A : gmap Z Z) (W : Z → list ptr) : Prop := {
  tk_wst : wst (tw_mem w) W;
  tk_now : 0 ≤ tw_now_us w;
  tk_loc : ∀ k t, 0 ≤ k < NB → t ∈ W k → ∃ e, A !! t = Some e ∧ located q r e k;
  tk_all : ∀ t e, A !! t = Some e → (∃ k, 0 ≤ k < NB ∧ t ∈ W k) ∧ rd (tw_mem w) t TM_EXPIRES = e ∧ 0 ≤ e ∧ e + 16 < U64_MOD;
}.

(** [F] ran at [now], and [A'] is left of the armed timers [A]. *)
Definition fires (now : Z) (A : gmap Z Z) (F : list ptr) (A' : gmap Z Z) : Prop :=
  NoDup F ∧ (∀ t, t ∈ F → ∃ e, A !! t = Some e ∧ e ≤ now) ∧ ∀ t, A' !! t = if decide (t ∈ F) then None else A !! t.

Lemma fires_nil now A : fires now A [] A.
Proof. split; [apply NoDup_nil_2|]. split; [by intros t Ht%elem_of_nil|]. intros t. by rewrite decide_False by apply not_elem_of_nil. Qed.

Lemma fires_app now A F1 A1 F2 A2 : fires now A F1 A1 → fires now A1 F2 A2 → fires now A (F1 ++ F2) A2.
Proof.
  intros (H1 & H2 & H3) (K1 & K2 & K3). assert (∀ t, t ∈ F2 → t ∉ F1) as Hd.
  { intros t Ht Ht'. destruct (K2 t Ht) as (e & He & _). rewrite H3, decide_True in He by done. done. }
  split; [apply NoDup_app; naive_solver|]. split.
  - intros t [Ht|Ht]%elem_of_app; [by apply H2|]. destruct (K2 t Ht) as (e & He & Hn). rewrite H3, decide_False in He by auto. by exists e.
  - intros t. rewrite K3. destruct (decide (t ∈ F2)); [by rewrite decide_True by (apply elem_of_app; by right)|].
    rewrite H3. destruct (decide (t ∈ F1)); [rewrite decide_True|rewrite decide_False]; rewrite ?elem_of_app; tauto.
Qed.

Lemma fires_one now A t e : A !! t = Some e → e ≤ now → fires now A [t] (delete t A).
Proof.
  intros He Hn. split; [apply NoDup_singleton|]. split; [intros x ->%list_elem_of_singleton; by exists e|].
  intros x. destruct (decide (x ∈ [t])) as [->%list_elem_of_singleton|Hx]; [by rewrite lookup_delete_eq|].
  rewrite lookup_delete_ne; [done|]. intros ->. apply Hx. by apply list_elem_of_singleton.
Qed.

Lemma located_small q r e k : located q r e k → 0 ≤ k < 512.
Proof. intros [[-> _]|[-> _]]; pose proof (Z.mod_pos_bound ((e + 16) / 16) 256); pose proof (Z.mod_pos_bound ((e + 16) / 4096) 256); lia. Qed.

Lemma expires_kept m m' t : kept m m' → rd m' t TM_EXPIRES = rd m t TM_EXPIRES.
Proof. intros H. by apply H. Qed.

(** Taking a timer out that runs. *)
Lemma tick_inv_fire q r w A W k t l m' :
  tick_inv q r w A W → 0 ≤ k < NB → (∀ y, y ∈ W k ↔ y = t ∨ y ∈ l) → wst m' (upd W k l) → kept (tw_mem w) m' →
  (∀ j, 0 ≤ j < NB → t ∉ upd W k l j) → tick_inv q r (w <| tw_mem := m' |>) (delete t A) (upd W k l).
Proof.
  intros [H1 H2 H3 H4] Hk EW Hw' Hkept Hno.
  assert (∀ j x, x ∈ upd W k l j → x ∈ W j) as Hsub by (intros j x; unfold upd; case_decide; [subst; rewrite EW; tauto|done]).
  split; rsimpl; [done|done|..].
  - intros j x Hj Hx. destruct (H3 j x Hj) as (e & He & Hl); [by apply Hsub|]. exists e. split; [|done].
    rewrite lookup_delete_ne; [done|]. intros <-. by apply (Hno j).
  - intros x e [Hne He]%lookup_delete_Some. destruct (H4 x e He) as ((j & Hj & Hx) & Hexp & Hb). split.
    + exists j. split; [done|]. unfold upd. case_decide as Hjk; [subst j|done]. apply EW in Hx as [|]; [congruence|done].
    + by rewrite (expires_kept _ _ _ Hkept).
Qed.

(** Moving one to another bucket. *)
Lemma tick_inv_move q r w A W k t l e p m' :
  tick_inv q r w A W → 0 ≤ k < NB → W k = t :: l → A !! t = Some e → located q r e p → 0 ≤ p < NB →
  wst m' (upd (upd W k l) p (t :: upd W k l p)) → kept (tw_mem w) m' →
  tick_inv q r (w <| tw_mem := m' |>) A (upd (upd W k l) p (t :: upd W k l p)).
Proof.
  intros [H1 H2 H3 H4] Hk EW He Hloc Hp Hw' Hkept.
  assert (∀ j x, x ∈ upd W k l j → x ∈ W j) as Hsub by (intros j x; unfold upd; case_decide; [subst; rewrite EW, elem_of_cons; tauto|done]).
  split; rsimpl; [done|done|..].
  - intros j x Hj Hx. unfold upd at 1 in Hx. case_decide as Hjp; [subst j|by apply H3, Hsub].
    apply elem_of_cons in Hx as [->|Hx]; [by exists e|]. by apply H3, Hsub.
  - intros x e' He'. destruct (H4 x e' He') as ((j & Hj & Hx) & Hexp & Hb). split; [|by rewrite (expires_kept _ _ _ Hkept)].
    destruct (decide (x = t)) as [->|Hxt].
    + exists p. split; [done|]. unfold upd at 1. rewrite decide_True by done. apply elem_of_cons. by left.
    + exists j. split; [done|]. assert (x ∈ upd W k l j) as Hx'.
      { unfold upd. case_decide; [subst j|done]. rewrite EW, elem_of_cons in Hx. destruct Hx; [congruence|done]. }
      unfold upd at 1. case_decide; [subst j; apply elem_of_cons; by right|done].
Qed.

Lemma reinsert_step_eq t w (x : X) m : timer_unlink (tw_mem w) t = Some m →
  reinsert_step tw handler fgs cpu_id t (w, x) = let s := (w <| tw_mem := m |>, x) in
    e ← timer_expired s.1 t; if e : bool then timer_call handler fgs cpu_id t s else
    fg_id ← ld (tw_mem s.1) t TM_FG_ID; w ← timer_insert tw (if fg_id <? 0 then NULL else fgs fg_id) s.1 t; Some (w, s.2).
Proof. intros E. unfold reinsert_step. by rewrite (unlink_step_eq _ _ _ _ E). Qed.

Lemma reinsert_loop_ok k q r l : ∀ fuel w A W x,
  tick_inv q r w A W → 256 ≤ k < 512 → W k = l → (length l ≤ fuel)%nat →
  (∀ t e, t ∈ l → A !! t = Some e → tw_now_us w < e →
     e + 16 - tw_now_us w < 4096 ∧ q ≤ (e + 16) / 16 < q + 256) →
  ∃ m' A' W' F, hlist_loop (λ s : timerwheel * X, tw_mem s.1) (reinsert_step tw handler fgs cpu_id) fuel
      (default NULL (head l)) (w, x) = Some (w <| tw_mem := m' |>, notes F x) ∧
    tick_inv q r (w <| tw_mem := m' |>) A' W' ∧ W' k = [] ∧ (∀ j, 256 ≤ j → j ≠ k → W' j = W j) ∧ fires (tw_now_us w) A F A'.
Proof.
  induction l as [|t l IH]; intros fuel w A W x Hi Hk EW Hf Hnew.
  { exists (tw_mem w), A, W, []. split; [destruct fuel; by destruct w|]. split; [by destruct w|]. split; [done|]. split; [done|]. apply fires_nil. }
  destruct fuel as [|fuel]; simpl in Hf; [lia|]. pose proof Hi as [Hw Hn0 Hloc Hall]. assert (0 ≤ k < NB) as HkN by (unfold NB; lia).
  destruct (first_unlink _ _ _ _ _ Hw HkN EW) as (Ht & H0 & _ & Hnx & m1 & E1 & Hw1 & Hk1 & Hf1 & Hno).
  change (default NULL (head (t :: l))) with t. cbn [hlist_loop]. rewrite (proj2 (Z.eqb_neq _ _) H0). cbn [fst]. rewrite Hnx. cbn [mbind option_bind].
  destruct (Hloc k t HkN) as (e & He & _); [rewrite EW; apply elem_of_cons; by left|].
  destruct (Hall t e He) as (_ & Hexp & Hb).
  assert (upd W k l k = l) as Eupd by (unfold upd; by rewrite decide_True).
  assert (∀ j, j ≠ k → upd W k l j = W j) as Eoth by (intros; unfold upd; by rewrite decide_False).
  rewrite (reinsert_step_eq _ _ _ _ E1). unfold timer_expired. cbn [fst snd]. rsimpl.
  rewrite (ld_some m1 t TM_EXPIRES), (expires_kept _ _ _ Hk1), Hexp by done. cbn [mbind option_bind].
  destruct (Z.leb_spec e (tw_now_us w)) as [Hle|Hgt].
  - rewrite timer_call_ok by done. cbn [mbind option_bind].
    destruct (IH fuel (w <| tw_mem := m1 |>) (delete t A) (upd W k l) (note t x)) as (m2 & A2 & W2 & F & E2 & Hi2 & EW2 & Ho2 & HF); rsimpl; [|done|done|lia|..].
    { eapply tick_inv_fire; try done. intros y. by rewrite EW, elem_of_cons. }
    { intros y e' Hy [_ He']%lookup_delete_Some. apply (Hnew y e'); [apply elem_of_cons; by right|done]. }
    exists m2, A2, W2, (t :: F). split; [exact E2|]. split; [done|]. split; [done|]. split.
    + intros j Hj Hjk. rewrite Ho2 by done. by apply Eoth.
    + apply (fires_app _ A [t] (delete t A)); [by eapply fires_one|done].
  - rewrite (ld_some m1 t TM_FG_ID), Hf1 by done. cbn [mbind option_bind]. change (-1 <? 0) with true. cbn iota.
    destruct (Hnew t e) as [Hd Hq]; [apply elem_of_cons; by left|done|done|].
    assert (place (tw_now_us w) e = (e + 16) / 16 mod 256) as Epl.
    { unfold place. change MIN_DELAY_US with 16. unfold wheel_of. rewrite (proj2 (Z.ltb_lt _ _)) by lia. unfold slot_of. change WHEEL_SIZE with 256.
      change (2 ^ WHEEL_IDX_TO_SHIFT 0) with 16. lia. }
    set (p := place (tw_now_us w) e) in *. pose proof (Z.mod_pos_bound ((e + 16) / 16) 256 ltac:(lia)) as Hp.
    destruct (wst_insert (w <| tw_mem := m1 |>) (upd W k l) t e) as (m2 & E2 & Hw2 & Hk2); rsimpl; try done.
    { by rewrite (expires_kept _ _ _ Hk1). }
    { lia. }
    { change MIN_DELAY_US with 16. lia. }
    { change MIN_DELAY_US with 16. lia. }
    rewrite E2. cbn [mbind option_bind]. fold p in Hw2.
    destruct (IH fuel (w <| tw_mem := m2 |>) A (upd (upd W k l) p (t :: upd W k l p)) x) as (m3 & A3 & W3 & F & E3 & Hi3 & EW3 & Ho3 & HF); rsimpl; [|done| |lia|..].
    { eapply tick_inv_move; try done; [|unfold NB; lia|by eapply kept_trans]. left. split; [done|lia]. }
    { unfold upd at 1. rewrite decide_False by lia. done. }
    { intros y e' Hy He'. apply (Hnew y e'); [apply elem_of_cons; by right|done]. }
    exists m3, A3, W3, F. split; [exact E3|]. split; [done|]. split; [done|]. split; [|done].
    intros j Hj Hjk. rewrite Ho3 by done. unfold upd at 1. rewrite decide_False by lia. by apply Eoth.
Qed.

Lemma wheel_offset_eq pos i : 0 ≤ i → WHEEL_OFFSET pos i = pos / 2 ^ WHEEL_IDX_TO_SHIFT i mod WHEEL_SIZE.
Proof.
  intros Hi. unfold WHEEL_OFFSET. rewrite Z.shiftr_div_pow2 by (unfold WHEEL_IDX_TO_SHIFT; change WHEEL_SHIFT with 8; change MIN_DELAY_SHIFT with 4; lia).
  change WHEEL_MASK with (Z.ones 8). by rewrite Z.land_ones by lia.
Qed.

Lemma bucket_length m W k : wst m W → 0 ≤ k < NB → (length (W k) ≤ length U)%nat.
Proof.
  intros Hw Hk. apply submseteq_length, NoDup_submseteq.
  - pose proof (dl_nodup _ _ _ _ (wr_bucket _ _ _ (ws_wheel _ _ Hw) k Hk)) as [_ Hnd]%NoDup_cons. done.
  - intros x Hx. by apply (ws_in _ _ Hw k).
Qed.

Lemma reinsert_bucket_eq fuel w W k (x : X) : wst (tw_mem w) W → 0 ≤ k < NB →
  timer_reinsert_bucket tw handler fgs cpu_id fuel (tw + 8 * k) (w, x) =
  hlist_loop (λ s : timerwheel * X, tw_mem s.1) (reinsert_step tw handler fgs cpu_id) fuel (default NULL (head (W k))) (w, x).
Proof.
  intros Hw Hk. unfold timer_reinsert_bucket, hlist_for_each_safe. cbn [fst]. by rewrite (hlist_head_ok _ _ (W k)) by (by apply (ws_wheel _ _ Hw)).
Qed.

Lemma div_pred q : q mod 256 = 0 → (q - 1) / 256 = q / 256 - 1.
Proof. intros. Z.div_mod_to_equations. lia. Qed.

Lemma tick_div q : 16 * q / 4096 = q / 256.
Proof. change 4096 with (16 * 256). by rewrite Z.div_mul_cancel_l by lia. Qed.

(** Two ticks less than a turn apart in the same bucket. *)
Lemma mod_turn a c : c - 1 < a ≤ c - 1 + 256 → a mod 256 = c mod 256 → a = c.
Proof. intros. Z.div_mod_to_equations. lia. Qed.

Lemma turn_ticks q e : q mod 256 = 0 → (e + 16) / 4096 = q / 256 → 16 * q ≤ e + 16 < 16 * q + 4096 ∧ q ≤ (e + 16) / 16 < q + 256.
Proof. intros. Z.div_mod_to_equations. lia. Qed.

(** The second wheel moves down when the first one starts over. *)
Lemma timer_collapse_ok q fuel w A W x :
  tick_inv q ((q - 1) / 256) w A W → 0 ≤ q → q mod 256 = 0 → 16 * q ≤ tw_now_us w → (length U ≤ fuel)%nat →
  ∃ m' A' W' F, timer_collapse tw handler fgs cpu_id fuel (16 * q) (w, x) = Some (w <| tw_mem := m' |>, notes F x) ∧
    tick_inv q (q / 256) (w <| tw_mem := m' |>) A' W' ∧ fires (tw_now_us w) A F A'.
Proof.
  intros Hi Hq0 Hq Hnow Hf. set (c := q / 256). assert ((q - 1) / 256 = c - 1) as Er by (unfold c; by apply div_pred).
  set (k := 256 + c mod 256). pose proof (Z.mod_pos_bound c 256 ltac:(lia)) as Hcm. assert (256 ≤ k < 512) as Hk by (unfold k; lia). assert (0 ≤ k < NB) as HkN by (unfold NB; lia).
  assert (WHEEL_OFFSET (16 * q) 1 = c mod 256) as E1.
  { rewrite wheel_offset_eq by lia. change (2 ^ WHEEL_IDX_TO_SHIFT 1) with 4096. change WHEEL_SIZE with 256. unfold c. by rewrite tick_div. }
  destruct (reinsert_loop_ok k q (c - 1) (W k) fuel w A W x) as (m1 & A1 & W1 & F & EL & Hi1 & EW1 & Ho1 & HF); [by rewrite <-Er|done|done|..].
  { pose proof (bucket_length _ _ k (tk_wst _ _ _ _ _ Hi) HkN). lia. }
  { intros t e Ht He Hlt. destruct (tk_loc _ _ _ _ _ Hi k t HkN Ht) as (e' & He' & Hloc). simplify_eq.
    rewrite Er in Hloc. destruct Hloc as [[Hl _]|[Hl Hc]]; [pose proof (Z.mod_pos_bound ((e + 16) / 16) 256); lia|]. 
    assert ((e + 16) / 4096 = c) as Ec by (apply mod_turn; unfold k in Hl; lia). apply (turn_ticks q e) in Ec; [lia|done..]. }
  exists m1, A1, W1, F. split; [|split; [|done]].
  - unfold timer_collapse. change (Z.to_nat (WHEEL_COUNT - 1)) with 2%nat. cbn [collapse_loop]. rewrite E1.
    destruct (slot_of_bucket tw 1 c ltac:(lia)) as [Eb _]. change WHEEL_SIZE with 256 in Eb. rewrite Eb. cbn [mbind option_bind].
    replace (slot_of 1 c) with k by (unfold slot_of; change WHEEL_SIZE with 256; unfold k; lia).
    rewrite (reinsert_bucket_eq _ _ _ _ _ (tk_wst _ _ _ _ _ Hi) HkN), EL. cbn [mbind option_bind].
    destruct (c mod 256 =? 0); cbn [negb]; [|done].
    rewrite wheel_offset_eq by lia. destruct (slot_of_bucket tw 2 (16 * q / 2 ^ WHEEL_IDX_TO_SHIFT 2) ltac:(lia)) as [Eb2 Hb2].
    change (1 + 1) with 2. rewrite Eb2. cbn [mbind option_bind]. set (k2 := slot_of 2 _) in *.
    assert (W1 k2 = []) as EW2.
    { apply elem_of_nil_inv. intros y Hy. destruct (tk_loc _ _ _ _ _ Hi1 k2 y Hb2 Hy) as (e & _ & Hl%located_small).
      unfold k2, slot_of in Hl. change WHEEL_SIZE with 256 in Hl. pose proof (Z.mod_pos_bound (16 * q / 2 ^ WHEEL_IDX_TO_SHIFT 2) 256). lia. }
    rewrite (reinsert_bucket_eq _ _ _ _ _ (tk_wst _ _ _ _ _ Hi1) Hb2), EW2. destruct fuel; cbn; by destruct (negb _).
  - destruct Hi1 as [H1 H2 H3 H4]. split; [done..| |done]. intros j t Hj Ht. destruct (H3 j t Hj Ht) as (e & He & Hl). exists e. split; [done|].
    destruct Hl as [Hl|[Hl Hc]]; [by left|]. right. split; [done|]. assert ((e + 16) / 4096 ≠ c); [|lia]. intros Ec.
    rewrite Ec in Hl. fold k in Hl. subst j. rewrite EW1 in Ht. by apply elem_of_nil in Ht.
Qed.

Lemma fires_bucket now A l : NoDup l → (∀ t, t ∈ l → ∃ e, A !! t = Some e ∧ e ≤ now) →
  ∃ A', fires now A l A'.
Proof.
  revert A. induction l as [|t l IH]; intros A Hnd Hl; [exists A; apply fires_nil|]. apply NoDup_cons in Hnd as [Ht Hnd].
  destruct (Hl t) as (e & He & Hn); [apply elem_of_cons; by left|]. destruct (IH (delete t A) Hnd) as (A' & HA').
  { intros y Hy. destruct (Hl y) as (e' & He' & Hn'); [apply elem_of_cons; by right|]. exists e'. split; [|done].
    rewrite lookup_delete_ne; [done|]. by intros ->. }
  exists A'. apply (fires_app _ A [t] (delete t A)); [by eapply fires_one|done].
Qed.

Lemma tick_div0 q : 16 * q / 16 = q.
Proof. rewrite Z.mul_comm. by apply Z.div_mul. Qed.

(** One round of [timer_run]. *)
Lemma timer_tick_ok q fuel w A W x :
  tick_inv q ((q - 1) / 256) w A W → 0 ≤ q → 16 * q ≤ tw_now_us w → (length U ≤ fuel)%nat →
  ∃ m' A' W' F, timer_tick tw handler fgs cpu_id fuel (16 * q) (w, x) = Some (w <| tw_mem := m' |>, notes F x) ∧
    tick_inv (q + 1) (q / 256) (w <| tw_mem := m' |>) A' W' ∧ fires (tw_now_us w) A F A'.
Proof.
  intros Hi Hq0 Hnow Hf.
  assert (WHEEL_OFFSET (16 * q) 0 = q mod 256) as E0.
  { rewrite wheel_offset_eq by lia. change (2 ^ WHEEL_IDX_TO_SHIFT 0) with 16. by rewrite tick_div0. }
  assert (∃ m1 A1 W1 F1, (if WHEEL_OFFSET (16 * q) 0 =? 0 then timer_collapse tw handler fgs cpu_id fuel (16 * q) (w, x) else Some (w, x)) =
      Some (w <| tw_mem := m1 |>, notes F1 x) ∧ tick_inv q (q / 256) (w <| tw_mem := m1 |>) A1 W1 ∧ fires (tw_now_us w) A F1 A1) as
    (m1 & A1 & W1 & F1 & E1 & Hi1 & HF1).
  { rewrite E0. destruct (Z.eqb_spec (q mod 256) 0) as [Hz|Hz]; [by apply (timer_collapse_ok q _ _ _ W)|].
    exists (tw_mem w), A, W, []. split; [by destruct w|]. split; [|apply fires_nil].
    replace (q / 256) with ((q - 1) / 256) by (clear -Hz; Z.div_mod_to_equations; lia). by destruct w. }
  set (k := q mod 256). pose proof (Z.mod_pos_bound q 256 ltac:(lia)) as Hk. fold k in Hk. assert (0 ≤ k < NB) as HkN by (unfold NB; lia).
  pose proof Hi1 as [Hw1 Hn1 Hl1 Ha1]. rsimpl.
  destruct (timer_run_bucket_ok fuel k (w <| tw_mem := m1 |>) W1 (notes F1 x)) as (m2 & W2 & E2 & Hw2 & Hk2 & EW2 & Ho2); [done|done|..].
  { pose proof (bucket_length _ _ k Hw1 HkN). lia. }
  assert (∀ t e, t ∈ W1 k → A1 !! t = Some e → e ≤ tw_now_us w) as Hdue.
  { intros t e Ht He. destruct (Hl1 k t HkN Ht) as (e' & He' & Hl). simplify_eq.
    destruct Hl as [[Hl Hb]|[Hl _]]; [|pose proof (Z.mod_pos_bound ((e + 16) / 4096) 256); lia].
    assert ((e + 16) / 16 = q); [apply mod_turn; unfold k in Hl; lia|]. clear -H Hnow. Z.div_mod_to_equations. lia. }
  destruct (fires_bucket (tw_now_us w) A1 (W1 k)) as (A2 & HF2).
  { pose proof (dl_nodup _ _ _ _ (wr_bucket _ _ _ (ws_wheel _ _ Hw1) k HkN)) as [_ Hnd]%NoDup_cons. done. }
  { intros t Ht. destruct (Hl1 k t HkN Ht) as (e & He & _). exists e. eauto. }
  exists m2, A2, W2, (F1 ++ W1 k). split; [|split; [|by eapply fires_app]].
  - unfold timer_tick. rewrite E1. cbn [mbind option_bind]. destruct (slot_of_bucket tw 0 q ltac:(lia)) as [Eb _]. change WHEEL_SIZE with 256 in Eb.
    rewrite E0, Eb. cbn [mbind option_bind]. replace (slot_of 0 q) with k by (unfold slot_of; change WHEEL_SIZE with 256; unfold k; lia).
    rewrite E2. unfold notes. by rewrite foldl_app.
  - destruct HF2 as (_ & _ & HA2). split; rsimpl; [done|done|..].
    + intros j t Hj Ht. assert (j ≠ k) as Hjk by (intros ->; rewrite EW2 in Ht; by apply elem_of_nil in Ht).
      rewrite Ho2 in Ht by done. destruct (Hl1 j t Hj Ht) as (e & He & Hl). exists e. split.
      * rewrite HA2, decide_False; [done|]. intros Hx. by apply Hjk, (wr_once _ _ _ (ws_wheel _ _ Hw1) j k t).
      * destruct Hl as [[Hl Hb]|Hl]; [left|by right]. split; [done|]. assert ((e + 16) / 16 ≠ q); [|lia]. intros Eq. rewrite Eq in Hl. done.
    + intros t e He. rewrite HA2 in He. case_decide as Htk; [done|]. destruct (Ha1 t e He) as ((j & Hj & Hx) & Hexp & Hb).
      split; [|by rewrite (expires_kept _ _ _ Hk2)]. exists j. split; [done|]. rewrite Ho2; [done|]. by intros ->.
Qed.

Lemma located_left q e k : located q ((q - 1) / 256) e k → 16 * q ≤ e + 16.
Proof. intros [[_ H]|[_ H]]; Z.div_mod_to_equations; lia. Qed.

(** The rounds up to the present. *)
Lemma run_loop_ok fuel n : ∀ q w A W x,
  tick_inv q ((q - 1) / 256) w A W → 0 ≤ q → tw_now_us w + 16 < U64_MOD → tw_now_us w < 16 * (q + Z.of_nat n) → (length U ≤ fuel)%nat →
  ∃ m' A' W' F q', run_loop tw handler fgs cpu_id fuel n (16 * q) (w, x) = Some (16 * q', (w <| tw_mem := m' |>, notes F x)) ∧
    tick_inv q' ((q' - 1) / 256) (w <| tw_mem := m' |>) A' W' ∧ fires (tw_now_us w) A F A' ∧
    tw_now_us w < 16 * q' ∧ q ≤ q' ∧ (q' = q ∨ 16 * q' ≤ tw_now_us w + 16).
Proof.
  induction n as [|n IH]; intros q w A W x Hi Hq Hb Hn Hf; cbn [run_loop]; cbn [fst].
  - rewrite (proj2 (Z.ltb_lt _ _)) by lia. exists (tw_mem w), A, W, [], q. split; [by destruct w|]. split; [by destruct w|]. split; [apply fires_nil|lia].
  - destruct (Z.ltb_spec (tw_now_us w) (16 * q)) as [Hlt|Hge].
    { exists (tw_mem w), A, W, [], q. split; [by destruct w|]. split; [by destruct w|]. split; [apply fires_nil|lia]. }
    destruct (timer_tick_ok q fuel w A W x Hi Hq Hge Hf) as (m1 & A1 & W1 & F1 & -> & Hi1 & HF1). cbn [mbind option_bind].
    change MIN_DELAY_US with 16. rewrite u64_small by lia. replace (16 * q + 16) with (16 * (q + 1)) by lia.
    destruct (IH (q + 1) (w <| tw_mem := m1 |>) A1 W1 (notes F1 x)) as (m2 & A2 & W2 & F2 & q' & E2 & Hi2 & HF2 & H1 & H2 & H3); rsimpl; [|lia|lia|lia|done|].
    { by replace (q + 1 - 1) with q by lia. }
    exists m2, A2, W2, (F1 ++ F2), q'. split; [|split; [done|split; [by eapply fires_app|lia]]].
    rewrite E2. unfold notes. by rewrite foldl_app.
Qed.

(** Between two rounds the position is the next multiple of 16 us. *)
Definition on_time (w : timerwheel) (A : gmap Z Z) : Prop :=
  ∃ q W, 0 ≤ q ∧ tw_timer_pos w = 16 * q ∧ 16 * (q - 1) ≤ tw_now_us w ≤ 16 * q ∧ tick_inv q ((q - 1) / 256) w A W.

Lemma on_time_run fuel n now w A x :
  on_time w A → tw_now_us w ≤ now → now + 16 < U64_MOD → now < tw_timer_pos w + 16 * Z.of_nat n → (length U ≤ fuel)%nat →
  ∃ w' A' F, timer_run tw handler fgs cpu_id fuel n now (w, x) = Some (w', notes F x) ∧ on_time w' A' ∧ tw_now_us w' = now ∧
    fires now A F A' ∧ ∀ t e, A' !! t = Some e → now - 16 < e.
Proof.
  intros (q & W & Hq & Hpos & Hnow & Hi) Hn Hb Hr Hf. unfold timer_run. cbn [fst snd]. rewrite Hpos.
  destruct (run_loop_ok fuel n q (w <| tw_now_us := now |>) A W x) as (m' & A' & W' & F & q' & E & Hi' & HF & H1 & H2 & H3); rsimpl; [|done|done|lia|done|].
  { destruct Hi as [K1 K2 K3 K4]. split; rsimpl; done || lia. }
  rewrite E. cbn [mbind option_bind fst snd]. eexists _, A', F. split; [done|]. split; [|split; [done|split; [done|]]].
  - exists q', W'. rsimpl. split; [lia|]. split; [done|]. split; [lia|]. destruct Hi' as [K1 K2 K3 K4]. split; rsimpl; done.
  - intros t e He. destruct (tk_all _ _ _ _ _ Hi' t e He) as ((k & Hk & Ht) & _). destruct (tk_loc _ _ _ _ _ Hi' k t Hk Ht) as (e' & He' & Hl%located_left).
    simplify_eq. lia.
Qed.

Lemma on_time_idle w A t : on_time w A → t ∈ U → t ≠ NULL ∧ timer_pending (tw_mem w) t = Some (bool_decide (is_Some (A !! t))).
Proof.
  intros (q & W & _ & _ & _ & Hi) Ht. destruct Hi as [Hw _ Hl Ha]. destruct (ws_timer _ _ Hw t Ht) as [H0 _]. split; [done|].
  unfold timer_pending. rewrite ld_some by done. cbn [mbind option_bind]. f_equal. destruct (A !! t) as [e|] eqn:HA.
  - rewrite bool_decide_true by done. destruct (Ha t e HA) as ((k & Hk & Hx) & _).
    destruct (armed_prev tw _ _ k t (ws_wheel _ _ Hw) Hk Hx) as [_ Hp]. by rewrite (proj2 (Z.eqb_neq _ _) Hp).
  - rewrite bool_decide_false by (by intros []). rewrite (ws_idle _ _ Hw t Ht); [done|]. intros k Hk Hx.
    destruct (Hl k t Hk Hx) as (e & He & _). congruence.
Qed.

Lemma on_time_del w A t : on_time w A → t ∈ U →
  ∃ m', timer_del (tw_mem w) t = Some m' ∧ on_time (w <| tw_mem := m' |>) (delete t A).
Proof.
  intros Ho Ht. destruct (on_time_idle w A t Ho Ht) as [H0 Hp]. unfold timer_del. rewrite Hp. cbn [mbind option_bind].
  destruct (A !! t) as [e|] eqn:HA.
  2: { rewrite bool_decide_false by (by intros []). exists (tw_mem w). split; [done|]. rewrite delete_id by done. by destruct w. }
  rewrite bool_decide_true by done. destruct Ho as (q & W & Hq & Hpos & Hnow & Hi). destruct (tk_all _ _ _ _ _ Hi t e HA) as ((k & Hk & Hx) & _).
  apply list_elem_of_split in Hx as (l1 & l2 & EW). destruct (wst_unlink _ _ _ _ _ _ (tk_wst _ _ _ _ _ Hi) Hk EW) as (m' & E & Hw' & Hkept & _ & Hno).
  exists m'. split; [done|]. exists q, (upd W k (l1 ++ l2)). rsimpl. split_and!; try done || lia.
  eapply tick_inv_fire; try done. intros y. rewrite EW, !elem_of_app, elem_of_cons. tauto.
Qed.

(** A new timer is within a turn of the wheel it is put in. *)
Lemma place_located q now e : 16 * (q - 1) ≤ now ≤ 16 * q → now < e → e + 16 - now < 2 ^ 20 → located q ((q - 1) / 256) e (place now e).
Proof.
  intros Hq He Hd. unfold place, wheel_of. change MIN_DELAY_US with 16. destruct (Z.ltb_spec (e + 16 - now) 4096) as [H|H].
  - left. split; [unfold slot_of; change (2 ^ WHEEL_IDX_TO_SHIFT 0) with 16; change WHEEL_SIZE with 256; lia|Z.div_mod_to_equations; lia].
  - rewrite (proj2 (Z.ltb_lt _ _)) by lia. right.
    split; [unfold slot_of; change (2 ^ WHEEL_IDX_TO_SHIFT 1) with 4096; change WHEEL_SIZE with 256; lia|Z.div_mod_to_equations; lia].
Qed.

Lemma on_time_add w A t now us :
  on_time w A → t ∈ U → A !! t = None → tw_now_us w ≤ now → 0 < us → now + us + 16 < U64_MOD → now + us + 16 - tw_now_us w < 2 ^ 20 →
  ∃ m', timer_add tw now NULL w t us = Some (0, w <| tw_mem := m' |>) ∧ on_time (w <| tw_mem := m' |>) (<[t := now + us]> A).
Proof.
  intros Ho Ht HA Hn Hus Hb Hd. destruct (on_time_idle w A t Ho Ht) as [H0 _]. destruct Ho as (q & W & Hq & Hpos & Hnow & Hi).
  pose proof Hi as [Hw Hn0 Hl Ha]. set (e := now + us) in *.
  unfold timer_add. rewrite (proj2 (Z.ltb_lt _ _)) by lia. cbn [negb]. change MAX_DELAY_US with (2 ^ 28). rewrite (proj2 (Z.leb_gt _ _)) by lia.
  rewrite sto_some by done. cbn [mbind option_bind]. rewrite u64_small by lia. fold e. set (m1 := <[(t, TM_EXPIRES) := e]> (tw_mem w)).
  assert (∀ x o, o ≠ TM_EXPIRES ∨ x ≠ t → rd m1 x o = rd (tw_mem w) x o) as Hm1 by (intros; apply rd_insert_ne; naive_solver).
  assert (wst m1 W) as Hw1.
  { destruct Hw as [[K1 K2 K3] K4 K5 K6]. split; [split; [|done..]|done|..].
    - intros j Hj. eapply dlist_frame; [| |by apply K1]; intros; apply Hm1; by left.
    - intros k y Hk Hy. rewrite Hm1 by (by left). by eapply K5.
    - intros y Hy Hno. rewrite Hm1 by (by left). by apply K6. }
  assert (∀ k, 0 ≤ k < NB → t ∉ W k) as Hno by (intros k Hk Hx; destruct (Hl k t Hk Hx) as (e' & He' & _); congruence).
  destruct (wst_insert (w <| tw_mem := m1 |>) W t e) as (m2 & E2 & Hw2 & Hk2); rsimpl; change MIN_DELAY_US with 16 in *; try done || lia.
  { apply rd_insert_eq. }
  rewrite E2. cbn [mbind option_bind]. set (p := place (tw_now_us w) e) in *.
  assert (located q ((q - 1) / 256) e p) as Hpl by (apply place_located; lia).
  exists m2. split; [by destruct w|]. exists q, (upd W p (t :: W p)). rsimpl. split_and!; try done || lia. split; rsimpl; [done|done|..].
  - intros k y Hk Hy. destruct (decide (y = t)) as [->|Hyt].
    + exists e. rewrite lookup_insert_eq. split; [done|]. revert Hy. unfold upd. case_decide; [by subst|]. intros Hy. exfalso. by apply (Hno k).
    + rewrite lookup_insert_ne by done. apply Hl; [done|]. revert Hy. unfold upd. case_decide; [subst|done]. rewrite elem_of_cons. tauto.
  - intros y e' [[<- <-]|[Hy He]]%lookup_insert_Some.
    + split; [|split; [|lia]].
      * exists p. pose proof (located_small _ _ _ _ Hpl). split; [unfold NB; lia|]. unfold upd. rewrite decide_True by done. apply elem_of_cons. by left.
      * rewrite (expires_kept _ _ _ Hk2). apply rd_insert_eq.
    + destruct (Ha y e' He) as ((k & Hk & Hx) & Hexp & Hb'). split; [|rewrite (expires_kept _ _ _ Hk2), Hm1 by (by right); done].
      exists k. split; [done|]. unfold upd. case_decide; [subst k; apply elem_of_cons; by right|done].
Qed.

(** Sequences of calls, each at the time the counter shows. *)
Inductive timer_event := EMod (now : Z) (t : ptr) (us : Z) | EDel (t : ptr) | ERun (now : Z).

Definition timer_event_step (ev : timer_event) (s : timerwheel * X) : option (timerwheel * X) :=
  match ev with
  | EMod now t us => '(_, w) ← timer_mod tw now NULL s.1 t us; Some (w, s.2)
  | EDel t => m ← timer_del (tw_mem s.1) t; Some (s.1 <| tw_mem := m |>, s.2)
  | ERun now => timer_run tw handler fgs cpu_id (length U) (Z.to_nat ((now - tw_timer_pos s.1) / 16 + 1)) now s
  end.
Fixpoint timer_events (evs : list timer_event) (s : timerwheel * X) : option (timerwheel * X) :=
  match evs with [] => Some s | ev :: evs => s ← timer_event_step ev s; timer_events evs s end.

(** Time does not go back, and a delay is below 2^20 us less 16, counted from the last run [cur]. *)
Fixpoint events_ok (cur : Z) (evs : list timer_event) : Prop :=
  match evs with
  | [] => True
  | EMod now t us :: evs =>
      t ∈ U ∧ cur ≤ now ∧ 0 < us ∧ now + us + 16 < U64_MOD ∧ now + us + 16 - cur < 2 ^ 20 ∧ events_ok cur evs
  | EDel t :: evs => t ∈ U ∧ events_ok cur evs
  | ERun now :: evs => cur ≤ now ∧ now + 16 < U64_MOD ∧ events_ok now evs
  end.

(** What the calls mean: [A] maps armed timers to expiration times; a run takes out
    timers that expired and leaves none that expired 16 us ago or earlier. *)
Inductive schedule : list timer_event → gmap Z Z → list ptr → gmap Z Z → Prop :=
  | schedule_nil A : schedule [] A [] A
  | schedule_mod now t us evs A F A' : schedule evs (<[t := now + us]> A) F A' → schedule (EMod now t us :: evs) A F A'
  | schedule_del t evs A F A' : schedule evs (delete t A) F A' → schedule (EDel t :: evs) A F A'
  | schedule_run now evs A F1 A1 F2 A2 :
      fires now A F1 A1 → (∀ t e, A1 !! t = Some e → now - 16 < e) → schedule evs A1 F2 A2 →
      schedule (ERun now :: evs) A (F1 ++ F2) A2.

(** The wheel of a core before [timer_init_cpu]: all buckets empty, no timer armed. *)
Definition fresh_wheel (m : heap) : Prop :=
  0 < tw ∧ (∀ k, 0 ≤ k < NB → rd m (tw + 8 * k) LN_NEXT = NULL) ∧
  ∀ t, t ∈ U → t ≠ NULL ∧ (∀ k, 0 ≤ k < NB → t ≠ tw + 8 * k) ∧ rd m t LN_PREV = NULL.

Lemma fresh_on_time w q : fresh_wheel (tw_mem w) → 0 ≤ q → on_time (timer_init_cpu (16 * q) w) ∅.
Proof.
  intros (H0 & Hh & Ht) Hq. exists q, (λ _, []). unfold timer_init_cpu. split; [done|]. rsimpl. split; [done|]. split; [lia|].
  split; rsimpl; [|lia|by intros k t _ Hx%elem_of_nil|done]. split.
  - split; [|by intros j k x _ _ Hx%elem_of_nil|intros; apply not_elem_of_nil]. intros k Hk. split.
    + apply NoDup_singleton.
    + rewrite list_elem_of_singleton. lia.
    + apply not_elem_of_nil.
    + constructor; [|done]. split; [by apply Hh|done].
  - intros t Hx. split; apply Ht, Hx.
  - by intros k t _ Hx%elem_of_nil.
  - intros t Hx _. by apply Ht.
Qed.

Lemma timer_events_ok evs : ∀ w A x, on_time w A → events_ok (tw_now_us w) evs →
  ∃ w' A' F, timer_events evs (w, x) = Some (w', notes F x) ∧ on_time w' A' ∧ schedule evs A F A'.
Proof.
  induction evs as [|[now t us|t|now] evs IH]; intros w A x Ho Hok; cbn [timer_events timer_event_step events_ok fst snd] in *.
  - exists w, A, []. split; [done|]. split; [done|constructor].
  - destruct Hok as (Ht & Hc & Hus & Hb & Hd & Hok). unfold timer_mod. destruct (on_time_del w A t Ho Ht) as (m1 & -> & Ho1). cbn [mbind option_bind].
    destruct (on_time_add (w <| tw_mem := m1 |>) (delete t A) t now us Ho1 Ht) as (m2 & E2 & Ho2); rsimpl; try done; [by apply lookup_delete_eq|].
    rewrite E2. cbn [mbind option_bind]. rewrite insert_delete_eq in Ho2.
    change (w <| tw_mem := m1 |> <| tw_mem := m2 |>) with (w <| tw_mem := m2 |>) in *.
    destruct (IH (w <| tw_mem := m2 |>) _ x Ho2 Hok) as (w' & A' & F & E & Ho' & Hs). exists w', A', F. split; [|split; [done|by constructor]].
    by rewrite <-E.
  - destruct Hok as [Ht Hok]. destruct (on_time_del w A t Ho Ht) as (m1 & -> & Ho1). cbn [mbind option_bind].
    destruct (IH (w <| tw_mem := m1 |>) _ x Ho1 Hok) as (w' & A' & F & E & Ho' & Hs). exists w', A', F. split; [done|]. split; [done|by constructor].
  - destruct Hok as (Hc & Hb & Hok).
    destruct (on_time_run (length U) (Z.to_nat ((now - tw_timer_pos w) / 16 + 1)) now w A x Ho Hc Hb) as (w1 & A1 & F1 & E1 & Ho1 & Hn1 & HF1 & Hl1).
    { pose proof (Z.div_mod (now - tw_timer_pos w) 16). pose proof (Z.mod_pos_bound (now - tw_timer_pos w) 16). lia. }
    { done. }
    rewrite E1. cbn [mbind option_bind]. rewrite <-Hn1 in Hok. destruct (IH w1 A1 (notes F1 x) Ho1 Hok) as (w' & A' & F & E & Ho' & Hs).
    exists w', A', (F1 ++ F). split; [|split; [done|by econstructor]]. rewrite E. unfold notes. by rewrite foldl_app.
Qed.

End due.

(** ** Delays past the wheel *)

Lemma log2_range x i j : 0 ≤ i → 2 ^ i ≤ x < 2 ^ j → i ≤ Z.log2 x < j.
Proof. intros Hi [H1 H2]. split; [by apply Z.log2_le_pow2; lia|]. apply Z.log2_lt_pow2; [|done]. pose proof (Z.pow_pos_nonneg 2 i). lia. Qed.

(** The range check of [__timer_add] lets delays pass that no wheel holds: for
    a delay below MAX_DELAY_US whose expiration, rounded up, is 2^28 us or more past
    the cached time, the index of the wheel is 3 and the access is out of the array. *)
Theorem timer_add_out_of_wheel tw now cur_fg w t us :
  t ≠ NULL → 0 ≤ tw_now_us w ≤ now → 0 < us < MAX_DELAY_US → now + us + MIN_DELAY_US < U64_MOD →
  2 ^ 28 ≤ now + us + MIN_DELAY_US - tw_now_us w < 2 ^ 36 →
  bucket_at tw 2 255 ≠ None ∧ timer_add tw now cur_fg w t us = None.
Proof.
  intros Ht Hn Hus Hb Hd. split; [done|]. change MIN_DELAY_US with 16 in *. unfold timer_add. rewrite (proj2 (Z.ltb_lt _ _)) by lia. cbn [negb].
  rewrite (proj2 (Z.leb_gt _ _)) by lia. rewrite sto_some by done. cbn [mbind option_bind]. rewrite u64_small by lia.
  unfold timer_insert. rsimpl. rewrite ld_some, rd_insert_eq by done. cbn [mbind option_bind]. change MIN_DELAY_US with 16.
  rewrite (u64_small (now + us + 16)), u64_small by lia. set (d := now + us + 16 - tw_now_us w) in *.
  unfold clz64. rewrite (proj2 (Z.eqb_neq d 0)) by lia. cbn [mbind option_bind].
  destruct (log2_range d 28 36) as [H1 H2]; [lia..|].
  assert (Z.shiftr (63 - (63 - Z.log2 d) - MIN_DELAY_SHIFT) WHEEL_SHIFT_LOG2 = 3) as ->; [|done].
  change MIN_DELAY_SHIFT with 4. change WHEEL_SHIFT_LOG2 with 3. rewrite Z.shiftr_div_pow2 by lia. Z.div_mod_to_equations. lia.
Qed.

(** ** Examples *)

Lemma timer_add_out_of_wheel_witness : timer_add 4096 0 NULL (mk_timerwheel ∅ 0 0) 64 (2 ^ 28 - 1) = None.
Proof. apply (timer_add_out_of_wheel 4096 0 NULL (mk_timerwheel ∅ 0 0) 64 (2 ^ 28 - 1)); done. Defined.

Lemma empty_fresh : fresh_wheel 4096 [64; 128] ∅.
Proof.
  split; [done|]. split; [done|]. intros t Ht. assert (t = 64 ∨ t = 128) as Ht' by (rewrite elem_of_cons, list_elem_of_singleton in Ht; done).
  split; [lia|]. split; [|done]. intros k Hk. unfold NB in Hk. lia.
Qed.

Lemma in_left (x : ptr) l : x ∈ x :: l.
Proof. apply elem_of_cons. by left. Qed.

Definition log_call (f t g : ptr) (s : timerwheel * list ptr) : option (timerwheel * list ptr) := Some (s.1, s.2 ++ [t]).



(** Off a multiple of 16 us the wheel is a turn early: a timer for 4112 us runs at 47 us. *)
Example timer_fires_early :
  match timer_events 4096 [64] log_call (λ _, NULL) 0 [ERun 33; EMod 33 64 4079; ERun 47] (timer_init_cpu 15 (mk_timerwheel ∅ 0 0), []) with
  | Some (w, called) => called = [64] ∧ tw_now_us w = 47 ∧ rd (tw_mem w) 64 TM_EXPIRES = 4112
  | None => False
  end.
Proof. vm_compute. done. Qed.
