(* ===== verification/Hash.v ===== *)
(** * Hash functions (inc/ix/hash.h)

    CRC-32C of one or two words, by the processor's instruction, and the subset of
    CityHash for one or two words. *)

From S2P Require Import Prelude.
Local Open Scope Z_scope.

(** ** CRC-32C *)

(** The instruction [crc32q]: the 64 bits of the word go through the reflected
    shift register, lowest bit first. *)
Definition CRC32C_POLY : Z := 0x82F63B78.
Definition crc_step (x : Z) : Z := Z.lxor (Z.shiftr x 1) (if Z.odd x then CRC32C_POLY else 0).
Definition mm_crc32_u64 (crc val : Z) : Z := Nat.iter 64 crc_step (Z.lxor (u32 crc) val).

Definition hash_crc32c_one (seed val : Z) : Z := u32 (mm_crc32_u64 seed val).
Definition hash_crc32c_two (seed a b : Z) : Z :=
  let seed := u32 (mm_crc32_u64 seed a) in u32 (mm_crc32_u64 seed b).

(** ** CityHash *)

Definition HASH_CITY_K2 : Z := 0x9ae16a3b2f90404f.

Definition hash_city_len16 (u v mul : Z) : Z :=
  let a := u64 (Z.lxor u v * mul) in
  let a := Z.lxor a (Z.shiftr a 47) in
  let b := u64 (Z.lxor v a * mul) in
  let b := Z.lxor b (Z.shiftr b 47) in
  u64 (b * mul).

Definition hash_city_rotate (val shift : Z) : Z := Z.lor (Z.shiftr val shift) (u64 (Z.shiftl val (64 - shift))).

Definition hash_city_one (val : Z) : Z :=
  let mul := u64 (HASH_CITY_K2 + 16) in
  let a := u64 (val + HASH_CITY_K2) in
  let b := val in
  let c := u64 (hash_city_rotate b 37 * mul + a) in
  let d := u64 (u64 (hash_city_rotate a 25 + b) * mul) in
  hash_city_len16 c d mul.

Definition hash_city_two (val_a val_b : Z) : Z :=
  let mul := u64 (HASH_CITY_K2 + 32) in
  let a := u64 (val_a + HASH_CITY_K2) in
  let b := val_b in
  let c := u64 (hash_city_rotate b 37 * mul + a) in
  let d := u64 (u64 (hash_city_rotate a 25 + b) * mul) in
  hash_city_len16 c d mul.

(** ** The register *)

Lemma crc_step_range x : 0 ≤ x < 2 ^ 32 → 0 ≤ crc_step x < 2 ^ 32.
Proof.
  intros Hx. unfold crc_step. assert (0 ≤ Z.shiftr x 1 < 2 ^ 32) as Hs.
  { rewrite Z.shiftr_div_pow2 by lia. Z.div_mod_to_equations. lia. }
  assert (∀ a, 0 ≤ a < 2 ^ 32 → 0 ≤ Z.lxor (Z.shiftr x 1) a < 2 ^ 32) as H; [|destruct (Z.odd x); apply H; unfold CRC32C_POLY; lia].
  intros a Ha. split; [by apply Z.lxor_nonneg; lia|]. destruct (decide (Z.lxor (Z.shiftr x 1) a = 0)) as [->|Hn]; [lia|].
  apply Z.log2_lt_pow2; [|].
  - assert (0 ≤ Z.lxor (Z.shiftr x 1) a) by (apply Z.lxor_nonneg; lia). lia.
  - eapply Z.le_lt_trans; [by apply Z.log2_lxor; lia|]. apply Z.max_lub_lt.
    + destruct (decide (Z.shiftr x 1 = 0)) as [->|]; [done|]. apply Z.log2_lt_pow2; lia.
    + destruct (decide (a = 0)) as [->|]; [done|]. apply Z.log2_lt_pow2; lia.
Qed.

(** The highest bit after a step is the bit that was shifted out. *)
Lemma crc_step_out x : 0 ≤ x < 2 ^ 32 → Z.testbit (crc_step x) 31 = Z.odd x.
Proof.
  intros Hx. unfold crc_step. rewrite Z.lxor_spec, Z.shiftr_spec by lia.
  rewrite (Z.bits_above_log2 x (31 + 1)); [by destruct (Z.odd x)|lia|].
  destruct (decide (x = 0)) as [->|]; [done|]. apply Z.log2_lt_pow2; lia.
Qed.

Lemma crc_step_inj x y : 0 ≤ x < 2 ^ 32 → 0 ≤ y < 2 ^ 32 → crc_step x = crc_step y → x = y.
Proof.
  intros Hx Hy E. assert (Z.odd x = Z.odd y) as Eo by (by rewrite <-(crc_step_out x Hx), <-(crc_step_out y Hy), E).
  unfold crc_step in E. rewrite Eo in E. assert (Z.shiftr x 1 = Z.shiftr y 1) as Es.
  { set (p := if Z.odd y then CRC32C_POLY else 0) in E. apply (f_equal (λ z, Z.lxor z p)) in E.
    by rewrite !Z.lxor_assoc, Z.lxor_nilpotent, !Z.lxor_0_r in E. }
  rewrite <-!Z.div2_spec in Es. rewrite (Z.div2_odd x), (Z.div2_odd y), Es, Eo. done.
Qed.

Lemma crc_iter n x : 0 ≤ x < 2 ^ 32 → 0 ≤ Nat.iter n crc_step x < 2 ^ 32.
Proof. intros Hx. induction n as [|n IH]; [done|]. rewrite Nat.iter_succ. by apply crc_step_range. Qed.

Lemma crc_iter_inj n x y : 0 ≤ x < 2 ^ 32 → 0 ≤ y < 2 ^ 32 → Nat.iter n crc_step x = Nat.iter n crc_step y → x = y.
Proof.
  intros Hx Hy. induction n as [|n IH]; [done|]. rewrite !Nat.iter_succ. intros E%crc_step_inj; [by apply IH|by apply crc_iter..].
Qed.

Lemma lxor_range32 a b : 0 ≤ a < 2 ^ 32 → 0 ≤ b < 2 ^ 32 → 0 ≤ Z.lxor a b < 2 ^ 32.
Proof.
  intros Ha Hb. assert (0 ≤ Z.lxor a b) as H0 by (apply Z.lxor_nonneg; lia). split; [done|].
  destruct (decide (Z.lxor a b = 0)) as [->|Hn]; [lia|]. apply Z.log2_lt_pow2; [lia|].
  eapply Z.le_lt_trans; [by apply Z.log2_lxor; lia|]. apply Z.max_lub_lt.
  - destruct (decide (a = 0)) as [->|]; [done|]. apply Z.log2_lt_pow2; lia.
  - destruct (decide (b = 0)) as [->|]; [done|]. apply Z.log2_lt_pow2; lia.
Qed.

Lemma crc_inj seed a b : 0 ≤ a < 2 ^ 32 → 0 ≤ b < 2 ^ 32 → mm_crc32_u64 seed a = mm_crc32_u64 seed b → a = b.
Proof.
  unfold mm_crc32_u64. generalize 64%nat. intros n Ha Hb E. apply crc_iter_inj in E; [|apply lxor_range32; [apply u32_range|done]..].
  apply (f_equal (Z.lxor (u32 seed))) in E. by rewrite <-!Z.lxor_assoc, Z.lxor_nilpotent, !Z.lxor_0_l in E.
Qed.

Lemma crc_small seed v : 0 ≤ v < 2 ^ 32 → 0 ≤ mm_crc32_u64 seed v < 2 ^ 32.
Proof. intros Hv. apply crc_iter, lxor_range32; [apply u32_range|done]. Qed.

(** For every seed the CRC hash has no collisions between 32-bit values: two
    network addresses share a bucket only when the table drops the bits they
    differ in. *)
Theorem hash_crc32c_one_injective seed a b :
  0 ≤ a < 2 ^ 32 → 0 ≤ b < 2 ^ 32 → hash_crc32c_one seed a = hash_crc32c_one seed b → a = b.
Proof.
  intros Ha Hb. unfold hash_crc32c_one. rewrite !u32_small by (by apply crc_small). by apply crc_inj.
Qed.

Lemma hash_crc32c_one_injective_witness :
  hash_crc32c_one 0xa36bdcbe 0x0A000001 = hash_crc32c_one 0xa36bdcbe (0x0A000000 + 1) ∧ 0x0A000001 = 0x0A000000 + 1.
Proof. split; [vm_compute; reflexivity|]. apply (hash_crc32c_one_injective 0xa36bdcbe); [lia|lia|vm_compute; reflexivity]. Defined.

(** The published check value: CRC-32C of the eight bytes "12345678". *)
Example crc32c_check : Z.lxor (hash_crc32c_one 0xFFFFFFFF 0x3837363534333231) 0xFFFFFFFF = 0x6087809A.
Proof. vm_compute. reflexivity. Qed.
