(* ===== verification/Float.v ===== *)
(** * IEEE 754 arithmetic the scheduler uses

    The dispatcher compares queueing delays as floating-point numbers: an
    [int64_t] divided by a [float], stored in a [double].  The values are those
    of the standard library's executable specification of IEEE 754 arithmetic
    (round to nearest, ties to even), at binary32 and binary64. *)

From Stdlib Require Import SpecFloat.
From S2P Require Import Prelude.
Local Open Scope Z_scope.

Abbreviation float32 := spec_float (only parsing).
Abbreviation float64 := spec_float (only parsing).

(** Conversions from integers. *)
Definition f32_of_Z (z : Z) : float32 := binary_normalize 24 128 z 0 false.
Definition f64_of_Z (z : Z) : float64 := binary_normalize 53 1024 z 0 false.

(** A change of format: exact from binary32 to binary64, rounded the other way. *)
Definition f_convert (prec emax : Z) (x : spec_float) : spec_float :=
  match x with
  | S754_finite s m e => binary_normalize prec emax (cond_Zopp s (Zpos m)) e s
  | _ => x
  end.
Definition f64_of_f32 (x : float32) : float64 := f_convert 53 1024 x.
Definition f32_of_f64 (x : float64) : float32 := f_convert 24 128 x.

Definition f32_div (x y : float32) : float32 := SFdiv 24 128 x y.
Definition f64_div (x y : float64) : float64 := SFdiv 53 1024 x y.
Definition f64_mul (x y : float64) : float64 := SFmul 53 1024 x y.

(** [x > y]; false when either is a NaN. *)
Definition f64_gt (x y : float64) : bool := SFltb y x.

Definition f64_zero : float64 := S754_zero false.

(** ** The order *)

Lemma SFltb_irrefl x : SFltb x x = false.
Proof.
  unfold SFltb. destruct x as [s|s| |s m e]; simpl; try done; [by destruct s|].
  rewrite Z.compare_refl. change (Pos.compare_cont Eq m m) with (m ?= m)%positive.
  rewrite Pos.compare_refl. by destruct s.
Qed.

(** The comparison of two finite numbers of the same sign is lexicographic. *)
Definition lex_lt (e1 : Z) (m1 : positive) (e2 : Z) (m2 : positive) : Prop :=
  e1 < e2 ∨ (e1 = e2 ∧ (m1 < m2)%positive).

Lemma SFltb_finite s1 m1 e1 s2 m2 e2 :
  SFltb (S754_finite s1 m1 e1) (S754_finite s2 m2 e2) = true ↔
    match s1, s2 with
    | true, false => True
    | false, true => False
    | false, false => lex_lt e1 m1 e2 m2
    | true, true => lex_lt e2 m2 e1 m1
    end.
Proof.
  unfold SFltb, lex_lt. simpl. change (Pos.compare_cont Eq m1 m2) with (m1 ?= m2)%positive.
  destruct s1, s2; simpl; try done;
    destruct (Z.compare_spec e1 e2); try (split; [done|lia]); try (split; [|done]; lia);
    destruct (Pos.compare_spec m1 m2); simpl; split; try done; lia.
Qed.

Lemma SFltb_trans x y z : SFltb x y = true → SFltb y z = true → SFltb x z = true.
Proof.
  destruct x as [sx|sx| |sx mx ex], y as [sy|sy| |sy my ey], z as [sz|sz| |sz mz ez];
    rewrite ?SFltb_finite; unfold SFltb; simpl; try done;
    try (destruct sx); try (destruct sy); try (destruct sz); simpl; try done.
  all: unfold lex_lt; intros; lia.
Qed.

Lemma f64_gt_irrefl x : f64_gt x x = false.
Proof. apply SFltb_irrefl. Qed.

Lemma f64_gt_trans x y z : f64_gt x y = true → f64_gt y z = true → f64_gt x z = true.
Proof. unfold f64_gt. intros H1 H2. by eapply SFltb_trans. Qed.

(** ** Rounding a positive number gives a positive number *)

Lemma digits2_log2 m : Zdigits2 (Zpos m) = Z.log2 (Zpos m) + 1.
Proof.
  simpl. assert (∀ p, Zpos (digits2_pos p) = Z.log2 (Zpos p) + 1) as H; [|apply H].
  induction p as [p IH|p IH|]; [| |done].
  - cbn [digits2_pos]. rewrite Pos2Z.inj_succ, IH. change (Zpos p~1) with (2 * Zpos p + 1).
    rewrite Z.log2_succ_double by lia. lia.
  - cbn [digits2_pos]. rewrite Pos2Z.inj_succ, IH. change (Zpos p~0) with (2 * Zpos p).
    rewrite Z.log2_double by lia. lia.
Qed.

Lemma shr_1_div mrs : 0 ≤ shr_m mrs → shr_m (shr_1 mrs) = shr_m mrs / 2.
Proof.
  destruct mrs as [[|[p|p|]|p] r s]; simpl; intros; try done; try lia.
  - change (Zpos p~1) with (2 * Zpos p + 1). rewrite Z.mul_comm, Z.div_add_l by lia. done.
  - change (Zpos p~0) with (2 * Zpos p). rewrite Z.mul_comm, Z.div_mul by lia. done.
Qed.

Lemma shr_iter_div p mrs :
  0 ≤ shr_m mrs → shr_m (SpecFloat.iter_pos shr_1 p mrs) = shr_m mrs / 2 ^ Zpos p.
Proof.
  revert mrs. induction p as [p IH|p IH|]; intros mrs H; simpl SpecFloat.iter_pos.
  - assert (0 ≤ shr_m (shr_1 mrs)) by (rewrite shr_1_div by done; apply Z.div_pos; lia).
    rewrite !IH, shr_1_div by (done || (rewrite IH by done; apply Z.div_pos; lia)).
    rewrite !Z.div_div by lia. f_equal.
    change (Zpos p~1) with (2 * Zpos p + 1). rewrite Z.pow_add_r, Z.pow_1_r by lia.
    replace (2 * Zpos p) with (Zpos p + Zpos p) by lia. rewrite Z.pow_add_r by lia. lia.
  - rewrite !IH by (done || (rewrite IH by done; apply Z.div_pos; lia)).
    rewrite Z.div_div by lia. f_equal.
    change (Zpos p~0) with (2 * Zpos p).
    replace (2 * Zpos p) with (Zpos p + Zpos p) by lia. rewrite Z.pow_add_r by lia. lia.
  - by rewrite shr_1_div.
Qed.

(** The magnitude of [m * 2^e]: the number of digits left of the binary point. *)
Definition magn (m : Z) (e : Z) : Z := Z.log2 m + 1 + e.

Lemma shr_fexp_magn prec emax m e l :
  0 < m → 1 ≤ prec → emin prec emax ≤ magn m e - prec →
  ∃ mrs e', shr_fexp prec emax m e l = (mrs, e') ∧ 0 < shr_m mrs ∧
    magn (shr_m mrs) e' = magn m e ∧ e' = Z.max e (magn m e - prec).
Proof.
  intros Hm Hp Hmin. unfold shr_fexp, fexp.
  destruct m as [|m|m]; [lia| |lia]. rewrite digits2_log2. fold (magn (Zpos m) e).
  rewrite Z.max_l by lia. unfold shr.
  assert (shr_m (shr_record_of_loc (Zpos m) l) = Zpos m) as El by (by destruct l as [|[]]).
  destruct (magn (Zpos m) e - prec - e) as [|n|n] eqn:En.
  - eexists _, _. split_and!; [done|by rewrite El..|lia].
  - eexists _, _. split; [done|]. rewrite shr_iter_div, El by (rewrite El; lia).
    rewrite <-Z.shiftr_div_pow2 by lia. unfold magn in *.
    assert (Zpos n ≤ Z.log2 (Zpos m)) by lia.
    split_and!; [|rewrite Z.log2_shiftr by lia; lia|lia].
    rewrite Z.shiftr_div_pow2 by lia. apply Z.div_str_pos. split; [lia|].
    etransitivity; [|apply Z.log2_spec; lia]. apply Z.pow_le_mono_r; lia.
  - eexists _, _. split_and!; [done|by rewrite El..|lia].
Qed.

Lemma round_nearest_even_bounds m l :
  m ≤ round_nearest_even m l ≤ m + 1.
Proof. destruct l as [|[]]; simpl; try lia. case_match; lia. Qed.

(** Rounding keeps a positive number positive and its magnitude within one; a
    number with enough digits gets exactly [prec] of them. *)
Lemma round_aux_magn prec emax s m e l :
  0 < m → 1 ≤ prec → emin prec emax ≤ magn m e - prec → magn m e + 1 ≤ emax →
  e ≤ emax - prec →
  ∃ m' e', binary_round_aux prec emax s m e l = S754_finite s m' e' ∧
    magn m e ≤ magn (Zpos m') e' ≤ magn m e + 1 ∧ (e ≤ magn m e - prec → e' = magn (Zpos m') e' - prec).
Proof.
  intros Hm Hp Hmin Hmax He. unfold binary_round_aux.
  destruct (shr_fexp_magn prec emax m e l) as (mrs & e1 & -> & Hm1 & Hk1 & He1); [done..|].
  set (m2 := round_nearest_even _ _).
  pose proof (round_nearest_even_bounds (shr_m mrs) (loc_of_shr_record mrs)) as Hr. fold m2 in Hr.
  assert (magn m e ≤ magn m2 e1 ≤ magn m e + 1) as Hk2.
  { unfold magn in *. pose proof (Z.log2_le_mono (shr_m mrs) m2).
    pose proof (Z.log2_le_mono m2 (Z.succ (shr_m mrs))).
    pose proof (Z.log2_succ_le (shr_m mrs)). lia. }
  destruct (shr_fexp_magn prec emax m2 e1 loc_Exact) as (mrs2 & e2 & -> & Hm3 & Hk3 & He2); [lia..|].
  destruct (shr_m mrs2) as [|m3|m3] eqn:E3; [lia| |lia].
  rewrite (proj2 (Z.leb_le _ _)) by lia. eexists _, _. split; [done|]. lia.
Qed.

Lemma shl_align_magn m e e' :
  ∃ m2 e2, shl_align m e e' = (m2, e2) ∧ magn (Zpos m2) e2 = magn (Zpos m) e ∧ e2 = Z.min e e'.
Proof.
  unfold shl_align. destruct (e' - e) as [|d|d] eqn:E.
  - eexists _, _. split_and!; [done..|lia].
  - eexists _, _. split_and!; [done..|lia].
  - eexists _, _. split_and!; [done| |lia]. unfold magn.
    assert (Zpos (Pos.iter xO m d) = Zpos m * 2 ^ Zpos d) as ->.
    { clear. induction d as [|d IH] using Pos.peano_ind; [simpl; lia|].
      rewrite Pos.iter_succ, Pos2Z.inj_xO, IH, Pos2Z.inj_succ, Z.pow_succ_r by lia. lia. }
    rewrite Z.log2_mul_pow2 by lia. lia.
Qed.

Lemma normalize_magn prec emax m e s :
  0 < m → 1 ≤ prec → emin prec emax ≤ magn m e - prec → magn m e + 1 ≤ emax → e ≤ emax - prec →
  ∃ m' e', binary_normalize prec emax m e s = S754_finite false m' e' ∧
    magn m e ≤ magn (Zpos m') e' ≤ magn m e + 1 ∧ e' = magn (Zpos m') e' - prec.
Proof.
  intros Hm Hp Hmin Hmax He. destruct m as [|m|m]; [lia| |lia]. unfold binary_normalize, binary_round.
  destruct (shl_align_magn m e (fexp prec emax (Zpos (digits2_pos m) + e))) as (m2 & e2 & -> & Hk & He2).
  pose proof (digits2_log2 m) as Hd. cbn [Zdigits2] in Hd. rewrite Hd in He2. fold (magn (Zpos m) e) in He2. unfold fexp in He2.
  rewrite <-Hk in *. destruct (round_aux_magn prec emax false (Zpos m2) e2 loc_Exact) as (m' & e' & E & Hm' & He'); try done; [lia|].
  exists m', e'. split; [exact E|]. split; [done|]. apply He'. lia.
Qed.

Lemma log2_div_bounds a b :
  0 < b < a → 0 < a / b ∧ Z.log2 a - Z.log2 b - 1 ≤ Z.log2 (a / b) ≤ Z.log2 a - Z.log2 b.
Proof.
  intros [Hb Ha]. assert (0 < a / b) as Hq0 by (apply Z.div_str_pos; lia). split; [done|].
  pose proof (Z.mul_div_le a b Hb) as H1. pose proof (Z.mul_succ_div_gt a b Hb) as H2. split.
  - assert (Z.log2 a < Z.log2 (a / b) + 1 + (Z.log2 b + 1)); [|lia].
    apply Z.log2_lt_pow2; [lia|]. pose proof (Z.log2_nonneg (a / b)). pose proof (Z.log2_nonneg b).
    rewrite Z.pow_add_r by lia.
    pose proof (Z.log2_spec (a / b) Hq0) as [_ Hu1]. pose proof (Z.log2_spec b Hb) as [_ Hu2].
    rewrite <-!Z.add_1_r in *. nia.
  - enough (Z.log2 (a / b) + Z.log2 b ≤ Z.log2 a) by lia.
    etransitivity; [apply Z.log2_mul_below; lia|]. apply Z.log2_le_mono. lia.
Qed.

(** A positive quotient of two positive numbers of moderate size. *)
Lemma div_magn mx ex my ey :
  let kx := magn (Zpos mx) ex in
  let ky := magn (Zpos my) ey in
  - 100 ≤ kx - ky ≤ 100 →
  ∃ m e, f32_div (S754_finite false mx ex) (S754_finite false my ey) = S754_finite false m e ∧
    kx - ky ≤ magn (Zpos m) e ≤ kx - ky + 2.
Proof.
  intros kx ky Hk. unfold f32_div, SFdiv, SFdiv_core_binary. rewrite !digits2_log2.
  fold (magn (Zpos mx) ex) (magn (Zpos my) ey). fold kx ky.
  assert (fexp 24 128 (kx - ky) = kx - ky - 24) as -> by (unfold fexp, emin; lia).
  set (e' := Z.min _ _). set (s := ex - ey - e').
  assert (0 ≤ s ∧ e' ≤ kx - ky - 24) as [Hs He'] by lia.
  assert (match s with Z0 => Zpos mx | Zpos _ => Z.shiftl (Zpos mx) s | Zneg _ => 0 end =
          Zpos mx * 2 ^ s) as ->.
  { destruct s; [lia|by rewrite Z.shiftl_mul_pow2|lia]. }
  set (m' := Zpos mx * 2 ^ s).
  pose proof (Z.div_eucl_eq m' (Zpos my)) as Heq. unfold Z.div, Z.modulo in *.
  assert (Z.log2 m' = Z.log2 (Zpos mx) + s) as Hl'.
  { unfold m'. rewrite Z.log2_mul_pow2 by lia. lia. }
  assert (0 < m') as Hm' by (unfold m'; assert (0 < 2 ^ s) by (apply Z.pow_pos_nonneg; lia); lia).
  assert (Zpos my < m') as Hgt.
  { apply Z.log2_lt_cancel. unfold kx, ky, magn in *. lia. }
  destruct (Z.div_eucl m' (Zpos my)) as [q r] eqn:Eq.
  assert (q = m' / Zpos my) as Hq by (unfold Z.div; by rewrite Eq).
  destruct (log2_div_bounds m' (Zpos my)) as [Hq0 Hlq]; [lia|]. rewrite <-Hq in Hq0, Hlq.
  assert (kx - ky ≤ magn q e' ≤ kx - ky + 1) as Hkq by (unfold kx, ky, magn in *; lia).
  destruct (round_aux_magn 24 128 (xorb false false) q e' (new_location (Zpos my) r))
    as (m & e & -> & Hm); [done|lia|unfold emin; lia..|].
  exists m, e. split; [done|lia].
Qed.

Lemma f32_of_Z_magn d :
  0 < d < 2 ^ 63 → ∃ m e, f32_of_Z d = S754_finite false m e ∧ 1 ≤ magn (Zpos m) e ≤ 64.
Proof.
  intros Hd. assert (1 ≤ magn d 0 ≤ 63).
  { unfold magn. pose proof (Z.log2_nonneg d). pose proof (Z.log2_lt_pow2 d 63). lia. }
  destruct (normalize_magn 24 128 d 0 false) as (m & e & E & Hm); [lia|lia|unfold emin; lia|lia..|].
  exists m, e. split; [done|lia].
Qed.

(** The delay of a waiting task, in units of its target, is positive. *)
Lemma delay_ratio_positive d my ey :
  0 < d < 2 ^ 63 → 1 ≤ magn (Zpos my) ey ≤ 64 →
  f64_gt (f64_of_f32 (f32_div (f32_of_Z d) (S754_finite false my ey))) f64_zero = true.
Proof.
  intros Hd Hy. destruct (f32_of_Z_magn d Hd) as (mx & ex & -> & Hx).
  destruct (div_magn mx ex my ey) as (m & e & -> & Hm); [lia|].
  unfold f64_of_f32, f_convert. simpl cond_Zopp.
  assert (e ≤ 200) by (unfold magn in *; pose proof (Z.log2_nonneg (Zpos m)); lia).
  destruct (normalize_magn 53 1024 (Zpos m) e false) as (m2 & e2 & -> & _);
    [lia|lia|unfold emin; lia|lia..|done].
Qed.

(** A product of two positive numbers of moderate size. *)
Lemma mul_magn mx ex my ey :
  let k := magn (Zpos mx) ex + magn (Zpos my) ey in
  -100 ≤ k ≤ 100 → ex + ey ≤ 200 →
  ∃ m e, f64_mul (S754_finite false mx ex) (S754_finite false my ey) = S754_finite false m e ∧
    k - 1 ≤ magn (Zpos m) e ≤ k + 1 ∧ (ex + ey ≤ k - 54 → e = magn (Zpos m) e - 53).
Proof.
  intros k Hk He. unfold f64_mul, SFmul.
  pose proof (Z.log2_mul_below (Zpos mx) (Zpos my)). pose proof (Z.log2_mul_above (Zpos mx) (Zpos my)).
  change (Zpos (mx * my)) with (Zpos mx * Zpos my).
  assert (k - 1 ≤ magn (Zpos mx * Zpos my) (ex + ey) ≤ k) by (unfold k, magn in *; lia).
  destruct (round_aux_magn 53 1024 (xorb false false) (Zpos mx * Zpos my) (ex + ey) loc_Exact)
    as (m & e & -> & Hm); [lia|lia|unfold emin; lia..|].
  exists m, e. split; [done|lia].
Qed.

(** [CFG.slos[i] = 2.5 * slo]: an [int] times a [double], stored in a [float]. *)
Definition f64_2_5 : float64 := S754_finite false 5629499534213120 (-51).
Definition slo_of_int (slo : Z) : float32 := f32_of_f64 (f64_mul f64_2_5 (f64_of_Z slo)).

Lemma slo_of_int_magn slo :
  0 < slo < 2 ^ 31 → ∃ m e, slo_of_int slo = S754_finite false m e ∧ 1 ≤ magn (Zpos m) e ≤ 64.
Proof.
  intros Hs. assert (1 ≤ magn slo 0 ≤ 31).
  { unfold magn. pose proof (Z.log2_nonneg slo). pose proof (Z.log2_lt_pow2 slo 31). lia. }
  destruct (normalize_magn 53 1024 slo 0 false) as (m & e & E & Hm); [lia|lia|unfold emin; lia|lia..|].
  unfold slo_of_int, f64_of_Z, f64_2_5. rewrite E.
  assert (magn 5629499534213120 (-51) = 2) as E2 by done.
  pose proof (Z.log2_nonneg (Zpos m)).
  destruct (mul_magn 5629499534213120 (-51) m e) as (m2 & e2 & E3 & Hm2);
    [rewrite E2; lia|unfold magn in *; lia|].
  rewrite E3. rewrite E2 in Hm2. unfold f32_of_f64, f_convert. simpl cond_Zopp.
  pose proof (Z.log2_nonneg (Zpos m2)).
  destruct (normalize_magn 24 128 (Zpos m2) e2 false) as (m3 & e3 & -> & Hm3);
    [lia|lia|unfold emin; lia|lia|unfold magn in *; lia|].
  exists m3, e3. split; [done|lia].
Qed.

(** A positive literal [m * 2^e] that is exactly representable. *)
Definition f64_lit (m : positive) (e : Z) : float64 := S754_finite false m e.

(** [i * 0.9 < n] is false for an [i] that has two binary digits more than [n]. *)
Definition f64_0_9 : float64 := f64_lit 8106479329266893 (-53).

Lemma f64_of_Z_magn z : 0 < z < 2 ^ 64 →
  ∃ m e, f64_of_Z z = S754_finite false m e ∧ Z.log2 z + 1 ≤ magn (Zpos m) e ≤ Z.log2 z + 2 ∧ e = magn (Zpos m) e - 53.
Proof.
  intros Hz. assert (0 ≤ Z.log2 z < 64) by (split; [apply Z.log2_nonneg|apply Z.log2_lt_pow2; lia]).
  destruct (normalize_magn 53 1024 z 0 false) as (m & e & E & Hm & He); unfold magn, emin in *; try lia. exists m, e. split; [exact E|lia].
Qed.

Lemma mul_0_9_large n i :
  0 ≤ n < 2 ^ 64 → 0 < i < 2 ^ 64 → (0 < n → Z.log2 n + 3 ≤ Z.log2 i) → SFltb (f64_mul (f64_of_Z i) f64_0_9) (f64_of_Z n) = false.
Proof.
  intros Hn Hi Hlog. destruct (f64_of_Z_magn i Hi) as (mi & ei & -> & Hmi & Hei).
  assert (magn 8106479329266893 (-53) = 0) as E9 by done. assert (Z.log2 i < 64) by (apply Z.log2_lt_pow2; lia). pose proof (Z.log2_nonneg i).
  destruct (mul_magn mi ei 8106479329266893 (-53)) as (m & e & E & Hm & He); rewrite ?E9 in *; [lia|lia|].
  unfold f64_0_9, f64_lit. rewrite E. destruct (decide (n = 0)) as [->|Hn0]; [done|].
  destruct (f64_of_Z_magn n) as (mn & en & -> & Hmn & Hen); [lia|]. apply not_true_iff_false. rewrite SFltb_finite. unfold lex_lt. lia.
Qed.
