(* ===== verification/Mempool.v ===== *)
(** * Memory pools (inc/ix/mempool.h, dp/core/mempool.c)

    A datastore cuts a contiguous run of 2MB pages into fixed-size elements,
    links them into chunks, and hands chunks to per-CPU (or global) pools.  A
    pool keeps an active free list [head], at most one spare chunk
    [private_chunk], and goes to the datastore under its lock for the rest.

    The section on refinement shows that a pool with its datastore is a stack of
    free elements: [mempool_alloc] pops it, [mempool_free] pushes on it. *)

From S2P Require Import Prelude Stddef Heap.
Local Open Scope Z_scope.

(** ** Data *)

(** [struct mempool_hdr]: the two link fields of a free element. *)
Definition HDR_NEXT : Z := 0.
Definition HDR_NEXT_CHUNK : Z := 8.

Definition MEMPOOL_MAGIC : Z := 0x12911776.
Definition MEMPOOL_DEFAULT_CHUNKSIZE : Z := 128.
Definition MEMPOOL_INITIAL_OFFSET : Z := 0.
Definition MEMPOOL_SANITY_GLOBAL : Z := 0.
Definition MEMPOOL_SANITY_PERCPU : Z := 1.
Definition PGSIZE_2MB : Z := 2097152.

(** [struct mempool_datastore] (the spinlock and the name are left out: each
    operation below takes the lock around its datastore accesses). *)
Record mempool_datastore := mk_mempool_datastore {
  ds_magic : Z;
  ds_chunk_head : ptr;
  ds_buf : ptr;
  ds_nr_pages : Z;
  ds_nr_elems : Z;
  ds_elem_len : Z;
  ds_nostraddle : Z;
  ds_chunk_size : Z;
  ds_num_chunks : Z;
  ds_free_chunks : Z;
  ds_num_locks : Z;
  ds_iomap_addr : ptr;
  ds_iomap_offset : Z;
}.

#[export] Instance eta_mempool_datastore : Settable mempool_datastore :=
  λ r, mk_mempool_datastore (ds_magic r) (ds_chunk_head r) (ds_buf r) (ds_nr_pages r)
    (ds_nr_elems r) (ds_elem_len r) (ds_nostraddle r) (ds_chunk_size r) (ds_num_chunks r)
    (ds_free_chunks r) (ds_num_locks r) (ds_iomap_addr r) (ds_iomap_offset r).

(** [struct mempool].  The [datastore] pointer of a pool is the datastore value
    the operations take beside the pool. *)
Record mempool := mk_mempool {
  mp_head : ptr;
  mp_num_free : Z;
  mp_elem_len : Z;
  mp_magic : Z;
  mp_buf : ptr;
  mp_private_chunk : ptr;
  mp_sanity : Z;
  mp_nr_elems : Z;
  mp_nostraddle : Z;
  mp_chunk_size : Z;
  mp_iomap_addr : ptr;
  mp_iomap_offset : Z;
}.

#[export] Instance eta_mempool : Settable mempool :=
  λ r, mk_mempool (mp_head r) (mp_num_free r) (mp_elem_len r) (mp_magic r) (mp_buf r)
    (mp_private_chunk r) (mp_sanity r) (mp_nr_elems r) (mp_nostraddle r) (mp_chunk_size r)
    (mp_iomap_addr r) (mp_iomap_offset r).

(** Static storage: every field 0. *)
Definition mempool_zero : mempool := mk_mempool 0 0 0 0 0 0 0 0 0 0 0 0.
Definition mempool_datastore_zero : mempool_datastore :=
  mk_mempool_datastore 0 0 0 0 0 0 0 0 0 0 0 0 0.

(** A pool with the datastore it draws from. *)
Definition pool : Type := mempool_datastore * mempool.

(** ** Operations *)

(** Second stage allocator: refill from the spare chunk, else from the datastore. *)
Definition mempool_alloc_2 (m : heap) (P : pool) : option (ptr * pool) :=
  let '(mds, p) := P in
  if negb (mp_magic p =? MEMPOOL_MAGIC) then None else
  if negb (mp_head p =? NULL) then None else
  if negb (mp_private_chunk p =? NULL) then
    let h := mp_private_chunk p in
    next ← ld m h HDR_NEXT;
    Some (h, (mds, p <| mp_head := next |> <| mp_private_chunk := NULL |>))
  else
    let h := ds_chunk_head mds in
    if negb (h =? NULL) then
      next_chunk ← ld m h HDR_NEXT_CHUNK;
      next ← ld m h HDR_NEXT;
      Some (h, (mds <| ds_chunk_head := next_chunk |>
                    <| ds_free_chunks ::= λ n, n - 1 |>
                    <| ds_num_locks ::= λ n, n + 1 |>,
                p <| mp_head := next |>))
    else Some (NULL, (mds, p)).

Definition mempool_alloc (m : heap) (P : pool) : option (ptr * pool) :=
  let '(mds, p) := P in
  let h := mp_head p in
  if negb (h =? NULL) then
    next ← ld m h HDR_NEXT;
    Some (h, (mds, p <| mp_head := next |> <| mp_num_free ::= λ n, n - 1 |>))
  else mempool_alloc_2 m P.

(** Second stage free: the active list becomes the spare chunk, the previous
    spare chunk returns to the datastore. *)
Definition mempool_free_2 (m : heap) (P : pool) (elem : ptr) : option (heap * pool) :=
  let '(mds, p) := P in
  if negb (mp_num_free p =? mp_chunk_size p) then None else
  m ← sto m elem HDR_NEXT NULL;
  '(m, mds) ←
    (if negb (mp_private_chunk p =? NULL) then
       m ← sto m (mp_private_chunk p) HDR_NEXT_CHUNK (ds_chunk_head mds);
       Some (m, mds <| ds_chunk_head := mp_private_chunk p |>
                    <| ds_free_chunks ::= λ n, n + 1 |>
                    <| ds_num_locks ::= λ n, n + 1 |>)
     else Some (m, mds));
  Some (m, (mds, p <| mp_private_chunk := mp_head p |>
                   <| mp_head := elem |>
                   <| mp_num_free := 1 |>)).

Definition mempool_free (m : heap) (P : pool) (elem : ptr) : option (heap * pool) :=
  let '(mds, p) := P in
  if mp_num_free p <? mp_chunk_size p then
    m ← sto m elem HDR_NEXT (mp_head p);
    Some (m, (mds, p <| mp_num_free ::= λ n, n + 1 |> <| mp_head := elem |>))
  else mempool_free_2 m P elem.

(** [mempool_create]: attach a pool in static storage to an existing datastore.
    Attaching twice, or to a datastore that was never created, panics. *)
Definition mempool_create (mds : mempool_datastore) (p : mempool) (sanity_type sanity_id : Z) :
    option mempool :=
  if negb (ds_magic mds =? MEMPOOL_MAGIC) then None else
  if negb (mp_magic p =? 0) then None else
  Some (p <| mp_magic := MEMPOOL_MAGIC |>
          <| mp_buf := ds_buf mds |>
          <| mp_head := NULL |>
          <| mp_sanity := Z.lor (Z.shiftl sanity_type 16) sanity_id |>
          <| mp_nr_elems := ds_nr_elems mds |>
          <| mp_elem_len := ds_elem_len mds |>
          <| mp_nostraddle := ds_nostraddle mds |>
          <| mp_chunk_size := ds_chunk_size mds |>
          <| mp_iomap_addr := ds_iomap_addr mds |>
          <| mp_iomap_offset := ds_iomap_offset mds |>).

(** Index arithmetic of pools whose elements may straddle pages. *)
Definition mempool_idx_to_ptr (p : mempool) (idx elem_len : Z) : option ptr :=
  if negb (idx <? mp_nr_elems p) then None else
  if negb (mp_nostraddle p =? 0) then None else
  Some (u64 (mp_buf p + u32 (elem_len * idx) + MEMPOOL_INITIAL_OFFSET)).

Definition mempool_ptr_to_idx (p : mempool) (a elem_len : Z) : option Z :=
  let x := u64 (a - mp_buf p - MEMPOOL_INITIAL_OFFSET) in
  let x := x / u64 elem_len in
  if x <? mp_nr_elems p then Some x else None.

Definition mempool_pagemem_to_iomap (p : mempool) (a : ptr) : option ptr :=
  if mp_iomap_offset p =? 0 then None else Some (u64 (a + mp_iomap_offset p)).

Definition mempool_iomap_to_ptr (p : mempool) (a : ptr) : option ptr :=
  if mp_iomap_offset p =? 0 then None else Some (u64 (a - mp_iomap_offset p)).

#[global] Arguments mempool_alloc : simpl never.
#[global] Arguments mempool_free : simpl never.

(** *** Building a datastore *)

(** The locals of [mempool_init_buf_with_pages] with the store and the datastore
    it updates. *)
Record init_st := mk_init_st {
  in_mem : heap;
  in_mds : mempool_datastore;
  in_cur : ptr;
  in_head : ptr;
  in_prev : ptr;
  in_count : Z;
}.

#[export] Instance eta_init_st : Settable init_st :=
  λ r, mk_init_st (in_mem r) (in_mds r) (in_cur r) (in_head r) (in_prev r) (in_count r).

(** [if (prev == NULL) head = cur; else prev->next = cur;] *)
Definition init_link (s : init_st) : option init_st :=
  if in_prev s =? NULL then Some (s <| in_head := in_cur s |>)
  else m ← sto (in_mem s) (in_prev s) HDR_NEXT (in_cur s); Some (s <| in_mem := m |>).

(** A full chunk goes to the front of the datastore's chunk list. *)
Definition init_close_chunk (s : init_st) : option init_st :=
  m ← (if ds_chunk_head (in_mds s) =? NULL then Some (in_mem s)
       else sto (in_mem s) (in_head s) HDR_NEXT_CHUNK (ds_chunk_head (in_mds s)));
  Some (s <| in_mem := m |>
          <| in_mds ::= λ d, d <| ds_chunk_head := in_head s |>
                               <| ds_num_chunks ::= λ n, n + 1 |>
                               <| ds_free_chunks ::= λ n, n + 1 |> |>
          <| in_head := NULL |>
          <| in_prev := NULL |>
          <| in_count := 0 |>).

(** The body of the inner loop. *)
Definition init_elem (elem_len : Z) (s : init_st) : option init_st :=
  s ← init_link s;
  let s := s <| in_count ::= λ n, n + 1 |> in
  s ← (if in_count s =? ds_chunk_size (in_mds s) then init_close_chunk s
       else Some (s <| in_prev := in_cur s |>));
  Some (s <| in_cur := u64 (in_cur s + elem_len) |>).

Definition init_page (elems_per_page elem_len : Z) (i : nat) : ST init_st unit :=
  st_mod (λ s, s <| in_cur :=
    u64 (ds_buf (in_mds s) + s32 (Z.of_nat i * PGSIZE_2MB) + MEMPOOL_INITIAL_OFFSET) |>) ≫= λ _,
  st_for (Z.to_nat elems_per_page) 0 (λ _ s, s' ← init_elem elem_len s; Some (tt, s')).

Definition mempool_init_buf_with_pages (m : heap) (mds : mempool_datastore)
    (elems_per_page nr_pages elem_len : Z) : option (heap * mempool_datastore) :=
  '(_, s) ← st_for (Z.to_nat nr_pages) 0 (init_page elems_per_page elem_len)
              (mk_init_st m mds NULL NULL NULL 0);
  Some (in_mem s, in_mds s).

(** [mempool_create_datastore].  [page_alloc_contig] and [mem_alloc_pages] give
    the address of a run of fresh 2MB pages for a page count (0 or
    [MAP_FAILED] when there is none). *)
Definition MAP_FAILED : Z := U64_MOD - 1.

Definition mempool_create_datastore (page_alloc_contig mem_alloc_pages : Z → ptr)
    (m : heap) (mds : mempool_datastore) (nr_elems elem_len nostraddle chunk_size : Z) :
    option (Z * heap * mempool_datastore) :=
  if negb (ds_magic mds =? 0) then None else
  if negb (Z.land chunk_size (chunk_size - 1) =? 0) then None else
  if chunk_size =? 0 then None else
  if negb (Z.quot nr_elems chunk_size * chunk_size =? nr_elems) then None else
  if (elem_len =? 0) || (nr_elems =? 0) then Some (- EINVAL, m, mds) else
  let mds := mds <| ds_magic := MEMPOOL_MAGIC |> in
  let elem_len := align_up elem_len 8 + MEMPOOL_INITIAL_OFFSET in
  let elems_per_page := s32 (PGSIZE_2MB / elem_len) in
  '(nr_pages, nr_elems, buf) ←
    (if negb (nostraddle =? 0) then
       if elems_per_page =? 0 then None else
       let nr_pages := div_up nr_elems elems_per_page in
       let buf := page_alloc_contig nr_pages in
       if buf =? NULL then None else Some (nr_pages, nr_elems, buf)
     else
       let nr_pages := s32 (u64 (u64 (nr_elems * elem_len) + (PGSIZE_2MB - 1)) / PGSIZE_2MB) in
       let nr_elems := s32 (u64 (s32 (nr_pages * PGSIZE_2MB)) / elem_len) in
       Some (nr_pages, nr_elems, mem_alloc_pages nr_pages));
  let mds := mds <| ds_buf := buf |>
                 <| ds_nr_pages := nr_pages |>
                 <| ds_nr_elems := nr_elems |>
                 <| ds_elem_len := elem_len |>
                 <| ds_chunk_size := chunk_size |>
                 <| ds_nostraddle := nostraddle |> in
  if (buf =? MAP_FAILED) || (buf =? NULL) then None else
  '(m, mds) ←
    (if negb (nostraddle =? 0) then
       mempool_init_buf_with_pages m mds elems_per_page nr_pages elem_len
     else mempool_init_buf_with_pages m mds nr_elems 1 elem_len);
  Some (0, m, mds).

(** ** Representation *)

(** A list of chunks linked by the [next_chunk] field of their first elements. *)
Fixpoint chunks (m : heap) (p : ptr) (cs : list (list ptr)) : Prop :=
  match cs with
  | [] => p = NULL
  | c :: cs' => p ≠ NULL ∧ chain m HDR_NEXT p c ∧ chunks m (rd m p HDR_NEXT_CHUNK) cs'
  end.

(** Well-formed pool: [h] is the active list, [pc] the spare chunk, [cs] the
    chunks in the datastore. *)
Record pool_wf (m : heap) (P : pool) (h pc : list ptr) (cs : list (list ptr)) : Prop := {
  wf_magic : mp_magic P.2 = MEMPOOL_MAGIC;
  wf_chunk_size : 0 < mp_chunk_size P.2;
  wf_head : chain m HDR_NEXT (mp_head P.2) h;
  wf_private : chain m HDR_NEXT (mp_private_chunk P.2) pc;
  wf_chunks : chunks m (ds_chunk_head P.1) cs;
  wf_nodup : NoDup (h ++ pc ++ concat cs);
  wf_num_free : mp_num_free P.2 ≤ Z.of_nat (length h);
  wf_num_free_max : mp_num_free P.2 ≤ mp_chunk_size P.2;
  wf_free_chunks : ds_free_chunks P.1 = Z.of_nat (length cs);
}.

(** The pool holds exactly the free elements [F], next to be allocated first. *)
Definition pool_rep (m : heap) (P : pool) (F : list ptr) : Prop :=
  ∃ h pc cs, pool_wf m P h pc cs ∧ F = h ++ pc ++ concat cs.

(** ** Frame properties *)

Lemma chunks_frame m m' p cs :
  agree_on HDR_NEXT (concat cs) m m' →
  agree_on HDR_NEXT_CHUNK (concat cs) m m' →
  chunks m p cs → chunks m' p cs.
Proof.
  revert p. induction cs as [|c cs IH]; intros p Hn Hc; simpl; [done|].
  intros (Hp & Hch & Hcs).
  destruct (chain_cons_inv _ _ _ _ Hch Hp) as (c' & -> & _).
  split_and!; [done|..].
  - eapply lseg_frame, Hch. intros x Hx. apply Hn. set_solver.
  - rewrite Hc by set_solver. apply IH; [..|done]; intros x Hx; [apply Hn|apply Hc]; set_solver.
Qed.

Lemma pool_wf_frame m m' P h pc cs :
  agree_on HDR_NEXT (h ++ pc ++ concat cs) m m' →
  agree_on HDR_NEXT_CHUNK (h ++ pc ++ concat cs) m m' →
  pool_wf m P h pc cs → pool_wf m' P h pc cs.
Proof.
  intros Hn Hc []. split; try done.
  - eapply lseg_frame; [|done]. intros x Hx. apply Hn. set_solver.
  - eapply lseg_frame; [|done]. intros x Hx. apply Hn. set_solver.
  - eapply chunks_frame; [..|done]; intros x Hx; [apply Hn|apply Hc]; set_solver.
Qed.

Lemma chunks_non_null m p cs x : chunks m p cs → x ∈ concat cs → x ≠ NULL.
Proof.
  revert p. induction cs as [|c cs IH]; intros p Hp Hx; simpl in *; [set_solver|].
  destruct Hp as (_ & Hc & Hcs). apply elem_of_app in Hx as [Hx|Hx]; [|eauto].
  by eapply lseg_non_null.
Qed.

Lemma pool_wf_non_null m P h pc cs x :
  pool_wf m P h pc cs → x ∈ h ++ pc ++ concat cs → x ≠ NULL.
Proof.
  intros [] Hx. rewrite !elem_of_app in Hx.
  destruct Hx as [Hx|[Hx|Hx]]; eauto using lseg_non_null, chunks_non_null.
Qed.

(** ** The stack refinement *)

(** [mempool_alloc] on an empty pool returns NULL and changes nothing. *)
Lemma alloc_empty m P : pool_rep m P [] → mempool_alloc m P = Some (NULL, P).
Proof.
  destruct P as [mds p]. intros (h & pc & cs & [] & HF). simpl in *.
  symmetry in HF. apply app_eq_nil in HF as [-> HF]. apply app_eq_nil in HF as [-> HF].
  assert (cs = []) as ->.
  { destruct cs as [|c cs]; [done|]. destruct wf_chunks0 as (H1 & H2 & _).
    apply chain_cons_inv in H2 as (? & -> & _); done. }
  simpl in *. unfold mempool_alloc, mempool_alloc_2.
  by rewrite wf_head0, wf_private0, wf_chunks0, wf_magic0.
Qed.

(** [mempool_alloc] pops the first free element. *)
Lemma alloc_pop m P x F :
  pool_rep m P (x :: F) →
  ∃ P', mempool_alloc m P = Some (x, P') ∧ pool_rep m P' F ∧ x ≠ NULL.
Proof.
  destruct P as [mds p]. intros (h & pc & cs & Hwf & HF).
  assert (x ≠ NULL) as Hx0.
  { eapply pool_wf_non_null; [done|]. rewrite <-HF. set_solver. }
  destruct Hwf. simpl in *. unfold mempool_alloc, mempool_alloc_2.
  destruct h as [|y h]; simpl in *.
  - rewrite wf_head0, wf_magic0. simpl. destruct pc as [|y pc]; simpl in *.
    + rewrite wf_private0. simpl. destruct cs as [|c cs]; [done|].
      destruct wf_chunks0 as (Hp & Hch & Hcs).
      destruct (chain_cons_inv _ _ _ _ Hch Hp) as (c' & -> & Hc').
      injection HF as -> ->. rewrite (proj2 (Z.eqb_neq _ _) Hx0). simpl.
      rewrite !ld_some by done. simpl. eexists. split_and!; [done| |done].
      exists c', [], cs. split; [|done]. apply NoDup_cons in wf_nodup0 as [_ ?].
      split; rsimpl; try done; lia.
    + destruct wf_private0 as (Hp & _ & Hpc). injection HF as <- ->.
      rewrite Hp, (proj2 (Z.eqb_neq _ _) Hx0). simpl. rewrite ld_some by done. simpl.
      eexists. split_and!; [done| |done]. exists pc, [], cs. split; [|done].
      apply NoDup_cons in wf_nodup0 as [_ ?]. split; rsimpl; try done; lia.
  - destruct wf_head0 as (Hp & _ & Hh). injection HF as <- ->.
    rewrite Hp, (proj2 (Z.eqb_neq _ _) Hx0). simpl. rewrite ld_some by done. simpl.
    eexists. split_and!; [done| |done]. exists h, pc, cs. split; [|done].
    apply NoDup_cons in wf_nodup0 as [_ ?]. split; rsimpl; try done; lia.
Qed.

(** The stores of [mempool_free]: the [next] field of the freed element, and the
    [next_chunk] field of an element that was free already. *)
Definition free_footprint (F : list ptr) (x q off : Z) : Prop :=
  (q = x ∧ off = HDR_NEXT) ∨ (q ∈ F ∧ off = HDR_NEXT_CHUNK).

(** [mempool_free] pushes the element. *)
Lemma free_push m P x F :
  pool_rep m P F → x ≠ NULL → x ∉ F →
  ∃ m' P', mempool_free m P x = Some (m', P') ∧ pool_rep m' P' (x :: F) ∧
    ∀ q off, ¬ free_footprint F x q off → rd m' q off = rd m q off.
Proof.
  destruct P as [mds p]. intros (h & pc & cs & Hwf & ->) Hx0 Hx.
  pose proof Hwf as []. simpl in *. unfold mempool_free.
  assert (∀ v, pool_wf (<[(x, HDR_NEXT) := v]> m) (mds, p) h pc cs) as Hwf'.
  { intros v. eapply pool_wf_frame, Hwf; apply agree_on_insert_ne; [by left|].
    by right. }
  destruct (Z.ltb_spec (mp_num_free p) (mp_chunk_size p)) as [Hlt|Hge].
  - rewrite sto_some by done. simpl. eexists _, _. split_and!; [done|..].
    + exists (x :: h), pc, cs. split; [|done]. destruct (Hwf' (mp_head p)).
      split; rsimpl; try done; [| |lia..].
      * rewrite rd_insert_eq. done.
      * apply NoDup_cons. done.
    + intros q off Hf. apply rd_insert_other. unfold free_footprint in Hf. tauto.
  - unfold mempool_free_2. assert (mp_num_free p = mp_chunk_size p) as E by lia.
    rewrite (proj2 (Z.eqb_eq _ _) E). simpl. rewrite sto_some by done. simpl.
    destruct (Hwf' NULL) as [? ? Hh1 Hp1 Hc1 ? ? ? ?]. simpl in *.
    destruct (Z.eqb_spec (mp_private_chunk p) NULL) as [Hp0|Hp0]; simpl.
    + eexists _, _. split_and!; [done|..].
      * apply (chain_head_null _ _ _ _ Hp1) in Hp0 as ->.
        exists [x], h, cs. split; [|done]. split; rsimpl; try done; [| |lia..].
        -- rewrite rd_insert_eq. done.
        -- apply NoDup_cons. done.
      * intros q off Hf. apply rd_insert_other. unfold free_footprint in Hf. tauto.
    + rewrite sto_some by done. simpl. eexists _, _. split_and!; [done|..].
      * destruct (chain_cons_inv _ _ _ _ Hp1 Hp0) as (pc' & -> & _).
        set (y := mp_private_chunk p) in *. set (m1 := <[(x, HDR_NEXT):=NULL]> m) in *.
        assert (∀ l, agree_on HDR_NEXT l m1 (<[(y, HDR_NEXT_CHUNK):=ds_chunk_head mds]> m1)) as Hag.
        { intros l. by apply agree_on_insert_ne; right. }
        exists [x], h, ((y :: pc') :: cs). split; [|done].
        split; rsimpl; try done; [..|lia].
        -- rewrite rd_insert_ne by (right; done). unfold m1. by rewrite rd_insert_eq.
        -- by eapply lseg_frame, Hh1.
        -- rewrite rd_insert_eq. split; [done|split].
           { by apply (lseg_frame m1 _ HDR_NEXT y (y :: pc') NULL (Hag _)). }
           eapply chunks_frame, Hc1; [done|]. apply agree_on_insert_ne. left.
           apply NoDup_app in wf_nodup0 as (_ & _ & Hnd).
           apply NoDup_cons in Hnd as [Hy _]. set_solver.
        -- apply NoDup_cons. done.
        -- lia.
      * intros q off Hf. unfold free_footprint in Hf.
        assert (mp_private_chunk p ∈ pc).
        { destruct (chain_cons_inv _ _ _ _ Hp1 Hp0) as (pc' & -> & _). set_solver. }
        rewrite !rd_insert_other; [done|tauto|]. intros [-> ->]. apply Hf. right. set_solver.
Qed.

(** ** Building a datastore links every element once *)

(** The addresses [mempool_init_buf_with_pages] visits, in order. *)
Definition page_elems (base elem_len : Z) (n : nat) : list ptr :=
  (λ j, base + Z.of_nat j * elem_len) <$> seq 0 n.

Definition elem_addrs (buf elems_per_page elem_len : Z) (n : nat) : list ptr :=
  concat ((λ i, page_elems (buf + Z.of_nat i * PGSIZE_2MB) elem_len (Z.to_nat elems_per_page))
            <$> seq 0 n).

Lemma page_elems_S base len n :
  page_elems base len (S n) = page_elems base len n ++ [base + Z.of_nat n * len].
Proof. unfold page_elems. rewrite seq_S, fmap_app. done. Qed.

Lemma elem_addrs_S buf epp len n :
  elem_addrs buf epp len (S n) =
    elem_addrs buf epp len n ++
    page_elems (buf + Z.of_nat n * PGSIZE_2MB) len (Z.to_nat epp).
Proof. unfold elem_addrs. rewrite seq_S, fmap_app, concat_app. simpl. by rewrite app_nil_r. Qed.

Lemma elem_of_page_elems x base len n :
  x ∈ page_elems base len n ↔ ∃ j, (j < n)%nat ∧ x = base + Z.of_nat j * len.
Proof.
  unfold page_elems. rewrite list_elem_of_fmap. split.
  - intros (j & -> & Hj%elem_of_seq). exists j. lia.
  - intros (j & Hj & ->). exists j. split; [done|]. apply elem_of_seq. lia.
Qed.

Lemma elem_of_elem_addrs x buf epp len n :
  x ∈ elem_addrs buf epp len n ↔
    ∃ i j, (i < n)%nat ∧ (j < Z.to_nat epp)%nat ∧
      x = buf + Z.of_nat i * PGSIZE_2MB + Z.of_nat j * len.
Proof.
  induction n as [|n IH].
  - unfold elem_addrs. simpl. split; [by intros ?%elem_of_nil|]. naive_solver lia.
  - rewrite elem_addrs_S, elem_of_app, IH, elem_of_page_elems. split.
    + intros [(i & j & ? & ? & ->)|(j & ? & ->)]; [exists i, j|exists n, j]; split_and!; done || lia.
    + intros (i & j & Hi & Hj & ->). destruct (decide (i = n)) as [->|].
      * right. eauto.
      * left. exists i, j. split_and!; done || lia.
Qed.

Lemma elem_addrs_length buf epp len n :
  length (elem_addrs buf epp len n) = (n * Z.to_nat epp)%nat.
Proof.
  induction n as [|n IH]; [done|].
  rewrite elem_addrs_S, length_app, IH. unfold page_elems. rewrite length_fmap, length_seq. lia.
Qed.

(** Elements of one page do not run into the next page. *)
Lemma elem_addrs_bound buf epp len n x :
  0 < len → epp * len ≤ PGSIZE_2MB → x ∈ elem_addrs buf epp len n →
  buf ≤ x ∧ x + len ≤ buf + Z.of_nat n * PGSIZE_2MB.
Proof.
  intros Hl Hp (i & j & Hi & Hj & ->)%elem_of_elem_addrs.
  assert (Z.of_nat j * len + len ≤ PGSIZE_2MB) by nia. unfold PGSIZE_2MB in *. nia.
Qed.

Lemma elem_addrs_nodup buf epp len n :
  0 < len → epp * len ≤ PGSIZE_2MB → NoDup (elem_addrs buf epp len n).
Proof.
  intros Hl Hp. induction n as [|n IH]; [apply NoDup_nil_2|].
  rewrite elem_addrs_S. apply NoDup_app. split_and!; [done|..].
  - intros x Hx (j & Hj & ->)%elem_of_page_elems.
    apply elem_addrs_bound in Hx; [|done..]. nia.
  - apply NoDup_fmap_2_strong; [|apply NoDup_seq]. intros i j _ _. nia.
Qed.

(** [d0] after [n] chunks were added, the last one at [ch]. *)
Definition add_chunks (d0 : mempool_datastore) (ch : ptr) (n : Z) : mempool_datastore :=
  d0 <| ds_chunk_head := ch |> <| ds_num_chunks ::= λ k, k + n |>
     <| ds_free_chunks ::= λ k, k + n |>.

Lemma mempool_datastore_ext d d' :
  ds_magic d = ds_magic d' → ds_chunk_head d = ds_chunk_head d' → ds_buf d = ds_buf d' →
  ds_nr_pages d = ds_nr_pages d' → ds_nr_elems d = ds_nr_elems d' →
  ds_elem_len d = ds_elem_len d' → ds_nostraddle d = ds_nostraddle d' →
  ds_chunk_size d = ds_chunk_size d' → ds_num_chunks d = ds_num_chunks d' →
  ds_free_chunks d = ds_free_chunks d' → ds_num_locks d = ds_num_locks d' →
  ds_iomap_addr d = ds_iomap_addr d' → ds_iomap_offset d = ds_iomap_offset d' → d = d'.
Proof. destruct d, d'; simpl; intros; subst; done. Qed.

Lemma add_chunks_succ d0 ch n hd :
  (add_chunks d0 ch n) <| ds_chunk_head := hd |> <| ds_num_chunks ::= λ k, k + 1 |>
    <| ds_free_chunks ::= λ k, k + 1 |> = add_chunks d0 hd (n + 1).
Proof. apply mempool_datastore_ext; unfold add_chunks; rsimpl; lia. Qed.

(** The loop invariant: [dn] are the elements visited so far, [cs] the chunks
    closed so far (last first) and [pl] the chunk under construction. *)
Record init_inv (m0 : heap) (d0 : mempool_datastore) (dn : list ptr) (cs : list (list ptr))
    (pl : list ptr) (s : init_st) : Prop := {
  ii_done : dn = concat (rev cs) ++ pl;
  ii_sizes : Forall (λ c, Z.of_nat (length c) = ds_chunk_size d0) cs;
  ii_count : in_count s = Z.of_nat (length pl);
  ii_count_max : in_count s < ds_chunk_size d0;
  ii_chunks : chunks (in_mem s) (ds_chunk_head (in_mds s)) cs;
  ii_head : chain (in_mem s) HDR_NEXT (in_head s) pl;
  ii_prev : in_prev s = default NULL (last pl);
  ii_fresh : ∀ x, x ∈ pl → rd (in_mem s) x HDR_NEXT_CHUNK = NULL;
  ii_other : ∀ q off, q ∉ dn → rd (in_mem s) q off = rd m0 q off;
  ii_mds : in_mds s = add_chunks d0 (ds_chunk_head (in_mds s)) (Z.of_nat (length cs));
}.

(** Linking the current element extends the chunk under construction. *)
Lemma init_link_ok m0 d0 dn cs pl s a :
  init_inv m0 d0 dn cs pl s → NoDup dn → in_cur s = a → a ≠ NULL → a ∉ dn →
  rd m0 a HDR_NEXT = NULL → rd m0 a HDR_NEXT_CHUNK = NULL →
  ∃ m1 hd, init_link s = Some (s <| in_mem := m1 |> <| in_head := hd |>) ∧
    chain m1 HDR_NEXT hd (pl ++ [a]) ∧
    chunks m1 (ds_chunk_head (in_mds s)) cs ∧
    (∀ x, x ∈ pl ++ [a] → rd m1 x HDR_NEXT_CHUNK = NULL) ∧
    (∀ q off, q ∉ dn → rd m1 q off = rd m0 q off).
Proof.
  intros [] Hnd Hcur Ha Hdn Hn Hc. unfold init_link. rewrite ii_prev0.
  assert (rd (in_mem s) a HDR_NEXT = NULL) as Hn' by (by rewrite ii_other0).
  assert (rd (in_mem s) a HDR_NEXT_CHUNK = NULL) as Hc' by (by rewrite ii_other0).
  destruct pl as [|y pl _] using rev_ind.
  - exists (in_mem s), a. simpl. rewrite Hcur. split_and!; try done.
    by intros x ->%list_elem_of_singleton.
  - rewrite last_snoc. simpl. assert (y ≠ NULL) as Hy.
    { eapply lseg_non_null; [exact ii_head0|set_solver]. }
    rewrite (proj2 (Z.eqb_neq _ _) Hy), sto_some by done. simpl.
    rewrite ii_done0 in Hnd. apply NoDup_app in Hnd as (_ & Hdis & Hpl).
    exists (<[(y, HDR_NEXT) := in_cur s]> (in_mem s)), (in_head s). split_and!.
    + by destruct s.
    + rewrite Hcur. apply lseg_link_last; try done; set_solver.
    + eapply chunks_frame, ii_chunks0; apply agree_on_insert_ne; [left|by right].
      intros Hin. apply (Hdis y); [|set_solver]. by rewrite rev_concat_elem.
    + intros x Hx. rewrite rd_insert_ne by (by right).
      apply elem_of_app in Hx as [Hx|Hx%list_elem_of_singleton]; [by apply ii_fresh0|by subst].
    + intros q off Hq. rewrite rd_insert_ne; [by apply ii_other0|]. left. set_solver.
Qed.

Lemma chunks_head_null m p cs : chunks m p cs → p = NULL → cs = [].
Proof. destruct cs; simpl; naive_solver. Qed.

(** Closing a chunk puts it in front of the datastore's chunk list. *)
Lemma init_close_ok s hd c cs :
  chain (in_mem s) HDR_NEXT (in_head s) c → in_head s = hd → hd ≠ NULL →
  chunks (in_mem s) (ds_chunk_head (in_mds s)) cs →
  rd (in_mem s) hd HDR_NEXT_CHUNK = NULL → hd ∉ concat cs →
  ∃ m2, init_close_chunk s =
      Some (s <| in_mem := m2 |>
              <| in_mds ::= λ d, d <| ds_chunk_head := hd |>
                                   <| ds_num_chunks ::= λ n, n + 1 |>
                                   <| ds_free_chunks ::= λ n, n + 1 |> |>
              <| in_head := NULL |> <| in_prev := NULL |> <| in_count := 0 |>) ∧
    chunks m2 hd (c :: cs) ∧
    (∀ q off, q ≠ hd → rd m2 q off = rd (in_mem s) q off).
Proof.
  intros Hc Hhd Hhd0 Hcs Hn Hnin. unfold init_close_chunk.
  rewrite Hhd in *.
  destruct (Z.eqb_spec (ds_chunk_head (in_mds s)) NULL) as [E|E].
  - exists (in_mem s). simpl. split_and!; [done|done|done| |done].
    rewrite Hn. pose proof (chunks_head_null _ _ _ Hcs E) as ->. done.
  - rewrite sto_some by done. simpl.
    exists (<[(hd, HDR_NEXT_CHUNK) := ds_chunk_head (in_mds s)]> (in_mem s)).
    split_and!; [done|done|..].
    + eapply lseg_frame, Hc. by apply agree_on_insert_ne; right.
    + rewrite rd_insert_eq. eapply chunks_frame, Hcs; apply agree_on_insert_ne; [by right|by left].
    + intros q off Hq. apply rd_insert_ne. left. done.
Qed.

Definition fresh_elem (m : heap) (a : ptr) : Prop :=
  a ≠ NULL ∧ rd m a HDR_NEXT = NULL ∧ rd m a HDR_NEXT_CHUNK = NULL.

(** One iteration of the inner loop. *)
Lemma init_elem_ok m0 d0 dn cs pl s a len :
  init_inv m0 d0 dn cs pl s → NoDup (dn ++ [a]) → in_cur s = a → fresh_elem m0 a →
  ∃ s' cs' pl', init_elem len s = Some s' ∧ init_inv m0 d0 (dn ++ [a]) cs' pl' s' ∧
    in_cur s' = u64 (a + len).
Proof.
  intros Hinv Hnd Hcur (Ha & Hn & Hc).
  apply NoDup_app in Hnd as (Hnd & Hdis & _).
  assert (a ∉ dn) as Hadn by set_solver.
  destruct (init_link_ok _ _ _ _ _ _ a Hinv Hnd) as (m1 & hd & E1 & Hch & Hcks & Hfr & Hoth);
    [done..|].
  destruct Hinv. unfold init_elem. rewrite E1. simpl.
  assert (ds_chunk_size (in_mds s) = ds_chunk_size d0) as Ecs by (by rewrite ii_mds0).
  destruct (chain_head_null _ _ _ _ Hch) as [Hhd0 _].
  assert (hd ≠ NULL) as Hhd by (intros E; specialize (Hhd0 E); by destruct pl).
  destruct (chain_cons_inv _ _ _ _ Hch Hhd) as (pl' & Epl & _).
  assert (hd ∈ pl ++ [a]) as Hhdin by (rewrite Epl; apply elem_of_cons; by left).
  destruct (Z.eqb_spec (in_count s + 1) (ds_chunk_size (in_mds s))) as [Ec|Ec]; rsimpl.
  - edestruct (init_close_ok (s <| in_mem := m1 |> <| in_head := hd |> <| in_count ::= λ n, n + 1 |>)
      hd (pl ++ [a]) cs) as (m2 & E2 & Hcs2 & Hoth2); rsimpl; [done..| | |].
    { by apply Hfr. }
    { rewrite ii_done0 in Hnd, Hadn. apply NoDup_app in Hnd as (_ & Hd & _).
      rewrite not_elem_of_app, rev_concat_elem in Hadn. intros Hin.
      apply elem_of_app in Hhdin as [?| ->%list_elem_of_singleton]; [|tauto].
      by eapply Hd; [apply rev_concat_elem|]. }
    rewrite E2. simpl. eexists _, ((pl ++ [a]) :: cs), []. split_and!; [done| |by rewrite Hcur].
    split; rsimpl; try done.
    + rewrite concat_app. simpl. rewrite !app_nil_r, ii_done0. by rewrite app_assoc.
    + constructor; [|done]. rewrite length_app. simpl. lia.
    + pose proof (ii_count_max0). lia.
    + intros x Hx. by apply elem_of_nil in Hx.
    + intros q off Hq. apply not_elem_of_app in Hq as [Hq Hqa].
      rewrite Hoth2; [by apply Hoth|]. intros ->. rewrite ii_done0, not_elem_of_app in Hq.
      rewrite elem_of_app in Hhdin. tauto.
    + rewrite ii_mds0, add_chunks_succ. f_equal. lia.
  - eexists _, cs, (pl ++ [a]). split_and!; [done| |by rewrite Hcur].
    split; rsimpl; try done.
    + rewrite ii_done0. by rewrite app_assoc.
    + rewrite length_app. simpl. lia.
    + lia.
    + rewrite last_snoc. done.
    + intros q off Hq. apply not_elem_of_app in Hq as [Hq _]. by apply Hoth.
Qed.

(** The inner loop visits the elements of one page. *)
Lemma init_page_ok m0 d0 dn cs pl s i epp len :
  let base := ds_buf d0 + Z.of_nat i * PGSIZE_2MB in
  let page := page_elems base len (Z.to_nat epp) in
  init_inv m0 d0 dn cs pl s → NoDup (dn ++ page) → (∀ a, a ∈ page → fresh_elem m0 a) →
  Z.of_nat i < 1024 → 0 < len → 0 ≤ epp → 0 ≤ base → base + (epp + 1) * len < U64_MOD →
  ∃ s' cs' pl', init_page epp len i s = Some (tt, s') ∧ init_inv m0 d0 (dn ++ page) cs' pl' s'.
Proof.
  intros base page Hinv Hnd Hfresh Hi Hlen Hepp Hb0 Hmax.
  unfold init_page. unfold mbind, st_bind, st_mod.
  assert (ds_buf (in_mds s) = ds_buf d0) as Ebuf by (destruct Hinv; by rewrite ii_mds0).
  edestruct (st_for_inv (λ j s, in_cur s = base + Z.of_nat j * len ∧
     ∃ cs pl, init_inv m0 d0 (dn ++ page_elems base len j) cs pl s)) as (s' & E & Hs').
  3:{ exists s'. destruct Hs' as (_ & cs' & pl' & Hinv'). exists cs', pl'. split; [exact E|done]. }
  - rsimpl. split.
    + rewrite Ebuf, s32_small by (unfold PGSIZE_2MB; lia). unfold MEMPOOL_INITIAL_OFFSET.
      rewrite u64_small; [lia|]. subst base. nia.
    + exists cs, pl. unfold page_elems. simpl. rewrite app_nil_r. by destruct Hinv.
  - intros j s1 Hj (Hcur & cs1 & pl1 & Hinv1). simpl in Hj. set (a := base + Z.of_nat j * len).
    assert (a ∈ page) as Ha by (apply elem_of_page_elems; exists j; split; [lia|done]).
    edestruct (init_elem_ok m0 d0 _ cs1 pl1 s1 a len Hinv1) as (s2 & cs2 & pl2 & E2 & Hinv2 & Hcur2);
      [|done|by apply Hfresh|].
    { rewrite <-app_assoc, <-page_elems_S. eapply NoDup_app_sub; [exact Hnd|].
      unfold page, page_elems. apply fmap_sublist, seq_prefix_sublist. lia. }
    rewrite E2. exists s2. split; [done|]. rewrite Nat.add_1_r. split.
    + rewrite Hcur2, u64_small; [subst a; lia|]. subst a. nia.
    + exists cs2, pl2. by rewrite page_elems_S, app_assoc.
Qed.

(** The whole initialisation: every full chunk is linked, a last partial chunk is
    left out. *)
Lemma init_buf_ok m d epp np len :
  let all := elem_addrs (ds_buf d) epp len np in
  0 < len → 0 ≤ epp → epp * len ≤ PGSIZE_2MB → Z.of_nat np ≤ 1024 → 0 < ds_buf d →
  ds_buf d + Z.of_nat np * PGSIZE_2MB + len < U64_MOD →
  ds_chunk_head d = NULL → 0 < ds_chunk_size d → (∀ a, a ∈ all → fresh_elem m a) →
  ∃ m' ch cs pl,
    mempool_init_buf_with_pages m d epp (Z.of_nat np) len =
      Some (m', add_chunks d ch (Z.of_nat (length cs))) ∧
    chunks m' ch cs ∧ Forall (λ c, Z.of_nat (length c) = ds_chunk_size d) cs ∧
    all = concat (rev cs) ++ pl ∧ Z.of_nat (length pl) < ds_chunk_size d ∧ same_outside all m m'.
Proof.
  intros all Hlen Hepp Hpg Hnp Hbuf Hmax Hch Hcs Hfresh.
  unfold mempool_init_buf_with_pages. rewrite Nat2Z.id.
  edestruct (st_for_inv (λ i s, ∃ cs pl, init_inv m d (elem_addrs (ds_buf d) epp len i) cs pl s)
    (init_page epp len) np 0%nat (mk_init_st m d NULL NULL NULL 0)) as (s' & E & cs & pl & Hinv).
  - exists [], []. split; rsimpl; try done; [by intros x ?%elem_of_nil|].
    apply mempool_datastore_ext; unfold add_chunks; rsimpl; lia.
  - intros i s Hi (cs & pl & Hinv). simpl in Hi.
    assert (NoDup (elem_addrs (ds_buf d) epp len (S i))) as Hnd by (by apply elem_addrs_nodup).
    rewrite elem_addrs_S in Hnd.
    destruct (init_page_ok m d _ cs pl s i epp len Hinv Hnd) as (s' & cs' & pl' & E & Hinv').
    + intros a Ha. apply Hfresh, elem_of_elem_addrs.
      apply elem_of_page_elems in Ha as (j & Hj & ->). exists i, j. split_and!; done || lia.
    + lia.
    + done.
    + done.
    + unfold PGSIZE_2MB. lia.
    + unfold PGSIZE_2MB in *. nia.
    + exists s'. split; [done|]. exists cs', pl'. by rewrite Nat.add_1_r, elem_addrs_S.
  - rewrite E. simpl in *. destruct Hinv.
    eexists _, _, cs, pl. split_and!; [by rewrite <-ii_mds0|done..|lia|].
    intros q off Hq. by apply ii_other0.
Qed.

Lemma concat_length_const {A} (cs : list (list A)) (n : Z) :
  Forall (λ c, Z.of_nat (length c) = n) cs →
  Z.of_nat (length (concat cs)) = Z.of_nat (length cs) * n.
Proof. induction 1; simpl; [done|]. rewrite length_app. lia. Qed.

(** The chunks of a fresh datastore hold at least as many elements as were asked for. *)
Lemma chunk_capacity {A} (all pl : list A) cs (sz nr : Z) :
  Forall (λ c, Z.of_nat (length c) = sz) cs → all = concat (rev cs) ++ pl →
  Z.of_nat (length pl) < sz → 0 < sz → nr mod sz = 0 → nr ≤ Z.of_nat (length all) →
  nr ≤ Z.of_nat (length (concat cs)).
Proof.
  intros Hc -> Hpl Hsz Hmod Hnr. rewrite length_app in Hnr.
  assert (Forall (λ c, Z.of_nat (length c) = sz) (rev cs)) as Hr by (by apply Forall_rev).
  pose proof (concat_length_const _ _ Hc) as E1. pose proof (concat_length_const _ _ Hr) as E2.
  rewrite length_rev in E2. rewrite E1.
  assert (nr = sz * (nr / sz)) as Eq by (pose proof (Z.div_mod nr sz); lia).
  assert (nr / sz < Z.of_nat (length cs) + 1) by (apply (Z.mul_lt_mono_pos_l sz); lia). nia.
Qed.

(** Two elements at different positions do not overlap. *)
Lemma elem_addrs_spacing buf epp len n x y :
  0 < len → epp * len ≤ PGSIZE_2MB →
  x ∈ elem_addrs buf epp len n → y ∈ elem_addrs buf epp len n → x ≠ y →
  x + len ≤ y ∨ y + len ≤ x.
Proof.
  intros Hl Hp (i & j & Hi & Hj & ->)%elem_of_elem_addrs (i' & j' & Hi' & Hj' & ->)%elem_of_elem_addrs.
  assert (Z.of_nat j * len + len ≤ PGSIZE_2MB) by nia.
  assert (Z.of_nat j' * len + len ≤ PGSIZE_2MB) by nia.
  intros Hne. unfold PGSIZE_2MB in *.
  destruct (lt_eq_lt_dec i i') as [[?|<-]|?]; [left; nia| |right; nia].
  destruct (lt_eq_lt_dec j j') as [[?|<-]|?]; [left; nia|done|right; nia].
Qed.

(** ** The interface the clients of a pool rely on *)

(** An allocator over pool states [P] that behaves as a stack of free objects.
    The last clause of [sa_free] is what [mbuf_dequeue] needs: it reads a field
    of an element it has just freed. *)
Class StackAllocator (alloc : heap → pool → option (ptr * pool))
    (free : heap → pool → ptr → option (heap * pool))
    (rep : heap → pool → list ptr → Prop) : Prop := {
  sa_alloc_empty m P : rep m P [] → alloc m P = Some (NULL, P);
  sa_alloc_pop m P x F : rep m P (x :: F) →
    ∃ P', alloc m P = Some (x, P') ∧ rep m P' F ∧ x ≠ NULL;
  sa_free_push m P x F : rep m P F → x ≠ NULL → x ∉ F →
    ∃ m' P', free m P x = Some (m', P') ∧ rep m' P' (x :: F) ∧
      ∀ q off, ¬ free_footprint F x q off → rd m' q off = rd m q off;
  sa_frame m m' P F : rep m P F →
    agree_on HDR_NEXT F m m' → agree_on HDR_NEXT_CHUNK F m m' → rep m' P F;
  sa_nodup m P F : rep m P F → NoDup F;
  sa_non_null m P F x : rep m P F → x ∈ F → x ≠ NULL;
}.

#[export] Instance mempool_stack : StackAllocator mempool_alloc mempool_free pool_rep.
Proof.
  split.
  - apply alloc_empty.
  - apply alloc_pop.
  - apply free_push.
  - intros m m' P F (h & pc & cs & Hwf & ->) H1 H2. exists h, pc, cs.
    split; [by eapply pool_wf_frame|done].
  - intros m P F (h & pc & cs & [] & ->). done.
  - intros m P F x (h & pc & cs & Hwf & ->). by eapply pool_wf_non_null.
Qed.

Lemma pool_rep_frame X m m' P F :
  pool_rep m P F → same_outside X m m' → (∀ x, x ∈ F → x ∉ X) → pool_rep m' P F.
Proof. intros HF Hs Hd. eapply sa_frame; [done|..]; by eapply same_outside_agree. Qed.

(** Freeing with a coarser footprint. *)
Lemma pool_free m P F x :
  pool_rep m P F → x ≠ NULL → x ∉ F →
  ∃ m' P', mempool_free m P x = Some (m', P') ∧ pool_rep m' P' (x :: F) ∧ same_outside (x :: F) m m'.
Proof.
  intros HF Hx HxF. destruct (sa_free_push m P x F) as (m' & P' & E & Hrep & Hrd); [done..|].
  exists m', P'. split_and!; [done..|].
  intros q off Hq. apply Hrd. intros [[-> _]|[? _]]; set_solver.
Qed.

(** ** Traces of one pool *)

Inductive pool_op := OpAlloc | OpFree (x : ptr).

(** Run a sequence of operations; the pointers returned by the allocations. *)
Fixpoint run_pool (ops : list pool_op) (m : heap) (P : pool) : option (list ptr * heap * pool) :=
  match ops with
  | [] => Some ([], m, P)
  | OpAlloc :: ops' =>
      '(x, P) ← mempool_alloc m P;
      '(r, m, P) ← run_pool ops' m P; Some (x :: r, m, P)
  | OpFree x :: ops' =>
      '(m, P) ← mempool_free m P x; run_pool ops' m P
  end.

(** The same operations on a stack of free elements. *)
Fixpoint run_stack (ops : list pool_op) (F : list ptr) : list ptr * list ptr :=
  match ops with
  | [] => ([], F)
  | OpAlloc :: ops' => let '(r, F') := run_stack ops' (tail F) in (default NULL (head F) :: r, F')
  | OpFree x :: ops' => run_stack ops' (x :: F)
  end.

(** The caller frees only elements that are not free. *)
Fixpoint frees_ok (ops : list pool_op) (F : list ptr) : Prop :=
  match ops with
  | [] => True
  | OpAlloc :: ops' => frees_ok ops' (tail F)
  | OpFree x :: ops' => x ≠ NULL ∧ x ∉ F ∧ frees_ok ops' (x :: F)
  end.

(** C12: A pool with its datastore refines a LIFO stack of free elements: on every
    sequence of allocations and of frees of elements that are not free, the
    pool never faults, returns what the stack pops (NULL exactly when the stack
    is empty), and ends in a state that represents the resulting stack. *)
Theorem mempool_refines_stack m P F ops :
  pool_rep m P F → frees_ok ops F →
  ∃ m' P', run_pool ops m P = Some ((run_stack ops F).1, m', P') ∧
    pool_rep m' P' (run_stack ops F).2.
Proof.
  revert m P F. induction ops as [|[|x] ops IH]; intros m P F HF Hok; simpl in *.
  - eauto.
  - destruct F as [|y F]; simpl in *.
    + rewrite alloc_empty by done. simpl. destruct (IH m P [] HF Hok) as (m' & P' & -> & ?).
      destruct (run_stack ops []). simpl in *. eauto.
    + destruct (alloc_pop _ _ _ _ HF) as (P1 & -> & HF1 & _). simpl.
      destruct (IH m P1 F HF1 Hok) as (m' & P' & -> & ?). destruct (run_stack ops F). simpl in *. eauto.
  - destruct Hok as (Hx & HxF & Hok). destruct (free_push _ _ _ _ HF Hx HxF) as (m1 & P1 & -> & HF1 & _).
    simpl. by apply IH.
Qed.

(** A datastore with one chunk of two elements, and a fresh pool on it. *)
Definition ex_heap : heap := <[(4096, HDR_NEXT) := 4160]> ∅.
Definition ex_ds : mempool_datastore :=
  mk_mempool_datastore MEMPOOL_MAGIC 4096 4096 1 2 64 1 2 1 1 0 0 0.
Definition ex_pool : pool :=
  (ex_ds, mk_mempool 0 0 64 MEMPOOL_MAGIC 4096 0 0 2 1 2 0 0).

Lemma ex_pool_rep : pool_rep ex_heap ex_pool [4096; 4160].
Proof.
  exists [], [], [[4096; 4160]]. split; [|done]. split; try done; simpl.
  apply (bool_decide_unpack _). by vm_compute.
Defined.

Lemma mempool_refines_stack_witness :
  ∃ m' P', run_pool [OpAlloc; OpAlloc; OpAlloc; OpFree 4096; OpAlloc] ex_heap ex_pool =
             Some ([4096; 4160; 0; 4096], m', P') ∧ pool_rep m' P' [].
Proof.
  apply (mempool_refines_stack ex_heap ex_pool [4096; 4160]
           [OpAlloc; OpAlloc; OpAlloc; OpFree 4096; OpAlloc]).
  - apply ex_pool_rep.
  - simpl. split_and!; [lia|apply not_elem_of_nil|done].
Defined.

(** ** A created datastore serves its first pool *)

Lemma pow2_land_pred k : 0 ≤ k → Z.land (2 ^ k) (2 ^ k - 1) = 0.
Proof.
  intros Hk. replace (2 ^ k - 1) with (Z.ones k) by (rewrite Z.ones_equiv; lia).
  rewrite Z.land_ones by done. apply Z.mod_same. pose proof (Z.pow_pos_nonneg 2 k). lia.
Qed.

(** Geometry of a datastore whose elements do not straddle pages. *)
Section datastore.
Context (nr_elems elem_len : Z).
Definition ds_len : Z := align_up elem_len 8.
Definition ds_per_page : Z := PGSIZE_2MB / ds_len.
Definition ds_pages : Z := div_up nr_elems ds_per_page.

Context (Helem : 0 < elem_len ≤ PGSIZE_2MB) (Hnr : 0 < nr_elems < 2 ^ 31).

Lemma ds_len_bounds : elem_len ≤ ds_len ≤ PGSIZE_2MB ∧ ds_len mod 8 = 0.
Proof.
  unfold ds_len. destruct (align_up_ge elem_len 3) as [H1 H2]; [lia..|unfold U64_MOD, PGSIZE_2MB in *; lia|].
  change (2 ^ 3) with 8 in *. split; [|done]. split; [lia|].
  unfold PGSIZE_2MB in *. Z.div_mod_to_equations. lia.
Qed.

Lemma ds_per_page_bounds :
  0 < ds_per_page ∧ ds_per_page * ds_len ≤ PGSIZE_2MB ∧ s32 ds_per_page = ds_per_page.
Proof.
  pose proof ds_len_bounds as [? _]. unfold ds_per_page.
  assert (0 < PGSIZE_2MB / ds_len) by (apply Z.div_str_pos; lia).
  pose proof (Z.mul_div_le PGSIZE_2MB ds_len).
  pose proof (Z.div_le_upper_bound PGSIZE_2MB ds_len PGSIZE_2MB).
  split_and!; [lia..|]. apply s32_small. unfold PGSIZE_2MB in *. nia.
Qed.

Lemma ds_pages_bounds : 0 < ds_pages ∧ nr_elems ≤ ds_pages * ds_per_page.
Proof.
  pose proof ds_per_page_bounds as (? & _). unfold ds_pages.
  pose proof (div_up_spec nr_elems ds_per_page). nia.
Qed.
End datastore.

(** The elements a fresh pool on the datastore can hand out. *)
Definition ds_layout (buf len pages : Z) (F : list ptr) : Prop :=
  NoDup F ∧
  (∀ x, x ∈ F → buf ≤ x ∧ x + len ≤ buf + pages * PGSIZE_2MB ∧
                (x - buf) / PGSIZE_2MB = (x + len - 1 - buf) / PGSIZE_2MB ∧ (len | (x - buf) mod PGSIZE_2MB)) ∧
  (∀ x y, x ∈ F → y ∈ F → x ≠ y → x + len ≤ y ∨ y + len ≤ x).

Lemma elem_addrs_layout buf epp len n F :
  0 < len → epp * len ≤ PGSIZE_2MB → NoDup F →
  (∀ x, x ∈ F → x ∈ elem_addrs buf epp len n) → ds_layout buf len (Z.of_nat n) F.
Proof.
  intros Hl Hp Hnd HF. split_and!; [done|..].
  - intros x Hx. pose proof (HF x Hx) as Hin.
    destruct (elem_addrs_bound _ _ _ _ _ Hl Hp Hin) as [H1 H2]. split; [done|]. split; [done|].
    apply elem_of_elem_addrs in Hin as (i & j & Hi & Hj & ->).
    assert (Z.of_nat j * len + len ≤ PGSIZE_2MB) by nia.
    split; [|exists (Z.of_nat j); symmetry; eapply Z.mod_unique_pos; [split; [nia|unfold PGSIZE_2MB in *; nia]|]; instantiate (1 := Z.of_nat i); lia].
    transitivity (Z.of_nat i); [symmetry|]; eapply Z.div_unique_pos.
    all: unfold PGSIZE_2MB in *.
    + instantiate (1 := Z.of_nat j * len). nia.
    + lia.
    + instantiate (1 := Z.of_nat j * len + len - 1). nia.
    + lia.
  - intros x y Hx Hy. apply (elem_addrs_spacing buf epp len n); auto.
Qed.

(** The run of [mempool_create_datastore] with [nostraddle] set. *)
Lemma create_datastore_run pa ma m nr elem_len k :
  let len := ds_len elem_len in
  let epp := ds_per_page elem_len in
  let np := ds_pages nr elem_len in
  0 < elem_len ≤ PGSIZE_2MB → 0 < nr < 2 ^ 31 → 0 ≤ k → nr mod 2 ^ k = 0 →
  0 < pa np → pa np ≠ MAP_FAILED →
  mempool_create_datastore pa ma m mempool_datastore_zero nr elem_len 1 (2 ^ k) =
    '(m', mds) ← mempool_init_buf_with_pages m
        (mk_mempool_datastore MEMPOOL_MAGIC 0 (pa np) np nr len 1 (2 ^ k) 0 0 0 0 0) epp np len;
    Some (0, m', mds).
Proof.
  intros len epp np He Hnr Hk Hmod Hpa Hmf. unfold mempool_create_datastore. simpl.
  pose proof (Z.pow_pos_nonneg 2 k) as Hpow.
  rewrite pow2_land_pred, (proj2 (Z.eqb_neq (2 ^ k) 0)) by lia. simpl.
  rewrite Z.quot_div_nonneg by lia.
  replace (nr / 2 ^ k * 2 ^ k) with nr by (pose proof (Z.div_mod nr (2 ^ k)); lia).
  rewrite Z.eqb_refl, (proj2 (Z.eqb_neq elem_len 0)), (proj2 (Z.eqb_neq nr 0)) by lia. simpl.
  unfold MEMPOOL_INITIAL_OFFSET. rewrite Z.add_0_r. fold (ds_len elem_len).
  fold (ds_per_page elem_len). destruct (ds_per_page_bounds elem_len He) as (Hepp & _ & ->).
  rewrite (proj2 (Z.eqb_neq _ 0)) by lia. fold (ds_pages nr elem_len). fold np.
  rewrite (proj2 (Z.eqb_neq (pa np) 0)) by lia. simpl.
  rewrite (proj2 (Z.eqb_neq (pa np) MAP_FAILED)), (proj2 (Z.eqb_neq (pa np) 0)) by lia. done.
Qed.

(** Creating a datastore of non-straddling elements and attaching a pool gives a
    pool whose free elements are at least the number asked for, lie inside the
    allocated pages, never cross a 2MB page boundary and never overlap; nothing
    outside the pages is written. *)
Lemma create_pool_ok pa ma m nr elem_len k ty id :
  let len := ds_len elem_len in
  let np := ds_pages nr elem_len in
  0 < elem_len ≤ PGSIZE_2MB → 0 < nr < 2 ^ 31 → 0 ≤ k → nr mod 2 ^ k = 0 →
  np ≤ 1024 → 0 < pa np → pa np + (np + 1) * PGSIZE_2MB < MAP_FAILED →
  (∀ a off, pa np ≤ a < pa np + np * PGSIZE_2MB → rd m a off = 0) →
  ∃ m' mds p F,
    mempool_create_datastore pa ma m mempool_datastore_zero nr elem_len 1 (2 ^ k) =
      Some (0, m', mds) ∧
    mempool_create mds mempool_zero ty id = Some p ∧
    pool_rep m' (mds, p) F ∧ nr ≤ Z.of_nat (length F) ≤ np * ds_per_page elem_len ∧
    ds_layout (pa np) len np F ∧
    (∀ a off, ¬ (pa np ≤ a < pa np + np * PGSIZE_2MB) → rd m' a off = rd m a off).
Proof.
  intros len np He Hnr Hk Hmod Hnp Hpa Hmax Hzero.
  destruct (ds_per_page_bounds elem_len He) as (Hepp & Hpp & _).
  destruct (ds_pages_bounds nr elem_len He Hnr) as [Hnp0 Hcap].
  destruct (ds_len_bounds elem_len He) as [Hlen _]. fold np in Hnp0, Hcap. fold len in Hlen, Hpp.
  pose proof (Z.pow_pos_nonneg 2 k) as Hpow.
  rewrite create_datastore_run by (fold np; unfold MAP_FAILED, PGSIZE_2MB in *; lia). fold np len.
  set (d := mk_mempool_datastore _ _ _ _ _ _ _ _ _ _ _ _ _). set (epp := ds_per_page elem_len) in Hepp, Hpp, Hcap |- *.
  rewrite <-(Z2Nat.id np) by lia.
  destruct (init_buf_ok m d epp (Z.to_nat np) len) as (m' & ch & cs & pl & E & Hch & Hsz & Hall & Hpl & Hso);
    simpl; try (unfold MAP_FAILED, PGSIZE_2MB in *; lia).
  { intros a Ha. apply elem_addrs_bound in Ha; [|lia..].
    split; [|split]; [lia|apply Hzero; lia..]. }
  rewrite Z2Nat.id in * by lia. rewrite E. simpl in *.
  assert (NoDup (concat (rev cs) ++ pl)) as Hnd by (rewrite <-Hall; apply elem_addrs_nodup; lia).
  assert (concat (rev cs) ≡ₚ concat cs) as Hperm by apply rev_concat_perm.
  eexists _, _, _, (concat cs). split_and!; [done..| | | | |].
  - exists [], [], cs. split; [|done]. split; rsimpl; try done; try lia.
    rewrite <-Hperm. by apply NoDup_app in Hnd as (? & _).
  - eapply (chunk_capacity (elem_addrs (pa np) epp len (Z.to_nat np)) pl cs (2 ^ k)); try done; try lia.
    rewrite elem_addrs_length. nia.
  - pose proof (elem_addrs_length (pa np) epp len (Z.to_nat np)) as Hl.
    rewrite Hall, length_app, Hperm in Hl. fold epp. nia.
  - rewrite <-(Z2Nat.id np) by lia.
    apply (elem_addrs_layout _ epp); [lia..| |].
    + rewrite <-Hperm. by apply NoDup_app in Hnd as (? & _).
    + intros x Hx. rewrite Z2Nat.id by lia. rewrite Hall. apply elem_of_app. left. by rewrite Hperm.
  - intros a off Ha. apply Hso. intros Hin. apply elem_addrs_bound in Hin as [? ?]; [|lia..].
    apply Ha. lia.
Qed.

(** ** The free counter *)

(** One operation moves [num_free] at least as much as the number of free elements. *)
Lemma alloc_num_free m P x P' :
  mempool_alloc m P = Some (x, P') →
  mp_num_free P.2 - 1 ≤ mp_num_free P'.2 ≤ mp_num_free P.2 ∧ mp_chunk_size P'.2 = mp_chunk_size P.2.
Proof.
  destruct P as [mds p]. unfold mempool_alloc, mempool_alloc_2, ld. intros H.
  repeat (case_match; simplify_eq/=); rsimpl; lia.
Qed.

Lemma free_num_free m P x m' P' :
  mempool_free m P x = Some (m', P') →
  (mp_num_free P'.2 = mp_num_free P.2 + 1 ∨ mp_num_free P'.2 = 1) ∧
  mp_chunk_size P'.2 = mp_chunk_size P.2.
Proof.
  destruct P as [mds p]. unfold mempool_free, mempool_free_2, sto. intros H.
  repeat (case_match; simplify_eq/=); rsimpl; auto.
Qed.

Lemma pool_rep_num_free m P F : pool_rep m P F → mp_num_free P.2 ≤ mp_chunk_size P.2.
Proof. intros (? & ? & ? & [] & _). done. Qed.

(** In a pool that owns at most [N] elements the signed counter [num_free]
    stays between [- N] and [chunk_size] on every sequence of operations, so it
    never overflows an [int]. *)
Theorem num_free_bounded m P F N ops r m' P' :
  pool_rep m P F → frees_ok ops F →
  Z.of_nat (length F) - N ≤ mp_num_free P.2 →
  (∀ k, Z.of_nat (length (run_stack (take k ops) F).2) ≤ N) →
  run_pool ops m P = Some (r, m', P') →
  - N ≤ mp_num_free P'.2 ≤ mp_chunk_size P.2.
Proof.
  revert m P F r. induction ops as [|[|x] ops IH]; intros m P F r HF Hok Hlo HN Hrun; simpl in *.
  - simplify_eq. split; [lia|by eapply pool_rep_num_free].
  - destruct (mempool_alloc m P) as [[x P1]|] eqn:Ea; [|done]. simpl in *.
    destruct (alloc_num_free _ _ _ _ Ea) as [Hn Hc].
    destruct (run_pool ops m P1) as [[[r1 m1] P2]|] eqn:Er; [|done]. simplify_eq/=.
    rewrite <-Hc. apply (IH m P1 (tail F) r1); [|done|..|done].
    + destruct F as [|y F]; [rewrite alloc_empty in Ea by done; by simplify_eq/=|].
      destruct (alloc_pop _ _ _ _ HF) as (? & ? & ? & _). by simplify_eq/=.
    + destruct F as [|y F]; simpl in *; [|lia].
      rewrite alloc_empty in Ea by done. by simplify_eq/=.
    + intros k. specialize (HN (S k)). simpl in HN. by destruct (run_stack (take k ops) (tail F)).
  - destruct Hok as (Hx & HxF & Hok).
    destruct (free_push _ _ _ _ HF Hx HxF) as (m1 & P1 & Ef & HF1 & _). rewrite Ef in Hrun. simpl in *.
    destruct (free_num_free _ _ _ _ _ Ef) as [Hn Hc]. rewrite <-Hc.
    apply (IH m1 P1 (x :: F) r); [done..| |intros k; apply (HN (S k))|done].
    simpl. specialize (HN 1%nat). simpl in HN. lia.
Qed.

Lemma num_free_bounded_witness :
  - 2 ≤ 0 ≤ 2.
Proof.
  assert (∃ r m' P', run_pool [OpAlloc; OpAlloc; OpFree 4096] ex_heap ex_pool = Some (r, m', P') ∧
            mp_num_free P'.2 = 0) as (r & m' & P' & E & <-) by (vm_compute; eauto 10).
  apply (num_free_bounded ex_heap ex_pool [4096; 4160] 2 [OpAlloc; OpAlloc; OpFree 4096] r m').
  - apply ex_pool_rep.
  - simpl. split_and!; [lia|apply not_elem_of_nil|done].
  - done.
  - intros [|[|[|k]]]; simpl; rewrite ?take_nil; simpl; lia.
  - done.
Defined.

(** The counter is not the length of the active list: [mempool_alloc_2] takes a
    chunk without adding its size to [num_free].  After draining two chunks of
    two elements and freeing them again, the pool holds four elements, twice
    [chunk_size], and has returned no chunk to the datastore. *)
Definition drift_heap : heap :=
  <[(4096, HDR_NEXT_CHUNK) := 4224]> (<[(4224, HDR_NEXT) := 4288]> ex_heap).
Definition drift_pool : pool :=
  (ex_ds <| ds_free_chunks := 2 |> <| ds_num_chunks := 2 |>, ex_pool.2).

Theorem num_free_drift :
  match run_pool [OpAlloc; OpAlloc; OpAlloc; OpAlloc;
                  OpFree 4096; OpFree 4160; OpFree 4224; OpFree 4288] drift_heap drift_pool with
  | Some (_, m, P) =>
      chain m HDR_NEXT (mp_head P.2) [4288; 4224; 4160; 4096] ∧
      mp_num_free P.2 = 2 ∧ mp_chunk_size P.2 = 2 ∧ ds_free_chunks P.1 = 0
  | None => False
  end.
Proof. vm_compute. split_and!; done. Qed.

(** ** Index arithmetic *)

(** In a pool whose elements may straddle pages, the index of an element's
    address is the element's index, and no index is out of range. *)
Theorem mempool_idx_roundtrip p idx len :
  0 ≤ idx < mp_nr_elems p → mp_nostraddle p = 0 → 0 < len → 0 ≤ mp_buf p →
  len * mp_nr_elems p < U32_MOD → mp_buf p + len * mp_nr_elems p < U64_MOD →
  ∃ a, mempool_idx_to_ptr p idx len = Some a ∧ mempool_ptr_to_idx p a len = Some idx.
Proof.
  intros Hi Hs Hl Hb H32 H64. unfold mempool_idx_to_ptr, mempool_ptr_to_idx, MEMPOOL_INITIAL_OFFSET.
  rewrite (proj2 (Z.ltb_lt _ _)), Hs by lia. simpl.
  rewrite u32_small, (u64_small (_ + _ + _)) by nia. eexists. split; [done|].
  replace (mp_buf p + len * idx + 0 - mp_buf p - 0) with (idx * len) by lia.
  rewrite (u64_small len), (u64_small (idx * len)) by nia.
  rewrite Z.div_mul by lia. by rewrite (proj2 (Z.ltb_lt _ _)) by lia.
Qed.

Lemma mempool_idx_roundtrip_witness :
  ∃ a, mempool_idx_to_ptr (mk_mempool 0 0 64 MEMPOOL_MAGIC 0x4000000000 0 0 512 0 128 0 0) 37 64 = Some a ∧
    mempool_ptr_to_idx (mk_mempool 0 0 64 MEMPOOL_MAGIC 0x4000000000 0 0 512 0 128 0 0) a 64 = Some 37.
Proof.
  apply (mempool_idx_roundtrip (mk_mempool 0 0 64 MEMPOOL_MAGIC 0x4000000000 0 0 512 0 128 0 0) 37 64);
    simpl; unfold U32_MOD, U64_MOD; lia.
Defined.
