(* ===== verification/MempoolShared.v ===== *)
(** * Pools of several CPUs on one datastore

    Each CPU has its own [struct mempool]; all of them draw on one datastore,
    whose chunk list they change under the datastore's lock.  A pool operation
    has at most one critical section, and outside it touches only the pool of
    its own CPU, so an execution is an interleaving of whole operations.  An
    element may be allocated on one CPU and freed on another. *)

From S2P Require Import Prelude Stddef Heap Mempool.
Local Open Scope Z_scope.

(** The store, the datastore and the pool of each CPU (a per-CPU variable). *)
Record cpus := mk_cpus {
  c_mem : heap;
  c_ds : mempool_datastore;
  c_pools : list mempool;
}.

Definition cpu_alloc (i : nat) (s : cpus) : option (ptr * cpus) :=
  p ← c_pools s !! i;
  '(x, (ds, p)) ← mempool_alloc (c_mem s) (c_ds s, p);
  Some (x, mk_cpus (c_mem s) ds (<[i := p]> (c_pools s))).

Definition cpu_free (i : nat) (s : cpus) (x : ptr) : option cpus :=
  p ← c_pools s !! i;
  '(m, (ds, p)) ← mempool_free (c_mem s) (c_ds s, p) x;
  Some (mk_cpus m ds (<[i := p]> (c_pools s))).

(** A step of the system on the state and the list of elements handed out. *)
Inductive cpus_step : cpus * list ptr → cpus * list ptr → Prop :=
| step_alloc i s x s' own :
    cpu_alloc i s = Some (x, s') → x ≠ NULL → cpus_step (s, own) (s', x :: own)
| step_alloc_null i s s' own :
    cpu_alloc i s = Some (NULL, s') → cpus_step (s, own) (s', own)
| step_free i s x s' own1 own2 :
    cpu_free i s x = Some s' → cpus_step (s, own1 ++ x :: own2) (s', own1 ++ own2).

(** [vs] lists, for each CPU, its active list and its spare chunk; [cs] are the
    chunks in the datastore.  Together with the elements handed out they make
    up the elements of the datastore. *)
Definition local_free (vs : list (list ptr * list ptr)) : list ptr :=
  concat ((λ v, v.1 ++ v.2) <$> vs).

Record cpus_inv (all : list ptr) (st : cpus * list ptr) : Prop := {
  ci_view : ∃ vs cs,
    length vs = length (c_pools st.1) ∧
    (∀ i p h pc, c_pools st.1 !! i = Some p → vs !! i = Some (h, pc) →
       pool_wf (c_mem st.1) (c_ds st.1, p) h pc cs) ∧
    st.2 ++ local_free vs ++ concat cs ≡ₚ all;
}.

Lemma local_free_insert vs i h pc h' pc' :
  vs !! i = Some (h, pc) →
  ∃ rest, local_free vs ≡ₚ h ++ pc ++ rest ∧
    local_free (<[i := (h', pc')]> vs) ≡ₚ h' ++ pc' ++ rest ∧
    ∀ j h2 pc2, j ≠ i → vs !! j = Some (h2, pc2) → ∀ x, x ∈ h2 ++ pc2 → x ∈ rest.
Proof.
  intros Hi. exists (local_free (take i vs) ++ local_free (drop (S i) vs)).
  assert (∀ l1 l2, local_free (l1 ++ l2) = local_free l1 ++ local_free l2) as Happ.
  { intros l1 l2. unfold local_free. by rewrite fmap_app, concat_app. }
  assert (∀ v l, local_free (v :: l) = v.1 ++ v.2 ++ local_free l) as Hcons.
  { intros v l. unfold local_free. simpl. by rewrite app_assoc. }
  split_and!.
  - rewrite <-(take_drop_middle vs i (h, pc) Hi) at 1. rewrite Happ, Hcons. simpl. solve_Permutation.
  - rewrite insert_take_drop by (by eapply lookup_lt_Some). rewrite Happ, Hcons. simpl. solve_Permutation.
  - intros j h2 pc2 Hj Hl x Hx. rewrite <-Happ.
    unfold local_free. apply elem_of_list_concat_fmap. exists (h2, pc2). split; [|done].
    rewrite elem_of_app. destruct (decide (j < i)%nat).
    + left. apply list_elem_of_lookup. exists j. by rewrite lookup_take_lt.
    + right. apply list_elem_of_lookup. exists (j - S i)%nat. rewrite lookup_drop.
      by replace (S i + (j - S i))%nat with j by lia.
Qed.

(** A pool stays well formed when another CPU's operation changed the datastore. *)
Lemma pool_wf_swap m m' ds p h pc cs ds' p' h' pc' cs' :
  pool_wf m (ds, p) h pc cs → agree_on HDR_NEXT (h ++ pc) m m' →
  pool_wf m' (ds', p') h' pc' cs' → NoDup (h ++ pc ++ concat cs') →
  pool_wf m' (ds', p) h pc cs'.
Proof.
  intros [] Hag [] Hnd. split; try done; simpl in *.
  - eapply lseg_frame; [|done]. intros x Hx. apply Hag. set_solver.
  - eapply lseg_frame; [|done]. intros x Hx. apply Hag. set_solver.
Qed.

Lemma NoDup_perm_app3 {A} (l1 l2 l3 all : list A) :
  l1 ++ l2 ++ l3 ≡ₚ all → NoDup all → NoDup l1 ∧ NoDup (l2 ++ l3) ∧ ∀ x, x ∈ l1 → x ∉ l2 ++ l3.
Proof. intros Hp Hnd. rewrite <-Hp in Hnd. apply NoDup_app in Hnd. naive_solver. Qed.

(** The state after an operation of CPU [i] that leaves its pool with the lists
    [h'], [pc'] and the datastore with the chunks [cs']. *)
Lemma cpus_inv_update all s own vs cs i p h pc m' ds' p' h' pc' cs' own' :
  NoDup all → length vs = length (c_pools s) →
  (∀ i p h pc, c_pools s !! i = Some p → vs !! i = Some (h, pc) →
     pool_wf (c_mem s) (c_ds s, p) h pc cs) →
  c_pools s !! i = Some p → vs !! i = Some (h, pc) →
  own ++ local_free vs ++ concat cs ≡ₚ all →
  pool_wf m' (ds', p') h' pc' cs' →
  own' ++ h' ++ pc' ++ concat cs' ≡ₚ own ++ h ++ pc ++ concat cs →
  (∀ x, x ∉ own ++ h ++ pc ++ concat cs → rd m' x HDR_NEXT = rd (c_mem s) x HDR_NEXT) →
  cpus_inv all (mk_cpus m' ds' (<[i := p']> (c_pools s)), own').
Proof.
  intros Hall Hlen Hwf Hp Hv Hperm Hwf' Hown Hrd. split.
  exists (<[i := (h', pc')]> vs), cs'. simpl.
  destruct (local_free_insert vs i h pc h' pc' Hv) as (rest & E1 & E2 & Hrest).
  assert (own' ++ local_free (<[i := (h', pc')]> vs) ++ concat cs' ≡ₚ all) as Hperm'.
  { rewrite <-Hperm, E1, E2. trans (rest ++ own' ++ h' ++ pc' ++ concat cs'); [solve_Permutation|].
    rewrite Hown. solve_Permutation. }
  split_and!; [by rewrite !length_insert| |done].
  intros j pj hj pcj Hpj Hvj. destruct (decide (j = i)) as [->|Hj].
  - rewrite list_lookup_insert_eq in Hpj by (by eapply lookup_lt_Some).
    rewrite list_lookup_insert_eq in Hvj by (by eapply lookup_lt_Some). by simplify_eq.
  - rewrite list_lookup_insert_ne in Hpj by done.
    rewrite list_lookup_insert_ne in Hvj by done.
    assert (NoDup (rest ++ own ++ h ++ pc ++ concat cs)) as Hnd.
    { rewrite <-Hperm, E1 in Hall. eapply NoDup_Permutation_proper; [|exact Hall]. solve_Permutation. }
    assert (NoDup (rest ++ own' ++ h' ++ pc' ++ concat cs')) as Hnd' by (by rewrite Hown).
    apply NoDup_app in Hnd as (_ & Hdis & _). apply NoDup_app in Hnd' as (_ & Hdis' & Hnd').
    specialize (Hrest j hj pcj Hj Hvj). pose proof (Hwf j pj hj pcj Hpj Hvj) as Hwfj.
    eapply pool_wf_swap; [exact Hwfj| |exact Hwf'|].
    + intros x Hx. apply Hrd, Hdis, Hrest, Hx.
    + destruct Hwfj. rewrite app_assoc in wf_nodup. apply NoDup_app in wf_nodup as (Hn1 & _ & _).
      rewrite app_assoc. apply NoDup_app. split_and!; [done| |].
      * intros x Hx Hc. apply (Hdis' x); [by apply Hrest|]. rewrite !elem_of_app. tauto.
      * rewrite !app_assoc in Hnd'. by apply NoDup_app in Hnd' as (_ & _ & ?).
Qed.

Lemma cpus_alloc_inv all i s x s' own :
  NoDup all → cpus_inv all (s, own) → cpu_alloc i s = Some (x, s') →
  cpus_inv all (s', if decide (x = NULL) then own else x :: own).
Proof.
  intros Hall [(vs & cs & Hlen & Hwf & Hperm)] Ha. simpl in *. unfold cpu_alloc in Ha.
  destruct (c_pools s !! i) as [p|] eqn:Hp; [|done]. simpl in Ha.
  destruct (lookup_lt_is_Some_2 vs i) as [[h pc] Hv].
  { rewrite Hlen. by eapply lookup_lt_Some. }
  pose proof (Hwf i p h pc Hp Hv) as Hwfi.
  assert (pool_rep (c_mem s) (c_ds s, p) (h ++ pc ++ concat cs)) as Hrep by (by exists h, pc, cs).
  destruct (h ++ pc ++ concat cs) as [|y F] eqn:EF.
  - rewrite alloc_empty in Ha by done. simplify_eq/=. rewrite list_insert_id by done.
    split. exists vs, cs. by destruct s.
  - destruct (alloc_pop _ _ _ _ Hrep) as ([ds' p'] & E & (h' & pc' & cs' & Hwf' & EF') & Hy).
    rewrite E in Ha. simplify_eq/=. rewrite decide_False by done.
    eapply (cpus_inv_update all s own vs cs i p h pc); try done.
    rewrite EF. solve_Permutation.
Qed.

Lemma cpus_free_inv all i s x own1 own2 :
  NoDup all → NULL ∉ all → cpus_inv all (s, own1 ++ x :: own2) → (i < length (c_pools s))%nat →
  ∃ s', cpu_free i s x = Some s' ∧ cpus_inv all (s', own1 ++ own2).
Proof.
  intros Hall H0 [(vs & cs & Hlen & Hwf & Hperm)] Hi. simpl in *. unfold cpu_free.
  destruct (lookup_lt_is_Some_2 _ _ Hi) as [p Hp]. rewrite Hp. simpl.
  destruct (lookup_lt_is_Some_2 vs i) as [[h pc] Hv]; [lia|].
  pose proof (Hwf i p h pc Hp Hv) as Hwfi.
  assert (pool_rep (c_mem s) (c_ds s, p) (h ++ pc ++ concat cs)) as Hrep by (by exists h, pc, cs).
  assert (x ∈ all) as Hx by (rewrite <-Hperm; set_solver).
  assert (x ∉ h ++ pc ++ concat cs) as HxF.
  { destruct (local_free_insert vs i h pc h pc Hv) as (rest & E1 & _).
    rewrite <-Hperm, E1 in Hall. intros Hin.
    assert (NoDup (x :: own1 ++ own2 ++ rest ++ h ++ pc ++ concat cs)) as Hn.
    { eapply NoDup_Permutation_proper; [|exact Hall]. solve_Permutation. }
    apply NoDup_cons in Hn as [Hn _]. apply Hn. rewrite !elem_of_app. rewrite !elem_of_app in Hin. tauto. }
  destruct (free_push _ _ x _ Hrep) as (m' & [ds' p'] & E & (h' & pc' & cs' & Hwf' & EF') & Hrd);
    [by intros ->|done|].
  rewrite E. simpl. eexists. split; [done|].
  eapply (cpus_inv_update all s (own1 ++ x :: own2) vs cs i p h pc); try done.
  - rewrite <-EF'. solve_Permutation.
  - intros y Hy. apply Hrd. unfold free_footprint. rewrite !elem_of_app, elem_of_cons in Hy.
    intros [[-> _]|[_ Hc]]; [tauto|done].
Qed.

(** C26: Under every interleaving of allocations and frees by any number of CPUs on
    one datastore, no element is ever handed out twice, every element handed
    out belongs to the datastore, the elements handed out and the free ones
    always make up exactly the datastore's elements, and freeing an owned
    element on any CPU never faults. *)
Theorem cpus_no_double_alloc all st st' :
  NoDup all → NULL ∉ all → cpus_inv all st → rtc cpus_step st st' →
  cpus_inv all st' ∧ NoDup st'.2 ∧ (∀ x, x ∈ st'.2 → x ∈ all) ∧
  (∀ i x, (i < length (c_pools st'.1))%nat → x ∈ st'.2 → is_Some (cpu_free i st'.1 x)).
Proof.
  intros Hall H0 Hinv Hsteps.
  assert (cpus_inv all st') as Hinv'.
  { clear -Hall H0 Hinv Hsteps. induction Hsteps as [st|st1 st2 st3 Hstep _ IH]; [done|].
    apply IH. destruct Hstep as [i s x s' own Ha Hx|i s s' own Ha|i s x s' o1 o2 Hf].
    - pose proof (cpus_alloc_inv _ _ _ _ _ _ Hall Hinv Ha) as H. by rewrite decide_False in H.
    - pose proof (cpus_alloc_inv _ _ _ _ _ _ Hall Hinv Ha) as H. by rewrite decide_True in H.
    - assert (i < length (c_pools s))%nat as Hi.
      { unfold cpu_free in Hf. destruct (c_pools s !! i) eqn:E; [by eapply lookup_lt_Some|done]. }
      destruct (cpus_free_inv _ _ _ _ _ _ Hall H0 Hinv Hi) as (s2 & E & Hinv2). by simplify_eq. }
  split; [done|]. destruct st' as [s own]. simpl in *.
  destruct Hinv' as [(vs & cs & Hlen & Hwf & Hperm)] eqn:Hi'. simpl in *.
  destruct (NoDup_perm_app3 _ _ _ _ Hperm Hall) as (Hnd & _ & _). split_and!; [done|..].
  - intros x Hx. rewrite <-Hperm. set_solver.
  - intros i x Hi Hx. apply list_elem_of_split in Hx as (o1 & o2 & ->).
    destruct (cpus_free_inv all i s x o1 o2) as (s2 & -> & _); [done..|].
    by eexists.
Qed.

Definition ex_cpus : cpus := mk_cpus ex_heap ex_ds [ex_pool.2; ex_pool.2].

Lemma ex_cpus_inv : cpus_inv [4096; 4160] (ex_cpus, []).
Proof.
  split. exists [([], []); ([], [])], [[4096; 4160]]. split_and!; [done| |done].
  intros i p h pc Hp Hv. simpl in *.
  assert (p = ex_pool.2) as -> by (destruct i as [|[|i]]; by simplify_eq/=).
  assert (h = [] ∧ pc = []) as [-> ->] by (destruct i as [|[|i]]; by simplify_eq/=).
  split; try done; simpl. apply (bool_decide_unpack _). by vm_compute.
Qed.

Lemma cpus_no_double_alloc_witness :
  ∃ s1 s2, cpu_alloc 0 ex_cpus = Some (4096, s1) ∧ cpu_alloc 1 s1 = Some (NULL, s2) ∧
    cpus_inv [4096; 4160] (s2, [4096]) ∧ is_Some (cpu_free 1 s2 4096).
Proof.
  destruct (cpu_alloc 0 ex_cpus) as [[x1 s1]|] eqn:E1; [|by vm_compute in E1].
  assert (x1 = 4096) as -> by (vm_compute in E1; congruence).
  destruct (cpu_alloc 1 s1) as [[x2 s2]|] eqn:E2; [|vm_compute in E1; simplify_eq; by vm_compute in E2].
  assert (x2 = NULL) as -> by (vm_compute in E1; simplify_eq; vm_compute in E2; congruence).
  exists s1, s2. split_and!; [done..| |].
  all: destruct (cpus_no_double_alloc [4096; 4160] (ex_cpus, []) (s2, [4096])) as (H1 & _ & _ & H2);
    [apply (bool_decide_unpack _); by vm_compute|set_solver by lia|apply ex_cpus_inv| |].
  1,3: eapply rtc_l; [by eapply step_alloc|]; eapply rtc_once; by eapply step_alloc_null.
  - done.
  - apply H2; [vm_compute in E1; simplify_eq; vm_compute in E2; simplify_eq; simpl; lia|set_solver].
Defined.
