(* ===== verification/Page.v ===== *)
(** * Pages (dp/core/page.c, inc/ix/page.h, dp/core/mem.c, inc/ix/atomic.h)

    The 2MB pages behind the pools.  [page_alloc_contig_on_node] takes address
    space from a bump pointer and maps it at exactly that address; a table
    records the machine address and the references of every page. *)

From S2P Require Import Prelude Stddef Heap Mempool.
Local Open Scope Z_scope.

(** ** Atomic counters (inc/ix/atomic.h)

    Each returns the result and the new value of the counter; the builtins wrap
    around. *)
Definition atomic_fetch_and_add (a val : Z) : Z * Z := (a, s32 (a + val)).
Definition atomic_fetch_and_sub (a val : Z) : Z * Z := (a, s32 (a + val)).
Definition atomic_add_and_fetch (a val : Z) : Z * Z := (s32 (a + val), s32 (a + val)).
Definition atomic_sub_and_fetch (a val : Z) : Z * Z := (s32 (a - val), s32 (a - val)).
Definition atomic_inc (a : Z) : Z := (atomic_fetch_and_add a 1).2.
Definition atomic_dec_and_test (a : Z) : bool * Z := let '(r, a) := atomic_sub_and_fetch a 1 in (r =? 0, a).
Definition atomic_cmpxchg (a old new : Z) : bool * Z := if a =? old then (true, new) else (false, a).
Definition atomic64_fetch_and_add (a val : Z) : Z * Z := (a, s64 (a + val)).
Definition atomic64_fetch_and_sub (a val : Z) : Z * Z := (a, s64 (a + val)).
Definition atomic64_add_and_fetch (a val : Z) : Z * Z := (s64 (a + val), s64 (a + val)).
Definition atomic64_sub_and_fetch (a val : Z) : Z * Z := (s64 (a - val), s64 (a - val)).
Definition atomic64_inc (a : Z) : Z := (atomic64_fetch_and_add a 1).2.
Definition atomic64_dec_and_test (a : Z) : bool * Z := let '(r, a) := atomic64_sub_and_fetch a 1 in (r =? 0, a).
Definition atomic64_cmpxchg (a old new : Z) : bool * Z := if a =? old then (true, new) else (false, a).

(** ** Address arithmetic (inc/ix/mem.h, inc/ix/page.h) *)
Definition MEM_PHYS_BASE_ADDR : Z := 0x4000000000.
Definition MEM_USER_START : Z := 0x7000000000.
Definition PGSIZE_4KB : Z := 4096.
Definition PGSIZE_1GB : Z := 1073741824.
Definition PGMASK_2MB : Z := PGSIZE_2MB - 1.

Definition PGN_2MB (la : Z) : Z := Z.shiftr la 21.
Definition PGOFF_2MB (la : Z) : Z := Z.land la PGMASK_2MB.
Definition PGADDR_2MB (la : Z) : Z := Z.land la (u64 (Z.lnot PGMASK_2MB)).
Definition PAGE_NUM (addr : Z) : Z := PGN_2MB (u64 (addr - MEM_PHYS_BASE_ADDR)).
Definition NUM_PAGES : Z := PGN_2MB (MEM_USER_START - MEM_PHYS_BASE_ADDR).

Definition is_page (addr : Z) : bool := (MEM_PHYS_BASE_ADDR <=? addr) && (addr <? MEM_USER_START).

Definition is_page_region (addr len : Z) : bool :=
  negb ((MEM_USER_START - MEM_PHYS_BASE_ADDR <? len) || (addr <? MEM_PHYS_BASE_ADDR) ||
        (MEM_USER_START <? u64 (addr + len))).

(** ** State *)

Record page_ent := mk_page_ent { pe_maddr : Z; pe_refcnt : Z; pe_flags : Z }.
#[export] Instance eta_page_ent : Settable page_ent :=
  λ e, mk_page_ent (pe_maddr e) (pe_refcnt e) (pe_flags e).

Definition PAGE_FLAG_WILL_FREE : Z := 0x1.
Definition PAGE_FLAG_CAN_FREE : Z := 0x2.

(** [page_pos], [page_tbl] and, for each core, [page_refs]; an entry that was
    never written is zero, and an index outside the table faults. *)
Record pages := mk_pages {
  pg_pos : Z;
  pg_tbl : gmap Z page_ent;
  pg_refs : gmap (nat * Z) Z;
}.
#[export] Instance eta_pages : Settable pages := λ g, mk_pages (pg_pos g) (pg_tbl g) (pg_refs g).

Definition page_zero : page_ent := mk_page_ent 0 0 0.
Definition pages_zero : pages := mk_pages MEM_PHYS_BASE_ADDR ∅ ∅.
Definition page_ent_at (g : pages) (idx : Z) : page_ent := default page_zero (pg_tbl g !! idx).
Definition page_ref_at (g : pages) (cpu : nat) (idx : Z) : Z := default 0 (pg_refs g !! (cpu, idx)).

Definition addr_to_page_ent (g : pages) (addr : ptr) : option (Z * page_ent) :=
  let idx := PAGE_NUM addr in
  if (0 <=? idx) && (idx <? NUM_PAGES) then Some (idx, page_ent_at g idx) else None.

Definition set_ent (g : pages) (idx : Z) (e : page_ent) : pages := g <| pg_tbl ::= <[idx := e]> |>.

(** ** References *)

Definition page_machaddr (g : pages) (addr : ptr) : option Z :=
  '(idx, ent) ← addr_to_page_ent g addr;
  Some (u64 (pe_maddr ent + PGOFF_2MB addr)).

Definition page_get (cpu : nat) (g : pages) (addr : ptr) : option (Z * pages) :=
  '(idx, ent) ← addr_to_page_ent g addr;
  let g :=
    if negb (Z.land (pe_flags ent) PAGE_FLAG_WILL_FREE =? 0)
    then set_ent g idx (ent <| pe_refcnt ::= atomic_inc |>)
    else g <| pg_refs ::= <[(cpu, idx) := s32 (page_ref_at g cpu idx + 1)]> |> in
  Some (u64 (pe_maddr ent + PGOFF_2MB addr), g).

(** [__page_put_slow]; the result tells whether the page was unmapped. *)
Definition page_put_slow (g : pages) (addr : ptr) : option (bool * pages) :=
  '(idx, ent) ← addr_to_page_ent g addr;
  let '(no_refs, cnt) := atomic_dec_and_test (pe_refcnt ent) in
  let g := set_ent g idx (ent <| pe_refcnt := cnt |>) in
  if negb no_refs || (Z.land (pe_flags ent) PAGE_FLAG_CAN_FREE =? 0) then Some (false, g)
  else Some (true, g).

Definition page_put (cpu : nat) (g : pages) (addr : ptr) : option (bool * pages) :=
  '(idx, ent) ← addr_to_page_ent g addr;
  if negb (Z.land (pe_flags ent) PAGE_FLAG_WILL_FREE =? 0) then page_put_slow g addr
  else Some (false, g <| pg_refs ::= <[(cpu, idx) := s32 (page_ref_at g cpu idx - 1)]> |>).

Definition page_free (g : pages) (addr : ptr) : option pages :=
  '(idx, ent) ← addr_to_page_ent g addr;
  Some (set_ent g idx (ent <| pe_flags ::= λ f, Z.lor f PAGE_FLAG_WILL_FREE |>)).

Fixpoint page_free_contig (g : pages) (addr : ptr) (i n : nat) : option pages :=
  match n with
  | O => Some g
  | S n' => g ← page_free g (u64 (addr + PGSIZE_2MB * Z.of_nat i)); page_free_contig g addr (S i) n'
  end.

(** ** Allocation *)

(** What the operating system and the page tables answer: [mmap] at a fixed
    address, [mbind], the mapping into the page tables, and the entry of
    /proc/self/pagemap for an address. *)
Record os := mk_os {
  os_mmap : Z → Z → Z;
  os_mbind : Z → Z → bool;
  os_vm_map : Z → Z → Z → bool;
  os_pagemap : option (Z → option Z);
}.

(** [__mem_alloc_pages]: the length is an [int] product, converted to [size_t]. *)
Definition mem_alloc_pages_at (o : os) (base nr size : Z) : Z :=
  let len := u64 (s32 (nr * size)) in
  if negb ((size =? PGSIZE_4KB) || (size =? PGSIZE_2MB) || (size =? PGSIZE_1GB)) then MAP_FAILED else
  let vaddr := os_mmap o base len in
  if vaddr =? MAP_FAILED then MAP_FAILED else
  if negb (os_mbind o vaddr len) then MAP_FAILED else
  if negb (os_vm_map o vaddr nr size) then MAP_FAILED else vaddr.

Definition PAGEMAP_PGN_MASK : Z := 0x7fffffffffffff.
Definition PAGEMAP_FLAG_PRESENT : Z := 0x8000000000000000.

(** The loop of [mem_lookup_page_machine_addrs] over [n] pages. *)
Fixpoint lookup_machine_addrs (read : Z → option Z) (addr size : Z) (i n : nat) : Z + list Z :=
  match n with
  | O => inr []
  | S n' =>
      match read (u64 (u64 (addr + Z.of_nat i * size) / PGSIZE_4KB * 8)) with
      | None => inl (- EIO)
      | Some tmp =>
          if Z.land tmp PAGEMAP_FLAG_PRESENT =? 0 then inl (- ENODEV) else
          match lookup_machine_addrs read addr size (S i) n' with
          | inl e => inl e
          | inr l => inr (u64 (Z.land tmp PAGEMAP_PGN_MASK * PGSIZE_4KB) :: l)
          end
      end
  end.

Definition mem_lookup_page_machine_addrs (o : os) (addr : Z) (nr : nat) (size : Z) : Z + list Z :=
  if size =? PGSIZE_4KB then inl (- EINVAL) else
  match os_pagemap o with
  | None => inl (- EIO)
  | Some read => lookup_machine_addrs read addr size 0 nr
  end.

Definition mem_lookup_page_machine_addr (o : os) (addr size : Z) : Z + Z :=
  match mem_lookup_page_machine_addrs o addr 1 size with
  | inl e => inl e
  | inr (a :: _) => inr a
  | inr [] => inl 0
  end.

(** The loop of [page_alloc_contig_on_node] that records the machine addresses;
    writing to a page that is not mapped faults. *)
Fixpoint page_alloc_fill (o : os) (g : pages) (base : ptr) (i n : nat) : option (bool * pages) :=
  match n with
  | O => Some (true, g)
  | S n' =>
      let pos := u64 (base + Z.of_nat i * PGSIZE_2MB) in
      if base =? MAP_FAILED then None else
      '(idx, ent) ← addr_to_page_ent g pos;
      match mem_lookup_page_machine_addr o pos PGSIZE_2MB with
      | inl _ => Some (false, g)
      | inr maddr => page_alloc_fill o (set_ent g idx (ent <| pe_maddr := maddr |>)) base (S i) n'
      end
  end.

(** [page_alloc_contig_on_node]: [nr * PGSIZE_2MB] is a product of [unsigned int]. *)
Definition page_alloc_contig_on_node (o : os) (g : pages) (nr : Z) : option (ptr * pages) :=
  let '(base, pos) := atomic64_fetch_and_add (pg_pos g) (u32 (nr * PGSIZE_2MB)) in
  let g := g <| pg_pos := pos |> in
  let base := u64 base in
  if MEM_USER_START <=? base then Some (NULL, g) else
  let base := mem_alloc_pages_at o base nr PGSIZE_2MB in
  if base =? NULL then Some (NULL, g) else
  '(ok, g) ← page_alloc_fill o g base 0 (Z.to_nat nr);
  Some (if ok : bool then base else NULL, g).

(** [mem_alloc_pages] of dp/core/mem.c, whose region grows down; the case of 4KB
    pages falls through to that of 2MB pages. *)
Definition mem_alloc_pages (o : os) (mem_pos nr size : Z) : Z * Z :=
  if (size =? PGSIZE_4KB) || (size =? PGSIZE_2MB) then
    let pos := u64 (mem_pos - s32 (PGSIZE_2MB * nr)) in
    (mem_alloc_pages_at o pos nr size, pos)
  else if size =? PGSIZE_1GB then
    let pos := align_down (u64 (mem_pos - s32 (PGSIZE_1GB * nr))) PGSIZE_1GB in
    (mem_alloc_pages_at o pos nr size, pos)
  else (MAP_FAILED, mem_pos).

#[global] Arguments page_get : simpl never.
#[global] Arguments page_put : simpl never.
#[global] Arguments page_free : simpl never.
#[global] Arguments PAGE_NUM : simpl never.
#[global] Arguments s32 : simpl never.

(** ** Addresses *)

Lemma PGN_2MB_div la : PGN_2MB la = la / PGSIZE_2MB.
Proof. unfold PGN_2MB. by rewrite Z.shiftr_div_pow2. Qed.

Lemma PGOFF_2MB_mod la : PGOFF_2MB la = la mod PGSIZE_2MB.
Proof. unfold PGOFF_2MB, PGMASK_2MB. change (PGSIZE_2MB - 1) with (Z.ones 21). by rewrite Z.land_ones. Qed.

Lemma PAGE_NUM_div addr :
  MEM_PHYS_BASE_ADDR ≤ addr < MEM_USER_START → PAGE_NUM addr = addr / PGSIZE_2MB - 131072.
Proof.
  intros H. unfold PAGE_NUM. rewrite PGN_2MB_div, u64_small
    by (unfold MEM_PHYS_BASE_ADDR, MEM_USER_START, U64_MOD in *; lia).
  change MEM_PHYS_BASE_ADDR with (131072 * PGSIZE_2MB).
  replace (addr - 131072 * PGSIZE_2MB) with (addr + (-131072) * PGSIZE_2MB) by lia. rewrite Z.div_add by done. lia.
Qed.

Lemma PAGE_NUM_range addr :
  MEM_PHYS_BASE_ADDR ≤ addr < MEM_USER_START → 0 ≤ PAGE_NUM addr < NUM_PAGES.
Proof.
  intros H. rewrite PAGE_NUM_div by done. change NUM_PAGES with 98304.
  unfold MEM_PHYS_BASE_ADDR, MEM_USER_START, PGSIZE_2MB in *.
  assert (131072 ≤ addr / 2097152) by (apply Z.div_le_lower_bound; lia).
  assert (addr / 2097152 < 229376) by (apply Z.div_lt_upper_bound; lia). lia.
Qed.

Lemma addr_to_page_ent_ok g addr :
  MEM_PHYS_BASE_ADDR ≤ addr < MEM_USER_START →
  addr_to_page_ent g addr = Some (PAGE_NUM addr, page_ent_at g (PAGE_NUM addr)).
Proof.
  intros H. pose proof (PAGE_NUM_range addr H). unfold addr_to_page_ent.
  by rewrite (proj2 (Z.leb_le _ _)), (proj2 (Z.ltb_lt _ _)) by lia.
Qed.

Lemma set_ent_same g idx e : page_ent_at (set_ent g idx e) idx = e.
Proof. unfold page_ent_at, set_ent. rsimpl. by rewrite lookup_insert_eq. Qed.

Lemma set_ent_other g idx idx' e : idx ≠ idx' → page_ent_at (set_ent g idx e) idx' = page_ent_at g idx'.
Proof. intros H. unfold page_ent_at, set_ent. rsimpl. by rewrite lookup_insert_ne. Qed.

(** ** Reference counts *)

(** The references of page [idx] over [n] cores. *)
Definition page_total (g : pages) (n : nat) (idx : Z) : Z :=
  pe_refcnt (page_ent_at g idx) + foldr Z.add 0 ((λ c, page_ref_at g c idx) <$> seq 0 n).

Inductive page_op := PageGet (cpu : nat) (addr : ptr) | PagePut (cpu : nat) (addr : ptr) | PageFree (addr : ptr).

(** Run the operations; the result says whether a page was unmapped. *)
Fixpoint run_pages (ops : list page_op) (g : pages) : option (bool * pages) :=
  match ops with
  | [] => Some (false, g)
  | PageGet c a :: ops => '(_, g) ← page_get c g a; run_pages ops g
  | PagePut c a :: ops => '(b, g) ← page_put c g a; '(b', g) ← run_pages ops g; Some (b || b', g)
  | PageFree a :: ops => g ← page_free g a; run_pages ops g
  end.

(** Takes minus releases of page [idx]. *)
Fixpoint page_balance (ops : list page_op) (idx : Z) : Z :=
  match ops with
  | [] => 0
  | PageGet _ a :: ops => (if PAGE_NUM a =? idx then 1 else 0) + page_balance ops idx
  | PagePut _ a :: ops => (if PAGE_NUM a =? idx then -1 else 0) + page_balance ops idx
  | PageFree _ :: ops => page_balance ops idx
  end.

Definition op_cpu (op : page_op) : nat := match op with PageGet c _ | PagePut c _ => c | PageFree _ => 0%nat end.
Definition op_addr (op : page_op) : ptr := match op with PageGet _ a | PagePut _ a | PageFree a => a end.

Lemma sum_update (f f' : nat → Z) c i n :
  (i ≤ c < i + n)%nat → (∀ k, k ≠ c → f' k = f k) →
  foldr Z.add 0 (f' <$> seq i n) = foldr Z.add 0 (f <$> seq i n) + (f' c - f c).
Proof.
  revert i. induction n as [|n IH]; intros i Hc Hf; [lia|]. csimpl. destruct (decide (i = c)) as [->|Hne].
  - rewrite (list_fmap_ext f' f (seq (S c) n)); [lia|].
    intros k x Hx. apply lookup_seq in Hx as [-> Hk]. apply Hf. lia.
  - rewrite (IH (S i)) by (done || lia). rewrite Hf by done. lia.
Qed.

Lemma sum_same (f f' : nat → Z) i n :
  (∀ k, f' k = f k) → foldr Z.add 0 (f' <$> seq i n) = foldr Z.add 0 (f <$> seq i n).
Proof. intros Hf. f_equal. apply list_fmap_ext. auto. Qed.

Lemma s32_mod x : s32 x mod U32_MOD = x mod U32_MOD.
Proof.
  unfold s32, u32. destruct (_ <? _).
  - by rewrite Z.mod_mod.
  - rewrite <-(Z.mod_add (x mod U32_MOD - U32_MOD) 1 U32_MOD) by done.
    replace (x mod U32_MOD - U32_MOD + 1 * U32_MOD) with (x mod U32_MOD) by lia. by rewrite Z.mod_mod.
Qed.

(** Congruence of 32-bit counters. *)
Definition eq32 (x y : Z) : Prop := x mod U32_MOD = y mod U32_MOD.

Lemma eq32_s32 x a b : eq32 (a + s32 x + b) (a + x + b).
Proof.
  unfold eq32. rewrite (Z.add_mod (a + s32 x)), (Z.add_mod a (s32 x)), s32_mod by done.
  by rewrite <-(Z.add_mod a x), <-(Z.add_mod (a + x)) by done.
Qed.

Lemma eq32_trans_add x y a b c : eq32 x (y + a) → c = a + b → eq32 (x + b) (y + c).
Proof.
  unfold eq32. intros H ->. rewrite Z.add_mod, H, <-Z.add_mod by done. f_equal. lia.
Qed.

(** One change of a per-core count, or of a page's own count. *)
Lemma total_set_ref g n c idx v idx' :
  (c < n)%nat →
  page_total (g <| pg_refs ::= <[(c, idx) := v]> |>) n idx' =
    page_total g n idx' + if idx =? idx' then v - page_ref_at g c idx else 0.
Proof.
  intros Hc. unfold page_total. change (page_ent_at (g <| pg_refs ::= _ |>) idx') with (page_ent_at g idx').
  destruct (Z.eqb_spec idx idx') as [<-|Hne].
  - rewrite (sum_update (λ c, page_ref_at g c idx) _ c); [|lia|].
    + unfold page_ref_at at 2. rsimpl. rewrite lookup_insert_eq. simpl. lia.
    + intros k Hk. unfold page_ref_at. rsimpl. by rewrite lookup_insert_ne by congruence.
  - rewrite (sum_same (λ c, page_ref_at g c idx')); [lia|].
    intros k. unfold page_ref_at. rsimpl. by rewrite lookup_insert_ne by congruence.
Qed.

Lemma total_set_ent g n idx e idx' :
  page_total (set_ent g idx e) n idx' =
    page_total g n idx' + if idx =? idx' then pe_refcnt e - pe_refcnt (page_ent_at g idx) else 0.
Proof.
  unfold page_total. rewrite (sum_same (λ c, page_ref_at g c idx') (λ c, page_ref_at (set_ent g idx e) c idx')) by done.
  destruct (Z.eqb_spec idx idx') as [<-|Hne].
  - rewrite set_ent_same. lia.
  - rewrite set_ent_other by done. lia.
Qed.

(** No page is marked [PAGE_FLAG_CAN_FREE]. *)
Definition none_can_free (g : pages) : Prop :=
  ∀ idx, Z.land (pe_flags (page_ent_at g idx)) PAGE_FLAG_CAN_FREE = 0.

Lemma none_can_free_set g idx e :
  none_can_free g → Z.land (pe_flags e) PAGE_FLAG_CAN_FREE = 0 → none_can_free (set_ent g idx e).
Proof.
  intros Hg He j. destruct (decide (idx = j)) as [<-|Hne]; [by rewrite set_ent_same|by rewrite set_ent_other].
Qed.

Section references.
Context (n : nat).

Lemma page_get_ok g c a :
  (c < n)%nat → MEM_PHYS_BASE_ADDR ≤ a < MEM_USER_START → none_can_free g →
  ∃ v g', page_get c g a = Some (v, g') ∧ none_can_free g' ∧
    ∀ idx, eq32 (page_total g' n idx) (page_total g n idx + if PAGE_NUM a =? idx then 1 else 0).
Proof.
  intros Hc Ha Hg. unfold page_get. rewrite addr_to_page_ent_ok by done. cbn [mbind option_bind].
  destruct (negb _); eexists _, _; (split; [done|]); split.
  - apply none_can_free_set; [done|]. rsimpl. apply Hg.
  - intros idx. rewrite total_set_ent. destruct (_ =? _); [|done]. rsimpl.
    set (x := pe_refcnt _). unfold atomic_inc, atomic_fetch_and_add. simpl.
    replace (page_total g n idx + (s32 (x + 1) - x)) with (page_total g n idx - x + s32 (x + 1) + 0) by lia.
    etransitivity; [apply eq32_s32|]. unfold eq32. f_equal. lia.
  - exact Hg.
  - intros idx. rewrite total_set_ref by done. destruct (_ =? _); [|done].
    set (x := page_ref_at _ _ _).
    replace (page_total g n idx + (s32 (x + 1) - x)) with (page_total g n idx - x + s32 (x + 1) + 0) by lia.
    etransitivity; [apply eq32_s32|]. unfold eq32. f_equal. lia.
Qed.

Lemma page_put_ok g c a :
  (c < n)%nat → MEM_PHYS_BASE_ADDR ≤ a < MEM_USER_START → none_can_free g →
  ∃ g', page_put c g a = Some (false, g') ∧ none_can_free g' ∧
    ∀ idx, eq32 (page_total g' n idx) (page_total g n idx + if PAGE_NUM a =? idx then -1 else 0).
Proof.
  intros Hc Ha Hg. unfold page_put. rewrite addr_to_page_ent_ok by done. cbn [mbind option_bind].
  destruct (negb _).
  - unfold page_put_slow. rewrite addr_to_page_ent_ok by done. cbn [mbind option_bind]. cbv beta iota zeta.
    unfold atomic_dec_and_test, atomic_sub_and_fetch. cbv beta iota zeta. rewrite (Hg (PAGE_NUM a)), orb_true_r.
    eexists. split; [done|]. split.
    + apply none_can_free_set; [done|]. rsimpl. apply Hg.
    + intros idx. rewrite total_set_ent. destruct (_ =? _); [|done]. rsimpl.
      set (x := pe_refcnt _).
      replace (page_total g n idx + (s32 (x - 1) - x)) with (page_total g n idx - x + s32 (x - 1) + 0) by lia.
      etransitivity; [apply eq32_s32|]. unfold eq32. f_equal. lia.
  - eexists. split; [done|]. split; [exact Hg|]. intros idx. rewrite total_set_ref by done. destruct (_ =? _); [|done].
    set (x := page_ref_at _ _ _).
    replace (page_total g n idx + (s32 (x - 1) - x)) with (page_total g n idx - x + s32 (x - 1) + 0) by lia.
    etransitivity; [apply eq32_s32|]. unfold eq32. f_equal. lia.
Qed.

Lemma page_free_ok g a :
  MEM_PHYS_BASE_ADDR ≤ a < MEM_USER_START → none_can_free g →
  ∃ g', page_free g a = Some g' ∧ none_can_free g' ∧ ∀ idx, page_total g' n idx = page_total g n idx.
Proof.
  intros Ha Hg. unfold page_free. rewrite addr_to_page_ent_ok by done. cbn [mbind option_bind]. eexists. split; [done|]. split.
  - apply none_can_free_set; [done|]. rsimpl. rewrite Z.land_lor_distr_l, Hg. done.
  - intros idx. rewrite total_set_ent. destruct (_ =? _); [|lia].
    change (pe_refcnt (_ <| pe_flags ::= _ |>)) with (pe_refcnt (page_ent_at g (PAGE_NUM a))). lia.
Qed.
End references.

(** C32: Page references are never lost, whichever core takes or releases them and
    whenever the page is marked for freeing: on any sequence of operations on
    addresses in page memory, the references of every page, summed over the
    page's own counter and the counters of all cores, change by exactly the
    takes minus the releases (as 32-bit counters).  No page is unmapped, since
    nothing sets [PAGE_FLAG_CAN_FREE]. *)
Theorem page_refs_conserved n ops g :
  none_can_free g →
  Forall (λ op, (op_cpu op < n)%nat ∧ MEM_PHYS_BASE_ADDR ≤ op_addr op < MEM_USER_START) ops →
  ∃ g', run_pages ops g = Some (false, g') ∧
    ∀ idx, eq32 (page_total g' n idx) (page_total g n idx + page_balance ops idx).
Proof.
  revert g. induction ops as [|[c a|c a|a] ops IH]; intros g Hg Hok; cbn [run_pages page_balance].
  - exists g. split; [done|]. intros idx. by rewrite Z.add_0_r.
  - apply Forall_cons in Hok as [[Hc Ha] Hok]. destruct (page_get_ok n g c a Hc Ha Hg) as (v & g1 & -> & Hg1 & Ht). cbn [mbind option_bind].
    destruct (IH g1 Hg1 Hok) as (g' & E & H'). exists g'. split; [done|]. intros idx.
    etransitivity; [apply H'|]. by eapply eq32_trans_add; [apply Ht|].
  - apply Forall_cons in Hok as [[Hc Ha] Hok]. destruct (page_put_ok n g c a Hc Ha Hg) as (g1 & -> & Hg1 & Ht). cbn [mbind option_bind].
    destruct (IH g1 Hg1 Hok) as (g' & -> & H'). cbn [mbind option_bind orb]. exists g'. split; [done|]. intros idx.
    etransitivity; [apply H'|]. by eapply eq32_trans_add; [apply Ht|].
  - apply Forall_cons in Hok as [[_ Ha] Hok]. destruct (page_free_ok n g a Ha Hg) as (g1 & -> & Hg1 & Ht). cbn [mbind option_bind].
    destruct (IH g1 Hg1 Hok) as (g' & E & H'). exists g'. split; [done|]. intros idx.
    etransitivity; [apply H'|]. by rewrite Ht.
Qed.

Lemma page_refs_conserved_witness :
  ∃ g', run_pages [PageGet 0 0x4000000010; PageFree 0x4000000000; PagePut 1 0x4000000020] pages_zero = Some (false, g') ∧
    eq32 (page_total g' 2 0) 0.
Proof.
  destruct (page_refs_conserved 2 [PageGet 0 0x4000000010; PageFree 0x4000000000; PagePut 1 0x4000000020] pages_zero)
    as (g' & E & H).
  - intros idx. reflexivity.
  - repeat constructor; vm_compute; congruence.
  - exists g'. split; [exact E|]. exact (H 0).
Defined.

(** ** The allocator *)

(** The operating system grants what it is asked for: it maps at the given
    address, the policies and page tables accept the mapping, and every page has
    a present entry in the pagemap. *)
Record os_grants (o : os) (read : Z → Z) : Prop := {
  og_mmap base len : os_mmap o base len = base;
  og_mbind base len : os_mbind o base len = true;
  og_vm_map base nr size : os_vm_map o base nr size = true;
  og_pagemap : os_pagemap o = Some (λ off, Some (read off));
  og_present off : Z.land (read off) PAGEMAP_FLAG_PRESENT ≠ 0;
}.

(** The machine address of the page at [pos]. *)
Definition machine_page (read : Z → Z) (pos : Z) : Z :=
  u64 (Z.land (read (u64 (u64 pos / PGSIZE_4KB * 8))) PAGEMAP_PGN_MASK * PGSIZE_4KB).

Section allocator.
Context (o : os) (read : Z → Z) (Ho : os_grants o read).

Lemma mem_lookup_ok pos : mem_lookup_page_machine_addr o pos PGSIZE_2MB = inr (machine_page read pos).
Proof.
  unfold mem_lookup_page_machine_addr, mem_lookup_page_machine_addrs. rewrite (og_pagemap _ _ Ho).
  change (PGSIZE_2MB =? PGSIZE_4KB) with false. cbn [lookup_machine_addrs].
  rewrite Z.add_0_r. fold (machine_page read pos).
  by rewrite (proj2 (Z.eqb_neq _ _) (og_present _ _ Ho _)).
Qed.

(** The table after the loop: the addresses of the [n] pages from page [i] on are
    recorded, everything else is as before. *)
Lemma page_alloc_fill_ok g base i n :
  MEM_PHYS_BASE_ADDR ≤ base → base mod PGSIZE_2MB = 0 → base + Z.of_nat (i + n) * PGSIZE_2MB ≤ MEM_USER_START →
  ∃ g', page_alloc_fill o g base i n = Some (true, g') ∧ pg_pos g' = pg_pos g ∧
    (∀ k, (i ≤ k < i + n)%nat → pe_maddr (page_ent_at g' (PAGE_NUM (base + Z.of_nat k * PGSIZE_2MB))) =
       machine_page read (base + Z.of_nat k * PGSIZE_2MB)) ∧
    (∀ idx, (∀ k, (i ≤ k < i + n)%nat → idx ≠ PAGE_NUM (base + Z.of_nat k * PGSIZE_2MB)) →
       page_ent_at g' idx = page_ent_at g idx).
Proof.
  intros Hb Hal. revert g i. induction n as [|n IH]; intros g i Hend; cbn [page_alloc_fill].
  { exists g. split_and!; [done|done|lia|done]. }
  assert (base ≠ MAP_FAILED) as Hmf by (unfold MAP_FAILED, U64_MOD, MEM_USER_START, PGSIZE_2MB in *; lia).
  rewrite (proj2 (Z.eqb_neq _ _) Hmf).
  set (pos := base + Z.of_nat i * PGSIZE_2MB).
  assert (MEM_PHYS_BASE_ADDR ≤ pos < MEM_USER_START) as Hpos by (unfold pos, MEM_PHYS_BASE_ADDR, MEM_USER_START, PGSIZE_2MB in *; lia).
  rewrite u64_small by (unfold MEM_PHYS_BASE_ADDR, MEM_USER_START, U64_MOD in *; lia).
  rewrite addr_to_page_ent_ok by done. cbn [mbind option_bind]. rewrite mem_lookup_ok.
  set (g1 := set_ent g _ _). destruct (IH g1 (S i)) as (g' & E & Hp & Hin & Hout); [by replace (S i + n)%nat with (i + S n)%nat by lia|].
  exists g'. split_and!; [done|done| |].
  - intros k Hk. destruct (decide (k = i)) as [->|Hne]; [|apply Hin; lia].
    fold pos. rewrite Hout.
    + unfold g1. by rewrite set_ent_same.
    + intros k' Hk' Heq. assert (base + Z.of_nat k' * PGSIZE_2MB < MEM_USER_START) as Hk2
        by (unfold MEM_USER_START, PGSIZE_2MB in *; lia).
      unfold pos in *. rewrite !PAGE_NUM_div in Heq by (unfold MEM_PHYS_BASE_ADDR, PGSIZE_2MB in *; lia).
      rewrite !Z.div_add in Heq by done. lia.
  - intros idx Hidx. rewrite Hout by (intros k Hk; apply Hidx; lia). unfold g1. apply set_ent_other.
    intros Heq. apply (Hidx i); [lia|done].
Qed.

Lemma page_alloc_ok g nr :
  0 < nr < 1024 → MEM_PHYS_BASE_ADDR ≤ pg_pos g → pg_pos g mod PGSIZE_2MB = 0 →
  pg_pos g + nr * PGSIZE_2MB ≤ MEM_USER_START →
  ∃ g', page_alloc_contig_on_node o g nr = Some (pg_pos g, g') ∧ pg_pos g' = pg_pos g + nr * PGSIZE_2MB ∧
    (∀ a, pg_pos g ≤ a < pg_pos g + nr * PGSIZE_2MB →
       page_machaddr g' a = Some (u64 (machine_page read (a - a mod PGSIZE_2MB) + a mod PGSIZE_2MB))) ∧
    (∀ a, MEM_PHYS_BASE_ADDR ≤ a < pg_pos g → page_machaddr g' a = page_machaddr g a).
Proof.
  intros Hnr Hb Hal Hend. unfold page_alloc_contig_on_node, atomic64_fetch_and_add. set (pos := pg_pos g) in *.
  assert (0 ≤ pos < MEM_USER_START) as Hpos by (unfold MEM_PHYS_BASE_ADDR, PGSIZE_2MB in *; lia).
  rewrite u64_small by (unfold MEM_USER_START, U64_MOD in *; lia). rewrite (proj2 (Z.leb_gt _ _)) by lia.
  unfold mem_alloc_pages_at. change (PGSIZE_2MB =? PGSIZE_4KB) with false. rewrite Z.eqb_refl. cbn [orb negb].
  rewrite !(og_mmap _ _ Ho), (og_mbind _ _ Ho), (og_vm_map _ _ Ho).
  rewrite (proj2 (Z.eqb_neq pos MAP_FAILED)) by (unfold MAP_FAILED, U64_MOD, MEM_USER_START in *; lia).
  cbn [negb]. rewrite (proj2 (Z.eqb_neq pos NULL)) by (unfold MEM_PHYS_BASE_ADDR in *; lia).
  set (g0 := g <| pg_pos := _ |>).
  destruct (page_alloc_fill_ok g0 pos 0 (Z.to_nat nr)) as (g' & -> & Hp & Hin & Hout); [done|done|lia|].
  exists g'. split; [done|]. split.
  { rewrite Hp. change (pg_pos g0) with (s64 (pos + u32 (nr * PGSIZE_2MB))).
    rewrite u32_small, s64_small; unfold U32_MOD, PGSIZE_2MB, MEM_USER_START in *; lia. }
  pose proof (Z.div_mod pos PGSIZE_2MB ltac:(done)) as Dpos.
  split.
  - intros a Ha. unfold page_machaddr. rewrite addr_to_page_ent_ok by lia. cbn [mbind option_bind]. rewrite PGOFF_2MB_mod.
    pose proof (Z.div_mod a PGSIZE_2MB ltac:(done)) as Da. pose proof (Z.mod_pos_bound a PGSIZE_2MB ltac:(done)) as Ra.
    set (k := Z.to_nat (a / PGSIZE_2MB - pos / PGSIZE_2MB)).
    pose proof (Z.div_le_mono pos a PGSIZE_2MB ltac:(done) ltac:(lia)).
    assert (a / PGSIZE_2MB < pos / PGSIZE_2MB + nr) by (apply Z.div_lt_upper_bound; unfold PGSIZE_2MB in *; lia).
    assert (pos + Z.of_nat k * PGSIZE_2MB = a - a mod PGSIZE_2MB) as Ek by (unfold k, PGSIZE_2MB in *; lia).
    replace (PAGE_NUM a) with (PAGE_NUM (pos + Z.of_nat k * PGSIZE_2MB)).
    + rewrite Hin by lia. by rewrite Ek.
    + rewrite !PAGE_NUM_div by (unfold PGSIZE_2MB, MEM_PHYS_BASE_ADDR in *; lia). rewrite Z.div_add by done. lia.
  - intros a Ha. unfold page_machaddr. rewrite !addr_to_page_ent_ok by lia. cbn [mbind option_bind].
    rewrite Hout; [done|]. intros k Hk. rewrite !PAGE_NUM_div by (unfold PGSIZE_2MB in *; lia). rewrite Z.div_add by done.
    assert (a / PGSIZE_2MB < pos / PGSIZE_2MB); [apply Z.div_lt_upper_bound; unfold PGSIZE_2MB in *; lia|lia].
Qed.
End allocator.

(** A sequence of allocations. *)
Fixpoint page_allocs (o : os) (g : pages) (ns : list Z) : option (list ptr * pages) :=
  match ns with
  | [] => Some ([], g)
  | n :: ns => '(a, g) ← page_alloc_contig_on_node o g n; '(l, g) ← page_allocs o g ns; Some (a :: l, g)
  end.

Lemma page_allocs_ok o read g ns :
  os_grants o read → Forall (λ n, 0 < n < 1024) ns →
  MEM_PHYS_BASE_ADDR ≤ pg_pos g → pg_pos g mod PGSIZE_2MB = 0 →
  pg_pos g + foldr Z.add 0 ns * PGSIZE_2MB ≤ MEM_USER_START →
  ∃ bases g', page_allocs o g ns = Some (bases, g') ∧ length bases = length ns ∧
    (∀ i a n, bases !! i = Some a → ns !! i = Some n →
       pg_pos g ≤ a ∧ a mod PGSIZE_2MB = 0 ∧ a + n * PGSIZE_2MB ≤ MEM_USER_START ∧
       ∀ x, a ≤ x < a + n * PGSIZE_2MB →
         page_machaddr g' x = Some (u64 (machine_page read (x - x mod PGSIZE_2MB) + x mod PGSIZE_2MB))) ∧
    (∀ i j a b n, (i < j)%nat → bases !! i = Some a → ns !! i = Some n → bases !! j = Some b →
       a + n * PGSIZE_2MB ≤ b) ∧
    (∀ x, MEM_PHYS_BASE_ADDR ≤ x < pg_pos g → page_machaddr g' x = page_machaddr g x).
Proof.
  intros Ho Hns. revert g. induction Hns as [|n ns Hn Hns IH]; intros g Hb Hal Hend; cbn [page_allocs foldr] in *.
  { exists [], g. split_and!; done. }
  assert (0 ≤ foldr Z.add 0 ns) by (clear -Hns; induction Hns; simpl; lia).
  destruct (page_alloc_ok o read Ho g n) as (g1 & -> & Hp1 & Hin1 & Hout1);
    [done|done|done|unfold PGSIZE_2MB in *; nia|]. cbn [mbind option_bind].
  destruct (IH g1) as (bases & g' & E & Hlen & Hin & Hord & Hout); rewrite ?Hp1.
  { unfold PGSIZE_2MB in *. lia. } { by rewrite Z.mod_add. } { unfold PGSIZE_2MB in *. lia. }
  rewrite E. exists (pg_pos g :: bases), g'. split; [done|]. split; [simpl; lia|]. split_and!.
  - intros [|i] a k Ha Hk; simplify_eq/=.
    + split_and!; [lia|done|unfold PGSIZE_2MB in *; nia|]. intros x Hx. rewrite Hout by lia. by apply Hin1.
    + destruct (Hin i a k Ha Hk) as (? & ? & ? & ?). split_and!; [unfold PGSIZE_2MB in *; lia|done..].
  - intros [|i] [|j] a b k Hij Ha Hk Hb'; simplify_eq/=; [lia| |lia|].
    + destruct (lookup_lt_is_Some_2 ns j) as [k' Hk']; [apply lookup_lt_Some in Hb'; lia|].
      destruct (Hin j b k' Hb' Hk') as (? & _). lia.
    + eapply (Hord i j); [lia|done..].
  - intros x Hx. rewrite Hout by (unfold PGSIZE_2MB in *; lia). by apply Hout1.
Qed.


(** An operating system that grants everything, with the identity as machine
    addresses. *)
Definition ex_os : os :=
  mk_os (λ base _, base) (λ _ _, true) (λ _ _ _, true)
    (Some (λ off, Some (Z.lor PAGEMAP_FLAG_PRESENT (off / 8 mod 2 ^ 55)))).

Lemma ex_os_grants : os_grants ex_os (λ off, Z.lor PAGEMAP_FLAG_PRESENT (off / 8 mod 2 ^ 55)).
Proof.
  split; [done..|]. intros off E. apply (f_equal (λ z, Z.testbit z 63)) in E.
  rewrite Z.land_spec, Z.lor_spec in E. by vm_compute in E.
Qed.


(** *** Where the allocator breaks *)

Lemma page_alloc_fill_pos o g base i n b g' : page_alloc_fill o g base i n = Some (b, g') → pg_pos g' = pg_pos g.
Proof.
  revert g i. induction n as [|n IH]; intros g i H; cbn [page_alloc_fill] in H; [by simplify_eq|].
  destruct (base =? MAP_FAILED); [done|]. destruct (addr_to_page_ent _ _) as [[idx ent]|]; [|done]. simpl in H.
  destruct (mem_lookup_page_machine_addr _ _ _) as [e|maddr]; [by simplify_eq|]. by rewrite (IH _ _ H).
Qed.

(** The size of an allocation is computed in 32 bits: after an allocation of
    2048 pages the bump pointer is where it was, so that the next allocation
    gets the same addresses. *)
Theorem page_alloc_wraps o g a g' :
  0 ≤ pg_pos g < 2 ^ 63 → page_alloc_contig_on_node o g 2048 = Some (a, g') → pg_pos g' = pg_pos g.
Proof.
  intros Hg H. unfold page_alloc_contig_on_node, atomic64_fetch_and_add in H.
  change (u32 (2048 * PGSIZE_2MB)) with 0 in H. rewrite Z.add_0_r, s64_small in H by lia.
  destruct (MEM_USER_START <=? _); [by simplify_eq|]. destruct (_ =? NULL); [by simplify_eq|].
  destruct (page_alloc_fill _ _ _ _ _) as [[b g1]|] eqn:E; [|done]. cbn [mbind option_bind] in H.
  apply page_alloc_fill_pos in E. simplify_eq. by rewrite E.
Qed.

(** The pagemap cannot be opened, and the allocation fails after the wrap. *)
Lemma page_alloc_wraps_witness : pg_pos pages_zero = MEM_PHYS_BASE_ADDR.
Proof.
  exact (page_alloc_wraps (mk_os (λ base _, base) (λ _ _, true) (λ _ _ _, true) None) pages_zero NULL pages_zero
    ltac:(vm_compute; split; congruence) ltac:(vm_compute; reflexivity)).
Defined.

(** When the mapping fails, [page_alloc_contig_on_node] does not return NULL:
    it tests for NULL, while the failed mapping is [MAP_FAILED], and writes to
    the first page there. *)
Theorem page_alloc_map_failed o g nr :
  0 < nr → 0 ≤ pg_pos g < MEM_USER_START → (∀ base len, os_mmap o base len = MAP_FAILED) →
  page_alloc_contig_on_node o g nr = None.
Proof.
  intros Hnr Hg Hmap. unfold page_alloc_contig_on_node, atomic64_fetch_and_add.
  rewrite u64_small by (unfold MEM_USER_START, U64_MOD in *; lia). rewrite (proj2 (Z.leb_gt _ _)) by lia.
  unfold mem_alloc_pages_at. change (PGSIZE_2MB =? PGSIZE_4KB) with false. rewrite Z.eqb_refl. cbn [orb negb].
  rewrite !Hmap, Z.eqb_refl. change (MAP_FAILED =? NULL) with false. cbv beta iota zeta.
  destruct (Z.to_nat nr) eqn:E; [lia|]. cbn [page_alloc_fill]. by rewrite Z.eqb_refl.
Qed.

Lemma page_alloc_map_failed_witness :
  page_alloc_contig_on_node (mk_os (λ _ _, MAP_FAILED) (λ _ _, true) (λ _ _ _, true) None) pages_zero 3 = None.
Proof.
  apply page_alloc_map_failed; [lia|vm_compute; split; congruence|reflexivity].
Defined.
