(* ===== verification/Dispatch.v ===== *)
(** * Task queues and the returned-buffer stack (inc/ix/dispatch.h)

    Queued requests are [struct task]s drawn from a pool and linked into one FIFO
    per port; buffers whose requests are finished are kept in [struct
    mbuf_cell]s, linked into a stack, until the networker takes them back.  The
    dispatcher picks the queue whose oldest request has waited longest
    relative to the port's latency target.

    The operations work on the shared store.  The representation predicates
    relate the store to lists, and the lemmas of the last sections show that
    the operations are list operations; they use the pool only through the
    [StackAllocator] interface. *)

From S2P Require Import Prelude Stddef Heap Mempool Float.
Local Open Scope Z_scope.

(** ** Constants and data *)
Definition MAX_WORKERS : nat := 24.
Definition CFG_MAX_PORTS : nat := 16.
Definition ETH_RX_MAX_BATCH : nat := 6.
Definition MAX_UINT64 : Z := 0xFFFFFFFFFFFFFFFF.

Definition WAITING : Z := 0.
Definition ACTIVE : Z := 1.

Definition RUNNING : Z := 0.
Definition FINISHED : Z := 1.
Definition PREEMPTED : Z := 2.
Definition PROCESSED : Z := 3.

Definition NOCONTENT : Z := 0.
Definition PACKET : Z := 1.
Definition CONTEXT : Z := 2.

(** [struct mbuf_cell] and [struct mbuf_queue] (the latter is its head). *)
Definition MC_BUFFER : Z := 0.
Definition MC_NEXT : Z := 8.

(** [struct task]: byte offsets of its fields, and their values. *)
Definition T_RUNNABLE : Z := 0.
Definition T_MBUF : Z := 8.
Definition T_TYPE : Z := 16.
Definition T_CATEGORY : Z := 17.
Definition T_TIMESTAMP : Z := 24.
Definition T_NEXT : Z := 32.

Record task := mk_task {
  t_runnable : ptr;
  t_mbuf : ptr;
  t_type : Z;
  t_category : Z;
  t_timestamp : Z;
}.

Record task_queue := mk_task_queue { tq_head : ptr; tq_tail : ptr }.

#[export] Instance task_queue_eta : Settable task_queue :=
  λ q, mk_task_queue (tq_head q) (tq_tail q).

(** The configuration the queues consult: [CFG.num_ports], [CFG.slos], [CFG.cpu]. *)
Record cfg_params := mk_cfg_params {
  num_ports : nat;
  slos : list float32;
  cfg_cpu : list Z;
  cfg_ports : list Z;
}.

(** ** The returned-buffer stack *)

Definition mbuf_dequeue (m : heap) (P : pool) (mq : ptr) : option (ptr * heap * pool * ptr) :=
  if mq =? NULL then Some (NULL, m, P, mq) else
  buf ← ld m mq MC_BUFFER;
  '(m, P) ← mempool_free m P mq;
  next ← ld m mq MC_NEXT;
  Some (buf, m, P, next).

Definition mbuf_enqueue (m : heap) (P : pool) (mq buf : ptr) : option (heap * pool * ptr) :=
  if buf =? NULL then Some (m, P, mq) else
  '(mcell, P) ← mempool_alloc m P;
  m ← sto m mcell MC_BUFFER buf;
  m ← sto m mcell MC_NEXT mq;
  Some (m, P, mcell).

(** ** Task queues *)

(** The five assignments that fill a task. *)
Definition task_fill (m : heap) (tsk : ptr) (t : task) : option heap :=
  m ← sto m tsk T_RUNNABLE (t_runnable t);
  m ← sto m tsk T_MBUF (t_mbuf t);
  m ← sto m tsk T_TYPE (t_type t);
  m ← sto m tsk T_CATEGORY (t_category t);
  sto m tsk T_TIMESTAMP (t_timestamp t).

Definition tskq_enqueue_head (m : heap) (P : pool) (tq : task_queue) (t : task) :
    option (heap * pool * task_queue) :=
  '(tsk, P) ← mempool_alloc m P;
  m ← task_fill m tsk t;
  if negb (tq_head tq =? NULL) then
    m ← sto m tsk T_NEXT (tq_head tq);
    Some (m, P, tq <| tq_head := tsk |>)
  else
    m ← sto m tsk T_NEXT NULL;
    Some (m, P, mk_task_queue tsk tsk).

(** Linking a filled task behind the tail. *)
Definition tskq_link_tail (m : heap) (tq : task_queue) (tsk : ptr) : option (heap * task_queue) :=
  if negb (tq_head tq =? NULL) then
    m ← sto m (tq_tail tq) T_NEXT tsk;
    m ← sto m tsk T_NEXT NULL;
    Some (m, tq <| tq_tail := tsk |>)
  else
    m ← sto m tsk T_NEXT NULL;
    Some (m, mk_task_queue tsk tsk).

Definition tskq_enqueue_tail (m : heap) (P : pool) (tq : task_queue) (t : task) :
    option (heap * pool * task_queue) :=
  '(tsk, P) ← mempool_alloc m P;
  if tsk =? NULL then Some (m, P, tq) else
  m ← task_fill m tsk t;
  '(m, tq) ← tskq_link_tail m tq tsk;
  Some (m, P, tq).

(** The fields copied out of the task at the head of a queue. *)
Definition task_read (m : heap) (p : ptr) : option task :=
  r ← ld m p T_RUNNABLE; b ← ld m p T_MBUF; ty ← ld m p T_TYPE;
  c ← ld m p T_CATEGORY; ts ← ld m p T_TIMESTAMP;
  Some (mk_task r b ty c ts).

(** [None] in the result is the return value -1, [Some t] is 0 with [t] in the
    out parameters. *)
Definition tskq_dequeue (m : heap) (P : pool) (tq : task_queue) :
    option (option task * heap * pool * task_queue) :=
  if tq_head tq =? NULL then Some (None, m, P, tq) else
  t ← task_read m (tq_head tq);
  let tsk := tq_head tq in
  next ← ld m (tq_head tq) T_NEXT;
  '(m, P) ← mempool_free m P tsk;
  Some (Some t, m, P,
        mk_task_queue next (if next =? NULL then NULL else tq_tail tq)).

Definition get_queue_timestamp (m : heap) (tq : task_queue) : option (option Z) :=
  if tq_head tq =? NULL then Some None else
  ts ← ld m (tq_head tq) T_TIMESTAMP; Some (Some ts).

(** The first non-empty queue, from queue [i] on, of [n] queues. *)
Fixpoint naive_from (m : heap) (P : pool) (tqs : list task_queue) (n i : nat) :
    option (option task * heap * pool * list task_queue) :=
  match n with
  | O => Some (None, m, P, tqs)
  | S n' =>
      tq ← tqs !! i;
      '(r, m, P, tq) ← tskq_dequeue m P tq;
      let tqs := <[i := tq]> tqs in
      match r with
      | Some t => Some (Some t, m, P, tqs)
      | None => naive_from m P tqs n' (S i)
      end
  end.

Definition naive_tskq_dequeue (cfg : cfg_params) (m : heap) (P : pool) (tqs : list task_queue) :
    option (option task * heap * pool * list task_queue) :=
  naive_from m P tqs (num_ports cfg) 0.

(** [diff / CFG.slos[i]] with [int64_t diff = cur_time - queue_stamp]. *)
Definition delay_ratio (cur_time stamp : Z) (slo : float32) : float64 :=
  f64_of_f32 (f32_div (f32_of_Z (s64 (u64 (cur_time - stamp)))) slo).

(** The loop of [smart_tskq_dequeue] over queues [i], ..., [i + n - 1], with the
    running maximum and its index. *)
Fixpoint smart_pick (cfg : cfg_params) (m : heap) (tqs : list task_queue) (cur_time : Z)
    (n i : nat) (mx : float64) (index : option nat) : option (option nat) :=
  match n with
  | O => Some index
  | S n' =>
      tq ← tqs !! i;
      ts ← get_queue_timestamp m tq;
      match ts with
      | None => smart_pick cfg m tqs cur_time n' (S i) mx index
      | Some stamp =>
          slo ← slos cfg !! i;
          let current := delay_ratio cur_time stamp slo in
          if f64_gt current mx then smart_pick cfg m tqs cur_time n' (S i) current (Some i)
          else smart_pick cfg m tqs cur_time n' (S i) mx index
      end
  end.

Definition smart_tskq_dequeue (cfg : cfg_params) (m : heap) (P : pool) (tqs : list task_queue)
    (cur_time : Z) : option (option task * heap * pool * list task_queue) :=
  index ← smart_pick cfg m tqs cur_time (num_ports cfg) 0 f64_zero None;
  match index with
  | Some i =>
      tq ← tqs !! i;
      '(r, m, P, tq) ← tskq_dequeue m P tq;
      Some (r, m, P, <[i := tq]> tqs)
  | None => Some (None, m, P, tqs)
  end.

(** ** Representation *)

Definition task_at (m : heap) (p : ptr) (t : task) : Prop :=
  rd m p T_RUNNABLE = t_runnable t ∧ rd m p T_MBUF = t_mbuf t ∧ rd m p T_TYPE = t_type t ∧
  rd m p T_CATEGORY = t_category t ∧ rd m p T_TIMESTAMP = t_timestamp t.

(** [l] lists the tasks of the queue, oldest first, with their addresses. *)
Record tskq_rep (m : heap) (tq : task_queue) (l : list (ptr * task)) : Prop := {
  tr_chain : chain m T_NEXT (tq_head tq) l.*1;
  tr_tail : tq_tail tq = default NULL (last l.*1);
  tr_tasks : ∀ p t, (p, t) ∈ l → task_at m p t;
  tr_nodup : NoDup l.*1;
}.

(** [l] lists the cells of the stack, top first, with their buffers. *)
Record mq_rep (m : heap) (mq : ptr) (l : list (ptr * ptr)) : Prop := {
  mr_chain : chain m MC_NEXT mq l.*1;
  mr_bufs : ∀ p b, (p, b) ∈ l → rd m p MC_BUFFER = b ∧ b ≠ NULL;
  mr_nodup : NoDup l.*1;
}.

(** ** Frame properties *)

Lemma task_at_frame m m' p t :
  (∀ off, off ≠ T_NEXT → rd m' p off = rd m p off) → task_at m p t → task_at m' p t.
Proof. intros H (?&?&?&?&?). unfold task_at. by rewrite !H by solve_off. Qed.

Lemma tskq_frame m m' tq l X :
  same_outside X m m' → (∀ p, p ∈ l.*1 → p ∉ X) → tskq_rep m tq l → tskq_rep m' tq l.
Proof.
  intros Hs Hd []. split; try done.
  - eapply lseg_frame; [|done]. by eapply same_outside_agree.
  - intros p t Hp. eapply task_at_frame; [|by apply tr_tasks0].
    intros off _. apply Hs, Hd. by apply (list_elem_of_fmap_2 fst) in Hp.
Qed.

Lemma mq_frame m m' mq l X :
  same_outside X m m' → (∀ p, p ∈ l.*1 → p ∉ X) → mq_rep m mq l → mq_rep m' mq l.
Proof.
  intros Hs Hd []. split; try done.
  - eapply lseg_frame; [|done]. by eapply same_outside_agree.
  - intros p b Hp. rewrite Hs; [by apply mr_bufs0|]. apply Hd.
    by apply (list_elem_of_fmap_2 fst) in Hp.
Qed.

Lemma task_fill_ok m p t :
  p ≠ NULL → ∃ m', task_fill m p t = Some m' ∧ task_at m' p t ∧ same_outside [p] m m'.
Proof.
  intros Hp. unfold task_fill. heap_step. eexists. split_and!; [done|..].
  - unfold task_at. split_and!; repeat (rewrite rd_insert_ne by (right; solve_off)); by rewrite rd_insert_eq.
  - repeat (eapply same_outside_trans; [|apply same_outside_insert; set_solver]). done.
Qed.

Lemma task_read_ok m p t : p ≠ NULL → task_at m p t → task_read m p = Some t.
Proof.
  intros Hp (E1 & E2 & E3 & E4 & E5). unfold task_read. heap_step.
  rewrite E1, E2, E3, E4, E5. by destruct t.
Qed.

(** Linking a task behind the tail appends it. *)
Lemma link_tail_ok m tq l x t :
  tskq_rep m tq l → x ≠ NULL → x ∉ l.*1 → task_at m x t →
  ∃ m' tq', tskq_link_tail m tq x = Some (m', tq') ∧ tskq_rep m' tq' (l ++ [(x, t)]) ∧
    same_outside (x :: l.*1) m m'.
Proof.
  intros [Hch Htl Hts Hnd] Hx Hxl Ht. unfold tskq_link_tail.
  destruct l as [|[y ty] l _] using rev_ind; simpl in *.
  - rewrite Hch. simpl. heap_step. eexists _, _. split_and!; [done| |].
    + split; simpl; [by rewrite rd_insert_eq|done| |apply NoDup_singleton].
      intros p t' [= -> ->]%list_elem_of_singleton. eapply task_at_frame, Ht.
      intros off Hoff. apply rd_insert_ne. right. solve_off.
    + by apply same_outside_insert, list_elem_of_here.
  - rewrite fmap_app in *. simpl in *.
    assert (y ≠ NULL) as Hy0 by (eapply lseg_non_null; [exact Hch|set_solver]).
    assert (tq_head tq ≠ NULL) as Hh.
    { intros E0. apply (chain_head_null _ _ _ _ Hch) in E0. by destruct (l.*1). }
    rewrite (proj2 (Z.eqb_neq _ _) Hh). simpl. rewrite Htl, last_snoc. simpl. heap_step.
    assert (∀ p t', task_at m p t' →
      task_at (<[(x, T_NEXT) := NULL]> (<[(y, T_NEXT) := x]> m)) p t') as Hkeep.
    { intros p t'. apply task_at_frame. intros off Hoff.
      by rewrite !rd_insert_ne by (right; solve_off). }
    eexists _, _. split_and!; [done| |].
    + split; simpl; rewrite ?fmap_app; simpl.
      * by apply lseg_snoc_store.
      * by rewrite last_snoc.
      * intros p t' [Hp|[= -> ->]%list_elem_of_singleton]%elem_of_app; auto.
      * apply NoDup_app. split_and!; [done|set_solver|apply NoDup_singleton].
    + eapply same_outside_trans; apply same_outside_insert; set_solver.
Qed.

(** ** Queue operations are list operations *)

Section queues.
Context {rep : heap → pool → list ptr → Prop}.
Context `{!StackAllocator mempool_alloc mempool_free rep}.

(** A pool is unaffected by stores to objects it does not hold. *)
Lemma rep_same_outside X m m' P F :
  rep m P F → same_outside X m m' → (∀ x, x ∈ F → x ∉ X) → rep m' P F.
Proof. intros HF Hs Hd. eapply sa_frame; [done|..]; by eapply same_outside_agree. Qed.

Lemma rep_free m P F x :
  rep m P F → x ≠ NULL → x ∉ F →
  ∃ m' P', mempool_free m P x = Some (m', P') ∧ rep m' P' (x :: F) ∧ same_outside (x :: F) m m' ∧
    (∀ off, off ≠ HDR_NEXT → rd m' x off = rd m x off).
Proof.
  intros HF Hx HxF. destruct (sa_free_push m P x F) as (m' & P' & E & Hrep & Hrd); [done..|].
  exists m', P'. split_and!; [done..| |].
  - intros q off Hq. apply Hrd. intros [[-> _]|[? _]]; set_solver.
  - intros off Hoff. apply Hrd. intros [[_ ?]|[? _]]; done.
Qed.

Lemma enqueue_tail_empty m P tq t :
  rep m P [] → tskq_enqueue_tail m P tq t = Some (m, P, tq).
Proof. intros HF. unfold tskq_enqueue_tail. by rewrite (sa_alloc_empty m P) by done. Qed.

Lemma enqueue_tail_ok m P F x tq l t :
  rep m P (x :: F) → tskq_rep m tq l → (∀ p, p ∈ l.*1 → p ∉ x :: F) →
  ∃ m' P' tq', tskq_enqueue_tail m P tq t = Some (m', P', tq') ∧ rep m' P' F ∧
    tskq_rep m' tq' (l ++ [(x, t)]) ∧ same_outside (x :: l.*1) m m'.
Proof.
  intros HF Hq Hd. pose proof (sa_nodup _ _ _ HF) as Hnd. apply NoDup_cons in Hnd as [HxF _].
  destruct (sa_alloc_pop m P x F HF) as (P' & E & HF' & Hx).
  destruct (task_fill_ok m x t Hx) as (m1 & E1 & Ht & Hs1).
  unfold tskq_enqueue_tail. rewrite E. simpl. rewrite (proj2 (Z.eqb_neq _ _) Hx), E1. simpl.
  assert (x ∉ l.*1) as Hxl by set_solver.
  assert (tskq_rep m1 tq l) as Hq1 by (eapply tskq_frame; [exact Hs1|set_solver|done]).
  destruct (link_tail_ok m1 tq l x t Hq1 Hx Hxl Ht) as (m2 & tq2 & E2 & Hq2 & Hs2).
  rewrite E2. simpl.
  assert (same_outside (x :: l.*1) m m2) as Hs.
  { eapply same_outside_trans, Hs2. eapply same_outside_weaken; [exact Hs1|set_solver]. }
  eexists _, _, _. split_and!; [done| |done|done].
  eapply (rep_same_outside (x :: l.*1)); [exact HF'|done|]. set_solver.
Qed.

Lemma enqueue_head_empty m P tq t : rep m P [] → tskq_enqueue_head m P tq t = None.
Proof. intros HF. unfold tskq_enqueue_head. by rewrite (sa_alloc_empty m P) by done. Qed.

Lemma enqueue_head_ok m P F x tq l t :
  rep m P (x :: F) → tskq_rep m tq l → (∀ p, p ∈ l.*1 → p ∉ x :: F) →
  ∃ m' P' tq', tskq_enqueue_head m P tq t = Some (m', P', tq') ∧ rep m' P' F ∧
    tskq_rep m' tq' ((x, t) :: l) ∧ same_outside [x] m m'.
Proof.
  intros HF Hq Hd. pose proof (sa_nodup _ _ _ HF) as Hnd. apply NoDup_cons in Hnd as [HxF _].
  destruct (sa_alloc_pop m P x F HF) as (P' & E & HF' & Hx).
  destruct (task_fill_ok m x t Hx) as (m1 & E1 & Ht & Hs1).
  assert (x ∉ l.*1) as Hxl by set_solver.
  assert (∀ v, same_outside [x] m (<[(x, T_NEXT) := v]> m1)) as Hs.
  { intros v. eapply same_outside_trans, same_outside_insert; [done|set_solver]. }
  assert (∀ v, tskq_rep (<[(x, T_NEXT) := v]> m1) tq l) as Hq1.
  { intros v. by apply (tskq_frame m _ _ _ [x]); [|set_solver|]. }
  assert (∀ v, task_at (<[(x, T_NEXT) := v]> m1) x t) as Ht1.
  { intros v. eapply task_at_frame, Ht. intros off Hoff. apply rd_insert_ne. right. solve_off. }
  assert (∀ v, rep (<[(x, T_NEXT) := v]> m1) P' F) as HF1.
  { intros v. eapply (rep_same_outside [x]); [exact HF'|done|set_solver]. }
  unfold tskq_enqueue_head. rewrite E. simpl. rewrite E1. simpl.
  pose proof (chain_head_null _ _ _ _ (tr_chain _ _ _ Hq)) as Hnull.
  destruct (Z.eqb_spec (tq_head tq) NULL) as [E0|E0]; simpl; heap_step;
    eexists _, _, _; (split_and!; [done..| |done]).
  - apply Hnull in E0 as El. destruct l; [|done]. specialize (Hq1 NULL). destruct Hq1.
    split; simpl; rewrite ?rd_insert_eq; try done; [|apply NoDup_singleton].
    by intros p t' [= -> ->]%list_elem_of_singleton.
  - destruct (Hq1 (tq_head tq)) as [Hch Htl Hts Hnd]. split; simpl; rewrite ?rd_insert_eq.
    + done.
    + rewrite Htl. destruct l; [by destruct E0; apply Hnull|done].
    + intros p t' [[= -> ->]|Hp]%elem_of_cons; auto.
    + by apply NoDup_cons.
Qed.

Lemma dequeue_empty m P tq : tskq_rep m tq [] → tskq_dequeue m P tq = Some (None, m, P, tq).
Proof. intros []. unfold tskq_dequeue. simpl in *. by rewrite tr_chain0. Qed.

Lemma dequeue_ok m P F tq x t l :
  rep m P F → tskq_rep m tq ((x, t) :: l) → (∀ p, p ∈ x :: l.*1 → p ∉ F) →
  ∃ m' P' tq', tskq_dequeue m P tq = Some (Some t, m', P', tq') ∧ rep m' P' (x :: F) ∧
    tskq_rep m' tq' l ∧ same_outside (x :: F) m m'.
Proof.
  intros HF [Hch Htl Hts Hnd] Hd. simpl in *. destruct Hch as (Hh & Hx & Hch).
  unfold tskq_dequeue. rewrite Hh, (proj2 (Z.eqb_neq _ _) Hx).
  rewrite (task_read_ok m x t) by (done || apply Hts; set_solver). simpl. heap_step.
  destruct (rep_free m P F x HF Hx) as (m' & P' & E & HF' & Hs & _); [set_solver|].
  rewrite E. simpl. eexists _, _, _. split_and!; [done..| |done].
  apply NoDup_cons in Hnd as [Hxl Hnd].
  apply (tskq_frame m m' _ _ (x :: F)); [done|set_solver|]. split; simpl; [done| |set_solver|done].
  pose proof (chain_head_null _ _ _ _ Hch) as Hnull. rewrite Htl.
  destruct (Z.eqb_spec (rd m x T_NEXT) NULL) as [E0|E0].
  - apply Hnull in E0. by destruct l.
  - destruct l; [by destruct E0; apply Hnull|done].
Qed.

Lemma get_timestamp_ok m tq l :
  tskq_rep m tq l → get_queue_timestamp m tq = Some (t_timestamp ∘ snd <$> head l).
Proof.
  intros [Hch Htl Hts Hnd]. unfold get_queue_timestamp. destruct l as [|[x t] l]; simpl in *.
  - by rewrite Hch.
  - destruct Hch as (-> & Hx & _). rewrite (proj2 (Z.eqb_neq _ _) Hx). heap_step.
    destruct (Hts x t) as (_ & _ & _ & _ & ->); [set_solver|done].
Qed.

Lemma mbuf_enqueue_empty m P mq buf : rep m P [] → buf ≠ NULL → mbuf_enqueue m P mq buf = None.
Proof.
  intros HF Hb. unfold mbuf_enqueue. rewrite (proj2 (Z.eqb_neq _ _) Hb).
  by rewrite (sa_alloc_empty m P) by done.
Qed.

Lemma mbuf_enqueue_ok m P F x mq l buf :
  rep m P (x :: F) → mq_rep m mq l → x ∉ l.*1 → buf ≠ NULL →
  ∃ m' P', mbuf_enqueue m P mq buf = Some (m', P', x) ∧ rep m' P' F ∧
    mq_rep m' x ((x, buf) :: l) ∧ same_outside [x] m m'.
Proof.
  intros HF Hq Hxl Hb. pose proof (sa_nodup _ _ _ HF) as Hnd. apply NoDup_cons in Hnd as [HxF _].
  destruct (sa_alloc_pop m P x F HF) as (P' & E & HF' & Hx).
  unfold mbuf_enqueue. rewrite (proj2 (Z.eqb_neq _ _) Hb), E. simpl. heap_step.
  set (m' := <[(x, MC_NEXT) := mq]> _).
  assert (same_outside [x] m m') as Hs.
  { eapply same_outside_trans; apply same_outside_insert; set_solver. }
  eexists _, _. split_and!; [done| | |done].
  - eapply (rep_same_outside [x]); [exact HF'|done|set_solver].
  - destruct (mq_frame m m' mq l [x] Hs) as [Hch Hbf Hnd]; [set_solver|done|].
    split; simpl; [| |by apply NoDup_cons].
    + split_and!; [done..|]. unfold m'. by rewrite rd_insert_eq.
    + intros p b [[= -> ->]|Hp]%elem_of_cons; [|by apply Hbf]. split; [|done].
      unfold m'. rewrite rd_insert_ne by (right; solve_off). by rewrite rd_insert_eq.
Qed.

Lemma mbuf_dequeue_empty m P mq : mq_rep m mq [] → mbuf_dequeue m P mq = Some (NULL, m, P, mq).
Proof. intros []. unfold mbuf_dequeue. simpl in *. by rewrite mr_chain0. Qed.

(** The cell is read after it was freed; [mempool_free] has not touched the
    field that is read. *)
Lemma mbuf_dequeue_ok m P F x b mq l :
  rep m P F → mq_rep m mq ((x, b) :: l) → (∀ p, p ∈ x :: l.*1 → p ∉ F) →
  ∃ m' P' mq', mbuf_dequeue m P mq = Some (b, m', P', mq') ∧ rep m' P' (x :: F) ∧
    mq_rep m' mq' l ∧ same_outside (x :: F) m m'.
Proof.
  intros HF [Hch Hbf Hnd] Hd. simpl in *. destruct Hch as (-> & Hx & Hch).
  unfold mbuf_dequeue. rewrite (proj2 (Z.eqb_neq _ _) Hx). heap_step.
  destruct (Hbf x b) as [-> Hb]; [set_solver|].
  destruct (rep_free m P F x HF Hx) as (m' & P' & E & HF' & Hs & Hrd); [set_solver|].
  rewrite E. simpl. heap_step. rewrite Hrd by solve_off.
  eexists _, _, _. split_and!; [done..| |done]. apply NoDup_cons in Hnd as [Hxl Hnd].
  apply (mq_frame m m' _ _ (x :: F)); [done|set_solver|]. split; [done|set_solver|done].
Qed.
End queues.

(** ** Which queue is served *)

(** The delay of the oldest task of queue [i], in units of the port's target. *)
Definition ratio (cfg : cfg_params) (ls : list (list (ptr * task))) (cur_time : Z) (i : nat) :
    option float64 :=
  l ← ls !! i; x ← head l; slo ← slos cfg !! i;
  Some (delay_ratio cur_time (t_timestamp x.2) slo).

(** Among queues below [k]: [index] is the first queue with the largest positive
    ratio [mx], or there is none. *)
Definition best_below (cfg : cfg_params) (ls : list (list (ptr * task))) (cur_time : Z) (k : nat)
    (mx : float64) (index : option nat) : Prop :=
  match index with
  | None => mx = f64_zero ∧ ∀ j r, (j < k)%nat → ratio cfg ls cur_time j = Some r → f64_gt r mx = false
  | Some i =>
      (i < k)%nat ∧ ratio cfg ls cur_time i = Some mx ∧ f64_gt mx f64_zero = true ∧
      (∀ j r, (j < k)%nat → ratio cfg ls cur_time j = Some r → f64_gt r mx = false) ∧
      (∀ j, (j < i)%nat → ratio cfg ls cur_time j ≠ Some mx)
  end.

Lemma best_below_step cfg ls cur k mx index r :
  best_below cfg ls cur k mx index → ratio cfg ls cur k = Some r →
  best_below cfg ls cur (S k) (if f64_gt r mx then r else mx) (if f64_gt r mx then Some k else index).
Proof.
  intros Hb Hr. destruct (f64_gt r mx) eqn:Hgt.
  - assert (∀ j r', (j < k)%nat → ratio cfg ls cur j = Some r' → f64_gt r' mx = false) as Hle.
    { destruct index; [by destruct Hb as (?&?&?&?&?)|by destruct Hb]. }
    split_and!; [lia|done| | |].
    + destruct index as [i|]; [|by destruct Hb as [-> _]].
      destruct Hb as (_ & _ & Hpos & _). by eapply f64_gt_trans.
    + intros j r' Hj Hr'. destruct (decide (j = k)) as [->|].
      * simplify_eq. apply f64_gt_irrefl.
      * destruct (f64_gt r' r) eqn:E; [|done].
        rewrite <-(Hle j r'); [symmetry; by eapply f64_gt_trans|lia|done].
    + intros j Hj Hr'. specialize (Hle j r Hj Hr'). congruence.
  - destruct index as [i|]; simpl in *.
    + destruct Hb as (Hi & Hmx & Hpos & Hle & Hfst). split_and!; [lia|done..| |done].
      intros j r' Hj Hr'. destruct (decide (j = k)) as [->|]; [by simplify_eq|].
      apply (Hle j); [lia|done].
    + destruct Hb as [-> Hle]. split; [done|]. intros j r' Hj Hr'.
      destruct (decide (j = k)) as [->|]; [by simplify_eq|]. apply (Hle j); [lia|done].
Qed.

Lemma best_below_skip cfg ls cur k mx index :
  best_below cfg ls cur k mx index → ratio cfg ls cur k = None →
  best_below cfg ls cur (S k) mx index.
Proof.
  intros Hb Hr. destruct index as [i|]; simpl in *.
  - destruct Hb as (Hi & Hmx & Hpos & Hle & Hfst). split_and!; [lia|done..| |done].
    intros j r' Hj Hr'. destruct (decide (j = k)) as [->|]; [by simplify_eq|].
    apply (Hle j); [lia|done].
  - destruct Hb as [-> Hle]. split; [done|]. intros j r' Hj Hr'.
    destruct (decide (j = k)) as [->|]; [by simplify_eq|]. apply (Hle j); [lia|done].
Qed.

Lemma smart_pick_ok cfg m tqs ls cur n i mx index :
  Forall2 (tskq_rep m) tqs ls → (i + n ≤ length tqs)%nat → (i + n ≤ length (slos cfg))%nat →
  best_below cfg ls cur i mx index →
  ∃ mx' index', smart_pick cfg m tqs cur n i mx index = Some index' ∧
    best_below cfg ls cur (i + n) mx' index'.
Proof.
  intros Hqs. revert i mx index. induction n as [|n IH]; intros i mx index Hl Hs Hb; simpl.
  - exists mx, index. by rewrite Nat.add_0_r.
  - destruct (lookup_lt_is_Some_2 tqs i) as [tq Htq]; [lia|].
    destruct (Forall2_lookup_l _ _ _ _ _ Hqs Htq) as (l & Hli & Hq).
    destruct (lookup_lt_is_Some_2 (slos cfg) i) as [slo Hslo]; [lia|].
    rewrite Htq. simpl. rewrite (get_timestamp_ok m tq l Hq). simpl.
    replace (i + S n)%nat with (S i + n)%nat by lia.
    destruct l as [|[x t] l]; simpl.
    + apply IH; [lia..|]. apply best_below_skip; [done|]. unfold ratio. by rewrite Hli.
    + rewrite Hslo. simpl.
      assert (ratio cfg ls cur i = Some (delay_ratio cur (t_timestamp t) slo)) as Hr.
      { unfold ratio. rewrite Hli. simpl. by rewrite Hslo. }
      pose proof (best_below_step _ _ _ _ _ _ _ Hb Hr) as Hb'.
      destruct (f64_gt (delay_ratio cur (t_timestamp t) slo) mx); apply IH; done || lia.
Qed.

(** ** All queues on one task pool *)

(** The addresses of the queued tasks. *)
Definition cells (ls : list (list (ptr * task))) : list ptr := concat ((λ l, l.*1) <$> ls).

Lemma cells_insert (ls : list (list (ptr * task))) i l :
  ls !! i = Some l →
  ∃ rest, cells ls ≡ₚ l.*1 ++ rest ∧
    (∀ l', cells (<[i := l']> ls) ≡ₚ l'.*1 ++ rest) ∧
    (∀ j l2, j ≠ i → ls !! j = Some l2 → ∀ x, x ∈ l2.*1 → x ∈ rest).
Proof. apply (concat_fmap_insert (λ l : list (ptr * task), l.*1)). Qed.

(** The task pool with free tasks [F] and the queues holding [ls]. *)
Record queues_rep (m : heap) (P : pool) (tqs : list task_queue) (F : list ptr)
    (ls : list (list (ptr * task))) : Prop := {
  qr_pool : pool_rep m P F;
  qr_queues : Forall2 (tskq_rep m) tqs ls;
  qr_nodup : NoDup (F ++ cells ls);
}.

Lemma queues_rep_frame m m' P tqs F ls X :
  same_outside X m m' → (∀ x, x ∈ F ++ cells ls → x ∉ X) →
  queues_rep m P tqs F ls → queues_rep m' P tqs F ls.
Proof.
  intros Hs Hd []. split; [| |done].
  - eapply (rep_same_outside X); [done..|]. intros x Hx. apply Hd. set_solver.
  - apply Forall2_same_length_lookup. split; [by eapply Forall2_length|].
    intros i tq l Htq Hl. apply (tskq_frame m m' _ _ X); [done| |].
    + intros p Hp. apply Hd. apply elem_of_app. right. apply elem_of_list_concat_fmap.
      exists l. split; [|done]. by eapply list_elem_of_lookup_2.
    + by eapply (Forall2_lookup_lr _ _ _ _ _ _ qr_queues0).
Qed.

(** Replacing one queue while the others keep their cells. *)
Lemma queues_update m m' tqs ls i l l' tq' X :
  Forall2 (tskq_rep m) tqs ls → ls !! i = Some l → tskq_rep m' tq' l' →
  same_outside X m m' →
  (∀ j l2, j ≠ i → ls !! j = Some l2 → ∀ x, x ∈ l2.*1 → x ∉ X) →
  Forall2 (tskq_rep m') (<[i := tq']> tqs) (<[i := l']> ls).
Proof.
  intros Hqs Hl Hq' Hs Hd. apply Forall2_same_length_lookup.
  rewrite !length_insert. split; [by eapply Forall2_length|]. intros j tq l2 Htq Hl2.
  pose proof (Forall2_length _ _ _ Hqs) as Hlen.
  apply lookup_lt_Some in Hl as Hlt. destruct (decide (j = i)) as [->|Hj].
  - rewrite list_lookup_insert_eq in Htq by lia. rewrite list_lookup_insert_eq in Hl2 by lia.
    by simplify_eq.
  - rewrite list_lookup_insert_ne in Htq by done. rewrite list_lookup_insert_ne in Hl2 by done.
    apply (tskq_frame m m' _ _ X); [done|by eapply Hd|].
    by eapply (Forall2_lookup_lr _ _ _ _ _ _ Hqs).
Qed.

Lemma queues_enqueue m P tqs F x ls i tq l t :
  queues_rep m P tqs (x :: F) ls → tqs !! i = Some tq → ls !! i = Some l →
  ∃ m' P' tq', tskq_enqueue_tail m P tq t = Some (m', P', tq') ∧
    queues_rep m' P' (<[i := tq']> tqs) F (<[i := l ++ [(x, t)]]> ls) ∧
    same_outside (x :: l.*1) m m'.
Proof.
  intros [HF Hqs Hnd] Htq Hl. destruct (cells_insert ls i l Hl) as (rest & E1 & E2 & Hrest).
  rewrite E1 in Hnd. pose proof (Forall2_lookup_lr _ _ _ _ _ _ Hqs Htq Hl) as Hq.
  assert (NoDup ((F ++ x :: l.*1) ++ rest)) as Hnd'.
  { eapply NoDup_Permutation_proper; [|exact Hnd]. solve_Permutation. }
  apply NoDup_app in Hnd' as (Hn1 & Hd & Hn2).
  destruct (enqueue_tail_ok m P F x tq l t HF Hq) as (m' & P' & tq' & E & HF' & Hq' & Hs).
  { intros p Hp Hp'. apply NoDup_app in Hnd as (_ & Hdis & _). apply (Hdis p Hp'). set_solver. }
  exists m', P', tq'. split_and!; [done| |done]. split; [done| |].
  - eapply (queues_update m m' tqs ls i l); [done..|]. intros j l2 Hj Hl2 y Hy Hc.
    apply (Hd y); [set_solver|]. by eapply Hrest.
  - rewrite E2, fmap_app. simpl. eapply NoDup_Permutation_proper; [|exact Hnd]. solve_Permutation.
Qed.

Lemma queues_dequeue m P tqs F x t ls i tq l :
  queues_rep m P tqs F ls → tqs !! i = Some tq → ls !! i = Some ((x, t) :: l) →
  ∃ m' P' tq', tskq_dequeue m P tq = Some (Some t, m', P', tq') ∧
    queues_rep m' P' (<[i := tq']> tqs) (x :: F) (<[i := l]> ls) ∧
    same_outside (x :: F) m m'.
Proof.
  intros [HF Hqs Hnd] Htq Hl. destruct (cells_insert ls i _ Hl) as (rest & E1 & E2 & Hrest).
  rewrite E1 in Hnd. pose proof (Forall2_lookup_lr _ _ _ _ _ _ Hqs Htq Hl) as Hq. csimpl in *.
  assert (NoDup ((x :: F ++ l.*1) ++ rest)) as Hnd'.
  { eapply NoDup_Permutation_proper; [|exact Hnd]. solve_Permutation. }
  apply NoDup_app in Hnd' as (Hn1 & Hd & Hn2). apply NoDup_app in Hnd as (_ & Hdis & _).
  destruct (dequeue_ok m P F tq x t l HF Hq) as (m' & P' & tq' & E & HF' & Hq' & Hs).
  { intros p Hp Hp'. apply (Hdis p Hp'). set_solver. }
  exists m', P', tq'. split_and!; [done| |done]. split; [done| |].
  - eapply (queues_update m m' tqs ls i); [done..|]. intros j l2 Hj Hl2 y Hy Hc.
    apply (Hd y); [set_solver|]. by eapply Hrest.
  - rewrite E2. eapply NoDup_Permutation_proper; [|apply NoDup_app; split_and!; [exact Hn1|exact Hd|exact Hn2]].
    solve_Permutation.
Qed.

(** What [smart_tskq_dequeue] does: it takes the oldest task of the first queue
    with the largest positive ratio, and leaves the queues alone if there is none. *)
Lemma smart_dequeue_ok cfg m P tqs F ls cur :
  queues_rep m P tqs F ls → (num_ports cfg ≤ length tqs)%nat → (num_ports cfg ≤ length (slos cfg))%nat →
  ∃ mx index, best_below cfg ls cur (num_ports cfg) mx index ∧
  match index with
  | None => smart_tskq_dequeue cfg m P tqs cur = Some (None, m, P, tqs)
  | Some i => ∃ x t l tq' m' P',
      ls !! i = Some ((x, t) :: l) ∧
      smart_tskq_dequeue cfg m P tqs cur = Some (Some t, m', P', <[i := tq']> tqs) ∧
      queues_rep m' P' (<[i := tq']> tqs) (x :: F) (<[i := l]> ls) ∧
      same_outside (x :: F) m m'
  end.
Proof.
  intros Hrep Hn Hs. pose proof Hrep as [_ Hqs _].
  destruct (smart_pick_ok cfg m tqs ls cur (num_ports cfg) 0 f64_zero None) as (mx & index & E & Hb);
    [done|lia..|split; [done|lia]|].
  exists mx, index. split; [done|]. unfold smart_tskq_dequeue. rewrite E. simpl.
  destruct index as [i|]; [|done]. destruct Hb as (Hi & Hr & _). unfold ratio in Hr.
  destruct (ls !! i) as [[|[x t] l]|] eqn:Hl; [done| |done].
  destruct (lookup_lt_is_Some_2 tqs i) as [tq Htq]; [lia|].
  destruct (queues_dequeue _ _ _ _ _ _ _ _ _ _ Hrep Htq Hl) as (m' & P' & tq' & Ed & Hrep' & Hso).
  exists x, t, l, tq', m', P'. rewrite Htq. simpl. by rewrite Ed.
Qed.

(** ** A queue is a bounded FIFO *)

Inductive tskq_op := EnqTail (t : task) | EnqHead (t : task) | Deq.

Fixpoint run_tskq (ops : list tskq_op) (m : heap) (P : pool) (tq : task_queue) :
    option (list (option task) * heap * pool * task_queue) :=
  match ops with
  | [] => Some ([], m, P, tq)
  | EnqTail t :: ops' => '(m, P, tq) ← tskq_enqueue_tail m P tq t; run_tskq ops' m P tq
  | EnqHead t :: ops' => '(m, P, tq) ← tskq_enqueue_head m P tq t; run_tskq ops' m P tq
  | Deq :: ops' =>
      '(r, m, P, tq) ← tskq_dequeue m P tq;
      '(rs, m, P, tq) ← run_tskq ops' m P tq; Some (r :: rs, m, P, tq)
  end.

(** The same operations on a list of tasks with [n] free slots: appending to a
    full queue loses the task, prepending to a full queue faults. *)
Fixpoint run_fifo (ops : list tskq_op) (n : nat) (l : list task) :
    option (list (option task) * nat * list task) :=
  match ops, n, l with
  | [], _, _ => Some ([], n, l)
  | EnqTail _ :: ops', O, _ => run_fifo ops' O l
  | EnqTail t :: ops', S n', _ => run_fifo ops' n' (l ++ [t])
  | EnqHead _ :: ops', O, _ => None
  | EnqHead t :: ops', S n', _ => run_fifo ops' n' (t :: l)
  | Deq :: ops', _, [] => '(rs, n, l) ← run_fifo ops' n []; Some (None :: rs, n, l)
  | Deq :: ops', _, t :: l' => '(rs, n, l) ← run_fifo ops' (S n) l'; Some (Some t :: rs, n, l)
  end.

Record fifo_rep (m : heap) (P : pool) (tq : task_queue) (n : nat) (l : list task) : Prop := mk_fifo_rep {
  ff_free : list ptr;
  ff_queue : list (ptr * task);
  ff_pool : pool_rep m P ff_free;
  ff_tskq : tskq_rep m tq ff_queue;
  ff_len : length ff_free = n;
  ff_tasks : ff_queue.*2 = l;
  ff_nodup : NoDup (ff_free ++ ff_queue.*1);
}.

Lemma fifo_enqueue_tail m P tq n l t :
  fifo_rep m P tq (S n) l →
  ∃ m' P' tq', tskq_enqueue_tail m P tq t = Some (m', P', tq') ∧ fifo_rep m' P' tq' n (l ++ [t]).
Proof.
  intros [F q HF Hq Hlen <- Hnd]. destruct F as [|x F]; [done|]. apply NoDup_app in Hnd as Hnd'.
  destruct (enqueue_tail_ok m P F x tq q t HF Hq) as (m' & P' & tq' & E & HF' & Hq' & _); [set_solver|].
  exists m', P', tq'. split; [done|]. apply (mk_fifo_rep _ _ _ _ _ F (q ++ [(x, t)])); try done.
  - by simpl in Hlen; lia.
  - by rewrite fmap_app.
  - rewrite fmap_app. simpl. eapply NoDup_Permutation_proper; [|exact Hnd]. solve_Permutation.
Qed.

Lemma fifo_enqueue_head m P tq n l t :
  fifo_rep m P tq (S n) l →
  ∃ m' P' tq', tskq_enqueue_head m P tq t = Some (m', P', tq') ∧ fifo_rep m' P' tq' n (t :: l).
Proof.
  intros [F q HF Hq Hlen <- Hnd]. destruct F as [|x F]; [done|]. apply NoDup_app in Hnd as Hnd'.
  destruct (enqueue_head_ok m P F x tq q t HF Hq) as (m' & P' & tq' & E & HF' & Hq' & _); [set_solver|].
  exists m', P', tq'. split; [done|]. apply (mk_fifo_rep _ _ _ _ _ F ((x, t) :: q)); try done.
  - by simpl in Hlen; lia.
  - csimpl in *. eapply NoDup_Permutation_proper; [|exact Hnd]. solve_Permutation.
Qed.

Lemma fifo_dequeue m P tq n t l :
  fifo_rep m P tq n (t :: l) →
  ∃ m' P' tq', tskq_dequeue m P tq = Some (Some t, m', P', tq') ∧ fifo_rep m' P' tq' (S n) l.
Proof.
  intros [F q HF Hq <- Hl Hnd]. destruct q as [|[x t'] q]; [done|]. csimpl in *. simplify_eq.
  apply NoDup_app in Hnd as Hnd'.
  destruct (dequeue_ok m P F tq x t q HF Hq) as (m' & P' & tq' & E & HF' & Hq' & _); [set_solver|].
  exists m', P', tq'. split; [done|]. apply (mk_fifo_rep _ _ _ _ _ (x :: F) q); try done.
  eapply NoDup_Permutation_proper; [|exact Hnd]. solve_Permutation.
Qed.

(** C11: A task queue on its pool refines a bounded FIFO: on every sequence of
    operations the queue returns the tasks a list of the same capacity would,
    in the same order with all their fields, and ends representing that list.
    Appending without a free task drops the task, and the sequence faults
    exactly when it prepends without a free task. *)
Theorem tskq_refines_fifo m P tq n l ops :
  fifo_rep m P tq n l →
  match run_fifo ops n l with
  | Some (rs, n', l') => ∃ m' P' tq', run_tskq ops m P tq = Some (rs, m', P', tq') ∧
                                      fifo_rep m' P' tq' n' l'
  | None => run_tskq ops m P tq = None
  end.
Proof.
  revert m P tq n l. induction ops as [|[t|t|] ops IH]; intros m P tq n l Hrep; simpl.
  - eauto.
  - destruct n as [|n].
    + pose proof Hrep as [F q HF _ Hlen _ _]. destruct F; [|done].
      rewrite enqueue_tail_empty by done. by apply IH.
    + destruct (fifo_enqueue_tail _ _ _ _ _ t Hrep) as (m' & P' & tq' & -> & Hrep'). by apply IH.
  - destruct n as [|n].
    + pose proof Hrep as [F q HF _ Hlen _ _]. destruct F; [|done].
      by rewrite enqueue_head_empty.
    + destruct (fifo_enqueue_head _ _ _ _ _ t Hrep) as (m' & P' & tq' & -> & Hrep'). by apply IH.
  - destruct l as [|t l].
    + pose proof Hrep as [F q HF Hq Hlen Hl _]. destruct q; [|done].
      rewrite dequeue_empty by done. simpl. specialize (IH m P tq n [] Hrep).
      destruct (run_fifo ops n []) as [[[rs n'] l']|]; simpl.
      * destruct IH as (m' & P' & tq' & -> & ?). simpl. eauto.
      * by rewrite IH.
    + destruct (fifo_dequeue _ _ _ _ _ _ Hrep) as (m' & P' & tq' & -> & Hrep'). simpl.
      specialize (IH _ _ _ _ _ Hrep'). destruct (run_fifo ops (S n) l) as [[[rs n'] l']|]; simpl.
      * destruct IH as (m2 & P2 & tq2 & -> & ?). simpl. eauto.
      * by rewrite IH.
Qed.

Definition ex_task (ts : Z) : task := mk_task 1 2 0 PACKET ts.

(** The queue of two slots starts empty; the third request is lost. *)
Lemma tskq_refines_fifo_witness :
  ∃ m' P' tq',
    run_tskq [EnqTail (ex_task 1); EnqTail (ex_task 2); EnqTail (ex_task 3); Deq; EnqHead (ex_task 4); Deq; Deq; Deq]
      ex_heap ex_pool (mk_task_queue NULL NULL)
    = Some ([Some (ex_task 1); Some (ex_task 4); Some (ex_task 2); None], m', P', tq') ∧
    fifo_rep m' P' tq' 2 [].
Proof.
  apply (tskq_refines_fifo ex_heap ex_pool (mk_task_queue NULL NULL) 2 []
    [EnqTail (ex_task 1); EnqTail (ex_task 2); EnqTail (ex_task 3); Deq; EnqHead (ex_task 4); Deq; Deq; Deq]).
  apply (mk_fifo_rep _ _ _ _ _ [4096; 4160] []).
  - apply ex_pool_rep.
  - split; [done|done|set_solver|apply NoDup_nil_2].
  - done.
  - done.
  - apply (bool_decide_unpack _). by vm_compute.
Defined.

(** ** The returned-buffer stack is a bounded stack *)

Inductive mq_op := MqPush (buf : ptr) | MqPop.

Fixpoint run_mq (ops : list mq_op) (m : heap) (P : pool) (mq : ptr) :
    option (list ptr * heap * pool * ptr) :=
  match ops with
  | [] => Some ([], m, P, mq)
  | MqPush b :: ops' => '(m, P, mq) ← mbuf_enqueue m P mq b; run_mq ops' m P mq
  | MqPop :: ops' =>
      '(b, m, P, mq) ← mbuf_dequeue m P mq;
      '(bs, m, P, mq) ← run_mq ops' m P mq; Some (b :: bs, m, P, mq)
  end.

(** The same operations on a list of buffers with [n] free slots. *)
Fixpoint run_lifo (ops : list mq_op) (n : nat) (l : list ptr) : option (list ptr * nat * list ptr) :=
  match ops with
  | [] => Some ([], n, l)
  | MqPush b :: ops' =>
      if b =? NULL then run_lifo ops' n l else
      match n with O => None | S n' => run_lifo ops' n' (b :: l) end
  | MqPop :: ops' =>
      match l with
      | [] => '(bs, n, l) ← run_lifo ops' n []; Some (NULL :: bs, n, l)
      | b :: l' => '(bs, n, l) ← run_lifo ops' (S n) l'; Some (b :: bs, n, l)
      end
  end.

Record lifo_rep (m : heap) (P : pool) (mq : ptr) (n : nat) (l : list ptr) : Prop := mk_lifo_rep {
  lf_free : list ptr;
  lf_cells : list (ptr * ptr);
  lf_pool : pool_rep m P lf_free;
  lf_mq : mq_rep m mq lf_cells;
  lf_len : length lf_free = n;
  lf_bufs : lf_cells.*2 = l;
  lf_nodup : NoDup (lf_free ++ lf_cells.*1);
}.

Lemma lifo_push m P mq n l b :
  lifo_rep m P mq (S n) l → b ≠ NULL →
  ∃ m' P' mq', mbuf_enqueue m P mq b = Some (m', P', mq') ∧ lifo_rep m' P' mq' n (b :: l).
Proof.
  intros [F q HF Hq Hlen <- Hnd] Hb. destruct F as [|x F]; [done|]. apply NoDup_app in Hnd as Hnd'.
  destruct (mbuf_enqueue_ok m P F x mq q b HF Hq) as (m' & P' & E & HF' & Hq' & _); [set_solver|done|].
  exists m', P', x. split; [done|]. apply (mk_lifo_rep _ _ _ _ _ F ((x, b) :: q)); try done.
  - by simpl in Hlen; lia.
  - csimpl. eapply NoDup_Permutation_proper; [|exact Hnd]. solve_Permutation.
Qed.

Lemma lifo_pop m P mq n b l :
  lifo_rep m P mq n (b :: l) →
  ∃ m' P' mq', mbuf_dequeue m P mq = Some (b, m', P', mq') ∧ lifo_rep m' P' mq' (S n) l.
Proof.
  intros [F q HF Hq <- Hl Hnd]. destruct q as [|[x b'] q]; [done|]. csimpl in *. simplify_eq.
  apply NoDup_app in Hnd as Hnd'.
  destruct (mbuf_dequeue_ok m P F x b mq q HF Hq) as (m' & P' & mq' & E & HF' & Hq' & _); [set_solver|].
  exists m', P', mq'. split; [done|]. apply (mk_lifo_rep _ _ _ _ _ (x :: F) q); try done.
  eapply NoDup_Permutation_proper; [|exact Hnd]. solve_Permutation.
Qed.

(** The stack of returned buffers refines a bounded stack, although
    [mbuf_dequeue] reads a cell after giving it back to the pool: on every
    sequence of operations it returns the buffers a list would (NULL when it is
    empty), pushing NULL does nothing, and the sequence faults exactly when a
    buffer is pushed without a free cell. *)
Theorem mqueue_refines_stack m P mq n l ops :
  lifo_rep m P mq n l →
  match run_lifo ops n l with
  | Some (bs, n', l') => ∃ m' P' mq', run_mq ops m P mq = Some (bs, m', P', mq') ∧
                                      lifo_rep m' P' mq' n' l'
  | None => run_mq ops m P mq = None
  end.
Proof.
  revert m P mq n l. induction ops as [|[b|] ops IH]; intros m P mq n l Hrep; simpl.
  - eauto.
  - destruct (Z.eqb_spec b NULL) as [->|Hb]; [by apply IH|]. destruct n as [|n].
    + destruct Hrep as [F q HF _ Hlen _ _]. destruct F; [|done].
      by rewrite mbuf_enqueue_empty.
    + destruct (lifo_push _ _ _ _ _ b Hrep Hb) as (m' & P' & mq' & -> & Hrep'). by apply IH.
  - destruct l as [|b l].
    + pose proof Hrep as [F q HF Hq Hlen Hl _]. destruct q; [|done].
      rewrite mbuf_dequeue_empty by done. simpl. specialize (IH m P mq n [] Hrep).
      destruct (run_lifo ops n []) as [[[rs n'] l']|]; simpl; [|by rewrite IH].
      destruct IH as (m' & P' & mq' & -> & ?). simpl. eauto.
    + destruct (lifo_pop _ _ _ _ _ _ Hrep) as (m' & P' & mq' & -> & Hrep'). simpl.
      specialize (IH _ _ _ _ _ Hrep'). destruct (run_lifo ops (S n) l) as [[[rs n'] l']|]; simpl; [|by rewrite IH].
      destruct IH as (m2 & P2 & mq2 & -> & ?). simpl. eauto.
Qed.

Lemma mqueue_refines_stack_witness :
  ∃ m' P' mq',
    run_mq [MqPush 7; MqPush NULL; MqPush 8; MqPop; MqPop; MqPop] ex_heap ex_pool NULL
    = Some ([8; 7; NULL], m', P', mq') ∧ lifo_rep m' P' mq' 2 [].
Proof.
  apply (mqueue_refines_stack ex_heap ex_pool NULL 2 []
    [MqPush 7; MqPush NULL; MqPush 8; MqPop; MqPop; MqPop]).
  apply (mk_lifo_rep _ _ _ _ _ [4096; 4160] []).
  - apply ex_pool_rep.
  - split; [done|set_solver|apply NoDup_nil_2].
  - done.
  - done.
  - apply (bool_decide_unpack _). by vm_compute.
Defined.

(** ** The queue that is served *)

(** C4: [smart_tskq_dequeue] serves the oldest task of a queue whose delay, in
    units of its port's latency target, is largest among all ports and
    positive, of the lowest such port, and moves that task's memory back to the
    pool; it reports that there is nothing to do, without touching memory, only
    if no port has a positive ratio.  It never faults. *)
Theorem smart_dequeue_serves_largest_ratio cfg m P tqs F ls cur :
  queues_rep m P tqs F ls → (num_ports cfg ≤ length tqs)%nat → (num_ports cfg ≤ length (slos cfg))%nat →
  match smart_tskq_dequeue cfg m P tqs cur with
  | Some (Some t, m', P', tqs') =>
      ∃ i x l r, ls !! i = Some ((x, t) :: l) ∧ (i < num_ports cfg)%nat ∧
        queues_rep m' P' tqs' (x :: F) (<[i := l]> ls) ∧
        ratio cfg ls cur i = Some r ∧ f64_gt r f64_zero = true ∧
        (∀ j r', (j < num_ports cfg)%nat → ratio cfg ls cur j = Some r' → f64_gt r' r = false) ∧
        (∀ j, (j < i)%nat → ratio cfg ls cur j ≠ Some r)
  | Some (None, m', P', tqs') =>
      m' = m ∧ P' = P ∧ tqs' = tqs ∧
      ∀ j r, (j < num_ports cfg)%nat → ratio cfg ls cur j = Some r → f64_gt r f64_zero = false
  | None => False
  end.
Proof.
  intros Hrep H1 H2. destruct (smart_dequeue_ok cfg m P tqs F ls cur Hrep H1 H2) as (mx & [i|] & Hb & Hres).
  - destruct Hres as (x & t & l & tq' & m' & P' & Hl & -> & Hrep' & _).
    destruct Hb as (Hi & Hr & Hpos & Hmax & Hfst). exists i, x, l, mx. by split_and!.
  - rewrite Hres. by destruct Hb as [-> Hb].
Qed.

(** The configured targets are positive, as [add_slo] stores them. *)
Definition slos_positive (cfg : cfg_params) : Prop :=
  ∃ zs, slos cfg = slo_of_int <$> zs ∧ Forall (λ z, 0 < z < 2 ^ 31) zs.

(** Every queued task was stamped before [cur], less than 2^63 cycles ago. *)
Definition stamps_before (cur : Z) (ls : list (list (ptr * task))) : Prop :=
  Forall (Forall (λ x, 0 ≤ t_timestamp x.2 < cur ∧ cur - t_timestamp x.2 < 2 ^ 63)) ls.

Lemma ratio_positive cfg ls cur j x t l :
  slos_positive cfg → stamps_before cur ls → (j < length (slos cfg))%nat → ls !! j = Some ((x, t) :: l) →
  ∃ r, ratio cfg ls cur j = Some r ∧ f64_gt r f64_zero = true.
Proof.
  intros (zs & Ezs & Hzs) Hts Hj Hl. rewrite Ezs, length_fmap in Hj.
  destruct (lookup_lt_is_Some_2 zs j Hj) as [z Hz].
  eexists. unfold ratio. rewrite Hl. simpl. rewrite Ezs, list_lookup_fmap, Hz. simpl. split; [done|].
  assert (0 < z < 2 ^ 31) as Hpos by (by eapply Forall_lookup_1 in Hzs).
  destruct (slo_of_int_magn z Hpos) as (ms & es & -> & Hm).
  eapply Forall_lookup_1 in Hts; [|done]. apply Forall_cons in Hts as [[? ?] _]. simpl in *.
  unfold delay_ratio. rewrite u64_small, s64_small by (unfold U64_MOD; lia).
  apply delay_ratio_positive; [lia|done].
Qed.

(** C28: The scheduler is work-conserving: with positive latency targets and
    time stamps in the past, [smart_tskq_dequeue] hands out a task whenever some
    port's queue holds one. *)
Theorem smart_dequeue_work_conserving cfg m P tqs F ls cur j x t l :
  queues_rep m P tqs F ls → (num_ports cfg ≤ length tqs)%nat → (num_ports cfg ≤ length (slos cfg))%nat →
  slos_positive cfg → stamps_before cur ls →
  (j < num_ports cfg)%nat → ls !! j = Some ((x, t) :: l) →
  ∃ t' m' P' tqs', smart_tskq_dequeue cfg m P tqs cur = Some (Some t', m', P', tqs').
Proof.
  intros Hrep H1 H2 Hslo Hts Hj Hl.
  destruct (smart_dequeue_ok cfg m P tqs F ls cur Hrep H1 H2) as (mx & [i|] & Hb & Hres).
  - destruct Hres as (x' & t' & l' & tq' & m' & P' & _ & -> & _). eauto.
  - exfalso. destruct (ratio_positive cfg ls cur j x t l) as (r & Hr & Hpos); [done|done|lia|done|].
    destruct Hb as [-> Hb]. rewrite (Hb j r Hj Hr) in Hpos. done.
Qed.

(** Two ports with one waiting task each: port 0 waited 100 cycles with a target
    of 10, port 1 waited 90 cycles with a target of 1. *)
Definition ex_queues_heap : heap :=
  default ∅ (m ← task_fill ex_heap 8192 (ex_task 900); task_fill m 8256 (ex_task 910)).
Definition ex_queues : list task_queue := [mk_task_queue 8192 8192; mk_task_queue 8256 8256].
Definition ex_lists : list (list (ptr * task)) := [[(8192, ex_task 900)]; [(8256, ex_task 910)]].
Definition ex_cfg : cfg_params := mk_cfg_params 2 (slo_of_int <$> [10; 1]) [] [].

Lemma ex_queues_rep : queues_rep ex_queues_heap ex_pool ex_queues [4096; 4160] ex_lists.
Proof.
  split.
  - exists [], [], [[4096; 4160]]. split; [|done]. split; try done; simpl.
    apply (bool_decide_unpack _). by vm_compute.
  - constructor; [|constructor; [|constructor]]; (split; simpl; try done;
      [by intros p t [= -> ->]%list_elem_of_singleton|apply NoDup_singleton]).
  - apply (bool_decide_unpack _). by vm_compute.
Defined.

(** Port 1 is served: it is 36 targets late, port 0 only 4. *)
Lemma smart_dequeue_serves_largest_ratio_witness :
  ∃ m' P' tqs', smart_tskq_dequeue ex_cfg ex_queues_heap ex_pool ex_queues 1000
      = Some (Some (ex_task 910), m', P', tqs') ∧
    ∃ i x l, ex_lists !! i = Some ((x, ex_task 910) :: l) ∧
      queues_rep m' P' tqs' [x; 4096; 4160] (<[i := l]> ex_lists).
Proof.
  pose proof (smart_dequeue_serves_largest_ratio ex_cfg ex_queues_heap ex_pool ex_queues
    [4096; 4160] ex_lists 1000 ex_queues_rep ltac:(simpl; lia) ltac:(simpl; lia)) as H.
  assert ((λ r, r.1.1.1) <$> smart_tskq_dequeue ex_cfg ex_queues_heap ex_pool ex_queues 1000
          = Some (Some (ex_task 910))) as E by (by vm_compute).
  destruct (smart_tskq_dequeue _ _ _ _ _) as [[[[r m'] P'] tqs']|]; [|done].
  apply (inj Some) in E. cbn [fst] in E. subst r.
  destruct H as (i & x & l & r & Hl & _ & Hrep & _).
  exists m', P', tqs'. split; [reflexivity|]. exists i, x, l. split; assumption.
Defined.

Lemma smart_dequeue_work_conserving_witness :
  ∃ t' m' P' tqs', smart_tskq_dequeue ex_cfg ex_queues_heap ex_pool ex_queues 1000
      = Some (Some t', m', P', tqs').
Proof.
  apply (smart_dequeue_work_conserving ex_cfg ex_queues_heap ex_pool ex_queues
    [4096; 4160] ex_lists 1000 0 8192 (ex_task 900) []).
  - apply ex_queues_rep.
  - simpl; lia.
  - simpl; lia.
  - exists [10; 1]. split; [done|]. repeat constructor; lia.
  - repeat constructor; simpl; lia.
  - simpl; lia.
  - done.
Defined.
