(* ===== verification/Context.v ===== *)
(** * Execution contexts (inc/ix/context.h, dp/core/context.c, dp/core/taskqueue.c)

    A request runs in a [ucontext_t] taken from the context pool, on a stack
    taken from the stack pool.  [context_alloc] pairs the two, [context_free]
    returns both.  The representation [ctx_rep] lists the free contexts, the
    free stacks and the live pairs. *)

From S2P Require Import Prelude Stddef Heap Mempool.
Local Open Scope Z_scope.

(** ** Layout of [ucontext_t] on x86-64: [uc_link], [uc_stack.ss_sp], [uc_stack.ss_size]. *)
Definition UC_LINK : Z := 8.
Definition UC_SS_SP : Z := 16.
Definition UC_SS_SIZE : Z := 32.

(** [sizeof(stack)] for [void *stack]. *)
Definition SIZEOF_PTR : Z := 8.

(** ** Operations *)

(** The result is the return value and [*cont]. *)
Definition context_alloc (m : heap) (Pc Ps : pool) : option (Z * ptr * heap * pool * pool) :=
  '(cont, Pc) ← mempool_alloc m Pc;
  if cont =? NULL then Some (-1, cont, m, Pc, Ps) else
  '(stack, Ps) ← mempool_alloc m Ps;
  if stack =? NULL then
    '(m, Pc) ← mempool_free m Pc cont;
    Some (-1, cont, m, Pc, Ps)
  else
  m ← sto m cont UC_SS_SP stack;
  m ← sto m cont UC_SS_SIZE SIZEOF_PTR;
  Some (0, cont, m, Pc, Ps).

Definition context_free (m : heap) (Pc Ps : pool) (c : ptr) : option (heap * pool * pool) :=
  sp ← ld m c UC_SS_SP;
  '(m, Ps) ← mempool_free m Ps sp;
  '(m, Pc) ← mempool_free m Pc c;
  Some (m, Pc, Ps).

(** The address [&sp[1]] that [set_context_link] stores to: [ss_size] is added to
    a [uintptr_t *], so it counts words. *)
Definition link_slot (ss_sp ss_size : Z) : Z :=
  let sp := u64 (ss_sp + 8 * ss_size) in
  let sp := u64 (sp - 8) in
  let sp := u64 (Z.land sp (u64 (-16)) - 8) in
  u64 (sp + 8).

Definition set_context_link (m : heap) (c uc_link : ptr) : option heap :=
  ss_sp ← ld m c UC_SS_SP;
  ss_size ← ld m c UC_SS_SIZE;
  m ← sto m c UC_LINK uc_link;
  link ← ld m c UC_LINK;
  sto m ss_sp (link_slot ss_sp ss_size - ss_sp) link.

(** ** Initialisation

    [pa n] is the page allocator at the [n]-th call: the address it returns for
    a number of 2MB pages. *)

Definition CONTEXT_CAPACITY : Z := 768 * 1024.
Definition STACK_CAPACITY : Z := 768 * 1024.
Definition STACK_SIZE : Z := 2048.
Definition TASK_CAPACITY : Z := 768 * 1024.
Definition MCELL_CAPACITY : Z := 768 * 1024.
Definition SIZEOF_TASK : Z := 40.
Definition SIZEOF_MBUF_CELL : Z := 16.

Definition context_init_mempool (P : pool) : option pool :=
  p ← mempool_create P.1 P.2 MEMPOOL_SANITY_GLOBAL 0; Some (P.1, p).
Definition stack_init_mempool (P : pool) : option pool :=
  p ← mempool_create P.1 P.2 MEMPOOL_SANITY_GLOBAL 0; Some (P.1, p).
Definition task_init_mempool (P : pool) : option pool :=
  p ← mempool_create P.1 P.2 MEMPOOL_SANITY_GLOBAL 0; Some (P.1, p).
Definition mcell_init_mempool (P : pool) : option pool :=
  p ← mempool_create P.1 P.2 MEMPOOL_SANITY_GLOBAL 0; Some (P.1, p).

Definition context_init (pa : nat → Z → ptr) (ma : Z → ptr) (sizeof_ucontext : Z)
    (m : heap) (Pc Ps : pool) : option (Z * heap * pool * pool) :=
  '(ret, m, ds) ← mempool_create_datastore (pa 0%nat) ma m Pc.1 CONTEXT_CAPACITY sizeof_ucontext 1
                    MEMPOOL_DEFAULT_CHUNKSIZE;
  if negb (ret =? 0) then Some (ret, m, (ds, Pc.2), Ps) else
  Pc ← context_init_mempool (ds, Pc.2);
  '(ret, m, ds) ← mempool_create_datastore (pa 1%nat) ma m Ps.1 STACK_CAPACITY STACK_SIZE 1
                    MEMPOOL_DEFAULT_CHUNKSIZE;
  if negb (ret =? 0) then Some (ret, m, Pc, (ds, Ps.2)) else
  Ps ← stack_init_mempool (ds, Ps.2);
  Some (0, m, Pc, Ps).

Definition taskqueue_init (pa : nat → Z → ptr) (ma : Z → ptr)
    (m : heap) (Pt Pm : pool) : option (Z * heap * pool * pool) :=
  '(ret, m, ds) ← mempool_create_datastore (pa 0%nat) ma m Pt.1 TASK_CAPACITY SIZEOF_TASK 1
                    MEMPOOL_DEFAULT_CHUNKSIZE;
  if negb (ret =? 0) then Some (ret, m, (ds, Pt.2), Pm) else
  Pt ← task_init_mempool (ds, Pt.2);
  '(ret, m, ds) ← mempool_create_datastore (pa 1%nat) ma m Pm.1 MCELL_CAPACITY SIZEOF_MBUF_CELL 1
                    MEMPOOL_DEFAULT_CHUNKSIZE;
  if negb (ret =? 0) then Some (ret, m, Pt, (ds, Pm.2)) else
  Pm ← mcell_init_mempool (ds, Pm.2);
  Some (0, m, Pt, Pm).

(** ** Representation *)

(** Free contexts, free stacks, and the live contexts with their stacks. *)
Record ctx_rep (m : heap) (Pc Ps : pool) (Fc Fs : list ptr) (live : list (ptr * ptr)) : Prop := {
  cx_ctx : pool_rep m Pc Fc;
  cx_stack : pool_rep m Ps Fs;
  cx_live : ∀ c s, (c, s) ∈ live → c ≠ NULL ∧ s ≠ NULL ∧ rd m c UC_SS_SP = s;
  cx_nodup : NoDup (Fc ++ live.*1 ++ Fs ++ live.*2);
}.

(** Every object of the two pools. *)
Definition ctx_region (Fc Fs : list ptr) (live : list (ptr * ptr)) : list ptr :=
  Fc ++ live.*1 ++ Fs ++ live.*2.

Lemma ctx_rep_frame X m m' Pc Ps Fc Fs live :
  ctx_rep m Pc Ps Fc Fs live → same_outside X m m' →
  (∀ x, x ∈ ctx_region Fc Fs live → x ∉ X) → ctx_rep m' Pc Ps Fc Fs live.
Proof.
  unfold ctx_region. intros [] Hs Hd. split; [..|done].
  - eapply pool_rep_frame; [done..|]. set_solver.
  - eapply pool_rep_frame; [done..|]. set_solver.
  - intros c s Hc. destruct (cx_live0 c s Hc) as (? & ? & ?). split_and!; [done..|].
    rewrite Hs; [done|]. apply Hd. apply (list_elem_of_fmap_2 fst) in Hc. set_solver.
Qed.

(** ** Allocation and release *)

Lemma context_alloc_none m Pc Ps Fs live :
  ctx_rep m Pc Ps [] Fs live → context_alloc m Pc Ps = Some (-1, NULL, m, Pc, Ps).
Proof. intros []. unfold context_alloc. by rewrite (sa_alloc_empty m Pc) by done. Qed.

Lemma context_alloc_no_stack m Pc Ps c Fc live :
  ctx_rep m Pc Ps (c :: Fc) [] live →
  ∃ m' Pc', context_alloc m Pc Ps = Some (-1, c, m', Pc', Ps) ∧
    ctx_rep m' Pc' Ps (c :: Fc) [] live ∧ same_outside (c :: Fc) m m'.
Proof.
  intros [HFc HFs Hl Hnd]. destruct (sa_alloc_pop m Pc c Fc HFc) as (Pc1 & E1 & HFc1 & Hc).
  apply NoDup_app in Hnd as Hnd'. destruct Hnd' as (Hn1 & Hd & _).
  apply NoDup_cons in Hn1 as [HcF _].
  destruct (pool_free m Pc1 Fc c HFc1 Hc HcF) as (m' & Pc2 & E2 & HFc2 & Hs).
  exists m', Pc2. unfold context_alloc. rewrite E1. simpl.
  rewrite (proj2 (Z.eqb_neq _ _) Hc), (sa_alloc_empty m Ps HFs). simpl. rewrite E2. simpl.
  split_and!; [done| |done]. split; [done| | |done].
  - eapply pool_rep_frame; [done..|]. set_solver.
  - intros c' s' Hin. destruct (Hl c' s' Hin) as (? & ? & ?). split_and!; [done..|].
    rewrite Hs; [done|]. intros Hc'. apply (list_elem_of_fmap_2 fst) in Hin. set_solver.
Qed.

Lemma context_alloc_ok m Pc Ps c Fc s Fs live :
  ctx_rep m Pc Ps (c :: Fc) (s :: Fs) live →
  ∃ m' Pc' Ps', context_alloc m Pc Ps = Some (0, c, m', Pc', Ps') ∧
    ctx_rep m' Pc' Ps' Fc Fs ((c, s) :: live) ∧ same_outside [c] m m'.
Proof.
  intros [HFc HFs Hl Hnd]. destruct (sa_alloc_pop m Pc c Fc HFc) as (Pc1 & E1 & HFc1 & Hc).
  destruct (sa_alloc_pop m Ps s Fs HFs) as (Ps1 & E2 & HFs1 & Hs0).
  unfold context_alloc. rewrite E1. simpl.
  rewrite (proj2 (Z.eqb_neq _ _) Hc), E2. simpl. rewrite (proj2 (Z.eqb_neq _ _) Hs0). heap_step.
  set (m' := <[(c, UC_SS_SIZE) := _]> _).
  assert (same_outside [c] m m') as Hs.
  { eapply same_outside_trans; apply same_outside_insert; set_solver. }
  assert (NoDup (c :: s :: Fc ++ live.*1 ++ Fs ++ live.*2)) as Hnd1.
  { eapply NoDup_Permutation_proper; [|exact Hnd]. solve_Permutation. }
  apply NoDup_cons in Hnd1 as [Hcn Hnd1].
  eexists m', _, _. split_and!; [done| |done]. split.
  - eapply (pool_rep_frame [c]); [done..|]. set_solver.
  - eapply (pool_rep_frame [c]); [done..|]. set_solver.
  - intros c' s' [[= -> ->]|Hin]%elem_of_cons.
    + split_and!; [done..|]. unfold m'. rewrite rd_insert_ne by (right; solve_off). by rewrite rd_insert_eq.
    + destruct (Hl c' s' Hin) as (? & ? & ?). split_and!; [done..|]. rewrite Hs; [done|].
      apply (list_elem_of_fmap_2 fst) in Hin. set_solver.
  - csimpl. eapply NoDup_Permutation_proper; [|exact Hnd]. solve_Permutation.
Qed.

Lemma context_free_ok m Pc Ps Fc Fs l1 c s l2 :
  ctx_rep m Pc Ps Fc Fs (l1 ++ (c, s) :: l2) →
  ∃ m' Pc' Ps', context_free m Pc Ps c = Some (m', Pc', Ps') ∧
    ctx_rep m' Pc' Ps' (c :: Fc) (s :: Fs) (l1 ++ l2) ∧
    same_outside (c :: Fc ++ s :: Fs) m m'.
Proof.
  intros [HFc HFs Hl Hnd]. destruct (Hl c s) as (Hc & Hs0 & Hsp); [set_solver|].
  assert (NoDup ((c :: Fc) ++ (s :: Fs) ++ (l1 ++ l2).*1 ++ (l1 ++ l2).*2)) as Hnd1.
  { eapply NoDup_Permutation_proper; [|exact Hnd]. rewrite !fmap_app. csimpl. solve_Permutation. }
  apply NoDup_app in Hnd1 as Hnd2. destruct Hnd2 as (Hn1 & Hd1 & Hnd2).
  apply NoDup_app in Hnd2 as (Hn2 & Hd2 & _).
  apply NoDup_cons in Hn1 as [HcF _]. apply NoDup_cons in Hn2 as [HsF _].
  unfold context_free. heap_step. rewrite Hsp.
  destruct (pool_free m Ps Fs s HFs Hs0 HsF) as (m1 & Ps1 & E1 & HFs1 & Hso1). rewrite E1. simpl.
  assert (pool_rep m1 Pc Fc) as HFc1.
  { eapply pool_rep_frame; [done..|]. intros x Hx Hx'. apply (Hd1 x); set_solver. }
  destruct (pool_free m1 Pc Fc c HFc1 Hc HcF) as (m2 & Pc2 & E2 & HFc2 & Hso2). rewrite E2. simpl.
  assert (same_outside (c :: Fc ++ s :: Fs) m m2) as Hso.
  { eapply same_outside_trans; (eapply same_outside_weaken; [eassumption|set_solver]). }
  eexists _, _, _. split_and!; [done| |done]. split.
  - done.
  - eapply pool_rep_frame; [done..|]. intros x Hx Hx'. apply (Hd1 x); set_solver.
  - intros c' s' Hin. destruct (Hl c' s') as (? & ? & ?); [set_solver|]. split_and!; [done..|].
    rewrite Hso; [done|]. apply (list_elem_of_fmap_2 fst) in Hin. simpl in Hin.
    intros [?|?]%(elem_of_app (c :: Fc)); [apply (Hd1 c')|apply (Hd2 c')]; set_solver.
  - eapply NoDup_Permutation_proper; [|exact Hnd1]. solve_Permutation.
Qed.

Lemma context_alloc_size m Pc Ps c m' Pc' Ps' :
  context_alloc m Pc Ps = Some (0, c, m', Pc', Ps') → rd m' c UC_SS_SIZE = SIZEOF_PTR.
Proof.
  unfold context_alloc. destruct (mempool_alloc m Pc) as [[x P1]|]; [simpl|done].
  destruct (Z.eqb_spec x NULL); [done|]. destruct (mempool_alloc m Ps) as [[y P2]|]; [simpl|done].
  destruct (Z.eqb_spec y NULL).
  - destruct (mempool_free m P1 x) as [[m1 P3]|]; simpl; congruence.
  - heap_step. intros [= <- <- <- <-]. by rewrite rd_insert_eq.
Qed.

(** Writes to a live context's [uc_link] and to its stack. *)
Lemma ctx_rep_poke m Pc Ps Fc Fs live c s off v w :
  ctx_rep m Pc Ps Fc Fs live → (c, s) ∈ live →
  ctx_rep (<[(s, off) := v]> (<[(c, UC_LINK) := w]> m)) Pc Ps Fc Fs live.
Proof.
  intros [HFc HFs Hl Hnd] Hin. pose proof (list_elem_of_fmap_2 fst _ _ Hin) as Hc.
  pose proof (list_elem_of_fmap_2 snd _ _ Hin) as Hs. simpl in *.
  assert (same_outside [c; s] m (<[(s, off) := v]> (<[(c, UC_LINK) := w]> m))) as Hso.
  { eapply same_outside_trans; apply same_outside_insert; set_solver. }
  apply NoDup_app in Hnd as Hnd1. destruct Hnd1 as (_ & Hd1 & Hnd1).
  apply NoDup_app in Hnd1 as (_ & Hd2 & Hnd1). apply NoDup_app in Hnd1 as (_ & Hd3 & _).
  split; [| | |done].
  - eapply pool_rep_frame; [done..|]. intros x Hx [->|[->|[]%not_elem_of_nil]%elem_of_cons]%elem_of_cons;
      apply (Hd1 _ Hx); set_solver.
  - eapply pool_rep_frame; [done..|]. intros x Hx [->|[->|[]%not_elem_of_nil]%elem_of_cons]%elem_of_cons.
    + apply (Hd2 c); set_solver.
    + by apply (Hd3 s).
  - intros c' s' Hin'. destruct (Hl c' s' Hin') as (? & ? & ?). split_and!; [done..|].
    rewrite rd_insert_ne, rd_insert_ne; [done|right; solve_off|]. left. intros ->.
    apply (list_elem_of_fmap_2 fst) in Hin'. simpl in *. apply (Hd2 c'); set_solver.
Qed.

(** ** Initialisation builds the pools *)

(** [n] fresh zeroed 2MB pages at [a]. *)
Definition fresh_pages (m : heap) (a n : Z) : Prop :=
  0 < a ∧ n ≤ 1024 ∧ a + (n + 1) * PGSIZE_2MB < MAP_FAILED ∧
  ∀ x off, a ≤ x < a + n * PGSIZE_2MB → rd m x off = 0.

Definition pages_disjoint (a n b k : Z) : Prop :=
  a + n * PGSIZE_2MB ≤ b ∨ b + k * PGSIZE_2MB ≤ a.

(** One pool on its own pages, and what its creation leaves alone. *)
Lemma create_pool_fresh pa ma m nr elem_len ty id :
  let np := ds_pages nr elem_len in
  0 < elem_len ≤ PGSIZE_2MB → 0 < nr < 2 ^ 31 → nr mod 128 = 0 → fresh_pages m (pa np) np →
  ∃ m' mds p F,
    mempool_create_datastore pa ma m mempool_datastore_zero nr elem_len 1 MEMPOOL_DEFAULT_CHUNKSIZE =
      Some (0, m', mds) ∧
    mempool_create mds mempool_zero ty id = Some p ∧
    pool_rep m' (mds, p) F ∧ nr ≤ Z.of_nat (length F) ≤ np * ds_per_page elem_len ∧
    ds_layout (pa np) (ds_len elem_len) np F ∧
    (∀ x, x ∈ F → pa np ≤ x < pa np + np * PGSIZE_2MB) ∧
    (∀ b n, pages_disjoint (pa np) np b n → fresh_pages m b n → fresh_pages m' b n) ∧
    (∀ b n P G, pages_disjoint (pa np) np b n → (∀ x, x ∈ G → b ≤ x < b + n * PGSIZE_2MB) →
       pool_rep m P G → pool_rep m' P G).
Proof.
  intros np He Hnr Hmod (Hpa & Hnp & Hmax & Hz). change MEMPOOL_DEFAULT_CHUNKSIZE with (2 ^ 7).
  destruct (create_pool_ok pa ma m nr elem_len 7 ty id) as (m' & mds & p & F & E1 & E2 & HF & Hlen & Hlay & Hfr);
    [done|done|lia|done|done|done|done|done|]. fold np in Hlay, Hfr.
  exists m', mds, p, F. split_and!; [done|done|done|by destruct Hlen|by destruct Hlen|done| | |].
  - intros x Hx. destruct Hlay as (_ & Hb & _). destruct (Hb x Hx) as (? & ? & _).
    destruct (ds_len_bounds elem_len He) as [? _]. lia.
  - intros b n Hd (? & ? & ? & Hz'). split_and!; [done..|]. intros x off Hx. rewrite Hfr; [by apply Hz'|].
    unfold pages_disjoint in Hd. lia.
  - intros b n P G Hd HG HP. eapply sa_frame; [exact HP|..]; intros x Hx; apply Hfr; specialize (HG x Hx);
      unfold pages_disjoint in Hd; lia.
Qed.

Lemma NoDup_disjoint_ranges (F G : list ptr) a n b k :
  NoDup F → NoDup G → (∀ x, x ∈ F → a ≤ x < a + n * PGSIZE_2MB) →
  (∀ x, x ∈ G → b ≤ x < b + k * PGSIZE_2MB) → pages_disjoint a n b k → NoDup (F ++ G).
Proof.
  intros HF HG HaF HbG Hd. apply NoDup_app. split_and!; [done| |done].
  intros x Hx Hx'. specialize (HaF x Hx). specialize (HbG x Hx'). unfold pages_disjoint in Hd. lia.
Qed.

(** Two pools, created one after the other on fresh, disjoint pages: both serve at
    least the number of elements asked for, and share none. *)
Lemma create_two_pools (pa : nat → Z → ptr) ma m nr1 len1 nr2 len2 :
  let n1 := ds_pages nr1 len1 in
  let n2 := ds_pages nr2 len2 in
  0 < len1 ≤ PGSIZE_2MB → 0 < nr1 < 2 ^ 31 → nr1 mod 128 = 0 → fresh_pages m (pa 0%nat n1) n1 →
  0 < len2 ≤ PGSIZE_2MB → 0 < nr2 < 2 ^ 31 → nr2 mod 128 = 0 → fresh_pages m (pa 1%nat n2) n2 →
  pages_disjoint (pa 0%nat n1) n1 (pa 1%nat n2) n2 →
  ∃ m1 d1 p1 F1 m2 d2 p2 F2,
    mempool_create_datastore (pa 0%nat) ma m mempool_datastore_zero nr1 len1 1 MEMPOOL_DEFAULT_CHUNKSIZE
      = Some (0, m1, d1) ∧
    mempool_create d1 mempool_zero MEMPOOL_SANITY_GLOBAL 0 = Some p1 ∧
    mempool_create_datastore (pa 1%nat) ma m1 mempool_datastore_zero nr2 len2 1 MEMPOOL_DEFAULT_CHUNKSIZE
      = Some (0, m2, d2) ∧
    mempool_create d2 mempool_zero MEMPOOL_SANITY_GLOBAL 0 = Some p2 ∧
    pool_rep m2 (d1, p1) F1 ∧ pool_rep m2 (d2, p2) F2 ∧ NoDup (F1 ++ F2) ∧
    nr1 ≤ Z.of_nat (length F1) ≤ n1 * ds_per_page len1 ∧ nr2 ≤ Z.of_nat (length F2) ≤ n2 * ds_per_page len2 ∧
    ds_layout (pa 0%nat n1) (ds_len len1) n1 F1 ∧ ds_layout (pa 1%nat n2) (ds_len len2) n2 F2 ∧
    (∀ b n, pages_disjoint (pa 0%nat n1) n1 b n → pages_disjoint (pa 1%nat n2) n2 b n →
       fresh_pages m b n → fresh_pages m2 b n) ∧
    (∀ b n P G, pages_disjoint (pa 0%nat n1) n1 b n → pages_disjoint (pa 1%nat n2) n2 b n →
       (∀ x, x ∈ G → b ≤ x < b + n * PGSIZE_2MB) → pool_rep m P G → pool_rep m2 P G).
Proof.
  intros n1 n2 Hl1 Hr1 Hm1 Hf1 Hl2 Hr2 Hm2 Hf2 Hd.
  destruct (create_pool_fresh (pa 0%nat) ma m nr1 len1 MEMPOOL_SANITY_GLOBAL 0)
    as (m1 & d1 & p1 & F1 & E1 & E1' & HF1 & Hc1 & Hlay1 & Hb1 & Hk1 & Hkp1); [done..|].
  destruct (create_pool_fresh (pa 1%nat) ma m1 nr2 len2 MEMPOOL_SANITY_GLOBAL 0)
    as (m2 & d2 & p2 & F2 & E2 & E2' & HF2 & Hc2 & Hlay2 & Hb2 & Hk2 & Hkp2); [done|done|done|by apply Hk1|].
  destruct Hc1, Hc2. exists m1, d1, p1, F1, m2, d2, p2, F2. split_and!; try done.
  - eapply Hkp2; [|exact Hb1|done]. by destruct Hd; [right|left].
  - eapply NoDup_disjoint_ranges; [|by destruct Hlay2|exact Hb1|exact Hb2|done]. by destruct Hlay1.
  - intros b n Hd1 Hd2 Hf. apply Hk2; [done|]. by apply Hk1.
  - intros b n P G Hd1 Hd2 HG HP. eapply Hkp2; [exact Hd2|exact HG|]. by eapply Hkp1.
Qed.

(** ** The return link *)

(** On a 16-byte aligned stack the link is stored 48 bytes above its base. *)
Lemma link_slot_low s : 0 ≤ s → s mod 16 = 0 → s + 64 < U64_MOD → link_slot s SIZEOF_PTR = s + 48.
Proof.
  intros H0 Hal Hmax. unfold link_slot, SIZEOF_PTR.
  rewrite (u64_small (s + 8 * 8)), (u64_small (s + 8 * 8 - 8)) by lia.
  rewrite (u64_land_mask _ 4) by lia. change (2 ^ 4) with 16.
  replace (s + 8 * 8 - 8) with (s + 8 + 3 * 16) by lia. rewrite Z.mod_add by lia.
  replace ((s + 8) mod 16) with 8 by (rewrite Z.add_mod, Hal by lia; done).
  rewrite !u64_small; lia || (rewrite u64_small; lia).
Qed.

(** C31: Linking a freshly allocated context succeeds and keeps the context and
    stack pools and all other contexts intact; since [ss_size] is the size of a
    pointer, the link lands 48 bytes above the base of the 2048-byte stack. *)
Theorem context_link_safe m Pc Ps c Fc s Fs live link :
  ctx_rep m Pc Ps (c :: Fc) (s :: Fs) live → 0 ≤ s → s mod 16 = 0 → s + 64 < U64_MOD →
  ∃ m1 Pc' Ps' m2,
    context_alloc m Pc Ps = Some (0, c, m1, Pc', Ps') ∧
    set_context_link m1 c link = Some m2 ∧
    rd m2 c UC_LINK = link ∧ rd m2 s 48 = link ∧
    ctx_rep m2 Pc' Ps' Fc Fs ((c, s) :: live).
Proof.
  intros Hrep H0 Hal Hmax.
  destruct (context_alloc_ok m Pc Ps c Fc s Fs live Hrep) as (m1 & Pc' & Ps' & E & Hrep' & Hs).
  assert (rd m1 c UC_SS_SIZE = SIZEOF_PTR) as Hsz by (by eapply context_alloc_size).
  pose proof Hrep' as [HFc HFs Hl Hnd]. destruct (Hl c s) as (Hc & Hs0 & Hsp); [set_solver|].
  exists m1, Pc', Ps'. unfold set_context_link. heap_step. rewrite Hsp, Hsz, link_slot_low, rd_insert_eq by done.
  heap_step. replace (s + 48 - s) with 48 by lia. eexists. split_and!; [done|done| | |].
  - rewrite rd_insert_ne by (right; solve_off). by rewrite rd_insert_eq.
  - by rewrite rd_insert_eq.
  - eapply ctx_rep_poke; [done|set_solver].
Qed.

(** Two contexts at 4096 and 4160, two stacks at 8192 and 10240. *)
Definition ex_ctx_heap : heap := <[(8192, HDR_NEXT) := 10240]> ex_heap.
Definition ex_stacks : pool := (ex_ds <| ds_chunk_head := 8192 |> <| ds_buf := 8192 |>, ex_pool.2).

Lemma ex_ctx_rep : ctx_rep ex_ctx_heap ex_pool ex_stacks [4096; 4160] [8192; 10240] [].
Proof.
  split.
  - exists [], [], [[4096; 4160]]. split; [|done]. split; try done; simpl.
    apply (bool_decide_unpack _). by vm_compute.
  - exists [], [], [[8192; 10240]]. split; [|done]. split; try done; simpl.
    apply (bool_decide_unpack _). by vm_compute.
  - by intros c s ?%elem_of_nil.
  - apply (bool_decide_unpack _). by vm_compute.
Defined.

Lemma context_link_safe_witness :
  ∃ m1 Pc' Ps' m2,
    context_alloc ex_ctx_heap ex_pool ex_stacks = Some (0, 4096, m1, Pc', Ps') ∧
    set_context_link m1 4096 77 = Some m2 ∧
    rd m2 4096 UC_LINK = 77 ∧ rd m2 8192 48 = 77 ∧
    ctx_rep m2 Pc' Ps' [4160] [10240] [(4096, 8192)].
Proof.
  apply (context_link_safe ex_ctx_heap ex_pool ex_stacks 4096 [4160] 8192 [10240] [] 77).
  - apply ex_ctx_rep.
  - lia.
  - done.
  - by vm_compute.
Defined.
