(* ===== verification/Dispatcher.v ===== *)
(** * The dispatcher core (dp/core/dispatcher.c)

    The state of the dispatcher: the shared store with the four pools, the task
    queues and the returned-buffer stack, the mailboxes it shares with the
    workers and the networker, and its own arrays.  Each handler is a
    computation that updates this state; it fails where the C code would
    dereference NULL or leave an array.

    [disp_rep] relates a state to the lists it represents.  The lemmas show what
    each handler does to these lists. *)

From S2P Require Import Prelude Stddef Heap Mempool Float Dispatch Context.
Local Open Scope Z_scope.

(** ** State *)

Record worker_response := mk_worker_response {
  wr_flag : Z;
  wr_rnbl : ptr;
  wr_mbuf : ptr;
  wr_timestamp : Z;
  wr_type : Z;
  wr_category : Z;
}.

Record dispatcher_request := mk_dispatcher_request {
  dr_flag : Z;
  dr_rnbl : ptr;
  dr_mbuf : ptr;
  dr_type : Z;
  dr_category : Z;
  dr_timestamp : Z;
  dr_dispatcher_cy : Z;
}.

Record networker_pointers_t := mk_networker_pointers_t {
  np_cnt : Z;
  np_free_cnt : Z;
  np_types : list Z;
  np_pkts : list ptr;
}.

(** [w_ipis] records the interrupts sent, last first: vector and destination. *)
Record world := mk_world {
  w_mem : heap;
  w_tasks : pool;
  w_mcells : pool;
  w_ctxs : pool;
  w_stacks : pool;
  w_tskq : list task_queue;
  w_mqueue : ptr;
  w_resp : list worker_response;
  w_req : list dispatcher_request;
  w_net : networker_pointers_t;
  w_timestamps : list Z;
  w_preempt_check : list bool;
  w_ipis : list (Z * Z);
}.

#[export] Instance eta_worker_response : Settable worker_response :=
  λ r, mk_worker_response (wr_flag r) (wr_rnbl r) (wr_mbuf r) (wr_timestamp r) (wr_type r) (wr_category r).
#[export] Instance eta_dispatcher_request : Settable dispatcher_request :=
  λ r, mk_dispatcher_request (dr_flag r) (dr_rnbl r) (dr_mbuf r) (dr_type r) (dr_category r)
         (dr_timestamp r) (dr_dispatcher_cy r).
#[export] Instance eta_networker_pointers_t : Settable networker_pointers_t :=
  λ r, mk_networker_pointers_t (np_cnt r) (np_free_cnt r) (np_types r) (np_pkts r).
#[export] Instance eta_world : Settable world :=
  λ w, mk_world (w_mem w) (w_tasks w) (w_mcells w) (w_ctxs w) (w_stacks w) (w_tskq w) (w_mqueue w)
         (w_resp w) (w_req w) (w_net w) (w_timestamps w) (w_preempt_check w) (w_ipis w).

(** ** Access to the arrays and the operations of the other components *)

Definition arr_get {A} (f : world → list A) (i : nat) : ST world A :=
  λ w, a ← f w !! i; Some (a, w).

(** An assignment to element [i]; outside the array it fails. *)
Definition arr_set {A} (l : list A) (i : nat) (a : A) : option (list A) :=
  if decide (i < length l)%nat then Some (<[i := a]> l) else None.

Definition set_resp (i : nat) (f : worker_response → worker_response) : ST world unit :=
  λ w, r ← w_resp w !! i; Some (tt, w <| w_resp ::= <[i := f r]> |>).
Definition set_req (i : nat) (f : dispatcher_request → dispatcher_request) : ST world unit :=
  λ w, r ← w_req w !! i; Some (tt, w <| w_req ::= <[i := f r]> |>).
Definition set_preempt_check (i : nat) (b : bool) : ST world unit :=
  λ w, l ← arr_set (w_preempt_check w) i b; Some (tt, w <| w_preempt_check := l |>).
Definition set_timestamp (i : nat) (t : Z) : ST world unit :=
  λ w, l ← arr_set (w_timestamps w) i t; Some (tt, w <| w_timestamps := l |>).

Definition do_context_alloc : ST world (Z * ptr) :=
  λ w, '(ret, c, m, Pc, Ps) ← context_alloc (w_mem w) (w_ctxs w) (w_stacks w);
       Some ((ret, c), w <| w_mem := m |> <| w_ctxs := Pc |> <| w_stacks := Ps |>).
Definition do_context_free (c : ptr) : ST world unit :=
  λ w, '(m, Pc, Ps) ← context_free (w_mem w) (w_ctxs w) (w_stacks w) c;
       Some (tt, w <| w_mem := m |> <| w_ctxs := Pc |> <| w_stacks := Ps |>).
Definition do_mbuf_enqueue (buf : ptr) : ST world unit :=
  λ w, '(m, P, mq) ← mbuf_enqueue (w_mem w) (w_mcells w) (w_mqueue w) buf;
       Some (tt, w <| w_mem := m |> <| w_mcells := P |> <| w_mqueue := mq |>).
Definition do_mbuf_dequeue : ST world ptr :=
  λ w, '(buf, m, P, mq) ← mbuf_dequeue (w_mem w) (w_mcells w) (w_mqueue w);
       Some (buf, w <| w_mem := m |> <| w_mcells := P |> <| w_mqueue := mq |>).
Definition do_tskq_enqueue_tail (type : Z) (t : task) : ST world unit :=
  λ w, tq ← w_tskq w !! Z.to_nat type;
       '(m, P, tq) ← tskq_enqueue_tail (w_mem w) (w_tasks w) tq t;
       Some (tt, w <| w_mem := m |> <| w_tasks := P |> <| w_tskq ::= <[Z.to_nat type := tq]> |>).
Definition do_smart_dequeue (cfg : cfg_params) (cur_time : Z) : ST world (option task) :=
  λ w, '(r, m, P, tqs) ← smart_tskq_dequeue cfg (w_mem w) (w_tasks w) (w_tskq w) cur_time;
       Some (r, w <| w_mem := m |> <| w_tasks := P |> <| w_tskq := tqs |>).

(** ** Handlers *)

Definition PREEMPT_VECTOR : Z := 0xf2.
Definition PREEMPTION_DELAY : Z := 5000.

Definition timestamp_init (num_workers : Z) : ST world unit :=
  st_for (Z.to_nat num_workers) 0 (λ i, set_timestamp i MAX_UINT64).

Definition preempt_check_init (num_workers : Z) : ST world unit :=
  st_for (Z.to_nat num_workers) 0 (λ i, set_preempt_check i false).

Definition handle_finished (i : nat) : ST world unit :=
  r ← arr_get w_resp i;
  do_context_free (wr_rnbl r);;
  do_mbuf_enqueue (wr_mbuf r);;
  set_preempt_check i false;;
  set_resp i (λ r, r <| wr_flag := PROCESSED |>).

Definition handle_preempted (i : nat) : ST world unit :=
  r ← arr_get w_resp i;
  do_tskq_enqueue_tail (wr_type r)
    (mk_task (wr_rnbl r) (wr_mbuf r) (wr_type r) (wr_category r) (wr_timestamp r));;
  set_preempt_check i false;;
  set_resp i (λ r, r <| wr_flag := PROCESSED |>).

Definition dispatch_request (cfg : cfg_params) (i : nat) (cur_time : Z) : ST world unit :=
  o ← do_smart_dequeue cfg cur_time;
  match o with
  | None => mret ()
  | Some t =>
      set_resp i (λ r, r <| wr_flag := RUNNING |>);;
      set_req i (λ r, r <| dr_rnbl := t_runnable t |>
                        <| dr_mbuf := t_mbuf t |>
                        <| dr_type := t_type t |>
                        <| dr_category := t_category t |>
                        <| dr_timestamp := t_timestamp t |>
                        <| dr_dispatcher_cy :=
                             if t_category t =? PACKET then u64 (cur_time - t_timestamp t) else 0 |>);;
      set_timestamp i cur_time;;
      set_preempt_check i true;;
      set_req i (λ r, r <| dr_flag := ACTIVE |>)
  end.

(** [2.79998], the cycles per nanosecond, as a [double]. *)
Definition f64_2_79998 : float64 := f64_lit 6304994442322421 (-51).

(** [((cur_time - timestamps[i]) / 2.79998) > PREEMPTION_DELAY]. *)
Definition preempt_due (cur_time timestamp : Z) : bool :=
  f64_gt (f64_div (f64_of_Z (u64 (cur_time - timestamp))) f64_2_79998) (f64_of_Z PREEMPTION_DELAY).

Definition preempt_worker (cfg : cfg_params) (i : nat) (cur_time : Z) : ST world unit :=
  check ← arr_get w_preempt_check i;
  timestamp ← arr_get w_timestamps i;
  if check && preempt_due cur_time timestamp then
    set_preempt_check i false;;
    cpu ← st_lift (cfg_cpu cfg !! (i + 2)%nat);
    st_mod (λ w, w <| w_ipis ::= cons (PREEMPT_VECTOR, cpu) |>)
  else mret ().

Definition handle_worker (cfg : cfg_params) (i : nat) (cur_time : Z) : ST world unit :=
  r ← arr_get w_resp i;
  if negb (wr_flag r =? RUNNING) then
    (if wr_flag r =? FINISHED then handle_finished i
     else if wr_flag r =? PREEMPTED then handle_preempted i
     else mret ());;
    dispatch_request cfg i cur_time
  else preempt_worker cfg i cur_time.

(** The body of the loop over the received packets. *)
Definition networker_packet (cur_time : Z) (i : nat) : ST world unit :=
  '(ret, cont) ← do_context_alloc;
  pkt ← arr_get (λ w, np_pkts (w_net w)) i;
  if negb (ret =? 0) then do_mbuf_enqueue pkt else
  type ← arr_get (λ w, np_types (w_net w)) i;
  do_tskq_enqueue_tail type (mk_task cont pkt type PACKET cur_time).

(** The loop that hands buffers back, from slot [i] on, of [n] slots. *)
Fixpoint return_buffers (n i : nat) : ST world unit :=
  match n with
  | O => mret ()
  | S n' =>
      buf ← do_mbuf_dequeue;
      if buf =? NULL then mret () else
      w ← st_get;
      pkts ← st_lift (arr_set (np_pkts (w_net w)) i buf);
      st_mod (λ w, w <| w_net ::= λ p, p <| np_pkts := pkts |>
                                         <| np_free_cnt ::= λ c, u8 (c + 1) |> |>);;
      return_buffers n' (S i)
  end.

#[global] Arguments return_buffers : simpl never.

Definition handle_networker (cur_time : Z) : ST world unit :=
  w ← st_get;
  if negb (np_cnt (w_net w) =? 0) then
    st_for (Z.to_nat (np_cnt (w_net w))) 0 (networker_packet cur_time);;
    return_buffers ETH_RX_MAX_BATCH 0;;
    st_mod (λ w, w <| w_net ::= λ p, p <| np_cnt := 0 |> |>)
  else mret ().

(** One turn of the main loop, at time stamp [cur_time]. *)
Definition dispatch_turn (cfg : cfg_params) (num_cpus cur_time : Z) : ST world unit :=
  st_for (Z.to_nat (num_cpus - 2)) 0 (λ i, handle_worker cfg i cur_time);;
  handle_networker cur_time.

(** What [do_dispatching] does before its loop. *)
Definition dispatch_init (num_cpus : Z) : ST world unit :=
  preempt_check_init (num_cpus - 2);;
  timestamp_init (num_cpus - 2).

(** ** Representation *)

(** The lists a state represents: free elements of each pool, the queued tasks,
    the cells of the buffer stack, the live contexts with their stacks. *)
Record ghost := mk_ghost {
  g_ftask : list ptr;
  g_fmcell : list ptr;
  g_fctx : list ptr;
  g_fstack : list ptr;
  g_queues : list (list (ptr * task));
  g_mq : list (ptr * ptr);
  g_live : list (ptr * ptr);
}.

#[export] Instance eta_ghost : Settable ghost :=
  λ g, mk_ghost (g_ftask g) (g_fmcell g) (g_fctx g) (g_fstack g) (g_queues g) (g_mq g) (g_live g).

(** [Ut], [Um] and [Uc] are the objects of the task, cell, and context and stack
    pools; they do not change.  Outside them the store is that of [m0]. *)
Record disp_rep (Ut Um Uc : list ptr) (m0 : heap) (w : world) (g : ghost) : Prop := {
  dr_queues : queues_rep (w_mem w) (w_tasks w) (w_tskq w) (g_ftask g) (g_queues g);
  dr_mcells : pool_rep (w_mem w) (w_mcells w) (g_fmcell g);
  dr_mq : mq_rep (w_mem w) (w_mqueue w) (g_mq g);
  dr_ctx : ctx_rep (w_mem w) (w_ctxs w) (w_stacks w) (g_fctx g) (g_fstack g) (g_live g);
  dr_ut : g_ftask g ++ cells (g_queues g) ≡ₚ Ut;
  dr_um : g_fmcell g ++ (g_mq g).*1 ≡ₚ Um;
  dr_uc : ctx_region (g_fctx g) (g_fstack g) (g_live g) ≡ₚ Uc;
  dr_nodup : NoDup (Ut ++ Um ++ Uc);
  dr_frame : same_outside (Ut ++ Um ++ Uc) m0 (w_mem w);
}.

Section dispatcher.
Context (Ut Um Uc : list ptr) (m0 : heap).

Local Abbreviation rep := (disp_rep Ut Um Uc m0).

Lemma disjoint_regions w g :
  rep w g →
  (∀ x, x ∈ Ut → x ∉ Um) ∧ (∀ x, x ∈ Ut → x ∉ Uc) ∧ (∀ x, x ∈ Um → x ∉ Uc) ∧
  NoDup (g_fmcell g ++ (g_mq g).*1).
Proof.
  intros []. apply NoDup_app in dr_nodup0 as (_ & H1 & H2). apply NoDup_app in H2 as (H2 & H3 & _).
  split_and!; [set_solver..|]. by rewrite dr_um0.
Qed.

(** Rebuilding the representation after one component changed its own region. *)
Lemma rep_tasks w g m' P' tqs' F' ls' :
  rep w g → queues_rep m' P' tqs' F' ls' → F' ++ cells ls' ≡ₚ Ut → same_outside Ut (w_mem w) m' →
  rep (w <| w_mem := m' |> <| w_tasks := P' |> <| w_tskq := tqs' |>)
      (g <| g_ftask := F' |> <| g_queues := ls' |>).
Proof.
  intros Hrep Hq Hp Hs. destruct (disjoint_regions w g Hrep) as (H1 & H2 & H3 & _).
  destruct Hrep. split; rsimpl; try done.
  - eapply pool_rep_frame; [done..|]. intros x Hx Hx'. apply (H1 x); [done|]. rewrite <-dr_um0. set_solver.
  - eapply mq_frame; [done| |done]. intros x Hx Hx'. apply (H1 x); [done|]. rewrite <-dr_um0. set_solver.
  - eapply ctx_rep_frame; [done..|]. intros x Hx Hx'. apply (H2 x); [done|]. by rewrite <-dr_uc0.
  - eapply same_outside_trans; [done|]. eapply same_outside_weaken; [exact Hs|set_solver].
Qed.

Lemma rep_mcells w g m' P' mq' F' l' :
  rep w g → pool_rep m' P' F' → mq_rep m' mq' l' → F' ++ l'.*1 ≡ₚ Um → same_outside Um (w_mem w) m' →
  rep (w <| w_mem := m' |> <| w_mcells := P' |> <| w_mqueue := mq' |>)
      (g <| g_fmcell := F' |> <| g_mq := l' |>).
Proof.
  intros Hrep HF Hq Hp Hs. destruct (disjoint_regions w g Hrep) as (H1 & H2 & H3 & _).
  destruct Hrep. split; rsimpl; try done.
  - eapply queues_rep_frame; [done| |done]. intros x Hx. apply H1. by rewrite <-dr_ut0.
  - eapply ctx_rep_frame; [done..|]. intros x Hx Hx'. apply (H3 x); [done|]. by rewrite <-dr_uc0.
  - eapply same_outside_trans; [done|]. eapply same_outside_weaken; [exact Hs|set_solver].
Qed.

Lemma rep_ctxs w g m' Pc' Ps' Fc' Fs' l' :
  rep w g → ctx_rep m' Pc' Ps' Fc' Fs' l' → ctx_region Fc' Fs' l' ≡ₚ Uc → same_outside Uc (w_mem w) m' →
  rep (w <| w_mem := m' |> <| w_ctxs := Pc' |> <| w_stacks := Ps' |>)
      (g <| g_fctx := Fc' |> <| g_fstack := Fs' |> <| g_live := l' |>).
Proof.
  intros Hrep HF Hp Hs. destruct (disjoint_regions w g Hrep) as (H1 & H2 & H3 & _).
  destruct Hrep. split; rsimpl; try done.
  - eapply queues_rep_frame; [done| |done]. intros x Hx. apply H2. by rewrite <-dr_ut0.
  - eapply pool_rep_frame; [done..|]. intros x Hx. apply H3. rewrite <-dr_um0. set_solver.
  - eapply mq_frame; [done| |done]. intros x Hx. apply H3. rewrite <-dr_um0. set_solver.
  - eapply same_outside_trans; [done|]. eapply same_outside_weaken; [exact Hs|set_solver].
Qed.

(** Assignments to the arrays do not touch what is represented. *)
Lemma rep_arrays w w' g :
  rep w g → w_mem w' = w_mem w → w_tasks w' = w_tasks w → w_mcells w' = w_mcells w →
  w_ctxs w' = w_ctxs w → w_stacks w' = w_stacks w → w_tskq w' = w_tskq w → w_mqueue w' = w_mqueue w →
  rep w' g.
Proof. intros [] E1 E2 E3 E4 E5 E6 E7. split; rewrite ?E1; congruence || done. Qed.

(** The mailboxes and the dispatcher's arrays are as before. *)
Record same_arrays (w w' : world) : Prop := {
  sa_resp : w_resp w' = w_resp w;
  sa_req : w_req w' = w_req w;
  sa_net : w_net w' = w_net w;
  sa_timestamps : w_timestamps w' = w_timestamps w;
  sa_check : w_preempt_check w' = w_preempt_check w;
  sa_ipis : w_ipis w' = w_ipis w;
}.

Lemma same_arrays_trans w1 w2 w3 : same_arrays w1 w2 → same_arrays w2 w3 → same_arrays w1 w3.
Proof. intros [] []. split; congruence. Qed.

(** *** The operations of the other components *)

Lemma do_mbuf_enqueue_null w : do_mbuf_enqueue NULL w = Some (tt, w).
Proof. unfold do_mbuf_enqueue, mbuf_enqueue. simpl. by destruct w. Qed.

Lemma do_mbuf_enqueue_ok w g x F b :
  rep w g → g_fmcell g = x :: F → b ≠ NULL →
  ∃ w', do_mbuf_enqueue b w = Some (tt, w') ∧ same_arrays w w' ∧
    rep w' (g <| g_fmcell := F |> <| g_mq := (x, b) :: g_mq g |>).
Proof.
  intros Hrep HF Hb. destruct (disjoint_regions w g Hrep) as (_ & _ & _ & Hnd).
  pose proof Hrep as [_ HP Hq _ _ Hum _ _ _]. rewrite HF in *.
  destruct (mbuf_enqueue_ok _ _ F x _ _ b HP Hq) as (m' & P' & E & HP' & Hq' & Hs); [|done|].
  { apply NoDup_app in Hnd as (_ & Hd & _). apply Hd. set_solver. }
  unfold do_mbuf_enqueue. rewrite E. simpl. eexists. split_and!; [done|by split|].
  apply rep_mcells; [done..| |].
  - rewrite <-Hum. csimpl. solve_Permutation.
  - eapply same_outside_weaken; [exact Hs|]. intros y ->%list_elem_of_singleton. rewrite <-Hum. set_solver.
Qed.

Lemma do_mbuf_dequeue_empty w g :
  rep w g → g_mq g = [] → do_mbuf_dequeue w = Some (NULL, w).
Proof.
  intros [_ _ Hq _ _ _ _ _ _] E. rewrite E in Hq. unfold do_mbuf_dequeue.
  rewrite (mbuf_dequeue_empty _ _ _ Hq). simpl. by destruct w.
Qed.

Lemma do_mbuf_dequeue_ok w g x b l :
  rep w g → g_mq g = (x, b) :: l →
  ∃ w', do_mbuf_dequeue w = Some (b, w') ∧ same_arrays w w' ∧ b ≠ NULL ∧
    rep w' (g <| g_fmcell := x :: g_fmcell g |> <| g_mq := l |>).
Proof.
  intros Hrep El. destruct (disjoint_regions w g Hrep) as (_ & _ & _ & Hnd).
  pose proof Hrep as [_ HP Hq _ _ Hum _ _ _]. rewrite El in *.
  destruct (mbuf_dequeue_ok _ _ _ x b _ l HP Hq) as (m' & P' & mq' & E & HP' & Hq' & Hs).
  { intros p Hp Hp'. apply NoDup_app in Hnd as (_ & Hd & _). by apply (Hd p). }
  unfold do_mbuf_dequeue. rewrite E. simpl. eexists. split_and!; [done|by split| |].
  - destruct Hq as [_ Hb _]. by apply (Hb x b), list_elem_of_here.
  - apply rep_mcells; [done..| |].
    + rewrite <-Hum. csimpl. solve_Permutation.
    + eapply same_outside_weaken; [exact Hs|]. intros y Hy. rewrite <-Hum. csimpl. set_solver.
Qed.

Lemma do_context_free_ok w g l1 c s l2 :
  rep w g → g_live g = l1 ++ (c, s) :: l2 →
  ∃ w', do_context_free c w = Some (tt, w') ∧ same_arrays w w' ∧
    rep w' (g <| g_fctx := c :: g_fctx g |> <| g_fstack := s :: g_fstack g |> <| g_live := l1 ++ l2 |>).
Proof.
  intros Hrep El. pose proof Hrep as [_ _ _ Hc _ _ Huc _ _]. rewrite El in *.
  destruct (context_free_ok _ _ _ _ _ _ _ _ _ Hc) as (m' & Pc' & Ps' & E & Hc' & Hs).
  unfold do_context_free. rewrite E. simpl. eexists. split_and!; [done|by split|].
  unfold ctx_region in *. rewrite !fmap_app in Huc. csimpl in Huc.
  apply rep_ctxs; [done..| |].
  - rewrite <-Huc. unfold ctx_region. rewrite !fmap_app. solve_Permutation.
  - eapply same_outside_weaken; [exact Hs|]. intros y Hy. rewrite <-Huc. set_solver.
Qed.

(** Without a context or without a stack there is no allocation. *)
Lemma do_context_alloc_fail w g :
  rep w g → g_fctx g = [] ∨ g_fstack g = [] →
  ∃ c w', do_context_alloc w = Some ((-1, c), w') ∧ same_arrays w w' ∧ rep w' g.
Proof.
  intros Hrep HF. pose proof Hrep as [_ _ _ Hc _ _ Huc _ _]. unfold do_context_alloc.
  destruct (g_fctx g) as [|c Fc] eqn:Ec.
  - rewrite (context_alloc_none _ _ _ _ _ Hc). simpl. eexists _, _. split_and!; [done|by split|].
    by destruct w.
  - destruct HF as [|Es]; [done|]. rewrite Es in *.
    destruct (context_alloc_no_stack _ _ _ _ _ _ Hc) as (m' & Pc' & E & Hc' & Hs). rewrite E. simpl.
    eexists _, _. split_and!; [done|by split|].
    pose proof (rep_ctxs w g m' Pc' (w_stacks w) _ _ _ Hrep Hc' Huc) as Hrep'.
    destruct g; simpl in *; subst. apply Hrep'.
    eapply same_outside_weaken; [exact Hs|]. intros y Hy. rewrite <-Huc. unfold ctx_region. set_solver.
Qed.

Lemma do_context_alloc_ok w g c Fc s Fs :
  rep w g → g_fctx g = c :: Fc → g_fstack g = s :: Fs →
  ∃ w', do_context_alloc w = Some ((0, c), w') ∧ same_arrays w w' ∧
    rep w' (g <| g_fctx := Fc |> <| g_fstack := Fs |> <| g_live := (c, s) :: g_live g |>).
Proof.
  intros Hrep Ec Es. pose proof Hrep as [_ _ _ Hc _ _ Huc _ _]. rewrite Ec, Es in *.
  destruct (context_alloc_ok _ _ _ _ _ _ _ _ Hc) as (m' & Pc' & Ps' & E & Hc' & Hs).
  unfold do_context_alloc. rewrite E. simpl. eexists. split_and!; [done|by split|].
  unfold ctx_region in *. apply rep_ctxs; [done..| |].
  - rewrite <-Huc. unfold ctx_region. csimpl. solve_Permutation.
  - eapply same_outside_weaken; [exact Hs|]. intros y ->%list_elem_of_singleton. rewrite <-Huc. set_solver.
Qed.

Lemma do_enqueue_ok w g j l x F t :
  rep w g → g_queues g !! j = Some l → g_ftask g = x :: F →
  ∃ w', do_tskq_enqueue_tail (Z.of_nat j) t w = Some (tt, w') ∧ same_arrays w w' ∧
    rep w' (g <| g_ftask := F |> <| g_queues := <[j := l ++ [(x, t)]]> (g_queues g) |>).
Proof.
  intros Hrep Hl HF. pose proof Hrep as [Hq _ _ _ Hut _ _ _ _]. rewrite HF in *.
  destruct (Forall2_lookup_r _ _ _ _ _ (qr_queues _ _ _ _ _ Hq) Hl) as (tq & Htq & _).
  destruct (queues_enqueue _ _ _ _ _ _ _ _ _ t Hq Htq Hl) as (m' & P' & tq' & E & Hq' & Hs).
  unfold do_tskq_enqueue_tail. rewrite Nat2Z.id, Htq. simpl. rewrite E. simpl.
  destruct (cells_insert (g_queues g) j l Hl) as (rest & E1 & E2 & _).
  eexists. split_and!; [done|by split|]. apply rep_tasks; [done..| |].
  - rewrite E2, <-Hut, E1, fmap_app. simpl. solve_Permutation.
  - eapply same_outside_weaken; [exact Hs|]. intros y Hy. rewrite <-Hut, E1. set_solver.
Qed.

Lemma do_smart_dequeue_ok cfg w g cur :
  rep w g → (num_ports cfg ≤ length (g_queues g))%nat → (num_ports cfg ≤ length (slos cfg))%nat →
  ∃ mx index, best_below cfg (g_queues g) cur (num_ports cfg) mx index ∧
  match index with
  | None => do_smart_dequeue cfg cur w = Some (None, w)
  | Some i => ∃ x t l w', g_queues g !! i = Some ((x, t) :: l) ∧
      do_smart_dequeue cfg cur w = Some (Some t, w') ∧ same_arrays w w' ∧
      rep w' (g <| g_ftask := x :: g_ftask g |> <| g_queues := <[i := l]> (g_queues g) |>)
  end.
Proof.
  intros Hrep H1 H2. pose proof Hrep as [Hq _ _ _ Hut _ _ _ _].
  pose proof (Forall2_length _ _ _ (qr_queues _ _ _ _ _ Hq)) as Hlen.
  destruct (smart_dequeue_ok cfg _ _ _ _ _ cur Hq) as (mx & index & Hb & Hres); [lia|done|].
  exists mx, index. split; [done|]. unfold do_smart_dequeue. destruct index as [i|].
  - destruct Hres as (x & t & l & tq' & m' & P' & Hl & -> & Hq' & Hs). simpl.
    destruct (cells_insert (g_queues g) i _ Hl) as (rest & E1 & E2 & _). csimpl in E1.
    exists x, t, l. eexists. split_and!; [done|done|by split|]. apply rep_tasks; [done..| |].
    + rewrite E2, <-Hut, E1. solve_Permutation.
    + eapply same_outside_weaken; [exact Hs|]. intros y Hy. rewrite <-Hut, E1. set_solver.
  - rewrite Hres. simpl. by destruct w.
Qed.
End dispatcher.
