(* ===== verification/Bytes.v ===== *)
(** * Byte buffers

    Packet memory is a list of bytes.  Multi-byte fields are read and written
    with the host's byte order, little endian; an access that leaves the buffer
    fails. *)

From S2P Require Import Prelude Stddef.
Local Open Scope Z_scope.

Abbreviation bytes := (list Z).

(** Every element is a byte. *)
Definition bytes_wf (b : bytes) : Prop := Forall (λ x, 0 ≤ x < 256) b.

(** ** Little-endian fields of [n] bytes *)

Fixpoint le_get (n : nat) (b : bytes) (o : nat) : option Z :=
  match n with
  | O => Some 0
  | S n' => x ← b !! o; r ← le_get n' b (S o); Some (x + 256 * r)
  end.

Fixpoint le_put (n : nat) (b : bytes) (o : nat) (v : Z) : option bytes :=
  match n with
  | O => Some b
  | S n' => if decide (o < length b)%nat then le_put n' (<[o := v mod 256]> b) (S o) (v / 256) else None
  end.

Abbreviation get8 := (le_get 1).
Abbreviation get16 := (le_get 2).
Abbreviation get32 := (le_get 4).
Abbreviation get64 := (le_get 8).
Abbreviation put8 := (le_put 1).
Abbreviation put16 := (le_put 2).
Abbreviation put32 := (le_put 4).
Abbreviation put64 := (le_put 8).

#[global] Arguments le_get : simpl never.
#[global] Arguments le_put : simpl never.

Lemma le_get_S n b o : le_get (S n) b o = x ← b !! o; r ← le_get n b (S o); Some (x + 256 * r).
Proof. done. Qed.
Lemma le_put_S n b o v :
  le_put (S n) b o v =
    if decide (o < length b)%nat then le_put n (<[o := v mod 256]> b) (S o) (v / 256) else None.
Proof. done. Qed.

Lemma le_get_some n b o : (o + n ≤ length b)%nat → is_Some (le_get n b o).
Proof.
  revert o. induction n as [|n IH]; intros o Ho; [by eexists|]. rewrite le_get_S.
  destruct (lookup_lt_is_Some_2 b o) as [x ->]; [lia|]. destruct (IH (S o)) as [r ->]; [lia|]. by eexists.
Qed.

Lemma le_get_range n b o v : bytes_wf b → le_get n b o = Some v → 0 ≤ v < 256 ^ Z.of_nat n.
Proof.
  intros Hwf. revert o v. induction n as [|n IH]; intros o v H; [by unfold le_get, le_put in *; simplify_eq|].
  rewrite le_get_S in H. destruct (b !! o) as [x|] eqn:Hx; [|done]. simpl in H.
  destruct (le_get n b (S o)) as [r|] eqn:Hr; [|done]. simplify_eq/=.
  eapply Forall_lookup_1 in Hx; [|done]. apply IH in Hr.
  rewrite Nat2Z.inj_succ, Z.pow_succ_r by lia. simpl in Hx. lia.
Qed.

Lemma le_put_some n b o v : (o + n ≤ length b)%nat → is_Some (le_put n b o v).
Proof.
  revert b o v. induction n as [|n IH]; intros b o v Ho; [by eexists|].
  rewrite le_put_S, decide_True by lia. apply IH. rewrite length_insert. lia.
Qed.

Lemma le_put_length n b o v b' : le_put n b o v = Some b' → length b' = length b.
Proof.
  revert b o v. induction n as [|n IH]; intros b o v H; [by unfold le_get, le_put in *; simplify_eq|].
  rewrite le_put_S in H. case_decide; [|done]. apply IH in H. by rewrite length_insert in H.
Qed.

Lemma le_put_wf n b o v b' : bytes_wf b → le_put n b o v = Some b' → bytes_wf b'.
Proof.
  revert b o v. induction n as [|n IH]; intros b o v Hwf H; [by unfold le_get, le_put in *; simplify_eq|].
  rewrite le_put_S in H. case_decide; [|done]. eapply IH, H. apply Forall_insert; [done|].
  apply Z.mod_pos_bound. lia.
Qed.

(** A store changes the bytes of its field only. *)
Lemma le_put_lookup n b o v b' i :
  le_put n b o v = Some b' → (i < o ∨ o + n ≤ i)%nat → b' !! i = b !! i.
Proof.
  revert b o v. induction n as [|n IH]; intros b o v H Hi; [by unfold le_get, le_put in *; simplify_eq|].
  rewrite le_put_S in H. case_decide; [|done]. apply IH in H; [|lia].
  rewrite H. apply list_lookup_insert_ne. lia.
Qed.

Lemma le_get_ext n b b' o :
  (∀ i, (o ≤ i < o + n)%nat → b' !! i = b !! i) → le_get n b' o = le_get n b o.
Proof.
  revert o. induction n as [|n IH]; intros o H; [done|]. rewrite !le_get_S, (H o) by lia.
  destruct (b !! o); [simpl|done]. rewrite IH; [done|]. intros i Hi. apply H. lia.
Qed.

Lemma le_get_put_ne n k b o o' v b' :
  le_put n b o v = Some b' → (o' + k ≤ o ∨ o + n ≤ o')%nat → le_get k b' o' = le_get k b o'.
Proof. intros H Hd. apply le_get_ext. intros i Hi. eapply le_put_lookup; [done|]. lia. Qed.

Lemma le_get_put_eq n b o v b' :
  le_put n b o v = Some b' → le_get n b' o = Some (v mod 256 ^ Z.of_nat n).
Proof.
  revert b o v. induction n as [|n IH]; intros b o v H.
  - unfold le_get, le_put in *. simplify_eq. simpl. by rewrite Z.mod_1_r.
  - rewrite le_put_S in H. case_decide; [|done]. rewrite le_get_S.
    rewrite (le_put_lookup _ _ _ _ _ o H) by lia. rewrite list_lookup_insert_eq by done. simpl.
    rewrite (IH _ _ _ H). simpl. f_equal.
    rewrite Nat2Z.inj_succ, Z.pow_succ_r by lia. rewrite Z.rem_mul_r by (lia || apply Z.pow_pos_nonneg; lia).
    done.
Qed.

(** ** Network byte order *)

(** The fields of a packet as a protocol defines them: most significant byte
    first. *)
Definition byte_at (b : bytes) (o : nat) : Z := default 0 (b !! o).
Definition be16 (b : bytes) (o : nat) : Z := byte_at b o * 256 + byte_at b (o + 1).
Definition be32 (b : bytes) (o : nat) : Z :=
  byte_at b o * 2 ^ 24 + byte_at b (o + 1) * 2 ^ 16 + byte_at b (o + 2) * 2 ^ 8 + byte_at b (o + 3).

Lemma byte_at_range b o : bytes_wf b → 0 ≤ byte_at b o < 256.
Proof.
  intros Hwf. unfold byte_at. destruct (b !! o) as [x|] eqn:E; simpl; [|lia].
  by eapply Forall_lookup_1 in E; [|done].
Qed.

Lemma be16_range b o : bytes_wf b → 0 ≤ be16 b o < 65536.
Proof. intros Hwf. unfold be16. pose proof (byte_at_range b o Hwf). pose proof (byte_at_range b (o + 1) Hwf). lia. Qed.

Lemma byte_at_lookup b o : (o < length b)%nat → b !! o = Some (byte_at b o).
Proof. intros Ho. unfold byte_at. by destruct (lookup_lt_is_Some_2 b o Ho) as [x ->]. Qed.

Lemma get8_byte b o : (o < length b)%nat → get8 b o = Some (byte_at b o).
Proof. intros Ho. rewrite le_get_S, (byte_at_lookup b o Ho). unfold le_get. simpl. f_equal. lia. Qed.

Lemma get16_ntoh b o :
  bytes_wf b → (o + 2 ≤ length b)%nat → ∃ v, get16 b o = Some v ∧ ntoh16 v = be16 b o ∧ 0 ≤ v < 65536.
Proof.
  intros Hwf Ho. rewrite !le_get_S, !byte_at_lookup by lia. unfold le_get. simpl. eexists. split; [done|].
  pose proof (byte_at_range b o Hwf). pose proof (byte_at_range b (S o) Hwf). unfold ntoh16, be16.
  replace (o + 1)%nat with (S o) by lia.
  assert (byte_at b o + 256 * (byte_at b (S o) + 256 * 0) = byte_at b o + byte_at b (S o) * 256) as -> by lia.
  split; [|lia]. rewrite bswap16_sum by lia. rewrite Z.mod_add, Z.div_add, Z.mod_small, Z.div_small by lia. lia.
Qed.

Lemma get32_ntoh b o :
  bytes_wf b → (o + 4 ≤ length b)%nat → ∃ v, get32 b o = Some v ∧ ntoh32 v = be32 b o ∧ 0 ≤ v < 2 ^ 32.
Proof.
  intros Hwf Ho. rewrite !le_get_S, !byte_at_lookup by lia. unfold le_get. simpl. eexists. split; [done|].
  pose proof (byte_at_range b o Hwf). pose proof (byte_at_range b (S o) Hwf).
  pose proof (byte_at_range b (S (S o)) Hwf). pose proof (byte_at_range b (S (S (S o))) Hwf). unfold ntoh32, be32.
  replace (o + 1)%nat with (S o) by lia. replace (o + 2)%nat with (S (S o)) by lia.
  replace (o + 3)%nat with (S (S (S o))) by lia.
  set (x0 := byte_at b o) in *. set (x1 := byte_at b (S o)) in *.
  set (x2 := byte_at b (S (S o))) in *. set (x3 := byte_at b (S (S (S o)))) in *.
  set (v := x0 + _). assert (v = x0 + 256 * x1 + 2 ^ 16 * x2 + 2 ^ 24 * x3) as Ev by lia.
  split; [|lia]. rewrite bswap32_sum by lia.
  rewrite <-(Z.mod_unique_pos v 256 (x1 + 2 ^ 8 * x2 + 2 ^ 16 * x3) x0) by lia.
  rewrite <-(Z.div_unique_pos v (2 ^ 8) (x1 + 2 ^ 8 * x2 + 2 ^ 16 * x3) x0) by lia.
  rewrite <-(Z.div_unique_pos v (2 ^ 16) (x2 + 2 ^ 8 * x3) (x0 + 2 ^ 8 * x1)) by lia.
  rewrite <-(Z.div_unique_pos v (2 ^ 24) x3 (x0 + 2 ^ 8 * x1 + 2 ^ 16 * x2)) by lia.
  rewrite <-(Z.mod_unique_pos (x1 + 2 ^ 8 * x2 + 2 ^ 16 * x3) 256 (x2 + 2 ^ 8 * x3) x1) by lia.
  rewrite <-(Z.mod_unique_pos (x2 + 2 ^ 8 * x3) 256 x3 x2) by lia. lia.
Qed.
