(* ===== verification/ByteMem.v ===== *)
(** * Byte-addressed memory

    A map from addresses to bytes; memory never written reads 0.  Little-endian
    access, byte strings in memory, and [memcpy]. *)

From S2P Require Import Prelude.
Local Open Scope Z_scope.

Definition rdb (m : gmap Z Z) (a : Z) : Z := default 0 (m !! a) mod 256.

(** Little-endian access to [n] bytes. *)
Fixpoint ldb (n : nat) (m : gmap Z Z) (a : Z) : Z :=
  match n with O => 0 | S n' => rdb m a + 256 * ldb n' m (a + 1) end.
Fixpoint stb (n : nat) (m : gmap Z Z) (a v : Z) : gmap Z Z :=
  match n with O => m | S n' => stb n' (<[a := v mod 256]> m) (a + 1) (v / 256) end.

(** The [n] bytes at [a], storing bytes there, and copying. *)
Fixpoint bytes_at (m : gmap Z Z) (a : Z) (n : nat) : list Z :=
  match n with O => [] | S n' => rdb m a :: bytes_at m (a + 1) n' end.
Fixpoint put_bytes (m : gmap Z Z) (a : Z) (l : list Z) : gmap Z Z :=
  match l with [] => m | b :: l' => put_bytes (<[a := b]> m) (a + 1) l' end.
Definition memcpy (m : gmap Z Z) (dst src n : Z) : gmap Z Z := put_bytes m dst (bytes_at m src (Z.to_nat n)).

(** ** Words *)

Lemma rdb_range m a : 0 ≤ rdb m a < 256.
Proof. by apply Z.mod_pos_bound. Qed.

Lemma rdb_stb_out n m a v x : (x < a ∨ a + Z.of_nat n ≤ x) → rdb (stb n m a v) x = rdb m x.
Proof.
  revert m a v. induction n as [|n IH]; intros m a v Hx; [done|]. cbn [stb]. rewrite IH by lia.
  unfold rdb. by rewrite lookup_insert_ne by lia.
Qed.

Lemma ldb_ext n m m' a : (∀ x, a ≤ x < a + Z.of_nat n → rdb m x = rdb m' x) → ldb n m a = ldb n m' a.
Proof.
  revert a. induction n as [|n IH]; intros a H; [done|]. cbn [ldb]. rewrite (H a) by lia.
  rewrite (IH (a + 1)); [done|]. intros x Hx. apply H. lia.
Qed.

Lemma ldb_stb_ne n k m a b v : (b + Z.of_nat n ≤ a ∨ a + Z.of_nat k ≤ b) → ldb n (stb k m a v) b = ldb n m b.
Proof. intros H. apply ldb_ext. intros x Hx. apply rdb_stb_out. lia. Qed.

(** The first [n] of [n + k] bytes stored are the value modulo [256 ^ n]. *)
Lemma ldb_stb_low n k m a v : ldb n (stb (n + k) m a v) a = v mod 256 ^ Z.of_nat n.
Proof.
  revert m a v. induction n as [|n IH]; intros m a v; [by rewrite Z.mod_1_r|].
  cbn [ldb stb Nat.add]. rewrite IH, rdb_stb_out by lia. unfold rdb. rewrite lookup_insert_eq. cbn [default id].
  rewrite Zmod_mod, Nat2Z.inj_succ, Z.pow_succ_r by lia. rewrite Z.rem_mul_r by lia. done.
Qed.

Lemma ldb_range n m a : 0 ≤ ldb n m a < 256 ^ Z.of_nat n.
Proof.
  revert a. induction n as [|n IH]; intros a; [done|]. cbn [ldb]. rewrite Nat2Z.inj_succ, Z.pow_succ_r by lia.
  pose proof (IH (a + 1)). pose proof (rdb_range m a). lia.
Qed.
(** ** Byte strings *)

Lemma length_bytes_at m a n : length (bytes_at m a n) = n.
Proof. revert a. induction n as [|n IH]; intros a; [done|]. cbn [bytes_at length]. by rewrite IH. Qed.

Lemma bytes_at_ext m m' a n : (∀ x, a ≤ x < a + Z.of_nat n → rdb m' x = rdb m x) → bytes_at m' a n = bytes_at m a n.
Proof.
  revert a. induction n as [|n IH]; intros a H; [done|]. cbn [bytes_at]. rewrite H by lia.
  f_equal. apply IH. intros x Hx. apply H. lia.
Qed.

Lemma bytes_at_app m a n k : bytes_at m a (n + k) = bytes_at m a n ++ bytes_at m (a + Z.of_nat n) k.
Proof.
  revert a. induction n as [|n IH]; intros a; [by rewrite Z.add_0_r|]. cbn [bytes_at Nat.add app]. rewrite IH.
  do 2 f_equal. f_equal. lia.
Qed.

Lemma bytes_at_lookup m a n i : (i < n)%nat → bytes_at m a n !! i = Some (rdb m (a + Z.of_nat i)).
Proof.
  revert a i. induction n as [|n IH]; intros a i Hi; [lia|]. destruct i as [|i]; cbn [bytes_at]; [by rewrite Z.add_0_r|].
  cbn [lookup list_lookup]. rewrite IH by lia. do 2 f_equal. lia.
Qed.

Lemma bytes_at_take m a n k : take k (bytes_at m a n) = bytes_at m a (k `min` n).
Proof.
  revert a k. induction n as [|n IH]; intros a k; [rewrite Nat.min_0_r; cbn [bytes_at]; apply take_nil|]. destruct k as [|k]; [done|].
  cbn [bytes_at take Nat.min]. by rewrite IH.
Qed.

Lemma bytes_at_drop m a n k : drop k (bytes_at m a n) = bytes_at m (a + Z.of_nat k) (n - k).
Proof.
  revert a k. induction n as [|n IH]; intros a k; [apply drop_nil|]. destruct k as [|k]; [by rewrite Z.add_0_r|].
  cbn [bytes_at drop Nat.sub]. rewrite IH. f_equal. lia.
Qed.

Definition is_byte (c : Z) : Prop := 0 ≤ c < 256.

Lemma bytes_at_bytes m a n : Forall is_byte (bytes_at m a n).
Proof. revert a. induction n as [|n IH]; intros a; [by apply Forall_nil|]. apply Forall_cons. split; [apply rdb_range|apply IH]. Qed.

Lemma rdb_put_out m a l x : x < a ∨ a + Z.of_nat (length l) ≤ x → rdb (put_bytes m a l) x = rdb m x.
Proof.
  revert m a. induction l as [|b l IH]; intros m a Hx; [done|]. cbn [put_bytes length] in *. rewrite IH by lia.
  unfold rdb. by rewrite lookup_insert_ne by lia.
Qed.

Lemma bytes_at_put m a l : Forall is_byte l → bytes_at (put_bytes m a l) a (length l) = l.
Proof.
  intros Hl. revert m a. induction Hl as [|b l Hb Hl IH]; intros m a; [done|]. cbn [put_bytes length bytes_at]. rewrite IH.
  f_equal. rewrite rdb_put_out by lia. unfold rdb. rewrite lookup_insert_eq. cbn [default id]. by apply Z.mod_small.
Qed.

Lemma bytes_at_put_out m a l b n :
  b + Z.of_nat n ≤ a ∨ a + Z.of_nat (length l) ≤ b → bytes_at (put_bytes m a l) b n = bytes_at m b n.
Proof. intros H. apply bytes_at_ext. intros x Hx. apply rdb_put_out. lia. Qed.

Lemma rdb_memcpy_out m dst src n x : x < dst ∨ dst + Z.max 0 n ≤ x → rdb (memcpy m dst src n) x = rdb m x.
Proof. intros H. apply rdb_put_out. rewrite length_bytes_at. lia. Qed.

Lemma bytes_at_memcpy m dst src n k : k = Z.to_nat n → bytes_at (memcpy m dst src n) dst k = bytes_at m src k.
Proof.
  intros ->. unfold memcpy. rewrite <- (length_bytes_at m src (Z.to_nat n)) at 2. apply bytes_at_put, bytes_at_bytes.
Qed.
