(* ===== verification/Switch.v ===== *)
(** * The context switch (dp/core/context_fast.S)

    The four routines as lists of the source's instructions, on a machine with
    sixteen registers, the x87 environment, MXCSR and byte-addressed memory.  A
    routine starts with the return address on top of the stack. *)

From S2P Require Import Prelude ByteMem.
Local Open Scope Z_scope.

(** ** The machine *)

Inductive reg := RAX | RBX | RCX | RDX | RSI | RDI | RBP | RSP | R8 | R9 | R10 | R11 | R12 | R13 | R14 | R15.
#[export] Instance reg_eq_dec : EqDecision reg.
Proof. solve_decision. Defined.

(** The environment [fnstenv] stores: control, status and tag word (16 bits
    each), and the last instruction and operand (32 bits each). *)
Record x87 := mk_x87 { fcw : Z; fsw : Z; ftw : Z; fip : Z; fcs : Z; fdp : Z; fds : Z }.

Record cpu := mk_cpu { c_reg : reg → Z; c_rip : Z; c_fpu : x87; c_mxcsr : Z; c_mem : gmap Z Z }.
#[export] Instance eta_cpu : Settable cpu := λ s, mk_cpu (c_reg s) (c_rip s) (c_fpu s) (c_mxcsr s) (c_mem s).

(** Operands are in the order of the source: [MovStore r d b] is [movq %r, d(%b)]. *)
Inductive instr :=
  | MovStore (src : reg) (disp : Z) (base : reg)
  | MovLoad (disp : Z) (base dst : reg)
  | Lea (disp : Z) (base dst : reg)
  | Push (src : reg)
  | Xorl_self (dst : reg)
  | Fnstenv (base : reg)
  | Fldenv (base : reg)
  | Stmxcsr (disp : Z) (base : reg)
  | Ldmxcsr (disp : Z) (base : reg)
  | Ret.

Definition fset (r : reg) (v : Z) (f : reg → Z) : reg → Z := λ x, if decide (x = r) then v else f x.
Definition rset (r : reg) (v : Z) (s : cpu) : cpu := s <| c_reg ::= fset r v |>.
Definition ea (s : cpu) (disp : Z) (base : reg) : Z := u64 (c_reg s base + disp).

(** The upper halves of the first three words are reserved and stored as ones. *)
Definition fnstenv (f : x87) (m : gmap Z Z) (a : Z) : gmap Z Z :=
  let w v := 0xFFFF0000 + v in
  stb 4 (stb 4 (stb 4 (stb 4 (stb 4 (stb 4 (stb 4 m a (w (fcw f))) (a + 4) (w (fsw f))) (a + 8) (w (ftw f))) (a + 12) (fip f)) (a + 16) (fcs f))
    (a + 20) (fdp f)) (a + 24) (fds f).
Definition fldenv (m : gmap Z Z) (a : Z) : x87 :=
  mk_x87 (ldb 2 m a) (ldb 2 m (a + 4)) (ldb 2 m (a + 8)) (ldb 4 m (a + 12)) (ldb 4 m (a + 16)) (ldb 4 m (a + 20)) (ldb 4 m (a + 24)).

(** [fnstenv] masks all exceptions once the environment is stored. *)
Definition fp_mask (f : x87) : x87 := mk_x87 (Z.lor (fcw f) 0x3F) (fsw f) (ftw f) (fip f) (fcs f) (fdp f) (fds f).

Definition exec (i : instr) (s : cpu) : cpu :=
  match i with
  | MovStore src disp base => s <| c_mem ::= λ m, stb 8 m (ea s disp base) (c_reg s src) |>
  | MovLoad disp base dst => rset dst (ldb 8 (c_mem s) (ea s disp base)) s
  | Lea disp base dst => rset dst (ea s disp base) s
  | Push src => let sp := ea s (-8) RSP in (rset RSP sp s) <| c_mem ::= λ m, stb 8 m sp (c_reg s src) |>
  | Xorl_self dst => rset dst 0 s
  | Fnstenv base => s <| c_mem ::= λ m, fnstenv (c_fpu s) m (ea s 0 base) |> <| c_fpu ::= fp_mask |>
  | Fldenv base => s <| c_fpu := fldenv (c_mem s) (ea s 0 base) |>
  | Stmxcsr disp base => s <| c_mem ::= λ m, stb 4 m (ea s disp base) (c_mxcsr s) |>
  | Ldmxcsr disp base => s <| c_mxcsr := ldb 4 (c_mem s) (ea s disp base) |>
  | Ret => (rset RSP (ea s 8 RSP) s) <| c_rip := ldb 8 (c_mem s) (c_reg s RSP) |>
  end.
Fixpoint run (p : list instr) (s : cpu) : cpu := match p with [] => s | i :: p' => run p' (exec i s) end.

(** ** The routines *)

Definition oRBX : Z := 0x80.
Definition oRBP : Z := 0x78.
Definition oR12 : Z := 0x48.
Definition oR13 : Z := 0x50.
Definition oR14 : Z := 0x58.
Definition oR15 : Z := 0x60.
Definition oRDI : Z := 0x68.
Definition oRSI : Z := 0x70.
Definition oRDX : Z := 0x88.
Definition oRCX : Z := 0x98.
Definition oR8 : Z := 0x28.
Definition oR9 : Z := 0x30.
Definition oRIP : Z := 0xa8.
Definition oRSP : Z := 0xa0.
Definition oFPREGSMEM : Z := 0x1a8.
Definition oFPREGS : Z := 0xe0.
Definition oMXCSR : Z := 0x1c0.

Definition swapcontext_fast_to_control : list instr := [
  MovStore RBX oRBX RDI;
  MovStore RBP oRBP RDI;
  MovStore R12 oR12 RDI;
  MovStore R13 oR13 RDI;
  MovStore R14 oR14 RDI;
  MovStore R15 oR15 RDI;
  MovStore RDI oRDI RDI;
  MovStore RSI oRSI RDI;
  MovStore RDX oRDX RDI;
  MovStore RCX oRCX RDI;
  MovStore R8 oR8 RDI;
  MovStore R9 oR9 RDI;
  MovLoad 0 RSP RCX;
  MovStore RCX oRIP RDI;
  Lea 8 RSP RCX;
  MovStore RCX oRSP RDI;
  Lea oFPREGSMEM RDI RCX;
  MovStore RCX oFPREGS RDI;
  Fnstenv RCX;
  Stmxcsr oMXCSR RDI;
  MovLoad oFPREGS RSI RCX;
  MovLoad oRSP RSI RSP;
  MovLoad oRBX RSI RBX;
  MovLoad oRBP RSI RBP;
  MovLoad oR12 RSI R12;
  MovLoad oR13 RSI R13;
  MovLoad oR14 RSI R14;
  MovLoad oR15 RSI R15;
  MovLoad oRIP RSI RCX;
  Push RCX;
  MovLoad oRDI RSI RDI;
  MovLoad oRDX RSI RDX;
  MovLoad oRCX RSI RCX;
  MovLoad oR8 RSI R8;
  MovLoad oR9 RSI R9;
  MovLoad oRSI RSI RSI;
  Xorl_self RAX;
  Ret].

Definition swapcontext_fast : list instr := [
  MovStore RBX oRBX RDI;
  MovStore RBP oRBP RDI;
  MovStore R12 oR12 RDI;
  MovStore R13 oR13 RDI;
  MovStore R14 oR14 RDI;
  MovStore R15 oR15 RDI;
  MovStore RDI oRDI RDI;
  MovStore RSI oRSI RDI;
  MovStore RDX oRDX RDI;
  MovStore RCX oRCX RDI;
  MovStore R8 oR8 RDI;
  MovStore R9 oR9 RDI;
  MovLoad 0 RSP RCX;
  MovStore RCX oRIP RDI;
  Lea 8 RSP RCX;
  MovStore RCX oRSP RDI;
  Lea oFPREGSMEM RDI RCX;
  MovStore RCX oFPREGS RDI;
  MovLoad oFPREGS RSI RCX;
  Fldenv RCX;
  Ldmxcsr oMXCSR RSI;
  MovLoad oRSP RSI RSP;
  MovLoad oRBX RSI RBX;
  MovLoad oRBP RSI RBP;
  MovLoad oR12 RSI R12;
  MovLoad oR13 RSI R13;
  MovLoad oR14 RSI R14;
  MovLoad oR15 RSI R15;
  MovLoad oRIP RSI RCX;
  Push RCX;
  MovLoad oRDI RSI RDI;
  MovLoad oRDX RSI RDX;
  MovLoad oRCX RSI RCX;
  MovLoad oR8 RSI R8;
  MovLoad oR9 RSI R9;
  MovLoad oRSI RSI RSI;
  Xorl_self RAX;
  Ret].

Definition swapcontext_very_fast : list instr := [
  MovStore RBX oRBX RDI;
  MovStore RBP oRBP RDI;
  MovStore R12 oR12 RDI;
  MovStore R13 oR13 RDI;
  MovStore R14 oR14 RDI;
  MovStore R15 oR15 RDI;
  MovStore RDI oRDI RDI;
  MovStore RSI oRSI RDI;
  MovStore RDX oRDX RDI;
  MovStore RCX oRCX RDI;
  MovStore R8 oR8 RDI;
  MovStore R9 oR9 RDI;
  MovLoad 0 RSP RCX;
  MovStore RCX oRIP RDI;
  Lea 8 RSP RCX;
  MovStore RCX oRSP RDI;
  Lea oFPREGSMEM RDI RCX;
  MovStore RCX oFPREGS RDI;
  MovLoad oFPREGS RSI RCX;
  MovLoad oRSP RSI RSP;
  MovLoad oRBX RSI RBX;
  MovLoad oRBP RSI RBP;
  MovLoad oR12 RSI R12;
  MovLoad oR13 RSI R13;
  MovLoad oR14 RSI R14;
  MovLoad oR15 RSI R15;
  MovLoad oRIP RSI RCX;
  Push RCX;
  MovLoad oRDI RSI RDI;
  MovLoad oRDX RSI RDX;
  MovLoad oRCX RSI RCX;
  MovLoad oR8 RSI R8;
  MovLoad oR9 RSI R9;
  MovLoad oRSI RSI RSI;
  Xorl_self RAX;
  Ret].

Definition getcontext_fast : list instr := [
  MovStore RBX oRBX RDI;
  MovStore RBP oRBP RDI;
  MovStore R12 oR12 RDI;
  MovStore R13 oR13 RDI;
  MovStore R14 oR14 RDI;
  MovStore R15 oR15 RDI;
  MovStore RDI oRDI RDI;
  MovStore RSI oRSI RDI;
  MovStore RDX oRDX RDI;
  MovStore RCX oRCX RDI;
  MovStore R8 oR8 RDI;
  MovStore R9 oR9 RDI;
  MovLoad 0 RSP RCX;
  MovStore RCX oRIP RDI;
  Lea 8 RSP RCX;
  MovStore RCX oRSP RDI;
  Lea oFPREGSMEM RDI RCX;
  MovStore RCX oFPREGS RDI;
  Fnstenv RCX;
  Fldenv RCX;
  Stmxcsr oMXCSR RDI;
  Xorl_self RAX;
  Ret].

(** ** Registers and words *)

Lemma ldb_stb8 m a v : 0 ≤ v < U64_MOD → ldb 8 (stb 8 m a v) a = v.
Proof. intros H. pose proof (ldb_stb_low 8 0 m a v) as E. cbn [Nat.add] in E. rewrite E. apply Z.mod_small. exact H. Qed.
Lemma ldb_stb4 m a v : 0 ≤ v < U32_MOD → ldb 4 (stb 4 m a v) a = v.
Proof. intros H. pose proof (ldb_stb_low 4 0 m a v) as E. cbn [Nat.add] in E. rewrite E. apply Z.mod_small. exact H. Qed.
Lemma ldb_stb_half m a v : 0 ≤ v < U16_MOD → ldb 2 (stb 4 m a (0xFFFF0000 + v)) a = v.
Proof.
  intros H. pose proof (ldb_stb_low 2 2 m a (0xFFFF0000 + v)) as E. cbn [Nat.add] in E. rewrite E.
  change (0xFFFF0000) with (0xFFFF * 256 ^ Z.of_nat 2). rewrite Z.add_comm, Z_mod_plus_full. apply Z.mod_small. exact H.
Qed.

Lemma ldb8_range m a : 0 ≤ ldb 8 m a < U64_MOD.
Proof. exact (ldb_range 8 m a). Qed.

Lemma fset_eq r v f : fset r v f r = v.
Proof. unfold fset. by rewrite decide_True. Qed.
Lemma fset_ne r v f x : x ≠ r → fset r v f x = f x.
Proof. intros H. unfold fset. by rewrite decide_False. Qed.
Lemma c_reg_rset r v s x : c_reg (rset r v s) x = fset r v (c_reg s) x.
Proof. by destruct s. Qed.

(** One equation per instruction, on an explicit state. *)
Section equations.
Context (f : reg → Z) (rip : Z) (fp : x87) (mx : Z) (m : gmap Z Z).
Lemma exec_store r d b : exec (MovStore r d b) (mk_cpu f rip fp mx m) = mk_cpu f rip fp mx (stb 8 m (u64 (f b + d)) (f r)).
Proof. done. Qed.
Lemma exec_load d b r : exec (MovLoad d b r) (mk_cpu f rip fp mx m) = mk_cpu (fset r (ldb 8 m (u64 (f b + d))) f) rip fp mx m.
Proof. done. Qed.
Lemma exec_lea d b r : exec (Lea d b r) (mk_cpu f rip fp mx m) = mk_cpu (fset r (u64 (f b + d)) f) rip fp mx m.
Proof. done. Qed.
Lemma exec_push r :
  exec (Push r) (mk_cpu f rip fp mx m) = mk_cpu (fset RSP (u64 (f RSP + -8)) f) rip fp mx (stb 8 m (u64 (f RSP + -8)) (f r)).
Proof. done. Qed.
Lemma exec_xorl r : exec (Xorl_self r) (mk_cpu f rip fp mx m) = mk_cpu (fset r 0 f) rip fp mx m.
Proof. done. Qed.
Lemma exec_ret : exec Ret (mk_cpu f rip fp mx m) = mk_cpu (fset RSP (u64 (f RSP + 8)) f) (ldb 8 m (f RSP)) fp mx m.
Proof. done. Qed.
Lemma exec_fnstenv b : exec (Fnstenv b) (mk_cpu f rip fp mx m) = mk_cpu f rip (fp_mask fp) mx (fnstenv fp m (u64 (f b + 0))).
Proof. done. Qed.
Lemma exec_fldenv b : exec (Fldenv b) (mk_cpu f rip fp mx m) = mk_cpu f rip (fldenv m (u64 (f b + 0))) mx m.
Proof. done. Qed.
Lemma exec_stmxcsr d b : exec (Stmxcsr d b) (mk_cpu f rip fp mx m) = mk_cpu f rip fp mx (stb 4 m (u64 (f b + d)) mx).
Proof. done. Qed.
Lemma exec_ldmxcsr d b : exec (Ldmxcsr d b) (mk_cpu f rip fp mx m) = mk_cpu f rip fp (ldb 4 m (u64 (f b + d))) m.
Proof. done. Qed.
End equations.
Ltac exec_all :=
  cbn [run];
  repeat first [rewrite exec_store | rewrite exec_load | rewrite exec_lea | rewrite exec_push | rewrite exec_xorl | rewrite exec_ret
    | rewrite exec_fnstenv | rewrite exec_fldenv | rewrite exec_stmxcsr | rewrite exec_ldmxcsr];
  repeat first [rewrite fset_eq | rewrite fset_ne by discriminate].

Lemma run_app p q s : run (p ++ q) s = run q (run p s).
Proof. revert s. induction p as [|i p IH]; intros s; [done|apply IH]. Qed.

(** ** Parked threads *)

(** What a routine keeps of the thread that calls it, and gives back to the
    thread it returns to. *)
Record thread := mk_thread { t_reg : reg → Z; t_rsp : Z; t_rip : Z }.

Definition ctx_regs : list (reg * Z) :=
  [(RBX, oRBX); (RBP, oRBP); (R12, oR12); (R13, oR13); (R14, oR14); (R15, oR15); (RDI, oRDI); (RSI, oRSI); (RDX, oRDX);
   (RCX, oRCX); (R8, oR8); (R9, oR9)].

(** The bytes of a [ucontext_t] the routines use end with MXCSR's. *)
Definition CTX_END : Z := oMXCSR + 4.

Definition parked (m : gmap Z Z) (ctx : Z) (t : thread) : Prop :=
  Forall (λ p, ldb 8 m (ctx + p.2) = t_reg t p.1) ctx_regs ∧ ldb 8 m (ctx + oRIP) = t_rip t ∧
  ldb 8 m (ctx + oRSP) = t_rsp t ∧ ldb 8 m (ctx + oFPREGS) = ctx + oFPREGSMEM.

(** The caller of a routine, as it is once the routine has returned to it. *)
Definition caller (s : cpu) : thread := mk_thread (c_reg s) (c_reg s RSP + 8) (ldb 8 (c_mem s) (c_reg s RSP)).

(** The thread a routine has returned to. *)
Definition runs (s : cpu) (t : thread) : Prop :=
  Forall (λ p, c_reg s p.1 = t_reg t p.1) ctx_regs ∧ c_reg s RSP = t_rsp t ∧ c_rip s = t_rip t ∧ c_reg s RAX = 0.

Definition fp_wf (f : x87) : Prop :=
  (0 ≤ fcw f < U16_MOD ∧ 0 ≤ fsw f < U16_MOD ∧ 0 ≤ ftw f < U16_MOD) ∧
  0 ≤ fip f < U32_MOD ∧ 0 ≤ fcs f < U32_MOD ∧ 0 ≤ fdp f < U32_MOD ∧ 0 ≤ fds f < U32_MOD.
Definition cpu_wf (s : cpu) : Prop :=
  (∀ r, 0 ≤ c_reg s r < U64_MOD) ∧ 0 ≤ c_mxcsr s < U32_MOD ∧ fp_wf (c_fpu s).

(** A context lies in the address space, and the eight bytes at [a] or another
    context are apart from it. *)
Definition ctx_ok (ctx : Z) : Prop := 0 ≤ ctx ∧ ctx + CTX_END ≤ U64_MOD.
Definition slot_apart (ctx a : Z) : Prop := a + 8 ≤ ctx ∨ ctx + CTX_END ≤ a.
Definition ctx_apart (c d : Z) : Prop := c + CTX_END ≤ d ∨ d + CTX_END ≤ c.

Ltac offs := unfold ctx_ok, slot_apart, ctx_apart, CTX_END, oRBX, oRBP, oR12, oR13, oR14, oR15, oRDI, oRSI, oRDX, oRCX, oR8,
  oR9, oRIP, oRSP, oFPREGSMEM, oFPREGS, oMXCSR, U64_MOD in *.

Lemma parked_ext m m' ctx t :
  (∀ x, ctx ≤ x < ctx + oFPREGS + 8 → rdb m' x = rdb m x) → parked m ctx t → parked m' ctx t.
Proof.
  intros H (Hr & Hi & Hs & Hf).
  assert (E : ∀ o, 0 ≤ o ≤ oFPREGS → ldb 8 m' (ctx + o) = ldb 8 m (ctx + o)).
  { intros o Ho. apply ldb_ext. intros x Hx. apply H. offs. lia. }
  split; [|by rewrite !E by (offs; lia)].
  rewrite Forall_forall in *. intros [r o] Hin. rewrite <- (Hr _ Hin). cbn [fst snd]. apply E.
  unfold ctx_regs in Hin. rewrite !elem_of_cons, elem_of_nil in Hin. offs. naive_solver lia.
Qed.

(** ** Saving and restoring, as all routines do *)

Definition save_part : list instr := take 18 swapcontext_very_fast.
Definition restore_part : list instr := drop 19 swapcontext_very_fast.

Definition store_regs (l : list (reg * Z)) : list instr := (λ p, MovStore p.1 p.2 RDI) <$> l.
Definition load_regs (l : list (reg * Z)) : list instr := (λ p, MovLoad p.2 RSI p.1) <$> l.

Definition save_tail : list instr :=
  [MovLoad 0 RSP RCX; MovStore RCX oRIP RDI; Lea 8 RSP RCX; MovStore RCX oRSP RDI; Lea oFPREGSMEM RDI RCX; MovStore RCX oFPREGS RDI].
Lemma save_part_eq : save_part = store_regs ctx_regs ++ save_tail.
Proof. reflexivity. Qed.

Definition regs_before : list (reg * Z) :=
  [(RSP, oRSP); (RBX, oRBX); (RBP, oRBP); (R12, oR12); (R13, oR13); (R14, oR14); (R15, oR15); (RCX, oRIP)].
Definition regs_after : list (reg * Z) := [(RDI, oRDI); (RDX, oRDX); (RCX, oRCX); (R8, oR8); (R9, oR9)].
Lemma restore_part_eq :
  restore_part = load_regs regs_before ++ [Push RCX] ++ load_regs regs_after ++ [MovLoad oRSI RSI RSI; Xorl_self RAX; Ret].
Proof. reflexivity. Qed.

(** Splits a conjunction over a list written out. *)
Ltac each tac := repeat (apply Forall_cons; split; [tac|]); by apply Forall_nil.
Ltac each_field := each ltac:(cbn [fst snd]; lia).

(** The fields the routines use do not overlap. *)
Definition field_apart (p q : reg * Z) : Prop := p.2 + 8 ≤ q.2 ∨ q.2 + 8 ≤ p.2.

Lemma run_store_regs l s ctx :
  c_reg s RDI = ctx → ctx_ok ctx → (∀ r, 0 ≤ c_reg s r < U64_MOD) → Forall (λ p, 0 ≤ p.2 ∧ p.2 + 8 ≤ CTX_END) l →
  ForallOrdPairs field_apart l →
  ∃ m, run (store_regs l) s = s <| c_mem := m |> ∧ Forall (λ p, ldb 8 m (ctx + p.2) = c_reg s p.1) l ∧
    (∀ x, Forall (λ p, x < ctx + p.2 ∨ ctx + p.2 + 8 ≤ x) l → rdb m x = rdb (c_mem s) x).
Proof.
  intros HD Hc Hw. revert s HD Hw. induction l as [|[r o] l IH]; intros s HD Hw Hb Hap.
  { exists (c_mem s). by destruct s. }
  apply Forall_cons in Hb as [Ho Hb]. inversion Hap as [|?? Ha Hap']; subst. cbn [fst snd] in *.
  destruct (IH (exec (MovStore r o RDI) s)) as (m & E & Hl & Hout); [by destruct s..|].
  exists m. assert (Ea : ea s o RDI = c_reg s RDI + o) by (unfold ea; rewrite u64_small; [done|]; offs; lia).
  assert (Em : c_mem (exec (MovStore r o RDI) s) = stb 8 (c_mem s) (c_reg s RDI + o) (c_reg s r))
    by (rewrite <- Ea; by destruct s).
  split; [change (run _ s) with (run (store_regs l) (exec (MovStore r o RDI) s)); rewrite E; by destruct s|].
  split; [apply Forall_cons; split|].
  - cbn [fst snd]. rewrite <- (ldb_stb8 (c_mem s) (c_reg s RDI + o) (c_reg s r)) by auto. rewrite <- Em.
    apply ldb_ext. intros x Hx. apply Hout. eapply Forall_impl; [exact Ha|]. unfold field_apart. cbn [fst snd]. lia.
  - by destruct s.
  - intros x Hx. apply Forall_cons in Hx as [Hx0 Hx]. cbn [fst snd] in Hx0. rewrite Hout by exact Hx. rewrite Em. apply rdb_stb_out. lia.
Qed.

(** Loads through %rsi, which is not one of the registers loaded. *)
Lemma run_load_regs l s ctx (f : reg → Z) :
  c_reg s RSI = ctx → ctx_ok ctx → Forall (λ p, 0 ≤ p.2 ∧ p.2 + 8 ≤ CTX_END) l → NoDup (RSI :: l.*1) →
  Forall (λ p, ldb 8 (c_mem s) (ctx + p.2) = f p.1) l →
  ∃ g, run (load_regs l) s = s <| c_reg := g |> ∧ ∀ r, g r = if decide (r ∈ l.*1) then f r else c_reg s r.
Proof.
  intros HS Hc. revert s HS. induction l as [|[r o] l IH]; intros s HS Hb Hnd Hf.
  { exists (c_reg s). split; [by destruct s|]. intros r. by rewrite decide_False by (apply not_elem_of_nil). }
  apply Forall_cons in Hb as [Ho Hb]. apply Forall_cons in Hf as [Hf0 Hf]. cbn [fst snd fmap list_fmap] in *.
  apply NoDup_cons in Hnd as [Hni Hnd]. apply NoDup_cons in Hnd as [Hnr Hnd].
  assert (Hne : RSI ≠ r ∧ RSI ∉ l.*1) by (rewrite elem_of_cons in Hni; tauto). destruct Hne as [Hne Hnl].
  assert (Ee : exec (MovLoad o RSI r) s = rset r (f r) s).
  { cbn [exec]. unfold ea. rewrite HS, u64_small, Hf0 by (offs; lia). done. }
  destruct (IH (rset r (f r) s)) as (g & E & Hg); [..|by destruct s|].
  { by rewrite c_reg_rset, fset_ne. }
  { done. }
  { by apply NoDup_cons. }
  exists g. split; [change (run _ s) with (run (load_regs l) (exec (MovLoad o RSI r) s)); rewrite Ee, E; by destruct s|].
  intros x. rewrite Hg. destruct (decide (x ∈ l.*1)) as [Hx|Hx].
  - by rewrite decide_True by (by apply elem_of_cons; right).
  - rewrite c_reg_rset. unfold fset. destruct (decide (x = r)) as [->|Hxr].
    + by rewrite decide_True by (by apply elem_of_cons; left).
    + by rewrite decide_False by (rewrite elem_of_cons; tauto).
Qed.

Lemma ctx_regs_apart : Forall (λ p, 0 ≤ p.2 ∧ p.2 + 8 ≤ CTX_END) ctx_regs ∧ ForallOrdPairs field_apart ctx_regs.
Proof.
  unfold ctx_regs, field_apart. offs. split.
  - each_field.
  - repeat (apply FOP_cons; [each_field|]). apply FOP_nil.
Qed.

Lemma save_tail_ok s ctx :
  (∀ r, 0 ≤ c_reg s r < U64_MOD) → c_reg s RDI = ctx → ctx_ok ctx → c_reg s RSP + 8 < U64_MOD →
  let s' := run save_tail s in
  (∀ r, r ≠ RCX → c_reg s' r = c_reg s r) ∧ c_reg s' RCX = ctx + oFPREGSMEM ∧ c_fpu s' = c_fpu s ∧ c_mxcsr s' = c_mxcsr s ∧
  c_mem s' = stb 8 (stb 8 (stb 8 (c_mem s) (ctx + oRIP) (ldb 8 (c_mem s) (c_reg s RSP))) (ctx + oRSP) (c_reg s RSP + 8))
    (ctx + oFPREGS) (ctx + oFPREGSMEM).
Proof.
  intros Hw HD Hc Hsp s'.
  assert (Ei : ∀ o, 0 ≤ o ≤ CTX_END - 4 → u64 (c_reg s RDI + o) = ctx + o).
  { intros o Ho. rewrite HD. apply u64_small. offs. lia. }
  assert (Es : u64 (c_reg s RSP + 0) = c_reg s RSP) by (rewrite Z.add_0_r; apply u64_small; auto).
  assert (E8 : u64 (c_reg s RSP + 8) = c_reg s RSP + 8) by (apply u64_small; pose proof (Hw RSP); lia).
  destruct s as [f rip fp mx m]. cbn [c_reg c_mem] in *.
  subst s'. unfold save_tail. exec_all. rewrite !Ei, Es, E8 by (offs; lia). cbn [c_reg c_fpu c_mxcsr c_mem].
  split; [intros r Hr; by rewrite !fset_ne|]. by rewrite fset_eq.
Qed.

Lemma ctx_regs_room x ctx : x < ctx ∨ ctx + CTX_END ≤ x → Forall (λ p, x < ctx + p.2 ∨ ctx + p.2 + 8 ≤ x) ctx_regs.
Proof.
  intros Hx. eapply Forall_impl; [exact (proj1 ctx_regs_apart)|]. intros [r o] Ho. cbn [fst snd] in *. lia.
Qed.

(** The cells [save_tail] writes are none of the registers'. *)
Lemma ctx_regs_tail :
  Forall (λ p, Forall (λ o, p.2 + 8 ≤ o ∨ o + 8 ≤ p.2) [oRIP; oRSP; oFPREGS]) ctx_regs.
Proof. unfold ctx_regs. offs. each each_field. Qed.

Lemma save_part_ok s ctx :
  (∀ r, 0 ≤ c_reg s r < U64_MOD) → c_reg s RDI = ctx → ctx_ok ctx → c_reg s RSP + 8 < U64_MOD → slot_apart ctx (c_reg s RSP) →
  let s' := run save_part s in
  (∀ r, r ≠ RCX → c_reg s' r = c_reg s r) ∧ c_reg s' RCX = ctx + oFPREGSMEM ∧ c_fpu s' = c_fpu s ∧ c_mxcsr s' = c_mxcsr s ∧
  parked (c_mem s') ctx (caller s) ∧ (∀ x, x < ctx ∨ ctx + CTX_END ≤ x → rdb (c_mem s') x = rdb (c_mem s) x).
Proof.
  intros Hw HD Hc Hsp Hsl. rewrite save_part_eq, run_app. cbv zeta.
  destruct (run_store_regs ctx_regs s ctx) as (m & Em & Hm & Hout); [done..|apply ctx_regs_apart|apply ctx_regs_apart|].
  rewrite Em. set (s1 := s <| c_mem := m |>).
  assert (E1 : c_reg s1 = c_reg s ∧ c_fpu s1 = c_fpu s ∧ c_mxcsr s1 = c_mxcsr s ∧ c_mem s1 = m) by (by destruct s).
  destruct E1 as (Er & Ef & Ex & Emm).
  destruct (save_tail_ok s1 ctx) as (Hr & Hrcx & Hf & Hx & Hmem); [by rewrite ?Er..|].
  rewrite Er, Ef, Ex, Emm in *.
  assert (Hret : ldb 8 m (c_reg s RSP) = ldb 8 (c_mem s) (c_reg s RSP)).
  { apply ldb_ext. intros x Hxx. apply Hout, ctx_regs_room. offs. lia. }
  pose proof (ldb8_range (c_mem s) (c_reg s RSP)). pose proof (Hw RSP). rewrite Hret in Hmem.
  split_and!; [done..| |].
  - rewrite Hmem. unfold parked. cbn [caller t_reg t_rip t_rsp]. split_and!.
    + rewrite Forall_forall in *. intros p Hp. rewrite <- (Hm p Hp).
      pose proof (proj1 (Forall_forall _ _) ctx_regs_tail p Hp) as Ht. rewrite !Forall_cons in Ht.
      rewrite !ldb_stb_ne by lia. done.
    + rewrite !ldb_stb_ne by (offs; lia). by rewrite ldb_stb8.
    + rewrite ldb_stb_ne by (offs; lia). rewrite ldb_stb8 by lia. done.
    + rewrite ldb_stb8 by (offs; lia). done.
  - intros x Hxx. rewrite Hmem, !rdb_stb_out by (offs; lia). apply Hout, ctx_regs_room, Hxx.
Qed.

Lemma restore_part_ok s ctx t :
  c_reg s RSI = ctx → ctx_ok ctx → parked (c_mem s) ctx t → 8 ≤ t_rsp t → slot_apart ctx (t_rsp t - 8) →
  let s' := run restore_part s in
  runs s' t ∧ c_fpu s' = c_fpu s ∧ c_mxcsr s' = c_mxcsr s ∧ c_mem s' = stb 8 (c_mem s) (t_rsp t - 8) (t_rip t).
Proof.
  intros HS Hc Hp Hlo Hsl. pose proof Hp as (Hr & Hi & Hs & _).
  pose proof (ldb8_range (c_mem s) (ctx + oRSP)) as Hhi. rewrite Hs in Hhi.
  pose proof (ldb8_range (c_mem s) (ctx + oRIP)) as Hri. rewrite Hi in Hri.
  rewrite restore_part_eq, !run_app. cbv zeta.
  destruct (run_load_regs regs_before s ctx (λ r, match r with RSP => t_rsp t | RCX => t_rip t | _ => t_reg t r end))
    as (g & Eg & Hg); [done..|unfold regs_before; offs; each_field|by apply (bool_decide_unpack _)| |].
  { unfold ctx_regs in Hr. rewrite !Forall_cons in Hr. unfold regs_before. each ltac:(cbn [fst snd] in *; tauto). }
  rewrite Eg. destruct s as [f rip fp mx m]. cbn [c_reg c_mem c_fpu c_mxcsr] in *.
  change (run [Push RCX] _) with (exec (Push RCX) (mk_cpu g rip fp mx m)). rewrite exec_push.
  assert (Esp : g RSP = t_rsp t) by (rewrite Hg; done). assert (Erc : g RCX = t_rip t) by (rewrite Hg; done).
  assert (Esi : g RSI = f RSI) by (rewrite Hg; done).
  rewrite Esp, Erc, u64_small by lia. change (t_rsp t + -8) with (t_rsp t - 8). set (m2 := stb 8 m (t_rsp t - 8) (t_rip t)).
  assert (Hp2 : parked m2 ctx t).
  { eapply parked_ext; [|exact Hp]. intros x Hx. apply rdb_stb_out. offs. lia. }
  destruct Hp2 as (Hr2 & _). unfold ctx_regs in Hr2. rewrite !Forall_cons in Hr2.
  destruct (run_load_regs regs_after (mk_cpu (fset RSP (t_rsp t - 8) g) rip fp mx m2) ctx (t_reg t))
    as (h & Eh & Hh); [|done|unfold regs_after; offs; each_field|by apply (bool_decide_unpack _)| |].
  { cbn [c_reg]. by rewrite fset_ne, Esi. }
  { unfold regs_after. each ltac:(cbn [fst snd c_mem] in *; tauto). }
  rewrite Eh. change (set _ _ _) with (mk_cpu h rip fp mx m2).
  assert (Hsi : h RSI = ctx) by (rewrite Hh; cbn [c_reg]; by rewrite decide_False, fset_ne, Esi by (by apply (bool_decide_unpack _))).
  assert (Hsp : h RSP = t_rsp t - 8) by (rewrite Hh; cbn [c_reg]; by rewrite decide_False, fset_eq by (by apply (bool_decide_unpack _))).
  exec_all. rewrite Hsi, Hsp, !u64_small by (offs; lia). rewrite Z.sub_add. cbn [c_fpu c_mxcsr c_mem].
  split; [|done]. unfold runs. cbn [c_reg c_rip]. split_and!; [|by rewrite fset_eq|unfold m2; by rewrite ldb_stb8|by rewrite fset_ne, fset_eq].
  unfold ctx_regs. each ltac:(cbn [fst snd] in *;
    repeat first [rewrite fset_eq | rewrite fset_ne by discriminate]; rewrite ?Hh; cbn [c_reg];
    rewrite ?fset_ne, ?Hg by discriminate; first [done | tauto]).
Qed.

(** ** A switch *)

(** A call [p from to] by [s], where the thread to return to has the stack
    pointer [sp]: both contexts and the two return addresses lie apart. *)
Definition switch_ok (s : cpu) (from to sp : Z) : Prop :=
  cpu_wf s ∧ (c_reg s RDI = from ∧ c_reg s RSI = to) ∧ (ctx_ok from ∧ ctx_ok to ∧ ctx_apart from to) ∧
  (c_reg s RSP + 8 < U64_MOD ∧ slot_apart from (c_reg s RSP)) ∧ 8 ≤ sp ∧ slot_apart to (sp - 8) ∧ slot_apart from (sp - 8).

(** What may stand between saving and restoring. *)
Definition middle_ok (mid : list instr) : Prop := ∀ s from to,
  c_reg s RDI = from → c_reg s RSI = to → c_reg s RCX = from + oFPREGSMEM → ctx_ok from →
  (∀ r, r ≠ RCX → c_reg (run mid s) r = c_reg s r) ∧
  (∀ x, x < from + oFPREGSMEM ∨ from + CTX_END ≤ x → rdb (c_mem (run mid s)) x = rdb (c_mem s) x).

Lemma switch_mid mid s from to t :
  middle_ok mid → switch_ok s from to (t_rsp t) → parked (c_mem s) to t →
  let s0 := run save_part s in
  let s1 := run mid s0 in
  let s' := run (save_part ++ mid ++ restore_part) s in
  (c_reg s0 RDI = from ∧ c_reg s0 RSI = to ∧ c_reg s0 RCX = from + oFPREGSMEM ∧ c_fpu s0 = c_fpu s ∧ c_mxcsr s0 = c_mxcsr s ∧
   (∀ x, x < from ∨ from + CTX_END ≤ x → rdb (c_mem s0) x = rdb (c_mem s) x)) ∧
  (runs s' t ∧ c_fpu s' = c_fpu s1 ∧ c_mxcsr s' = c_mxcsr s1 ∧ c_mem s' = stb 8 (c_mem s1) (t_rsp t - 8) (t_rip t)) ∧
  parked (c_mem s') from (caller s) ∧
  (∀ x, x < from ∨ from + CTX_END ≤ x → x < t_rsp t - 8 ∨ t_rsp t ≤ x → rdb (c_mem s') x = rdb (c_mem s) x).
Proof.
  intros Hmid ((Hw & _) & (HD & HS) & (Hcf & Hct & Hap) & (Hsp & Hslf) & Hlo & Hst & Hsf) Hp s0 s1 s'.
  destruct (save_part_ok s from) as (Hr & Hrcx & Hf & Hx & Hpf & Hout); [done..|]. fold s0 in Hr, Hrcx, Hf, Hx, Hpf, Hout.
  assert (Es : s' = run restore_part s1) by (unfold s', s1, s0; rewrite (run_app save_part), (run_app mid); reflexivity). clearbody s' s0.
  assert (HD0 : c_reg s0 RDI = from) by (by rewrite Hr). assert (HS0 : c_reg s0 RSI = to) by (by rewrite Hr).
  destruct (Hmid s0 from to HD0 HS0 Hrcx Hcf) as [Hr1 Hout1]. fold s1 in Hr1, Hout1. clearbody s1.
  destruct (restore_part_ok s1 to t) as (Hrun & Hf' & Hx' & Hm'); [by rewrite Hr1|done| |done..|].
  { eapply parked_ext; [|exact Hp]. intros x Hxx. rewrite Hout1, Hout by (offs; lia). done. }
  cbv zeta in Hrun, Hf', Hx', Hm'. rewrite <- Es in Hrun, Hf', Hx', Hm'. clear Es Hmid.
  split; [done|]. split; [done|]. rewrite Hm'. split.
  - eapply parked_ext; [|exact Hpf]. intros x Hxx. rewrite rdb_stb_out by (offs; lia). apply Hout1. offs. lia.
  - intros x Hx1 Hx2. rewrite rdb_stb_out by lia. rewrite Hout1, Hout by (offs; lia). done.
Qed.

Definition mid_very_fast : list instr := [MovLoad oFPREGS RSI RCX].
Definition mid_fast : list instr := [MovLoad oFPREGS RSI RCX; Fldenv RCX; Ldmxcsr oMXCSR RSI].
Definition mid_to_control : list instr := [Fnstenv RCX; Stmxcsr oMXCSR RDI; MovLoad oFPREGS RSI RCX].
Lemma very_fast_eq : swapcontext_very_fast = save_part ++ mid_very_fast ++ restore_part.
Proof. reflexivity. Qed.
Lemma fast_eq : swapcontext_fast = save_part ++ mid_fast ++ restore_part.
Proof. reflexivity. Qed.
Lemma to_control_eq : swapcontext_fast_to_control = save_part ++ mid_to_control ++ restore_part.
Proof. reflexivity. Qed.

Lemma mid_very_fast_run f rip fp mx m : ∃ v, run mid_very_fast (mk_cpu f rip fp mx m) = mk_cpu (fset RCX v f) rip fp mx m.
Proof. unfold mid_very_fast. exec_all. eauto. Qed.

Lemma mid_fast_run f rip fp mx m to :
  f RSI = to → ∃ v, run mid_fast (mk_cpu f rip fp mx m) =
    mk_cpu (fset RCX v f) rip (fldenv m (u64 (ldb 8 m (u64 (to + oFPREGS)) + 0))) (ldb 4 m (u64 (to + oMXCSR))) m.
Proof.
  intros <-. unfold mid_fast. exec_all. eauto.
Qed.

Lemma mid_to_control_run f rip fp mx m from :
  f RDI = from → ctx_ok from → f RCX = from + oFPREGSMEM →
  ∃ v, run mid_to_control (mk_cpu f rip fp mx m) =
    mk_cpu (fset RCX v f) rip (fp_mask fp) mx (stb 4 (fnstenv fp m (from + oFPREGSMEM)) (from + oMXCSR) mx).
Proof.
  intros HD Hc HR. unfold mid_to_control. exec_all. rewrite HR, HD, !u64_small, Z.add_0_r by (offs; lia). eauto.
Qed.

(** The stores of [fnstenv] stay in their 28 bytes. *)
Lemma rdb_fnstenv_out f m a x : x < a ∨ a + 28 ≤ x → rdb (fnstenv f m a) x = rdb m x.
Proof. intros H. unfold fnstenv. by rewrite !rdb_stb_out by lia. Qed.

Lemma middles_ok : Forall middle_ok [mid_very_fast; mid_fast; mid_to_control].
Proof.
  repeat (apply Forall_cons; split); try by apply Forall_nil.
  all: intros [f rip fp mx m] from to HD HS HR Hc; cbn [c_reg] in HD, HS, HR.
  - destruct (mid_very_fast_run f rip fp mx m) as [v ->]. cbn [c_reg c_mem]. split; [intros; by rewrite fset_ne|done].
  - destruct (mid_fast_run f rip fp mx m to HS) as [v ->]. cbn [c_reg c_mem]. split; [intros; by rewrite fset_ne|done].
  - destruct (mid_to_control_run f rip fp mx m from HD Hc HR) as [v ->]. cbn [c_reg c_mem]. split; [intros; by rewrite fset_ne|].
    intros x Hx. rewrite rdb_stb_out, rdb_fnstenv_out by (offs; lia). done.
Qed.

(** The environment read back, with MXCSR written over its last word. *)
Lemma fldenv_fnstenv f m a v :
  fp_wf f → 0 ≤ v < U32_MOD →
  fldenv (stb 4 (fnstenv f m a) (a + 24) v) a = mk_x87 (fcw f) (fsw f) (ftw f) (fip f) (fcs f) (fdp f) v.
Proof.
  intros ((H1 & H2 & H3) & H4 & H5 & H6 & H7) Hv. unfold fldenv, fnstenv.
  f_equal; repeat (rewrite ldb_stb_ne by lia);
    first [by rewrite ldb_stb_half | by rewrite ldb_stb4].
Qed.

Lemma routine_parts p :
  p ∈ [swapcontext_fast_to_control; swapcontext_fast; swapcontext_very_fast] →
  ∃ mid, p = save_part ++ mid ++ restore_part ∧ middle_ok mid.
Proof.
  pose proof middles_ok as H. rewrite !Forall_cons in H. rewrite !elem_of_cons, elem_of_nil.
  intros [->|[->|[->|[]]]]; [exists mid_to_control|exists mid_fast|exists mid_very_fast].
  all: split; [reflexivity|tauto].
Qed.

(** C14: the three routines swap threads.  Called as [p(from, to)] by one thread
    while another is parked in [to], each of swapcontext_fast_to_control,
    swapcontext_fast and swapcontext_very_fast returns 0 in the parked thread
    with all its saved registers, its stack pointer and its program counter,
    leaves the calling thread parked in [from] as it is after its own call, and
    changes no byte outside [from] and the slot below the resumed stack pointer,
    so that every thread parked elsewhere stays parked. *)
Theorem swapcontext_refines_swap p s from to t :
  p ∈ [swapcontext_fast_to_control; swapcontext_fast; swapcontext_very_fast] →
  switch_ok s from to (t_rsp t) → parked (c_mem s) to t →
  let s' := run p s in
  runs s' t ∧ parked (c_mem s') from (caller s) ∧
  (∀ x, x < from ∨ from + CTX_END ≤ x → x < t_rsp t - 8 ∨ t_rsp t ≤ x → rdb (c_mem s') x = rdb (c_mem s) x) ∧
  (∀ c u, ctx_apart c from → slot_apart c (t_rsp t - 8) → parked (c_mem s) c u → parked (c_mem s') c u).
Proof.
  intros Hin Hok Hp s'. destruct (routine_parts p Hin) as (mid & E & Hmid).
  destruct (switch_mid mid s from to t Hmid Hok Hp) as (_ & (Hrun & _) & Hpf & Hout). cbv zeta in Hrun, Hpf, Hout.
  rewrite <- E in Hrun, Hpf, Hout. fold s' in Hrun, Hpf, Hout. clearbody s'. clear E Hmid Hin.
  split_and!; [exact Hrun|exact Hpf|exact Hout|].
  intros c u Hc Hs Hu. eapply parked_ext; [|exact Hu]. intros x Hx. apply Hout; offs; lia.
Qed.

(** What the request's floating-point state becomes: MXCSR is stored over the
    last word of the environment. *)
Definition fp_resumed (s : cpu) : x87 :=
  let f := c_fpu s in mk_x87 (fcw f) (fsw f) (ftw f) (fip f) (fcs f) (fdp f) (c_mxcsr s).

Lemma to_control_fp s cont main t :
  switch_ok s cont main (t_rsp t) → parked (c_mem s) main t →
  let s1 := run swapcontext_fast_to_control s in
  c_fpu s1 = fp_mask (c_fpu s) ∧ c_mxcsr s1 = c_mxcsr s ∧ parked (c_mem s1) cont (caller s) ∧
  fldenv (c_mem s1) (cont + oFPREGSMEM) = fp_resumed s ∧ ldb 4 (c_mem s1) (cont + oMXCSR) = c_mxcsr s.
Proof.
  intros Hok Hp s1. pose proof middles_ok as Hmid. rewrite !Forall_cons in Hmid. destruct Hmid as (_ & _ & Hmid & _).
  pose proof Hok as ((_ & Hmx & Hfp) & _ & (Hcf & _) & _ & _ & _ & Hsf).
  destruct (switch_mid mid_to_control s cont main t Hmid Hok Hp) as ((HD & _ & HR & Hf & Hx & _) & (_ & Hf' & Hx' & Hm') & Hpf & _).
  cbv zeta in *. rewrite <- to_control_eq in *. fold s1 in Hf', Hx', Hm', Hpf. clearbody s1.
  destruct (run save_part s) as [f rip fp mx m]. cbn [c_reg c_fpu c_mxcsr] in HD, HR, Hf, Hx. subst fp mx.
  destruct (mid_to_control_run f rip (c_fpu s) (c_mxcsr s) m cont HD Hcf HR) as [v E]. rewrite E in Hf', Hx', Hm'.
  cbn [c_fpu c_mxcsr c_mem] in Hf', Hx', Hm'. split_and!; [done..| |].
  - unfold fp_resumed. cbv zeta. rewrite <- (fldenv_fnstenv (c_fpu s) m (cont + oFPREGSMEM) (c_mxcsr s)) by done. rewrite Hm'.
    replace (cont + oFPREGSMEM + 24) with (cont + oMXCSR) by (offs; lia).
    unfold fldenv. f_equal; apply ldb_stb_ne; offs; lia.
  - rewrite Hm', ldb_stb_ne, ldb_stb4 by (first [done | offs; lia]). done.
Qed.

Lemma fast_fp s main cont t :
  switch_ok s main cont (t_rsp t) → parked (c_mem s) cont t →
  let s1 := run swapcontext_fast s in
  c_fpu s1 = fldenv (c_mem s) (cont + oFPREGSMEM) ∧ c_mxcsr s1 = ldb 4 (c_mem s) (cont + oMXCSR).
Proof.
  intros Hok Hp s1. pose proof middles_ok as Hmid. rewrite !Forall_cons in Hmid. destruct Hmid as (_ & Hmid & _).
  pose proof Hok as (_ & _ & (_ & Hct & Hap) & _). pose proof Hp as (_ & _ & _ & Hfm).
  destruct (switch_mid mid_fast s main cont t Hmid Hok Hp) as ((_ & HS & _ & _ & _ & Hout) & (_ & Hf' & Hx' & _) & _).
  cbv zeta in *. rewrite <- fast_eq in *. fold s1 in Hf', Hx'. clearbody s1.
  destruct (run save_part s) as [f rip fp mx m]. cbn [c_reg c_mem] in HS, Hout.
  destruct (mid_fast_run f rip fp mx m cont HS) as [v E]. rewrite E in Hf', Hx'. cbn [c_fpu c_mxcsr] in Hf', Hx'. clear E.
  assert (El : ∀ n o, 0 ≤ o → o + Z.of_nat n ≤ CTX_END → ldb n m (cont + o) = ldb n (c_mem s) (cont + o)).
  { intros n o Ho Hn. apply ldb_ext. intros x Hx. apply Hout. offs. lia. }
  rewrite (u64_small (cont + oFPREGS)) in Hf' by (offs; lia). rewrite (u64_small (cont + _)) in Hx' by (offs; lia). rewrite (El 8%nat) in Hf' by (offs; lia).
  rewrite Hfm, u64_small, Z.add_0_r in Hf' by (offs; lia). rewrite (El 4%nat) in Hx' by (offs; lia).
  split; [|exact Hx']. rewrite Hf'. unfold fldenv. rewrite <- !Z.add_assoc. f_equal; apply El; offs; lia.
Qed.

(** C8: a preempted request resumes where it was.  test_handler leaves the request
    by swapcontext_fast_to_control(cont, main); whatever the worker does then, as
    long as it keeps the bytes of [cont], a later swapcontext_fast(main', cont)
    returns in the request after its own call with its callee-saved and argument
    registers, stack pointer, program counter, MXCSR, x87 control, status and
    tag words.  Only the operand selector of the x87 environment is lost, because MXCSR
    is stored over it, and the worker runs meanwhile with the request's MXCSR and with
    all x87 exceptions masked. *)
Theorem preempted_request_resumes s s2 cont main main' t :
  switch_ok s cont main (t_rsp t) → parked (c_mem s) main t →
  switch_ok s2 main' cont (c_reg s RSP + 8) →
  (∀ x, cont ≤ x < cont + CTX_END → rdb (c_mem s2) x = rdb (c_mem (run swapcontext_fast_to_control s)) x) →
  let s1 := run swapcontext_fast_to_control s in
  let s3 := run swapcontext_fast s2 in
  (c_mxcsr s1 = c_mxcsr s ∧ c_fpu s1 = fp_mask (c_fpu s)) ∧
  runs s3 (caller s) ∧ c_mxcsr s3 = c_mxcsr s ∧ c_fpu s3 = fp_resumed s.
Proof.
  intros Hok Hp Hok2 Hkeep s1 s3. destruct (to_control_fp s cont main t Hok Hp) as (Hf & Hx & Hpc & Hfl & Hmx).
  fold s1 in Hf, Hx, Hpc, Hfl, Hmx, Hkeep. clearbody s1.
  assert (Hp2 : parked (c_mem s2) cont (caller s)).
  { eapply parked_ext; [|exact Hpc]. intros x Hxx. apply Hkeep. offs. lia. }
  destruct (fast_fp s2 main' cont (caller s) Hok2 Hp2) as [Hf3 Hx3].
  destruct (routine_parts swapcontext_fast) as (mid & E & Hmid); [by apply elem_of_cons; right; apply elem_of_cons; left|].
  destruct (switch_mid mid s2 main' cont (caller s) Hmid Hok2 Hp2) as (_ & (Hrun & _) & _). cbv zeta in Hrun.
  rewrite <- E in Hrun. fold s3 in Hrun, Hf3, Hx3. clearbody s3. clear E Hmid.
  assert (El : ∀ n o, 0 ≤ o → o + Z.of_nat n ≤ CTX_END → ldb n (c_mem s2) (cont + o) = ldb n (c_mem s1) (cont + o)).
  { intros n o Ho Hn. apply ldb_ext. intros x Hxx. apply Hkeep. lia. }
  split; [done|]. split; [exact Hrun|]. rewrite Hx3, Hf3, <- Hmx, <- Hfl. split; [apply El; offs; lia|].
  unfold fldenv. rewrite <- !Z.add_assoc. f_equal; apply El; offs; lia.
Qed.

Lemma fldenv_fnstenv_id f m a : fp_wf f → fldenv (fnstenv f m a) a = f.
Proof.
  intros ((H1 & H2 & H3) & H4 & H5 & H6 & H7). destruct f. unfold fldenv, fnstenv. cbn [fcw fsw ftw fip fcs fdp fds] in *.
  f_equal; repeat (rewrite ldb_stb_ne by lia); first [by rewrite ldb_stb_half | by rewrite ldb_stb4].
Qed.

(** getcontext_fast parks the caller in the context and returns 0 to it, with the
    floating-point state as it was: [fldenv] undoes the masking. *)
Lemma getcontext_fast_ok s ctx :
  cpu_wf s → c_reg s RDI = ctx → ctx_ok ctx → c_reg s RSP + 8 < U64_MOD → slot_apart ctx (c_reg s RSP) →
  let s' := run getcontext_fast s in
  parked (c_mem s') ctx (caller s) ∧ ldb 4 (c_mem s') (ctx + oMXCSR) = c_mxcsr s ∧ c_fpu s' = c_fpu s ∧ c_mxcsr s' = c_mxcsr s ∧
  c_rip s' = ldb 8 (c_mem s) (c_reg s RSP) ∧ c_reg s' RSP = c_reg s RSP + 8 ∧ c_reg s' RAX = 0 ∧
  (∀ r, r ∉ [RSP; RAX; RCX] → c_reg s' r = c_reg s r).
Proof.
  intros (Hw & Hmx & Hfp) HD Hc Hsp Hsl s'.
  destruct (save_part_ok s ctx) as (Hr & Hrcx & Hf & Hx & Hp & Hout); [done..|]. cbv zeta in *.
  assert (E : s' = run [Fnstenv RCX; Fldenv RCX; Stmxcsr oMXCSR RDI; Xorl_self RAX; Ret] (run save_part s))
    by (unfold s'; rewrite <- run_app; reflexivity).
  clearbody s'. destruct (run save_part s) as [f rip fp mx m]. cbn [c_reg c_fpu c_mxcsr c_mem] in *.
  assert (HD1 : f RDI = ctx) by (by rewrite Hr). assert (Hs1 : f RSP = c_reg s RSP) by (by rewrite Hr).
  pose proof (Hw RSP). revert E. exec_all. rewrite Hrcx, HD1, Hs1, !u64_small, Z.add_0_r by (offs; lia). intros ->.
  cbn [c_reg c_fpu c_mxcsr c_mem c_rip]. subst fp mx. split_and!.
  - eapply parked_ext; [|exact Hp]. intros x Hxx. rewrite rdb_stb_out, rdb_fnstenv_out by (offs; lia). done.
  - by apply ldb_stb4.
  - by apply fldenv_fnstenv_id.
  - done.
  - apply ldb_ext. intros x Hxx. rewrite rdb_stb_out, rdb_fnstenv_out by (offs; lia). apply Hout. offs. lia.
  - by rewrite fset_eq.
  - by rewrite fset_ne, fset_eq.
  - intros r Hni. rewrite !not_elem_of_cons in Hni. rewrite !fset_ne by tauto. apply Hr. tauto.
Qed.

(** ** A worker and a request *)

(** The worker calls with its context at 0x2000 and its return address at 0x5ff8,
    the request with its context at 0x1000 and its return address at 0x5000. *)
Definition ex_regs (di si sp n : Z) : reg → Z := λ r, match r with RDI => di | RSI => si | RSP => sp | RAX => n | RBX => n + 1 | _ => n + 2 end.
Definition ex_worker (m : gmap Z Z) (sp : Z) : cpu :=
  mk_cpu (ex_regs 0x2000 0x1000 sp 100) 0 (mk_x87 0x37f 0 0xffff 0 0 0 0) 0x1f80 m.
Lemma ex_worker_mem m sp : c_mem (ex_worker m sp) = m.
Proof. done. Qed.
Definition ex_request (m : gmap Z Z) : cpu :=
  mk_cpu (ex_regs 0x1000 0x2000 0x5000 200) 0 (mk_x87 0x27f 1 0xffff 2 3 4 5) 0x9fc0 m.
Definition ex_w0 : cpu := ex_worker (stb 8 (stb 8 ∅ 0x5ff8 0x401000) 0x5000 0x402000) 0x5ff8.
Definition ex_m0 : gmap Z Z := c_mem (run save_part ex_w0).

Lemma ex_parked : parked ex_m0 0x2000 (caller ex_w0).
Proof. unfold parked, ctx_regs. split_and!; [each ltac:(by vm_compute)|by vm_compute..]. Qed.

Ltac ex_switch_ok :=
  unfold switch_ok, cpu_wf, fp_wf, U16_MOD, U32_MOD; offs; split_and!;
  first [by left; vm_compute | by right; vm_compute | intros []; by vm_compute | by vm_compute].

Lemma swapcontext_refines_swap_witness :
  let s' := run swapcontext_fast_to_control (ex_request ex_m0) in
  runs s' (caller ex_w0) ∧ c_rip s' = 0x401000 ∧ c_reg s' RSP = 0x6000.
Proof.
  cbv zeta. split; [|split; by vm_compute].
  refine (proj1 (swapcontext_refines_swap swapcontext_fast_to_control (ex_request ex_m0) 0x1000 0x2000 (caller ex_w0) _ _ ex_parked)).
  - by apply elem_of_cons; left.
  - ex_switch_ok.
Defined.

Lemma preempted_request_resumes_witness :
  let s1 := run swapcontext_fast_to_control (ex_request ex_m0) in
  let s3 := run swapcontext_fast (ex_worker (c_mem s1) 0x5ff0) in
  runs s3 (caller (ex_request ex_m0)) ∧ c_rip s3 = 0x402000 ∧ c_reg s3 RSP = 0x5008 ∧ c_reg s3 RBX = 201 ∧ c_mxcsr s3 = 0x9fc0.
Proof.
  cbv zeta. split; [|split_and!; by vm_compute].
  refine (proj1 (proj2 (preempted_request_resumes (ex_request ex_m0)
    (ex_worker (c_mem (run swapcontext_fast_to_control (ex_request ex_m0))) 0x5ff0) 0x1000 0x2000 0x2000 (caller ex_w0) _ ex_parked _ _))).
  - ex_switch_ok.
  - ex_switch_ok.
  - intros x _. by rewrite ex_worker_mem.
Defined.
