(* ===== verification/IpAddr.v ===== *)
(** * IPv4 addresses (dp/lwip/ip4_addr.c)

    Broadcast and netmask tests, and the conversion between an address and its
    dotted text.  A string is the list of its bytes; the terminating NUL is what
    is read past the end. *)

From S2P Require Import Prelude Stddef ByteMem.
Local Open Scope Z_scope.

(** ** Broadcast and netmask tests *)

Definition IPADDR_NONE : Z := 0xffffffff.
Definition IPADDR_ANY : Z := 0x00000000.
Definition IPADDR_BROADCAST : Z := 0xffffffff.
Definition NETIF_FLAG_BROADCAST : Z := 0x02.

(** The fields of [struct netif] the test reads. *)
Record netif := mk_netif { ip_addr : Z; netmask : Z; nif_flags : Z }.

Definition not32 (x : Z) : Z := u32 (Z.lnot x).
Definition ip_addr_netcmp (addr1 addr2 mask : Z) : bool := Z.land addr1 mask =? Z.land addr2 mask.

Definition ip4_addr_isbroadcast (addr : Z) (nif : netif) : bool :=
  if (not32 addr =? IPADDR_ANY) || (addr =? IPADDR_ANY) then true
  else if Z.land (nif_flags nif) NETIF_FLAG_BROADCAST =? 0 then false
  else if addr =? ip_addr nif then false
  else if ip_addr_netcmp addr (ip_addr nif) (netmask nif) &&
          (Z.land addr (not32 (netmask nif)) =? Z.land IPADDR_BROADCAST (not32 (netmask nif))) then true
  else false.

(** The two loops over [mask]; thirty-three rounds bring it from [1 << 31] to 0. *)
Fixpoint first_zero (fuel : nat) (nm mask : Z) : Z :=
  match fuel with
  | O => mask
  | S f => if mask =? 0 then mask else if Z.land nm mask =? 0 then mask else first_zero f nm (Z.shiftr mask 1)
  end.
Fixpoint no_one (fuel : nat) (nm mask : Z) : bool :=
  match fuel with
  | O => true
  | S f => if mask =? 0 then true else if negb (Z.land nm mask =? 0) then false else no_one f nm (Z.shiftr mask 1)
  end.
Definition ip4_addr_netmask_valid (nmask : Z) : bool :=
  let nm_hostorder := hton32 nmask in
  no_one 33 nm_hostorder (first_zero 33 nm_hostorder (Z.shiftl 1 31)).

(** ** Text to address *)

Definition in_range (c lo up : Z) : bool := (lo <=? u8 c) && (u8 c <=? up).
Definition isdigit (c : Z) : bool := in_range c 48 57.
Definition isxdigit (c : Z) : bool := isdigit c || in_range c 97 102 || in_range c 65 70.
Definition islower (c : Z) : bool := in_range c 97 122.
Definition isspace (c : Z) : bool := (c =? 32) || (c =? 12) || (c =? 10) || (c =? 13) || (c =? 9) || (c =? 11).

Definition cur (s : list Z) : Z := default 0 (head s).

(** The inner loop: the digits of one number. *)
Fixpoint collect (base val : Z) (s : list Z) : Z * list Z :=
  match s with
  | [] => (val, [])
  | c :: s' =>
      if isdigit c then collect base (u32 (u32 (val * base) + (c - 48))) s'
      else if (base =? 16) && isxdigit c then
        collect base (Z.lor (u32 (Z.shiftl val 4)) (c + 10 - (if islower c then 97 else 65))) s'
      else (val, s)
  end.

(** One round of the outer loop, up to the character after the number. *)
Definition number (s : list Z) : option (Z * list Z) :=
  if negb (isdigit (cur s)) then None
  else
    let '(base, s) :=
      if cur s =? 48 then
        let s := tail s in
        if (cur s =? 120) || (cur s =? 88) then (16, tail s) else (8, s)
      else (10, s) in
    Some (collect base 0 s).

(** The outer loop; [room] is how many of [parts] are still free. *)
Fixpoint ipaddr_parts (room : nat) (parts : list Z) (s : list Z) : option (list Z * Z * list Z) :=
  match number s with
  | None => None
  | Some (val, s') =>
      if cur s' =? 46 then
        match room with O => None | S room' => ipaddr_parts room' (parts ++ [val]) (tail s') end
      else Some (parts, val, s')
  end.

Definition concoct (parts : list Z) (val : Z) : option Z :=
  match parts with
  | [] => Some val
  | [a] => if 0xffffff <? val then None else Some (Z.lor val (u32 (Z.shiftl a 24)))
  | [a; b] => if 0xffff <? val then None else Some (Z.lor val (Z.lor (u32 (Z.shiftl a 24)) (u32 (Z.shiftl b 16))))
  | [a; b; c] =>
      if 0xff <? val then None
      else Some (Z.lor val (Z.lor (Z.lor (u32 (Z.shiftl a 24)) (u32 (Z.shiftl b 16))) (u32 (Z.shiftl c 8))))
  | _ => Some val
  end.

(** What is stored at [addr] when the call returns 1. *)
Definition ipaddr_aton (cp : list Z) : option Z :=
  match ipaddr_parts 3 [] cp with
  | None => None
  | Some (parts, val, s) =>
      if negb (cur s =? 0) && negb (isspace (cur s)) then None else hton32 <$> concoct parts val
  end.

Definition ipaddr_addr (cp : list Z) : Z := match ipaddr_aton cp with Some val => val | None => IPADDR_NONE end.

(** ** Address to text *)

(** [inv], which has room for three digits. *)
Fixpoint inv_digits (room : nat) (b : Z) : list Z :=
  match room with
  | O => []
  | S r => (48 + b mod 10) :: (if b / 10 =? 0 then [] else inv_digits r (b / 10))
  end.

(** Appends characters while the buffer has room; [false] when NULL is returned. *)
Fixpoint put_all (buflen : Z) (w cs : list Z) : list Z * bool :=
  match cs with
  | [] => (w, true)
  | c :: cs' => if buflen <=? Z.of_nat (length w) then (w, false) else put_all buflen (w ++ [c]) cs'
  end.

Fixpoint ntoa_loop (buflen : Z) (w ap : list Z) : list Z * bool :=
  match ap with
  | [] => (w, true)
  | b :: ap' =>
      match put_all buflen w (rev (inv_digits 3 b)) with
      | (w, false) => (w, false)
      | (w, true) =>
          match put_all buflen w [46] with
          | (w, false) => (w, false)
          | (w, true) => ntoa_loop buflen w ap'
          end
      end
  end.

(** The bytes of a word in memory. *)
Definition addr_bytes (a : Z) : list Z := [a mod 256; a / 256 mod 256; a / 65536 mod 256; a / 16777216 mod 256].

(** The buffer, as far as it is written, and whether [buf] is returned. *)
Definition ipaddr_ntoa_r (addr buflen : Z) : list Z * bool :=
  match ntoa_loop buflen [] (addr_bytes addr) with
  | (w, true) => (removelast w ++ [0], true)
  | (w, false) => (w, false)
  end.

(** ** Broadcast *)

Lemma u32_testbit x n : 0 ≤ n → Z.testbit (u32 x) n = (n <? 32) && Z.testbit x n.
Proof.
  intros Hn. unfold u32. change U32_MOD with (2 ^ 32). destruct (Z.ltb_spec n 32).
  - by rewrite Z.mod_pow2_bits_low by lia.
  - by rewrite Z.mod_pow2_bits_high by lia.
Qed.

Lemma not32_testbit x n : 0 ≤ n → Z.testbit (not32 x) n = (n <? 32) && negb (Z.testbit x n).
Proof. intros Hn. unfold not32. by rewrite u32_testbit, Z.lnot_spec by lia. Qed.

Lemma broadcast_testbit n : 0 ≤ n → Z.testbit IPADDR_BROADCAST n = (n <? 32).
Proof.
  intros Hn. change IPADDR_BROADCAST with (Z.ones 32). rewrite Z.testbit_ones by lia.
  by rewrite (proj2 (Z.leb_le 0 n)) by lia.
Qed.

(** On the same network with all host bits set is to be the network's last address. *)
Lemma netcmp_host_ones addr ip mask :
  0 ≤ addr < 2 ^ 32 → 0 ≤ ip < 2 ^ 32 → 0 ≤ mask < 2 ^ 32 →
  (Z.land addr mask = Z.land ip mask ∧ Z.land addr (not32 mask) = Z.land IPADDR_BROADCAST (not32 mask)) ↔
  addr = Z.lor (Z.land ip mask) (not32 mask).
Proof.
  intros Ha Hi Hm. split.
  - intros [E1 E2]. apply Z.bits_inj'. intros n Hn.
    pose proof (f_equal (λ z, Z.testbit z n) E1) as B1. pose proof (f_equal (λ z, Z.testbit z n) E2) as B2. cbv beta in B1, B2.
    rewrite !Z.land_spec in B1, B2. rewrite Z.lor_spec, Z.land_spec.
    rewrite not32_testbit, broadcast_testbit in * by lia. destruct (Z.ltb_spec n 32).
    + destruct (Z.testbit addr n), (Z.testbit ip n), (Z.testbit mask n); done.
    + by rewrite (testbit_high 32 addr), (testbit_high 32 ip) by lia.
  - intros E. split; apply Z.bits_inj'; intros n Hn; pose proof (f_equal (λ z, Z.testbit z n) E) as B; cbv beta in B;
      rewrite Z.lor_spec, Z.land_spec in B; rewrite !Z.land_spec; rewrite not32_testbit, ?broadcast_testbit in * by lia;
      destruct (Z.ltb_spec n 32); rewrite ?(testbit_high 32 mask) by lia;
      destruct (Z.testbit addr n), (Z.testbit ip n), (Z.testbit mask n); done.
Qed.

Lemma not32_zero addr : 0 ≤ addr < 2 ^ 32 → not32 addr = 0 ↔ addr = IPADDR_BROADCAST.
Proof.
  intros Ha. split; intros E; [|by subst].
  apply Z.bits_inj'. intros n Hn. pose proof (f_equal (λ z, Z.testbit z n) E) as B. cbv beta in B.
  rewrite broadcast_testbit by lia. rewrite not32_testbit, Z.bits_0 in B by lia.
  destruct (Z.ltb_spec n 32); [by destruct (Z.testbit addr n)|by apply (testbit_high 32); lia].
Qed.

(** an address is a broadcast address exactly when it is 0.0.0.0 or
    255.255.255.255, or the interface supports broadcast, the address is not the
    interface's own, and it is the last address of the interface's network: the
    network bits of the interface's address with all host bits set. *)
Theorem isbroadcast_spec addr nif :
  0 ≤ addr < 2 ^ 32 → 0 ≤ ip_addr nif < 2 ^ 32 → 0 ≤ netmask nif < 2 ^ 32 →
  ip4_addr_isbroadcast addr nif = true ↔
  addr = IPADDR_ANY ∨ addr = IPADDR_BROADCAST ∨
  (Z.testbit (nif_flags nif) 1 = true ∧ addr ≠ ip_addr nif ∧
   addr = Z.lor (Z.land (ip_addr nif) (netmask nif)) (not32 (netmask nif))).
Proof.
  intros Ha Hi Hm. pose proof (netcmp_host_ones addr _ _ Ha Hi Hm) as Hn. pose proof (not32_zero addr Ha) as H0.
  unfold ip4_addr_isbroadcast, ip_addr_netcmp. change NETIF_FLAG_BROADCAST with (2 ^ 1).
  rewrite land_pow2_test by lia. change IPADDR_ANY with 0 in *.
  destruct (Z.eqb_spec (not32 addr) 0) as [E|E]; [naive_solver|]. destruct (Z.eqb_spec addr 0) as [E0|E0]; [naive_solver|].
  cbn [orb]. destruct (Z.testbit (nif_flags nif) 1); cbn [negb]; [|naive_solver].
  destruct (Z.eqb_spec addr (ip_addr nif)) as [E1|E1]; [naive_solver|].
  destruct (Z.eqb_spec (Z.land addr (netmask nif)) (Z.land (ip_addr nif) (netmask nif))) as [E2|E2]; cbn [andb]; [|naive_solver].
  destruct (Z.eqb_spec (Z.land addr (not32 (netmask nif))) (Z.land IPADDR_BROADCAST (not32 (netmask nif)))) as [E3|E3]; naive_solver.
Qed.

Lemma isbroadcast_spec_witness :
  ip4_addr_isbroadcast 0xff01a8c0 (mk_netif 0x0501a8c0 0x00ffffff 0x02) = true.
Proof. apply isbroadcast_spec; [by vm_compute..|]. right. right. split; [done|]. split; [done|]. by vm_compute. Defined.

(** ** Netmasks *)

(** [mask] runs through the powers of two below. *)
Lemma shiftr_pow2 k : Z.shiftr (2 ^ Z.of_nat (S k)) 1 = 2 ^ Z.of_nat k.
Proof. rewrite Z.shiftr_div_pow2, Nat2Z.inj_succ, Z.pow_succ_r by lia. change (2 ^ 1) with 2. rewrite Z.mul_comm. by apply Z.div_mul. Qed.

Lemma pow2_eqb k : (2 ^ Z.of_nat k =? 0) = false.
Proof. apply Z.eqb_neq. pose proof (Z.pow_pos_nonneg 2 (Z.of_nat k)). lia. Qed.

Lemma first_zero_ok nm k fuel :
  (k + 2 ≤ fuel)%nat →
  (first_zero fuel nm (2 ^ Z.of_nat k) = 0 ∧ ∀ i, 0 ≤ i ≤ Z.of_nat k → Z.testbit nm i = true) ∨
  (∃ j, (j ≤ k)%nat ∧ first_zero fuel nm (2 ^ Z.of_nat k) = 2 ^ Z.of_nat j ∧ Z.testbit nm (Z.of_nat j) = false ∧
    ∀ i, Z.of_nat j < i ≤ Z.of_nat k → Z.testbit nm i = true).
Proof.
  revert fuel. induction k as [|k IH]; intros [|fuel] Hf; try lia; cbn [first_zero]; rewrite pow2_eqb, land_pow2_test by lia.
  - destruct (Z.testbit nm (Z.of_nat 0)) eqn:E; cbn [negb].
    + left. destruct fuel as [|fuel]; [lia|]. split; [done|]. intros i Hi. by replace i with (Z.of_nat 0) by lia.
    + right. exists 0%nat. split_and!; [lia|done..|]. lia.
  - destruct (Z.testbit nm (Z.of_nat (S k))) eqn:E; cbn [negb].
    + rewrite shiftr_pow2. destruct (IH fuel) as [[E0 H]|(j & Hj & Ej & Hz & H)]; [lia|left|right].
      * split; [done|]. intros i Hi. destruct (Z.eq_dec i (Z.of_nat (S k))) as [->|]; [done|apply H; lia].
      * exists j. split_and!; [lia|done..|]. intros i Hi. destruct (Z.eq_dec i (Z.of_nat (S k))) as [->|]; [done|apply H; lia].
    + right. exists (S k). split_and!; [lia|done..|]. lia.
Qed.

Lemma no_one_ok nm k fuel :
  (k + 2 ≤ fuel)%nat → no_one fuel nm (2 ^ Z.of_nat k) = true ↔ ∀ i, 0 ≤ i ≤ Z.of_nat k → Z.testbit nm i = false.
Proof.
  revert fuel. induction k as [|k IH]; intros [|fuel] Hf; try lia; cbn [no_one]; rewrite pow2_eqb, land_pow2_test, negb_involutive by lia.
  - destruct (Z.testbit nm (Z.of_nat 0)) eqn:E.
    + split; [done|]. intros H. rewrite (H (Z.of_nat 0)) in E by lia. done.
    + destruct fuel as [|fuel]; [lia|]. split; [|done]. intros _ i Hi. by replace i with (Z.of_nat 0) by lia.
  - destruct (Z.testbit nm (Z.of_nat (S k))) eqn:E.
    + split; [done|]. intros H. rewrite (H (Z.of_nat (S k))) in E by lia. done.
    + rewrite shiftr_pow2, IH by lia. split; intros H i Hi; [|apply H; lia].
      destruct (Z.eq_dec i (Z.of_nat (S k))) as [->|]; [done|apply H; lia].
Qed.

Lemma prefix_mask_testbit m i : 0 ≤ m ≤ 32 → 0 ≤ i → Z.testbit (2 ^ 32 - 2 ^ m) i = (m <=? i) && (i <? 32).
Proof.
  intros Hm Hi. replace (2 ^ 32 - 2 ^ m) with (Z.shiftl (Z.ones (32 - m)) m).
  - rewrite Z.shiftl_spec by lia. destruct (Z.leb_spec m i).
    + rewrite Z.testbit_ones by lia. rewrite (proj2 (Z.leb_le 0 (i - m))) by lia. cbn [andb].
      destruct (Z.ltb_spec (i - m) (32 - m)), (Z.ltb_spec i 32); lia || done.
    + by rewrite Z.testbit_neg_r by lia.
  - rewrite Z.shiftl_mul_pow2, Z.ones_equiv by lia. unfold Z.pred. rewrite Z.mul_add_distr_r, <- Z.pow_add_r by lia.
    replace (32 - m + m) with 32 by lia. lia.
Qed.

(** A word is a prefix mask when its bits above some place are all ones and the others zeros. *)
Lemma prefix_mask_bits nm m :
  0 ≤ nm < 2 ^ 32 → 0 ≤ m ≤ 32 →
  nm = 2 ^ 32 - 2 ^ m ↔ ∀ i, 0 ≤ i < 32 → Z.testbit nm i = (m <=? i).
Proof.
  intros Hn Hm. split.
  - intros -> i Hi. rewrite prefix_mask_testbit by lia. rewrite (proj2 (Z.ltb_lt i 32)) by lia. apply andb_true_r.
  - intros H. apply Z.bits_inj'. intros i Hi. rewrite prefix_mask_testbit by lia. destruct (Z.ltb_spec i 32).
    + rewrite H by lia. by rewrite andb_true_r.
    + rewrite (testbit_high 32 nm) by lia. by rewrite andb_false_r.
Qed.

(** a netmask is accepted exactly when, in host order, it is one of the
    thirty-three prefix masks: [n] ones from the top, then zeros. *)
Theorem netmask_valid_spec nmask :
  0 ≤ nmask < 2 ^ 32 →
  ip4_addr_netmask_valid nmask = true ↔ ∃ n, 0 ≤ n ≤ 32 ∧ ntoh32 nmask = 2 ^ 32 - 2 ^ (32 - n).
Proof.
  intros Hr. unfold ip4_addr_netmask_valid. change (ntoh32 nmask) with (hton32 nmask).
  destruct (bswap32_invol nmask Hr) as [Hn _]. change (bswap32 nmask) with (hton32 nmask) in Hn. set (nm := hton32 nmask) in *. clearbody nm.
  change (Z.shiftl 1 31) with (2 ^ Z.of_nat 31).
  destruct (first_zero_ok nm 31 33) as [[-> H]|(j & Hj & -> & Hz & H)]; [lia| |].
  - split; [intros _|done]. exists 32. split; [lia|]. apply prefix_mask_bits; [done|lia|].
    intros i Hi. rewrite H by lia. symmetry. apply Z.leb_le. lia.
  - rewrite no_one_ok by lia. split.
    + intros Hl. exists (31 - Z.of_nat j). split; [lia|]. apply prefix_mask_bits; [done|lia|]. intros i Hi.
      destruct (Z.leb_spec (32 - (31 - Z.of_nat j)) i); [apply H; lia|apply Hl; lia].
    + intros (n & Hnn & E). pose proof (proj1 (prefix_mask_bits nm (32 - n) Hn ltac:(lia)) E) as B. rewrite B in Hz by lia. apply Z.leb_gt in Hz.
      intros i Hi. rewrite B by lia. apply Z.leb_gt. lia.
Qed.

Lemma netmask_valid_spec_witness : ip4_addr_netmask_valid 0x00f0ffff = true ∧ ip4_addr_netmask_valid 0x000fffff = false.
Proof. split; [apply netmask_valid_spec; [done|]; by exists 20|by vm_compute]. Defined.

(** ** Numbers in text *)

(** The value of digits, as the loop computes it in 32 bits. *)
Definition add_digit (base val c : Z) : Z :=
  if isdigit c then u32 (u32 (val * base) + (c - 48))
  else Z.lor (u32 (Z.shiftl val 4)) (c + 10 - (if islower c then 97 else 65)).
Definition digit_of (base c : Z) : bool := isdigit c || ((base =? 16) && isxdigit c).

(** The texts taken for a number: decimal, octal after a [0] (where 8 and 9 are
    taken too), hexadecimal after [0x] (where no digit at all is taken). *)
Inductive numeral : list Z → Z → Prop :=
  | num_dec c ds : isdigit c = true → c ≠ 48 → Forall (λ d, digit_of 10 d = true) ds →
      numeral (c :: ds) (foldl (add_digit 10) 0 (c :: ds))
  | num_oct ds : Forall (λ d, digit_of 8 d = true) ds → numeral (48 :: ds) (foldl (add_digit 8) 0 ds)
  | num_hex x ds : x = 120 ∨ x = 88 → Forall (λ d, digit_of 16 d = true) ds →
      numeral (48 :: x :: ds) (foldl (add_digit 16) 0 ds).

(** A character no number goes on with. *)
Definition no_digit (c : Z) : bool := negb (isxdigit c) && negb (c =? 120) && negb (c =? 88).

Lemma collect_sound base val s v s' :
  collect base val s = (v, s') → ∃ ds, s = ds ++ s' ∧ Forall (λ d, digit_of base d = true) ds ∧ v = foldl (add_digit base) val ds.
Proof.
  revert val. induction s as [|c s IH]; intros val; cbn [collect]; [intros [= <- <-]; by exists []|].
  destruct (isdigit c) eqn:Ed; [|destruct ((base =? 16) && isxdigit c) eqn:Ex; [|intros [= <- <-]; by exists []]].
  all: intros E; destruct (IH _ E) as (ds & -> & Hds & ->); exists (c :: ds).
  all: split; [done|]; split; [apply Forall_cons; split; [|done]; unfold digit_of; by rewrite Ed, ?Ex|].
  all: cbn [foldl]; unfold add_digit at 3; by rewrite Ed.
Qed.

Lemma collect_complete base val ds s :
  Forall (λ d, digit_of base d = true) ds → no_digit (cur s) = true →
  collect base val (ds ++ s) = (foldl (add_digit base) val ds, s).
Proof.
  intros Hds Hs. revert val. induction Hds as [|c ds Hc Hds IH]; intros val; cbn [app foldl collect].
  - destruct s as [|c s]; [done|]. cbn [collect]. unfold no_digit, isxdigit, cur in Hs. cbn [head default id] in Hs. unfold isxdigit.
    destruct (isdigit c); [done|]. destruct (in_range c 97 102), (in_range c 65 70); try done. by rewrite andb_false_r.
  - unfold digit_of in Hc. unfold add_digit at 2. destruct (isdigit c); [by rewrite IH|]. cbn [orb] in Hc. rewrite Hc. by rewrite IH.
Qed.

Lemma number_sound s v s' : number s = Some (v, s') → ∃ ds, numeral ds v ∧ s = ds ++ s'.
Proof.
  unfold number. destruct s as [|c s]; [done|]. unfold cur at 1 2. cbn [head default id tail].
  destruct (isdigit c) eqn:Ed; [|done]. cbn [negb]. destruct (Z.eqb_spec c 48) as [->|Hc].
  - destruct ((cur s =? 120) || (cur s =? 88)) eqn:Ex; intros [= E].
    + destruct s as [|x s]; [done|]. unfold cur in Ex. cbn [head default id tail] in *.
      destruct (collect_sound _ _ _ _ _ E) as (ds & -> & Hds & ->). exists (48 :: x :: ds). split; [|done]. apply num_hex; [|done].
      apply orb_true_iff in Ex as [Ex|Ex]; apply Z.eqb_eq in Ex; tauto.
    + destruct (collect_sound _ _ _ _ _ E) as (ds & -> & Hds & ->). exists (48 :: ds). split; [by apply num_oct|done].
  - intros [= E]. cbn [collect] in E. rewrite Ed in E. destruct (collect_sound _ _ _ _ _ E) as (ds & -> & Hds & ->).
    exists (c :: ds). split; [|done]. replace (u32 _) with (add_digit 10 0 c) by (unfold add_digit; by rewrite Ed).
    by apply (num_dec c ds).
Qed.

Lemma number_complete ds v s : numeral ds v → no_digit (cur s) = true → number (ds ++ s) = Some (v, s).
Proof.
  intros Hn Hs. unfold number. destruct Hn as [c ds Hc Hz Hds|ds Hds|x ds Hx Hds].
  - unfold cur at 1 2. cbn [app head default id]. rewrite Hc, (proj2 (Z.eqb_neq c 48)) by done. cbn [negb].
    change (c :: ds ++ s) with ((c :: ds) ++ s). f_equal. apply collect_complete; [|done].
    apply Forall_cons. split; [|done]. unfold digit_of. by rewrite Hc.
  - unfold cur at 1 2. cbn [app head default id negb tail]. change (isdigit 48) with true. cbn [negb].
    assert (E : (cur (ds ++ s) =? 120) || (cur (ds ++ s) =? 88) = false).
    { destruct Hds as [|d ds Hd Hds]; cbn [app].
      - unfold no_digit in Hs. destruct (isxdigit (cur s)); [done|]. destruct (cur s =? 120), (cur s =? 88); done.
      - unfold cur. cbn [head default id]. destruct (Z.eqb_spec d 120) as [->|]; [done|]. by destruct (Z.eqb_spec d 88) as [->|]. }
    rewrite E. f_equal. by apply collect_complete.
  - unfold cur at 1 2 3 4. cbn [app head default id negb tail]. change (isdigit 48) with true. cbn [negb].
    destruct Hx as [-> | ->]; cbn [Z.eqb orb]; f_equal; by apply collect_complete.
Qed.

(** ** Addresses in text *)

(** Numbers each followed by a dot. *)
Definition dotted (ps : list (list Z * Z)) : list Z := concat ((λ p, p.1 ++ [46]) <$> ps).

Lemma ipaddr_parts_sound room acc s parts val s' :
  ipaddr_parts room acc s = Some (parts, val, s') →
  ∃ ps d, parts = acc ++ ps.*2 ∧ (length ps ≤ room)%nat ∧ Forall (λ p, numeral p.1 p.2) ps ∧ numeral d val ∧ s = dotted ps ++ d ++ s'.
Proof.
  revert acc s. induction room as [|room IH]; intros acc s; cbn [ipaddr_parts];
    destruct (number s) as [[v r]|] eqn:E; try done; apply number_sound in E as (ds & Hn & ->);
    destruct (Z.eqb_spec (cur r) 46) as [Hr|Hr]; try done.
  - intros [= <- <- <-]. exists [], ds. by rewrite app_nil_r.
  - intros E. apply IH in E as (ps & d & -> & Hl & Hps & Hd & E). exists ((ds, v) :: ps), d.
    destruct r as [|c r]; [done|]. unfold cur in Hr. cbn [head default id tail] in *. subst c r.
    split_and!; [by rewrite <- app_assoc|cbn [length]; lia|by apply Forall_cons|done|].
    unfold dotted. cbn [fmap list_fmap concat fst]. by rewrite <- !app_assoc.
  - intros [= <- <- <-]. exists [], ds. rewrite app_nil_r. split_and!; [done|cbn [length]; lia|done..].
Qed.

Lemma ipaddr_parts_complete room acc ps d val s :
  (length ps ≤ room)%nat → Forall (λ p, numeral p.1 p.2) ps → numeral d val → no_digit (cur s) = true → cur s ≠ 46 →
  ipaddr_parts room acc (dotted ps ++ d ++ s) = Some (acc ++ ps.*2, val, s).
Proof.
  revert acc ps. induction room as [|room IH]; intros acc [|[e v] ps] Hl Hps Hd Hs H46; cbn [length] in Hl; try lia; cbn [ipaddr_parts].
  1, 2: unfold dotted; cbn [fmap list_fmap concat app]; rewrite (number_complete d val) by done;
    rewrite (proj2 (Z.eqb_neq _ 46)) by done; by rewrite app_nil_r.
  apply Forall_cons in Hps as [He Hps]. unfold dotted. cbn [fmap list_fmap concat fst snd] in *. rewrite <- !app_assoc.
  rewrite (number_complete e v) by done. cbn [app]. unfold cur at 1. cbn [head default id tail Z.eqb Pos.eqb].
  fold (dotted ps). rewrite IH by (first [done | lia]). by rewrite <- app_assoc.
Qed.

(** What the parts of an address denote: all but the last are bytes from the
    top, the last fills the rest. *)
Fixpoint classful (sh : Z) (parts : list Z) (val : Z) : Z :=
  match parts with [] => val | a :: ps => a * 2 ^ sh + classful (sh - 8) ps val end.
Definition last_fits (n : nat) (val : Z) : bool := val <? 2 ^ (32 - 8 * Z.of_nat n).

Lemma add_digit_range base val c :
  is_byte c → digit_of base c = true → 0 ≤ val < 2 ^ 32 → 0 ≤ add_digit base val c < 2 ^ 32.
Proof.
  unfold is_byte, digit_of, add_digit, isxdigit, islower, in_range. intros Hc Hd Hv. rewrite (u8_small c) in * by (unfold U8_MOD; lia).
  destruct (isdigit c) eqn:Ed; [apply u32_range|].
  assert (Hx : 97 ≤ c ≤ 102 ∨ 65 ≤ c ≤ 70) by lia. clear Hd.
  assert (E : u32 (Z.shiftl val 4) = val mod 2 ^ 28 * 2 ^ 4).
  { rewrite Z.shiftl_mul_pow2 by lia. unfold u32. change U32_MOD with (2 ^ 28 * 2 ^ 4). by rewrite Z.mul_mod_distr_r. }
  pose proof (Z.mod_pos_bound val (2 ^ 28)). rewrite E, Zlor_add; destruct (Z.leb_spec 97 c), (Z.leb_spec c 122); cbn [andb]; lia.
Qed.

Lemma numeral_range d v : Forall is_byte d → numeral d v → 0 ≤ v < 2 ^ 32.
Proof.
  intros Hb Hn.
  assert (H : ∀ base ds acc, Forall is_byte ds → Forall (λ d, digit_of base d = true) ds → 0 ≤ acc < 2 ^ 32 →
    0 ≤ foldl (add_digit base) acc ds < 2 ^ 32).
  { intros base ds. induction ds as [|c ds IH]; intros acc Hby Hd Ha; [done|]. apply Forall_cons in Hby as [? ?].
    apply Forall_cons in Hd as [? ?]. cbn [foldl]. apply IH; [done..|]. by apply add_digit_range. }
  destruct Hn as [c ds Hc _ Hds|ds Hds|x ds _ Hds]; apply H; try done.
  - apply Forall_cons. split; [|done]. unfold digit_of. by rewrite Hc.
  - by apply Forall_cons in Hb as [_ ?].
  - apply Forall_cons in Hb as [_ Hb]. by apply Forall_cons in Hb as [_ ?].
Qed.

Lemma shift_byte a k : is_byte a → 0 ≤ k ≤ 24 → u32 (Z.shiftl a k) = a * 2 ^ k.
Proof.
  unfold is_byte. intros Ha Hk. rewrite Z.shiftl_mul_pow2 by lia. apply u32_small. unfold U32_MOD.
  pose proof (Z.pow_le_mono_r 2 k 24). pose proof (Z.pow_pos_nonneg 2 k). nia.
Qed.

Lemma concoct_fits parts val :
  (length parts ≤ 3)%nat → 0 ≤ val < 2 ^ 32 → is_Some (concoct parts val) ↔ last_fits (length parts) val = true.
Proof.
  intros Hl Hv. unfold last_fits.
  destruct parts as [|a [|b [|c [|]]]]; cbn [length] in Hl; try lia; cbn [concoct length].
  - split; [intros _; apply Z.ltb_lt; lia|by eexists].
  - change (2 ^ (32 - 8 * Z.of_nat 1)) with 16777216. destruct (Z.ltb_spec 16777215 val), (Z.ltb_spec val 16777216); try lia; [|by split; eauto].
    by split; [intros []|].
  - change (2 ^ (32 - 8 * Z.of_nat 2)) with 65536. destruct (Z.ltb_spec 65535 val), (Z.ltb_spec val 65536); try lia; [|by split; eauto].
    by split; [intros []|].
  - change (2 ^ (32 - 8 * Z.of_nat 3)) with 256. destruct (Z.ltb_spec 255 val), (Z.ltb_spec val 256); try lia; [|by split; eauto].
    by split; [intros []|].
Qed.

Lemma concoct_classful parts val h :
  Forall is_byte parts → (length parts ≤ 3)%nat → 0 ≤ val < 2 ^ 32 → concoct parts val = Some h → h = classful 24 parts val.
Proof.
  intros Hb Hl Hv.
  destruct parts as [|a [|b [|c [|]]]]; cbn [length] in Hl; try lia; cbn [concoct classful]; rewrite ?Forall_cons in Hb.
  - congruence.
  - destruct (Z.ltb_spec 16777215 val); [done|]. intros [= <-]. rewrite shift_byte by (first [tauto | lia]).
    by rewrite Z.lor_comm, Zlor_add by lia.
  - destruct (Z.ltb_spec 65535 val); [done|]. intros [= <-]. destruct Hb as (Ha & Hb & _). rewrite !shift_byte by (first [done | lia]).
    unfold is_byte in *. rewrite (Zlor_add a) by lia. change (24 - 8) with 16.
    replace (a * 2 ^ 24 + b * 2 ^ 16) with ((a * 256 + b) * 2 ^ 16) by lia. rewrite Z.lor_comm, Zlor_add by lia. lia.
  - destruct (Z.ltb_spec 255 val); [done|]. intros [= <-]. destruct Hb as (Ha & Hb & Hc & _).
    rewrite !shift_byte by (first [done | lia]). unfold is_byte in *. rewrite (Zlor_add a) by lia. change (24 - 8) with 16. change (16 - 8) with 8.
    replace (a * 2 ^ 24 + b * 2 ^ 16) with ((a * 256 + b) * 2 ^ 16) by lia. rewrite Zlor_add by lia.
    replace ((a * 256 + b) * 2 ^ 16 + c * 2 ^ 8) with (((a * 256 + b) * 256 + c) * 2 ^ 8) by lia.
    rewrite Z.lor_comm, Zlor_add by lia. lia.
Qed.

(** [s] is the text of an address: up to three numbers with their dots, a last
    number, and then the end or white space. *)
Definition address_text (s : list Z) (ps : list (list Z * Z)) (v : Z) : Prop :=
  ∃ d r, s = dotted ps ++ d ++ r ∧ (length ps ≤ 3)%nat ∧ Forall (λ p, numeral p.1 p.2) ps ∧ numeral d v ∧
    (cur r = 0 ∨ isspace (cur r) = true).

Lemma end_no_digit c : c = 0 ∨ isspace c = true → no_digit c = true ∧ c ≠ 46.
Proof. unfold isspace. rewrite !orb_true_iff, !Z.eqb_eq. intros H. repeat destruct H as [H|H]; by subst c. Qed.

Lemma aton_sound s a :
  Forall is_byte s → ipaddr_aton s = Some a →
  ∃ ps v h, address_text s ps v ∧ 0 ≤ v < 2 ^ 32 ∧ concoct ps.*2 v = Some h ∧ a = hton32 h.
Proof.
  intros Hb. unfold ipaddr_aton. destruct (ipaddr_parts 3 [] s) as [[[parts val] r]|] eqn:E; [|done].
  apply ipaddr_parts_sound in E as (ps & d & -> & Hl & Hps & Hd & ->). cbn [app].
  destruct (negb (cur r =? 0) && negb (isspace (cur r))) eqn:Er; [done|]. intros (h & Hc & ->)%fmap_Some.
  assert (Hdb : Forall is_byte d) by (apply Forall_app in Hb as [_ Hb]; by apply Forall_app in Hb as [? _]).
  exists ps, val, h. split; [|split; [by eapply numeral_range|done]].
  exists d, r. split_and!; [done..|]. destruct (Z.eqb_spec (cur r) 0); [by left|right]. by destruct (isspace (cur r)).
Qed.

Lemma aton_complete s ps v : address_text s ps v → ipaddr_aton s = hton32 <$> concoct ps.*2 v.
Proof.
  intros (d & r & -> & Hl & Hps & Hd & Hr). destruct (end_no_digit _ Hr) as [Hn H46]. unfold ipaddr_aton.
  rewrite (ipaddr_parts_complete 3 [] ps d v r) by done. cbn [app]. destruct Hr as [-> | ->]; [done|]. by rewrite andb_false_r.
Qed.



(** ** Round trip *)

(** The text of an address. *)
Definition ntoa_text (addr : Z) : list Z := concat ((λ b, rev (inv_digits 3 b) ++ [46]) <$> addr_bytes addr).

Lemma put_all_ok n w cs :
  put_all n w cs =
    if Z.of_nat (length (w ++ cs)) <=? Z.max n (Z.of_nat (length w)) then (w ++ cs, true)
    else (take (Z.to_nat (Z.max n (Z.of_nat (length w)))) (w ++ cs), false).
Proof.
  revert w. induction cs as [|c cs IH]; intros w; cbn [put_all].
  - rewrite app_nil_r. rewrite (proj2 (Z.leb_le _ _)) by lia. done.
  - destruct (Z.leb_spec n (Z.of_nat (length w))) as [Hn|Hn].
    + rewrite (proj2 (Z.leb_gt _ _)) by (rewrite length_app; cbn [length]; lia). f_equal.
      rewrite Z.max_r, Nat2Z.id, take_app_length by lia. done.
    + rewrite IH. rewrite <- app_assoc. cbn [app]. rewrite !Z.max_l by (rewrite ?length_app; cbn [length]; lia). done.
Qed.

(** Writing piecewise is writing all at once. *)
Lemma put_all_app n w cs ds :
  put_all n w (cs ++ ds) = match put_all n w cs with (w', true) => put_all n w' ds | (w', false) => (w', false) end.
Proof.
  revert w. induction cs as [|c cs IH]; intros w; cbn [put_all app]; [done|]. destruct (n <=? Z.of_nat (length w)); [done|apply IH].
Qed.

Lemma ntoa_loop_ok n w ap : ntoa_loop n w ap = put_all n w (concat ((λ b, rev (inv_digits 3 b) ++ [46]) <$> ap)).
Proof.
  revert w. induction ap as [|b ap IH]; intros w; [done|]. cbn [ntoa_loop fmap list_fmap concat].
  rewrite !put_all_app. destruct (put_all n w (rev (inv_digits 3 b))) as [w1 []]; [|done].
  destruct (put_all n w1 [46]) as [w2 []]; [apply IH|done].
Qed.

Lemma forall_byte (P : Z → bool) : forallb P (seqZ 0 256) = true → ∀ b, is_byte b → P b = true.
Proof. intros H b Hb. rewrite forallb_forall in H. apply H. apply list_elem_of_In, elem_of_seqZ. unfold is_byte in Hb. lia. Qed.

(** Three digits are enough for a byte: the loop ends by itself. *)
Lemma inv_digits_enough b k : is_byte b → inv_digits (3 + k) b = inv_digits 3 b.
Proof.
  unfold is_byte. intros Hb. cbn [inv_digits Nat.add].
  replace (b / 10 / 10 / 10 =? 0) with true; [done|]. symmetry. apply Z.eqb_eq. rewrite !Z.div_div by lia. apply Z.div_small. lia.
Qed.

Lemma byte_numeral b : is_byte b → numeral (rev (inv_digits 3 b)) b ∧ (length (inv_digits 3 b) ≤ 3)%nat.
Proof.
  intros Hb. split; [|cbn [inv_digits]; do 2 (destruct (_ / 10 =? 0); cbn [length]; [lia|]); destruct (_ / 10 =? 0); cbn [length]; lia].
  destruct (Z.eq_dec b 0) as [->|Hz]; [by apply (num_oct [])|].
  set (P := λ b, (b =? 0) || match rev (inv_digits 3 b) with
    | [] => false
    | c :: ds => isdigit c && negb (c =? 48) && forallb (digit_of 10) ds && (foldl (add_digit 10) 0 (c :: ds) =? b)
    end).
  assert (H : P b = true) by (apply (forall_byte P); [by vm_compute|done]). unfold P in H. clear P.
  rewrite (proj2 (Z.eqb_neq b 0)) in H by done. cbn [orb] in H. destruct (rev (inv_digits 3 b)) as [|c ds]; [done|].
  rewrite !andb_true_iff, negb_true_iff, Z.eqb_eq, Z.eqb_neq, forallb_forall in H. destruct H as (((Hc & Hne) & Hds) & E).
  rewrite <- E. apply num_dec; [done..|]. apply Forall_forall. intros d Hd. apply Hds. by apply list_elem_of_In.
Qed.

Lemma addr_bytes_ok a : 0 ≤ a < 2 ^ 32 → Forall is_byte (addr_bytes a) ∧ hton32 (classful 24 (take 3 (addr_bytes a)) (a / 16777216 mod 256)) = a.
Proof.
  intros Ha. unfold addr_bytes. split.
  - repeat (apply Forall_cons; split; [apply Z.mod_pos_bound; lia|]). by apply Forall_nil.
  - cbn [take classful]. change (24 - 8) with 16. change (16 - 8) with 8. pose proof (bswap32_sum a Ha) as E.
    destruct (bswap32_invol a Ha) as [_ Ei]. rewrite <- Ei at 5. unfold hton32. f_equal. rewrite E.
    rewrite (Z.mod_small (a / 16777216)) by (split; [apply Z.div_pos|apply Z.div_lt_upper_bound]; lia).
    change (2 ^ 8) with 256. change (2 ^ 16) with 65536. change (2 ^ 24) with 16777216. lia.
Qed.

Lemma ntoa_text_length addr : (4 ≤ length (ntoa_text addr))%nat ∧ (0 ≤ addr < 2 ^ 32 → (length (ntoa_text addr) ≤ 16)%nat).
Proof.
  unfold ntoa_text, addr_bytes. cbn [fmap list_fmap concat]. rewrite app_nil_r, !length_app, !length_rev. cbn [length].
  split; [lia|]. intros Ha. destruct (addr_bytes_ok addr Ha) as [Hb _]. unfold addr_bytes in Hb. rewrite !Forall_cons in Hb.
  destruct Hb as (H0 & H1 & H2 & H3 & _). apply byte_numeral in H0, H1, H2, H3. lia.
Qed.

Lemma ntoa_r_ok addr n :
  ipaddr_ntoa_r addr n =
    if Z.of_nat (length (ntoa_text addr)) <=? n then (removelast (ntoa_text addr) ++ [0], true)
    else (take (Z.to_nat n) (ntoa_text addr), false).
Proof.
  unfold ipaddr_ntoa_r. rewrite ntoa_loop_ok, put_all_ok. fold (ntoa_text addr). cbn [app length].
  destruct (ntoa_text_length addr) as [Hl _]. change (Z.of_nat 0) with 0.
  destruct (Z.leb_spec (Z.of_nat (length (ntoa_text addr))) (Z.max n 0)), (Z.leb_spec (Z.of_nat (length (ntoa_text addr))) n); try lia; [done|].
  do 2 f_equal. lia.
Qed.

Lemma ntoa_text_parts addr :
  0 ≤ addr < 2 ^ 32 →
  ∃ ps v, address_text (removelast (ntoa_text addr) ++ [0]) ps v ∧ v = addr / 16777216 mod 256 ∧ ps.*2 = take 3 (addr_bytes addr).
Proof.
  intros Ha. destruct (addr_bytes_ok addr Ha) as [Hb _]. unfold ntoa_text, addr_bytes in *. rewrite !Forall_cons in Hb.
  destruct Hb as (H0 & H1 & H2 & H3 & _). apply byte_numeral in H0 as [H0 _], H1 as [H1 _], H2 as [H2 _], H3 as [H3 _].
  set (dg := λ b, rev (inv_digits 3 b)) in *.
  set (b0 := addr mod 256) in *. set (b1 := addr / 256 mod 256) in *. set (b2 := addr / 65536 mod 256) in *. set (b3 := addr / 16777216 mod 256) in *.
  exists [(dg b0, b0); (dg b1, b1); (dg b2, b2)], b3. split_and!; [|done..].
  exists (dg b3), [0]. split_and!; [|cbn [length]; lia|by repeat (apply Forall_cons; split)|done|by left].
  unfold dotted. cbn [fmap list_fmap concat fst]. fold (dg b0) (dg b1) (dg b2) (dg b3). rewrite !app_nil_r, !app_assoc.
  rewrite removelast_last. by rewrite <- !app_assoc.
Qed.

(** C23: an address written out by ipaddr_ntoa_r and read by ipaddr_aton is the
    same address.  The buffer is returned exactly when it has room for the text and
    its NUL, which 16 bytes always have, and no byte is written past it otherwise. *)
Theorem ntoa_aton_roundtrip addr buflen :
  0 ≤ addr < 2 ^ 32 →
  let '(buf, ok) := ipaddr_ntoa_r addr buflen in
  (ok = true ↔ Z.of_nat (length (ntoa_text addr)) ≤ buflen) ∧ Z.of_nat (length buf) ≤ Z.max 0 buflen ∧
  (16 ≤ buflen → ok = true) ∧ (ok = true → ipaddr_aton buf = Some addr).
Proof.
  intros Ha. rewrite ntoa_r_ok. destruct (ntoa_text_length addr) as [Hlo Hhi]. specialize (Hhi Ha).
  destruct (Z.leb_spec (Z.of_nat (length (ntoa_text addr))) buflen) as [Hl|Hl].
  - split_and!; [done| |done|].
    + assert (Hne : ntoa_text addr ≠ []) by (intros E; rewrite E in Hlo; cbn in Hlo; lia).
      apply (app_removelast_last 0) in Hne. apply (f_equal length) in Hne. rewrite length_app in Hne. cbn [length] in Hne.
      rewrite length_app. cbn [length]. lia.
    + intros _. destruct (ntoa_text_parts addr Ha) as (ps & v & Ht & -> & Eps). destruct (addr_bytes_ok addr Ha) as [Hb E].
      rewrite (aton_complete _ _ _ Ht), Eps. unfold addr_bytes in *. rewrite !Forall_cons in Hb. destruct Hb as (H0 & H1 & H2 & H3 & _).
      unfold is_byte in H3. cbn [take] in *. destruct (concoct [addr mod 256; addr / 256 mod 256; addr / 65536 mod 256] (addr / 16777216 mod 256)) as [h|] eqn:Ec.
      * apply concoct_classful in Ec; [|by repeat (apply Forall_cons; split)|cbn [length]; lia|lia]. subst h. cbn [fmap option_fmap option_map]. by rewrite E.
      * exfalso. cbn [concoct] in Ec. destruct (Z.ltb_spec 255 (addr / 16777216 mod 256)); [lia|done].
  - split_and!; [split; [done|lia]|rewrite length_take; lia|lia|done].
Qed.

Lemma ntoa_aton_roundtrip_witness : snd (ipaddr_ntoa_r 0xfe01a8c0 14) = true ∧ ipaddr_aton (fst (ipaddr_ntoa_r 0xfe01a8c0 14)) = Some 0xfe01a8c0.
Proof.
  pose proof (ntoa_aton_roundtrip 0xfe01a8c0 14 ltac:(lia)) as H.
  assert (E : ipaddr_ntoa_r 0xfe01a8c0 14 = ([49; 57; 50; 46; 49; 54; 56; 46; 49; 46; 50; 53; 52; 0], true)) by (by vm_compute).
  rewrite E in *. destruct H as (_ & _ & _ & H). split; [done|]. by apply H.
Defined.

(** Parts other than the last are not checked: 1.256.3.4 is taken for 1.0.3.4. *)
Example aton_part_unchecked :
  ipaddr_aton [49; 46; 50; 53; 54; 46; 51; 46; 52; 0] = ipaddr_aton [49; 46; 48; 46; 51; 46; 52; 0] ∧
  ipaddr_aton [49; 46; 48; 46; 51; 46; 52; 0] = Some 0x04030001.
Proof. by vm_compute. Qed.
