(* ===== verification/Chksum.v ===== *)
(** * The internet checksum (inc/asm/chksum.h)

    [chksum_internet] is inline assembly: it adds 64-bit words with the carry
    flag, then the 4-, 2- and 1-byte remainders, and folds the sum to 16 bits.
    The model runs the instructions, carry flag included.  The theorem is that
    the result is the one's complement of the 16-bit one's complement sum of
    RFC 1071. *)

From S2P Require Import Prelude Stddef Bytes.
Local Open Scope Z_scope.

(** ** The instructions *)

(** [adc] at [w] bits: the sum and the carry flag. *)
Definition adc (w a b : Z) (cf : bool) : Z * bool :=
  let s := a + b + Z.b2z cf in (s mod 2 ^ w, 2 ^ w <=? s).

(** Label 1: [n] rounds of [adcq (%1), %0], the pointer advancing by 8. *)
Fixpoint chksum_loop (n : nat) (b : bytes) (o : nat) (sum : Z) (cf : bool) : option (Z * bool * nat) :=
  match n with
  | O => Some (sum, cf, o)
  | S n' =>
      x ← get64 b o;
      let '(sum, cf) := adc 64 sum x cf in
      chksum_loop n' b (o + 8) sum cf
  end.

(** Labels 2, 3 and 4: [addq %rdx, %0] then [adcq $0, %0] with a field of [k]
    bytes, if that bit of the length is set. *)
Definition chksum_tail (k : nat) (b : bytes) (len : Z) (so : Z * nat) : option (Z * nat) :=
  let '(sum, o) := so in
  if negb (Z.land len (Z.of_nat k) =? 0) then
    x ← le_get k b o;
    let '(sum, cf) := adc 64 sum x false in
    let '(sum, _) := adc 64 sum 0 cf in
    Some (sum, (o + k)%nat)
  else Some (sum, o).

(** Label 5: fold to 32 and to 16 bits, and complement. *)
Definition chksum_fold (sum : Z) : Z :=
  let lo := sum in
  let sum := Z.shiftr sum 32 in
  let '(sum, cf) := adc 32 sum (lo mod 2 ^ 32) false in
  let '(sum, _) := adc 32 sum 0 cf in
  let lo := sum in
  let sum := Z.shiftr sum 16 in
  let '(sum, cf) := adc 16 sum (lo mod 2 ^ 16) false in
  let '(sum, _) := adc 16 sum 0 cf in
  u16 (Z.lnot sum).

(** [chksum_internet(buf, len)] with [buf] at offset [o]. *)
Definition chksum_internet (b : bytes) (o : nat) (len : Z) : option Z :=
  let edx := Z.shiftr (u32 len) 3 in
  '(sum, o) ← (if edx =? 0 then Some (0, o) else
    '(sum, cf, o) ← chksum_loop (Z.to_nat edx) b o 0 false;
    let '(sum, _) := adc 64 sum 0 cf in Some (sum, o));
  so ← chksum_tail 4 b len (sum, o);
  so ← chksum_tail 2 b len so;
  '(sum, _) ← chksum_tail 1 b len so;
  Some (chksum_fold sum).

(** ** The specification of RFC 1071 *)

(** The sum of the 16-bit words; a last odd byte counts as a word with a zero
    byte after it. *)
Fixpoint word_sum (l : bytes) : Z :=
  match l with
  | [] => 0
  | [x] => x
  | x :: y :: l' => x + 256 * y + word_sum l'
  end.

(** The 16-bit one's complement sum that a sum of words folds to. *)
Definition ones_fold (s : Z) : Z := if s =? 0 then 0 else (s - 1) mod 65535 + 1.

(** ** Sums up to the carries

    [v] and [s] are the same one's complement number: equal modulo 65535, and zero
    together. *)
Definition ones_eq (v s : Z) : Prop :=
  0 ≤ v ∧ 0 ≤ s ∧ (v = 0 ↔ s = 0) ∧ (65535 | v - s).

Lemma ones_eq_add v s x t : ones_eq v s → ones_eq x t → ones_eq (v + x) (s + t).
Proof.
  intros (? & ? & ? & Hv) (? & ? & ? & Hx). split_and!; [lia..|].
  replace (v + x - (s + t)) with ((v - s) + (x - t)) by lia. by apply Z.divide_add_r.
Qed.

Lemma ones_eq_zero : ones_eq 0 0.
Proof. split_and!; [done..|]. by exists 0. Qed.

Lemma ones_eq_self x : 0 ≤ x → ones_eq x x.
Proof. intros H. split_and!; [done..|]. exists 0. lia. Qed.

(** A carry out of a multiple of 16 bits may be added at the bottom. *)
Lemma ones_eq_carry w v s :
  ones_eq v s → (w = 16 ∨ w = 32 ∨ w = 64) → ones_eq (v mod 2 ^ w + v / 2 ^ w) s.
Proof.
  intros (Hv & Hs & H0 & [k Hk]) Hw. assert (0 < 2 ^ w) by (by destruct Hw as [->|[->| ->]]).
  pose proof (Z.div_mod v (2 ^ w)). pose proof (Z.mod_pos_bound v (2 ^ w)).
  assert (0 ≤ v / 2 ^ w) by (apply Z.div_pos; lia).
  assert (∃ q, 2 ^ w = 65535 * q + 1 ∧ 0 < q) as (q & Hq & Hq0).
  { destruct Hw as [->|[->| ->]]; [by exists 1|by exists 65537|by exists 281479271743489]. }
  split_and!; [lia|done| |].
  - split; intros E.
    + apply H0. assert (v mod 2 ^ w = 0 ∧ v / 2 ^ w = 0) as [E1 E2] by lia. rewrite E2, E1 in *. lia.
    + apply H0 in E. subst v. rewrite Z.mod_0_l, Z.div_0_l by lia. done.
  - exists (k - q * (v / 2 ^ w)). nia.
Qed.

Lemma ones_eq_shift v s : ones_eq v s → ones_eq (65536 * v) s.
Proof.
  intros (Hv & Hs & H0 & [k Hk]). split_and!; [lia|done|lia|]. exists (v + k). lia.
Qed.

Lemma ones_fold_unique v s : ones_eq v s → v ≤ 65535 → v = ones_fold s.
Proof.
  intros (Hv & Hs & H0 & [k Hk]) Hmax. unfold ones_fold.
  destruct (Z.eqb_spec s 0) as [->|Hs0]; [by apply H0|].
  assert (0 < v) by lia. replace (s - 1) with (v - 1 + (- k) * 65535) by lia.
  rewrite Z.mod_add, Z.mod_small by lia. lia.
Qed.

(** ** The instructions compute the sum *)

(** A register and the carry flag after an addition: the carry can be added
    without overflowing again. *)
Definition carry_ok (w r : Z) (cf : bool) : Prop := 0 ≤ r < 2 ^ w ∧ (cf = true → r ≤ 2 ^ w - 2).

Lemma adc_step w a b cf s :
  w = 16 ∨ w = 32 ∨ w = 64 → carry_ok w a cf → 0 ≤ b < 2 ^ w → ones_eq (a + Z.b2z cf + b) s →
  carry_ok w (adc w a b cf).1 (adc w a b cf).2 ∧
  ones_eq ((adc w a b cf).1 + Z.b2z (adc w a b cf).2) s.
Proof.
  intros Hw [Ha Hc] Hb Hadd. assert (1 < 2 ^ w) by (by destruct Hw as [->|[->| ->]]).
  apply (ones_eq_carry w) in Hadd; [|done].
  unfold adc. cbn [fst snd]. replace (a + Z.b2z cf + b) with (a + b + Z.b2z cf) in Hadd by lia.
  set (x := a + b + Z.b2z cf) in *.
  assert (0 ≤ x ≤ 2 * 2 ^ w - 2) as Hx by (destruct cf; simpl in *; lia).
  assert (Z.b2z (2 ^ w <=? x) = x / 2 ^ w) as Ec.
  { destruct (Z.leb_spec (2 ^ w) x); simpl.
    - apply Z.div_unique with (x - 2 ^ w); lia.
    - by rewrite Z.div_small by lia. }
  rewrite Ec. split; [|done]. split; [apply Z.mod_pos_bound; lia|].
  intros Hle%Z.leb_le. rewrite <-(Z.mod_unique x (2 ^ w) 1 (x - 2 ^ w)); lia.
Qed.

(** Adding the carry flag back. *)
Lemma adc_carry w r cf s :
  carry_ok w r cf → 0 < w → ones_eq (r + Z.b2z cf) s →
  0 ≤ (adc w r 0 cf).1 < 2 ^ w ∧ ones_eq (adc w r 0 cf).1 s.
Proof.
  intros [Hr Hc] Hw Hs. unfold adc. cbn [fst]. rewrite Z.add_0_r.
  rewrite Z.mod_small; [split; [|done]|]; destruct cf; simpl in *; lia.
Qed.

Lemma le_get_ones n b o v :
  bytes_wf b → le_get n b o = Some v → ones_eq v (word_sum (take n (drop o b))).
Proof.
  intros Hwf. revert o v. induction n as [n IH] using lt_wf_ind. intros o v Hv.
  destruct n as [|[|n]].
  - unfold le_get in Hv. simplify_eq. apply ones_eq_zero.
  - rewrite le_get_S in Hv. destruct (b !! o) as [x|] eqn:Ex; [|done]. simpl in Hv.
    unfold le_get in Hv. simplify_eq/=. rewrite (drop_S _ _ _ Ex). simpl.
    pose proof (Forall_lookup_1 _ _ _ _ Hwf Ex) as Hx. simpl in Hx.
    replace (x + 256 * 0) with x by lia. apply ones_eq_self. lia.
  - rewrite !le_get_S in Hv. destruct (b !! o) as [x|] eqn:Ex; [|done]. simpl in Hv.
    destruct (b !! S o) as [y|] eqn:Ey; [|done]. simpl in Hv.
    destruct (le_get n b (S (S o))) as [r|] eqn:Er; [|done]. simpl in Hv. simplify_eq.
    rewrite (drop_S _ _ _ Ex), (drop_S _ _ _ Ey). simpl.
    pose proof (Forall_lookup_1 _ _ _ _ Hwf Ex). pose proof (Forall_lookup_1 _ _ _ _ Hwf Ey). simpl in *.
    replace (x + 256 * (y + 256 * r)) with (x + 256 * y + 65536 * r) by lia.
    apply ones_eq_add; [apply ones_eq_self; lia|]. apply ones_eq_shift, (IH n); [lia|done].
Qed.

Lemma word_sum_app l k : Nat.Even (length l) → word_sum (l ++ k) = word_sum l + word_sum k.
Proof.
  intros [n Hn]. revert l Hn. induction n as [|n IH]; intros l Hl; simpl in Hl.
  - by destruct l.
  - destruct l as [|x [|y l]]; simpl in Hl; try lia. simpl. rewrite IH by lia. lia.
Qed.

(** Splitting the buffer after an even number of bytes. *)
Lemma word_sum_split (b : bytes) o n k :
  Nat.Even n → (o + n ≤ length b)%nat →
  word_sum (take (n + k) (drop o b)) =
    word_sum (take n (drop o b)) + word_sum (take k (drop (o + n) b)).
Proof.
  intros He Hl. rewrite <-word_sum_app by (rewrite length_take, length_drop; by rewrite Nat.min_l by lia).
  rewrite <-drop_drop. f_equal. by rewrite take_take_drop.
Qed.

Lemma chksum_loop_ok b n o sum cf s :
  bytes_wf b → (o + 8 * n ≤ length b)%nat → carry_ok 64 sum cf → ones_eq (sum + Z.b2z cf) s →
  ∃ sum' cf', chksum_loop n b o sum cf = Some (sum', cf', (o + 8 * n)%nat) ∧ carry_ok 64 sum' cf' ∧
    ones_eq (sum' + Z.b2z cf') (s + word_sum (take (8 * n) (drop o b))).
Proof.
  intros Hwf. revert o sum cf s. induction n as [|n IH]; intros o sum cf s Hl Hc Hs.
  - exists sum, cf. simpl. rewrite Nat.add_0_r, Z.add_0_r. done.
  - cbn [chksum_loop]. destruct (le_get_some 8 b o) as [x Hx]; [lia|]. rewrite Hx. cbn [mbind option_bind].
    pose proof (le_get_range _ _ _ _ Hwf Hx) as Hr.
    pose proof (ones_eq_add _ _ _ _ Hs (le_get_ones _ _ _ _ Hwf Hx)) as Hs1.
    apply (adc_step 64) in Hs1 as [Hc' Hs']; [|auto|done|done].
    destruct (adc 64 sum x cf) as [sum1 cf1]. cbn [fst snd] in *.
    edestruct (IH (o + 8)%nat sum1 cf1) as (sum' & cf' & E & Hc2 & Hs2); [lia|done|done|].
    exists sum', cf'. rewrite E. split_and!; [do 2 f_equal; lia|done|].
    replace (8 * S n)%nat with (8 + 8 * n)%nat by lia. rewrite word_sum_split by (by exists 4%nat || lia).
    by rewrite Z.add_assoc.
Qed.

(** The number of bytes a remainder covers: the remainders are the bits of the length. *)
Definition rest_len (len : Z) (k : nat) : nat :=
  if negb (Z.land len (Z.of_nat k) =? 0) then k else 0%nat.

Lemma chksum_tail_ok k b len sum o s :
  bytes_wf b → (k = 4 ∨ k = 2 ∨ k = 1)%nat →
  let n := rest_len len k in
  (o + n ≤ length b)%nat → 0 ≤ sum < 2 ^ 64 → ones_eq sum s →
  ∃ sum', chksum_tail k b len (sum, o) = Some (sum', (o + n)%nat) ∧ 0 ≤ sum' < 2 ^ 64 ∧
    ones_eq sum' (s + word_sum (take n (drop o b))).
Proof.
  intros Hwf Hk n Hl Hsum Hs. unfold chksum_tail. subst n. unfold rest_len in *.
  destruct (negb (Z.land len (Z.of_nat k) =? 0)) eqn:Eb.
  - destruct (le_get_some k b o) as [x Hx]; [done|]. rewrite Hx. cbn [mbind option_bind].
    assert (0 ≤ x < 2 ^ 64).
    { pose proof (le_get_range _ _ _ _ Hwf Hx) as Hr. destruct Hk as [->|[->| ->]]; simpl in Hr; lia. }
    pose proof (ones_eq_add _ _ _ _ Hs (le_get_ones _ _ _ _ Hwf Hx)) as Hs1.
    rewrite <-(Z.add_0_r sum) in Hs1. apply (adc_step 64 _ _ false) in Hs1 as [Hc' Hs']; [|auto|by split|done].
    destruct (adc 64 sum x false) as [sum1 cf1]. cbn [fst snd] in *.
    apply (adc_carry 64) in Hs' as [? ?]; [|done|lia]. destruct (adc 64 sum1 0 cf1) as [sum2 ?]. cbn [fst] in *. eauto.
  - exists sum. rewrite Nat.add_0_r. simpl. by rewrite Z.add_0_r.
Qed.

(** One folding step halves the width. *)
Lemma fold_step w sum s :
  w = 16 ∨ w = 32 → 0 ≤ sum < 2 ^ w * 2 ^ w → ones_eq sum s →
  let a := adc w (sum / 2 ^ w) (sum mod 2 ^ w) false in
  0 ≤ (adc w a.1 0 a.2).1 < 2 ^ w ∧ ones_eq (adc w a.1 0 a.2).1 s.
Proof.
  intros Hw Hsum Hs a. assert (0 < 2 ^ w ∧ 0 < w) as [Hw0 Hw1] by (by destruct Hw as [->| ->]).
  assert (w = 16 ∨ w = 32 ∨ w = 64) as Hw' by tauto.
  apply (ones_eq_carry w) in Hs; [|done].
  rewrite <-(Z.add_0_r (sum mod 2 ^ w)), Z.add_comm, Z.add_assoc in Hs.
  replace (sum / 2 ^ w + sum mod 2 ^ w + 0) with (sum / 2 ^ w + Z.b2z false + sum mod 2 ^ w) in Hs
    by (simpl; lia).
  apply (adc_step w) in Hs as [Hc Hs]; [|done| |by apply Z.mod_pos_bound].
  - by apply adc_carry.
  - split; [|done]. split; [by apply Z.div_pos; lia|]. apply Z.div_lt_upper_bound; lia.
Qed.

Lemma chksum_fold_ok sum s : 0 ≤ sum < 2 ^ 64 → ones_eq sum s → chksum_fold sum = 65535 - ones_fold s.
Proof.
  intros Hsum Hs. unfold chksum_fold. rewrite Z.shiftr_div_pow2 by lia.
  apply (fold_step 32) in Hs as [Hr Hs]; [|auto|done].
  destruct (adc 32 (sum / 2 ^ 32) _ false) as [s1 c1]. cbn [fst snd] in *.
  destruct (adc 32 s1 0 c1) as [s2 c2]. cbn [fst] in *. rewrite Z.shiftr_div_pow2 by lia.
  apply (fold_step 16) in Hs as [Hr2 Hs]; [|auto|done].
  destruct (adc 16 (s2 / 2 ^ 16) _ false) as [s3 c3]. cbn [fst snd] in *.
  destruct (adc 16 s3 0 c3) as [s4 c4]. cbn [fst] in *.
  rewrite <-(ones_fold_unique s4 s) by (done || lia). unfold u16, U16_MOD, Z.lnot.
  symmetry. apply Z.mod_unique with (-1); lia.
Qed.

Lemma len_split len :
  0 ≤ len →
  Z.to_nat len = (8 * Z.to_nat (Z.shiftr len 3) + (rest_len len 4 + (rest_len len 2 + rest_len len 1)))%nat.
Proof.
  intros Hlen. unfold rest_len.
  change (Z.of_nat 4) with (2 ^ 2). change (Z.of_nat 2) with (2 ^ 1). change (Z.of_nat 1) with (2 ^ 0).
  rewrite !land_pow2_test, !negb_involutive by lia. rewrite Z.shiftr_div_pow2 by lia.
  pose proof (Z.testbit_spec' len 2). pose proof (Z.testbit_spec' len 1). pose proof (Z.testbit_spec' len 0).
  change (2 ^ 3) with 8. change (2 ^ 2) with 4 in *. change (2 ^ 1) with 2 in *. change (2 ^ 0) with 1 in *.
  destruct (Z.testbit len 2), (Z.testbit len 1), (Z.testbit len 0); simpl Z.b2z in *;
    Z.div_mod_to_equations; lia.
Qed.

Lemma rest_even len k : (k = 4 ∨ k = 2)%nat → Nat.Even (rest_len len k).
Proof.
  intros [->| ->]; unfold rest_len; case_match;
    [by exists 2%nat|by exists 0%nat|by exists 1%nat|by exists 0%nat].
Qed.

Lemma chksum_internet_ok b o len :
  bytes_wf b → 0 ≤ len < 2 ^ 31 → (o + Z.to_nat len ≤ length b)%nat →
  chksum_internet b o len = Some (65535 - ones_fold (word_sum (take (Z.to_nat len) (drop o b)))).
Proof.
  intros Hwf Hlen Hl. pose proof (len_split len ltac:(lia)) as Hn. unfold chksum_internet.
  rewrite u32_small by (unfold U32_MOD; lia). set (n := Z.shiftr len 3) in *.
  assert (∃ sum, (if n =? 0 then Some (0, o) else
      '(sum, cf, o) ← chksum_loop (Z.to_nat n) b o 0 false;
      let '(sum, _) := adc 64 sum 0 cf in Some (sum, o)) = Some (sum, (o + 8 * Z.to_nat n)%nat) ∧
    0 ≤ sum < 2 ^ 64 ∧ ones_eq sum (word_sum (take (8 * Z.to_nat n) (drop o b)))) as (s0 & E0 & Hr0 & Hs0).
  { destruct (Z.eqb_spec n 0) as [En|En].
    - exists 0. rewrite En, Nat.add_0_r. split_and!; [done..|apply ones_eq_zero].
    - destruct (chksum_loop_ok b (Z.to_nat n) o 0 false 0) as (s1 & c1 & E1 & Hc1 & Hs1);
        [done|lia|by split|apply ones_eq_zero|].
      rewrite E1. cbn [mbind option_bind]. apply (adc_carry 64) in Hs1 as [? ?]; [|done|lia].
      destruct (adc 64 s1 0 c1) as [s2 ?]. cbn [fst] in *. eauto. }
  rewrite E0. cbn [mbind option_bind].
  destruct (chksum_tail_ok 4 b len s0 (o + 8 * Z.to_nat n) _ Hwf ltac:(auto) ltac:(lia) Hr0 Hs0) as (s4 & E4 & Hr4 & Hs4).
  rewrite E4. cbn [mbind option_bind].
  destruct (chksum_tail_ok 2 b len s4 (o + 8 * Z.to_nat n + rest_len len 4) _ Hwf ltac:(auto) ltac:(lia) Hr4 Hs4) as (s2 & E2 & Hr2 & Hs2).
  rewrite E2. cbn [mbind option_bind].
  destruct (chksum_tail_ok 1 b len s2 (o + 8 * Z.to_nat n + rest_len len 4 + rest_len len 2) _ Hwf ltac:(auto) ltac:(lia) Hr2 Hs2) as (s1 & E1 & Hr1 & Hs1).
  rewrite E1. cbn [mbind option_bind].
  rewrite (chksum_fold_ok _ _ Hr1 Hs1), Hn. do 3 f_equal.
  rewrite (word_sum_split b o), (word_sum_split b (o + 8 * Z.to_nat n)), (word_sum_split b _ (rest_len len 2));
    try lia; try (apply rest_even; auto).
  exists (4 * Z.to_nat n)%nat. lia.
Qed.

(** C30: On every buffer and length [chksum_internet] returns the complement of the
    16-bit one's complement sum of RFC 1071: no carry of the 64-bit additions is
    lost, and 4-, 2- and 1-byte remainders are added. *)
Theorem chksum_internet_rfc1071 b o len :
  bytes_wf b → 0 ≤ len < 2 ^ 31 → (o + Z.to_nat len ≤ length b)%nat →
  chksum_internet b o len = Some (65535 - ones_fold (word_sum (take (Z.to_nat len) (drop o b)))).
Proof. apply chksum_internet_ok. Qed.

Lemma chksum_internet_rfc1071_witness :
  chksum_internet [0x45; 0x00; 0x00; 0x3c; 0x1c; 0x46; 0x40; 0x00; 0x40; 0x06; 0xff] 0 11 =
    Some (65535 - ones_fold (word_sum [0x45; 0x00; 0x00; 0x3c; 0x1c; 0x46; 0x40; 0x00; 0x40; 0x06; 0xff])).
Proof.
  apply (chksum_internet_rfc1071 [0x45; 0x00; 0x00; 0x3c; 0x1c; 0x46; 0x40; 0x00; 0x40; 0x06; 0xff] 0 11).
  - repeat constructor; lia.
  - lia.
  - simpl. lia.
Defined.

(** ** Checking a stored checksum *)

Lemma word_sum_insert l k x y a b :
  l !! (2 * k)%nat = Some x → l !! S (2 * k) = Some y →
  word_sum (<[S (2 * k) := b]> (<[(2 * k)%nat := a]> l)) = word_sum l - x - 256 * y + a + 256 * b.
Proof.
  revert l. induction k as [|k IH]; intros l Hx Hy.
  - destruct l as [|? [|? l]]; simplify_eq/=. lia.
  - replace (2 * S k)%nat with (S (S (2 * k))) in * by lia.
    destruct l as [|u [|v l]]; [done|done|]. generalize dependent (2 * k)%nat. intros j IH Hx Hy.
    simpl in *. rewrite (IH l Hx Hy). lia.
Qed.

Lemma ones_fold_range s : 0 ≤ s → 0 ≤ ones_fold s ≤ 65535.
Proof. intros Hs. unfold ones_fold. case_match; [lia|]. pose proof (Z.mod_pos_bound (s - 1) 65535). lia. Qed.

Lemma ones_fold_complement s : 0 ≤ s → ones_fold (s + (65535 - ones_fold s)) = 65535.
Proof.
  intros Hs. unfold ones_fold at 2. destruct (Z.eqb_spec s 0) as [->|Hs0]; [done|]. unfold ones_fold.
  pose proof (Z.mod_pos_bound (s - 1) 65535). pose proof (Z.div_mod (s - 1) 65535).
  destruct (Z.eqb_spec (s + (65535 - ((s - 1) mod 65535 + 1))) 0); [lia|].
  replace (s + (65535 - ((s - 1) mod 65535 + 1)) - 1)
    with (65534 + ((s - 1) / 65535) * 65535) by lia.
  by rewrite Z.mod_add.
Qed.

Lemma word_sum_nonneg l : bytes_wf l → 0 ≤ word_sum l.
Proof.
  induction l as [l IH] using (induction_ltof1 _ length). unfold ltof in IH.
  destruct l as [|x [|y l]]; simpl; [lia| |]; rewrite ?Forall_cons; intros Hwf.
  - unfold bytes_wf in Hwf. rewrite Forall_cons in Hwf. lia.
  - unfold bytes_wf in Hwf. rewrite !Forall_cons in Hwf. destruct Hwf as (? & ? & Hl).
    assert (0 ≤ word_sum l) by (apply IH; [simpl; lia|done]). lia.
Qed.

(** The bytes a 16-bit store at an even offset writes. *)
Lemma put16_region b o k v b' len :
  put16 b (o + 2 * k) v = Some b' → (2 * k + 2 ≤ len)%nat → (o + len ≤ length b)%nat →
  take len (drop o b') =
    <[S (2 * k) := v / 256 mod 256]> (<[(2 * k)%nat := v mod 256]> (take len (drop o b))).
Proof.
  intros Hp Hk Hl. rewrite !le_put_S in Hp. rewrite !decide_True in Hp by (rewrite ?length_insert; lia).
  unfold le_put in Hp. simplify_eq. rewrite !drop_insert_ge, !take_insert_lt by lia.
  by replace (S (o + 2 * k) - o)%nat with (S (2 * k)) by lia;
    replace (o + 2 * k - o)%nat with (2 * k)%nat by lia.
Qed.

Lemma chksum_verifies_ok b o k len c b' :
  bytes_wf b → 0 ≤ len < 2 ^ 31 → (o + Z.to_nat len ≤ length b)%nat → (2 * k + 2 ≤ Z.to_nat len)%nat →
  get16 b (o + 2 * k) = Some 0 → chksum_internet b o len = Some c → put16 b (o + 2 * k) c = Some b' →
  chksum_internet b' o len = Some 0.
Proof.
  intros Hwf Hlen Hl Hk Hz Hc Hp. rewrite chksum_internet_ok in Hc by done. simplify_eq.
  assert (bytes_wf b') as Hwf' by (by eapply le_put_wf).
  rewrite chksum_internet_ok; [|done|done|by rewrite (le_put_length _ _ _ _ _ Hp)].
  rewrite (put16_region b o k _ b' (Z.to_nat len) Hp Hk Hl).
  set (l := take (Z.to_nat len) (drop o b)) in *.
  assert (bytes_wf l) as Hwl by (by apply Forall_take, Forall_drop).
  pose proof (word_sum_nonneg l Hwl) as Hn. pose proof (ones_fold_range _ Hn) as Hr.
  assert (∃ x y, l !! (2 * k)%nat = Some x ∧ l !! S (2 * k) = Some y ∧ x = 0 ∧ y = 0) as (x & y & Hx & Hy & -> & ->).
  { rewrite !le_get_S in Hz. unfold l.
    rewrite !lookup_take_lt, !lookup_drop by lia. rewrite Nat.add_succ_r.
    destruct (b !! (o + 2 * k)%nat) as [x|] eqn:Ex; [|done]. cbn [mbind option_bind] in Hz.
    destruct (b !! S (o + 2 * k)) as [y|] eqn:Ey; [|done]. cbn [mbind option_bind] in Hz. unfold le_get in Hz. simplify_eq.
    pose proof (Forall_lookup_1 _ _ _ _ Hwf Ex). pose proof (Forall_lookup_1 _ _ _ _ Hwf Ey). simpl in *.
    apply (inj Some) in Hz. exists x, y. split_and!; [done|done|lia|lia]. }
  rewrite (word_sum_insert l k 0 0) by done. set (S0 := word_sum l) in *.
  set (c := 65535 - ones_fold S0) in *.
  assert (c mod 256 + 256 * (c / 256 mod 256) = c) as Hsplit.
  { rewrite (Z.mod_small (c / 256)) by (split; [apply Z.div_pos; lia|apply Z.div_lt_upper_bound; lia]).
    pose proof (Z.div_mod c 256). lia. }
  replace (S0 - 0 - 256 * 0 + c mod 256 + 256 * (c / 256 mod 256)) with (S0 + c) by lia.
  unfold c. by rewrite ones_fold_complement.
Qed.
