(* ===== verification/Mbuf.v ===== *)
(** * Packet buffers (inc/ix/mbuf.h, dp/core/mbuf.c)

    The header of an mbuf is an object of the shared store; the 2048 data bytes
    behind it are a byte buffer of their own.  A free mbuf is an element of the
    mbuf pool, whose links overlay the first two fields of the header. *)

From S2P Require Import Prelude Stddef Heap Mempool Bytes.
Local Open Scope Z_scope.

(** ** Layout *)
Definition MB_LEN : Z := 0.
Definition MB_NEXT : Z := 8.
Definition MB_IOVS : Z := 16.
Definition MB_NR_IOV : Z := 24.
Definition MB_FG_ID : Z := 28.
Definition MB_OL_FLAGS : Z := 30.
Definition MB_DONE : Z := 32.
Definition MB_DONE_DATA : Z := 40.
Definition MB_TIMESTAMP : Z := 48.
Definition MB_NETWORKER_CY : Z := 56.

Definition MBUF_HEADER_LEN : Z := 64.
Definition MBUF_DATA_LEN : Z := 2048.
Definition MBUF_LEN : Z := MBUF_HEADER_LEN + MBUF_DATA_LEN.
Definition MBUF_CAPACITY : Z := 844 * 1024.
Definition MBUF_INVALID_FG_ID : Z := 0xFFFF.

(** The address of byte [off] of the data, and [mbuf_enough_space] for a position
    given by its offset in the data. *)
Definition mbuf_mtod_off (pkt off : Z) : ptr := u64 (pkt + MBUF_HEADER_LEN + off).
Definition mbuf_enough_space (len pos sz : Z) : bool := u64 (pos + sz) <=? len.

(** The data bytes of the packet buffers; a buffer that was never written is
    zeroed. *)
Abbreviation packets := (gmap Z (list Z)).
Definition mbuf_data (data : packets) (pkt : ptr) : bytes :=
  default (replicate (Z.to_nat MBUF_DATA_LEN) 0) (data !! pkt).
Definition packets_wf (data : packets) : Prop :=
  ∀ p d, data !! p = Some d → bytes_wf d ∧ length d = Z.to_nat MBUF_DATA_LEN.

Lemma mbuf_data_wf data p : packets_wf data → bytes_wf (mbuf_data data p) ∧ length (mbuf_data data p) = Z.to_nat MBUF_DATA_LEN.
Proof.
  intros Hwf. unfold mbuf_data. destruct (data !! p) as [d|] eqn:E; [by apply (Hwf p)|].
  change (default ?x None) with x. rewrite length_replicate. split; [|done]. apply Forall_replicate. lia.
Qed.

(** ** Allocation *)

(** The address of [mbuf_default_done], a function of this file. *)
Definition mbuf_default_done_fn : Z := 1.

Definition mbuf_alloc (m : heap) (P : pool) : option (ptr * heap * pool) :=
  '(x, P) ← mempool_alloc m P;
  if x =? NULL then Some (NULL, m, P) else
  m ← sto m x MB_NEXT NULL;
  m ← sto m x MB_DONE mbuf_default_done_fn;
  Some (x, m, P).

Definition mbuf_free (m : heap) (P : pool) (x : ptr) : option (heap * pool) := mempool_free m P x.

Lemma mbuf_alloc_empty m P : pool_rep m P [] → mbuf_alloc m P = Some (NULL, m, P).
Proof. intros H. unfold mbuf_alloc. by rewrite (sa_alloc_empty m P H). Qed.

Lemma mbuf_alloc_ok m P x F :
  pool_rep m P (x :: F) →
  ∃ m' P', mbuf_alloc m P = Some (x, m', P') ∧ pool_rep m' P' F ∧ x ≠ NULL ∧ x ∉ F ∧
    rd m' x MB_NEXT = NULL ∧ same_outside [x] m m'.
Proof.
  intros H. pose proof (sa_nodup _ _ _ H) as Hnd. apply NoDup_cons in Hnd as [HxF _].
  destruct (sa_alloc_pop m P x F H) as (P' & E & HF & Hx).
  unfold mbuf_alloc. rewrite E. simpl. rewrite (proj2 (Z.eqb_neq _ _) Hx). heap_step.
  set (m' := <[(x, MB_DONE) := _]> _).
  assert (same_outside [x] m m') as Hs.
  { eapply same_outside_trans; apply same_outside_insert; set_solver. }
  exists m', P'. split_and!; try done.
  - eapply sa_frame; [done|..]; eapply same_outside_agree; done || set_solver.
  - unfold m'. rewrite rd_insert_ne by (right; solve_off). by rewrite rd_insert_eq.
Qed.
