(* ===== verification/Pbuf.v ===== *)
(** * lwIP packet buffers (dp/lwip/pbuf.c, misc.c, inc/lwip/lwip/pbuf.h, memp.h)

    A pbuf is an object of the shared store; a packet is a chain of pbufs through
    [next].  The payload bytes are in a byte memory of their own.  Pbufs come from
    two pools, and a pbuf may own a packet buffer of the mbuf pool.

    LWIP_ASSERT is compiled out (LWIP_NOASSERT).  LWIP_ERROR is not: its handler
    follows an abort(), which is the abnormal end of the model. *)

From S2P Require Import Prelude Stddef Heap Mempool ByteMem Mbuf.
Local Open Scope Z_scope.

(** ** Layout and constants *)
Definition PB_NEXT : Z := 8.
Definition PB_PAYLOAD : Z := 24.
Definition PB_MBUF : Z := 32.
Definition PB_TOT_LEN : Z := 40.
Definition PB_LEN : Z := 42.
Definition PB_TYPE : Z := 44.
Definition PB_FLAGS : Z := 45.
Definition PB_REF : Z := 46.
Definition SIZEOF_STRUCT_PBUF : Z := 48.

Definition PBUF_LINK_HLEN : Z := 14.
Definition PBUF_IP_HLEN : Z := 20.
Definition PBUF_TRANSPORT_HLEN : Z := 20.
Definition PBUF_POOL_BUFSIZE_ALIGNED : Z := 1460 + 40 + PBUF_LINK_HLEN.
Definition PBUF_WITH_PAYLOAD_SIZE : Z := 4096.

Inductive pbuf_layer := PBUF_TRANSPORT | PBUF_IP | PBUF_LINK | PBUF_RAW.
(** [pbuf_type] is kept in a byte of the pbuf. *)
Definition PBUF_RAM : Z := 0.
Definition PBUF_ROM : Z := 1.
Definition PBUF_REF : Z := 2.
Definition PBUF_POOL : Z := 3.

Definition PBUF_FLAG_TCP_FIN : Z := 0x20.

Definition ERR_OK : Z := 0.
Definition ERR_ARG : Z := -14.

(** ** State *)

Inductive memp_t := MEMP_TCP_PCB | MEMP_TCP_PCB_LISTEN | MEMP_TCP_SEG | MEMP_SYS_TIMEOUT | MEMP_PBUF | MEMP_PBUF_POOL | MEMP_MAX.
#[export] Instance memp_t_eq_dec : EqDecision memp_t.
Proof. solve_decision. Defined.

(** The pools of one core: one per [memp_t] that has one, [pbuf_with_payload_mempool], and
    the mbuf pool. *)
Record pbs := mk_pbs {
  pb_m : heap;
  pb_pools : memp_t → pool;
  pb_ram : pool;
  pb_mbufs : pool;
  pb_data : gmap Z Z;
}.
#[export] Instance eta_pbs : Settable pbs := λ s, mk_pbs (pb_m s) (pb_pools s) (pb_ram s) (pb_mbufs s) (pb_data s).

Definition pb_ld (p off : Z) : ST pbs Z := λ s, v ← ld (pb_m s) p off; Some (v, s).
Definition pb_heap (f : heap → option heap) : ST pbs unit := λ s, m ← f (pb_m s); Some (tt, s <| pb_m := m |>).
Definition pb_sto (p off v : Z) : ST pbs unit := pb_heap (λ m, sto m p off v).

Lemma pb_ld_run p off s : p ≠ NULL → pb_ld p off s = Some (rd (pb_m s) p off, s).
Proof. intros H. unfold pb_ld. by rewrite ld_some. Qed.
Lemma pb_sto_run p off v s : p ≠ NULL → pb_sto p off v s = Some (tt, s <| pb_m ::= <[(p, off) := v]> |>).
Proof. intros H. unfold pb_sto, pb_heap. by rewrite sto_some. Qed.
Lemma pb_ld_bind {C} p off s (k : Z → ST pbs C) : p ≠ NULL → (pb_ld p off ≫= k) s = k (rd (pb_m s) p off) s.
Proof. intros H. by rewrite (st_run _ _ _ _ _ (pb_ld_run p off s H)). Qed.
Lemma pb_sto_bind {C} p off v s (k : unit → ST pbs C) :
  p ≠ NULL → (pb_sto p off v ≫= k) s = k tt (s <| pb_m ::= <[(p, off) := v]> |>).
Proof. intros H. by rewrite (st_run _ _ _ _ _ (pb_sto_run p off v s H)). Qed.
Lemma pb_ret_bind {A C} (a : A) s (k : A → ST pbs C) : (mret a ≫= k) s = k a s.
Proof. done. Qed.
Ltac pb_step := first [rewrite pb_ld_bind by done | rewrite pb_sto_bind by done]; cbv beta.

Lemma rd_other (m : heap) q o v x off : (x, off) ≠ (q, o) → rd (<[(q, o) := v]> m) x off = rd m x off.
Proof. intros H. apply rd_insert_ne. destruct (decide (q = x)); [right; congruence|by left]. Qed.

(** Walks along [next] end within one step per cell of the store. *)
Definition walk_fuel (m : heap) : nat := S (S (size m)).

(** ** Pools *)

Definition has_pool (t : memp_t) : bool :=
  match t with MEMP_PBUF | MEMP_TCP_PCB | MEMP_TCP_PCB_LISTEN | MEMP_TCP_SEG => true | _ => false end.
Definition set_pool (t : memp_t) (P : pool) (s : pbs) : pbs :=
  s <| pb_pools ::= λ f t', if decide (t' = t) then P else f t' |>.

Definition memp_malloc (t : memp_t) : ST pbs ptr := λ s,
  if has_pool t then '(x, P) ← mempool_alloc (pb_m s) (pb_pools s t); Some (x, set_pool t P s) else Some (NULL, s).
Definition memp_free (t : memp_t) (x : ptr) : ST pbs unit := λ s,
  if has_pool t then '(m, P) ← mempool_free (pb_m s) (pb_pools s t) x; Some (tt, set_pool t P (s <| pb_m := m |>)) else Some (tt, s).

Definition ram_alloc : ST pbs ptr := λ s, '(x, P) ← mempool_alloc (pb_m s) (pb_ram s); Some (x, s <| pb_ram := P |>).
Definition mem_malloc (size : Z) : ST pbs ptr := ram_alloc.
Definition mem_free (x : ptr) : ST pbs unit := λ s,
  '(m, P) ← mempool_free (pb_m s) (pb_ram s) x; Some (tt, s <| pb_m := m |> <| pb_ram := P |>).
Definition pb_mbuf_free (x : ptr) : ST pbs unit := λ s,
  '(m, P) ← mbuf_free (pb_m s) (pb_mbufs s) x; Some (tt, s <| pb_m := m |> <| pb_mbufs := P |>).

(** ** Freeing *)

Definition release_mbuf (p : ptr) : ST pbs unit :=
  mb ← pb_ld p PB_MBUF;
  if negb (mb =? NULL) then pb_mbuf_free mb;; pb_sto p PB_MBUF NULL else mret ().

Definition release_pbuf (p : ptr) : ST pbs unit :=
  type ← pb_ld p PB_TYPE;
  if type =? PBUF_POOL then memp_free MEMP_PBUF_POOL p
  else if (type =? PBUF_ROM) || (type =? PBUF_REF) then memp_free MEMP_PBUF p
  else mem_free p.

(** The loop of [pbuf_free]: pbufs are released from the head while their count drops
    to zero. *)
Fixpoint free_loop (fuel : nat) (p count : Z) : ST pbs Z :=
  match fuel with
  | O => st_fail
  | S fuel' =>
      if p =? NULL then mret count else
      r ← pb_ld p PB_REF;
      pb_sto p PB_REF (u16 (r - 1));;
      if u16 (r - 1) =? 0 then
        release_mbuf p;;
        q ← pb_ld p PB_NEXT;
        release_pbuf p;;
        free_loop fuel' q (u8 (count + 1))
      else mret count
  end.
Definition pbuf_free (p : ptr) : ST pbs Z := λ s, if p =? NULL then Some (0, s) else free_loop (walk_fuel (pb_m s)) p 0 s.

(** ** Allocating *)

Definition layer_offset (layer : pbuf_layer) : Z :=
  match layer with
  | PBUF_TRANSPORT => PBUF_LINK_HLEN + PBUF_IP_HLEN + PBUF_TRANSPORT_HLEN
  | PBUF_IP => PBUF_LINK_HLEN + PBUF_IP_HLEN
  | PBUF_LINK => PBUF_LINK_HLEN
  | PBUF_RAW => 0
  end.

(** The rest of a PBUF_POOL chain; [false] when an allocation failed and the chain is freed. *)
Fixpoint alloc_tail (fuel : nat) (p r rem_len : Z) : ST pbs bool :=
  match fuel with
  | O => st_fail
  | S fuel' =>
      if rem_len <=? 0 then mret true else
      q ← memp_malloc MEMP_PBUF_POOL;
      if q =? NULL then pbuf_free p;; mret false else
      pb_sto q PB_TYPE PBUF_POOL;;
      pb_sto q PB_FLAGS 0;;
      pb_sto q PB_NEXT NULL;;
      pb_sto r PB_NEXT q;;
      pb_sto q PB_TOT_LEN (u16 rem_len);;
      let len := Z.min (u16 rem_len) PBUF_POOL_BUFSIZE_ALIGNED in
      pb_sto q PB_LEN len;;
      pb_sto q PB_PAYLOAD (u64 (q + SIZEOF_STRUCT_PBUF));;
      pb_sto q PB_REF 1;;
      alloc_tail fuel' p q (rem_len - len)
  end.

(** [p->ref = 1; p->flags = 0; return p;] *)
Definition alloc_done (p : ptr) : ST pbs ptr := pb_sto p PB_REF 1;; pb_sto p PB_FLAGS 0;; mret p.

Definition alloc_pool (offset length : Z) : ST pbs ptr :=
  p ← memp_malloc MEMP_PBUF_POOL;
  if p =? NULL then mret NULL else
  pb_sto p PB_TYPE PBUF_POOL;;
  pb_sto p PB_NEXT NULL;;
  pb_sto p PB_PAYLOAD (u64 (p + (SIZEOF_STRUCT_PBUF + offset)));;
  pb_sto p PB_TOT_LEN length;;
  let len := Z.min length (PBUF_POOL_BUFSIZE_ALIGNED - offset) in
  pb_sto p PB_LEN len;;
  pb_sto p PB_REF 1;;
  ok ← alloc_tail (S (Z.to_nat length)) p p (length - len);
  if ok : bool then alloc_done p else mret NULL.

Definition alloc_ram (offset length : Z) : ST pbs ptr :=
  p ← ram_alloc;
  if p =? NULL then mret NULL else
  pb_sto p PB_PAYLOAD (u64 (p + SIZEOF_STRUCT_PBUF + offset));;
  pb_sto p PB_TOT_LEN length;;
  pb_sto p PB_LEN length;;
  pb_sto p PB_NEXT NULL;;
  pb_sto p PB_TYPE PBUF_RAM;;
  alloc_done p.

Definition alloc_ref (length type : Z) : ST pbs ptr :=
  p ← memp_malloc MEMP_PBUF;
  if p =? NULL then mret NULL else
  pb_sto p PB_PAYLOAD NULL;;
  pb_sto p PB_TOT_LEN length;;
  pb_sto p PB_LEN length;;
  pb_sto p PB_NEXT NULL;;
  pb_sto p PB_TYPE type;;
  alloc_done p.

Definition pbuf_alloc (layer : pbuf_layer) (length type : Z) : ST pbs ptr :=
  let offset := layer_offset layer in
  if type =? PBUF_POOL then alloc_pool offset length
  else if type =? PBUF_RAM then alloc_ram offset length
  else if (type =? PBUF_ROM) || (type =? PBUF_REF) then alloc_ref length type
  else mret NULL.

(** ** Counting references and linking *)

Definition pbuf_ref (m : heap) (p : ptr) : option heap :=
  if p =? NULL then Some m else r ← ld m p PB_REF; sto m p PB_REF (u16 (r + 1)).

Fixpoint clen_walk (fuel : nat) (m : heap) (p len : Z) : option Z :=
  match fuel with
  | O => None
  | S fuel' => if p =? NULL then Some len else n ← ld m p PB_NEXT; clen_walk fuel' m n (u8 (len + 1))
  end.
Definition pbuf_clen (m : heap) (p : ptr) : option Z := clen_walk (walk_fuel m) m p 0.

(** The loop of [pbuf_cat]: to the last pbuf, whose [tot_len] is still to be changed. *)
Fixpoint cat_walk (fuel : nat) (m : heap) (p t : ptr) : option (heap * ptr) :=
  match fuel with
  | O => None
  | S fuel' =>
      n ← ld m p PB_NEXT;
      if n =? NULL then Some (m, p) else
      a ← ld m p PB_TOT_LEN;
      b ← ld m t PB_TOT_LEN;
      m ← sto m p PB_TOT_LEN (u16 (a + b));
      cat_walk fuel' m n t
  end.
Definition pbuf_cat (m : heap) (h t : ptr) : option heap :=
  if (h =? NULL) || (t =? NULL) then None else
  '(m, p) ← cat_walk (walk_fuel m) m h t;
  a ← ld m p PB_TOT_LEN;
  b ← ld m t PB_TOT_LEN;
  m ← sto m p PB_TOT_LEN (u16 (a + b));
  sto m p PB_NEXT t.
Definition pbuf_chain (m : heap) (h t : ptr) : option heap :=
  m ← pbuf_cat m h t;
  pbuf_ref m t.

Definition pbuf_dechain (p : ptr) : ST pbs ptr :=
  q ← pb_ld p PB_NEXT;
  if q =? NULL then mret NULL else
  tot ← pb_ld p PB_TOT_LEN;
  len ← pb_ld p PB_LEN;
  pb_sto q PB_TOT_LEN (u16 (tot - len));;
  pb_sto p PB_NEXT NULL;;
  len ← pb_ld p PB_LEN;
  pb_sto p PB_TOT_LEN len;;
  tail_gone ← pbuf_free q;
  mret (if 0 <? tail_gone then NULL else q).

(** The walk of [pbuf_realloc] to the new last pbuf, and the length left for it. *)
Fixpoint realloc_walk (fuel : nat) (m : heap) (q rem_len grow : Z) : option (heap * ptr * Z) :=
  match fuel with
  | O => None
  | S fuel' =>
      len ← ld m q PB_LEN;
      if rem_len <=? len then Some (m, q, rem_len) else
      tot ← ld m q PB_TOT_LEN;
      m ← sto m q PB_TOT_LEN (u16 (tot + u16 grow));
      n ← ld m q PB_NEXT;
      realloc_walk fuel' m n (u16 (rem_len - len)) grow
  end.
(** [mem_trim] returns its argument. *)
Definition pbuf_realloc (p : ptr) (new_len : Z) : ST pbs unit :=
  tot ← pb_ld p PB_TOT_LEN;
  if tot <=? new_len then mret () else
  qr ← (λ s, '(m, q, rem_len) ← realloc_walk (walk_fuel (pb_m s)) (pb_m s) p new_len (new_len - tot);
             Some ((q, rem_len), s <| pb_m := m |>));
  let '(q, rem_len) := qr : Z * Z in
  pb_sto q PB_LEN rem_len;;
  pb_sto q PB_TOT_LEN rem_len;;
  n ← pb_ld q PB_NEXT;
  (if negb (n =? NULL) then pbuf_free n;; mret () else mret ());;
  pb_sto q PB_NEXT NULL.

(** The result is 0 on success, 1 on failure; hiding more than the pbuf holds aborts. *)
Definition pbuf_header (m : heap) (p header_size_increment : Z) : option (Z * heap) :=
  if (header_size_increment =? 0) || (p =? NULL) then Some (0, m) else
  len ← ld m p PB_LEN;
  let magnitude := u16 (if header_size_increment <? 0 then - header_size_increment else header_size_increment) in
  if (header_size_increment <? 0) && negb (magnitude <=? len) then None else
  type ← ld m p PB_TYPE;
  payload ← ld m p PB_PAYLOAD;
  let moved := u64 (payload - header_size_increment) in
  let finish m :=
    m ← sto m p PB_LEN (u16 (len + header_size_increment));
    tot ← ld m p PB_TOT_LEN;
    m ← sto m p PB_TOT_LEN (u16 (tot + header_size_increment));
    Some (0, m) in
  if (type =? PBUF_RAM) || (type =? PBUF_POOL) then
    if moved <? u64 (p + SIZEOF_STRUCT_PBUF) then
      m ← sto m p PB_PAYLOAD moved; m ← sto m p PB_PAYLOAD payload; Some (1, m)
    else m ← sto m p PB_PAYLOAD moved; finish m
  else if (type =? PBUF_REF) || (type =? PBUF_ROM) then
    if (header_size_increment <? 0) && (magnitude <=? len) then m ← sto m p PB_PAYLOAD moved; finish m else Some (1, m)
  else Some (1, m).

(** ** Splitting *)

(** The search for the last pbuf of the first 64K: that pbuf and the one after it. *)
Fixpoint split_walk (fuel : nat) (m : heap) (i r front : Z) : option (Z * Z) :=
  match fuel with
  | O => None
  | S fuel' =>
      if r =? NULL then Some (i, r) else
      len ← ld m r PB_LEN;
      if front <? u16 (front + len) then n ← ld m r PB_NEXT; split_walk fuel' m r n (u16 (front + len)) else Some (i, r)
  end.
Fixpoint split_fix (fuel : nat) (m : heap) (i r : Z) : option heap :=
  match fuel with
  | O => None
  | S fuel' =>
      if i =? NULL then Some m else
      a ← ld m i PB_TOT_LEN;
      b ← ld m r PB_TOT_LEN;
      m ← sto m i PB_TOT_LEN (u16 (a - b));
      n ← ld m i PB_NEXT;
      split_fix fuel' m n r
  end.
(** The second component is what is stored at [rest]. *)
Definition pbuf_split_64k (m : heap) (p : ptr) : option (heap * ptr) :=
  if p =? NULL then Some (m, NULL) else
  r ← ld m p PB_NEXT;
  if r =? NULL then Some (m, NULL) else
  front ← ld m p PB_LEN;
  '(i, r) ← split_walk (walk_fuel m) m p r front;
  m ← sto m i PB_NEXT NULL;
  if r =? NULL then Some (m, NULL) else
  m ← split_fix (walk_fuel m) m p r;
  fl ← ld m p PB_FLAGS;
  if negb (Z.land fl PBUF_FLAG_TCP_FIN =? 0) then
    rf ← ld m r PB_FLAGS;
    m ← sto m r PB_FLAGS (Z.lor rf PBUF_FLAG_TCP_FIN);
    Some (m, r)
  else Some (m, r).

(** ** Received packets (misc.c) *)

(** [tcp_input_tmp] up to the call of [tcp_input]: the packet behind its IP header becomes a
    pbuf that owns the mbuf.  Without a free pbuf it stores through NULL. *)
Definition tcp_input_pbuf (pkt len header_len tcphdr : Z) : ST pbs ptr :=
  p ← pbuf_alloc PBUF_RAW (u16 (ntoh16 len - header_len * 4)) PBUF_ROM;
  pb_sto p PB_PAYLOAD tcphdr;;
  pb_sto p PB_MBUF pkt;;
  mret p.

(** ** Ownership

    Every reference is either held by a user of the module ([H], with multiplicity) or
    is the [next] field of a live pbuf. *)

Definition nx (m : heap) (x : ptr) : list ptr := if rd m x PB_NEXT =? NULL then [] else [rd m x PB_NEXT].
Definition links (m : heap) (L : list ptr) : list ptr := L ≫= nx m.
Definition mbs (m : heap) (x : ptr) : list ptr := if rd m x PB_MBUF =? NULL then [] else [rd m x PB_MBUF].
Definition attached (m : heap) (L : list ptr) : list ptr := L ≫= mbs m.

(** The number of references to [x]. *)
Definition refs (R : list ptr) (x : ptr) : Z := Z.of_nat (count_occ Z.eq_dec R x).

(** [m] and [m'] have the same fields [offs] for all of [L]. *)
Definition same_fields (offs : list Z) (L : list ptr) (m m' : heap) : Prop :=
  ∀ x off, x ∈ L → off ∈ offs → rd m' x off = rd m x off.

Lemma refs_cons x R y : refs (x :: R) y = (if decide (x = y) then 1 else 0) + refs R y.
Proof. unfold refs. cbn [count_occ]. destruct (Z.eq_dec x y), (decide (x = y)); lia. Qed.
Lemma refs_app R R' y : refs (R ++ R') y = refs R y + refs R' y.
Proof. unfold refs. rewrite count_occ_app. lia. Qed.
Lemma refs_perm R R' y : R ≡ₚ R' → refs R y = refs R' y.
Proof. intros H. unfold refs. f_equal. by apply Permutation_count_occ. Qed.
Lemma refs_pos R y : 0 < refs R y ↔ y ∈ R.
Proof. unfold refs. rewrite list_elem_of_In, (count_occ_In Z.eq_dec). lia. Qed.
Lemma refs_nonneg R y : 0 ≤ refs R y.
Proof. unfold refs. lia. Qed.

Lemma links_perm m L L' : L ≡ₚ L' → links m L ≡ₚ links m L'.
Proof. intros H. unfold links. by rewrite H. Qed.
Lemma attached_perm m L L' : L ≡ₚ L' → attached m L ≡ₚ attached m L'.
Proof. intros H. unfold attached. by rewrite H. Qed.

Lemma links_same m m' L : same_fields [PB_NEXT] L m m' → links m' L = links m L.
Proof.
  induction L as [|x L IH]; intros H; [done|]. unfold links. cbn [mbind list_bind]. f_equal.
  - unfold nx. rewrite H by set_solver. done.
  - apply IH. intros y off Hy Ho. apply H; set_solver.
Qed.
Lemma attached_same m m' L : same_fields [PB_MBUF] L m m' → attached m' L = attached m L.
Proof.
  induction L as [|x L IH]; intros H; [done|]. unfold attached. cbn [mbind list_bind]. f_equal.
  - unfold mbs. rewrite H by set_solver. done.
  - apply IH. intros y off Hy Ho. apply H; set_solver.
Qed.

Lemma elem_of_links m L x y : x ∈ L → rd m x PB_NEXT = y → y ≠ NULL → y ∈ links m L.
Proof.
  intros Hx E Hy. unfold links. apply list_elem_of_bind. exists x. split; [|done]. unfold nx. rewrite E, (proj2 (Z.eqb_neq _ _) Hy).
  by apply list_elem_of_singleton.
Qed.

(** Objects reached from a closed set stay in it. *)
Lemma chain_closed m (X : list ptr) x l :
  (∀ y, y ∈ X → rd m y PB_NEXT = NULL ∨ rd m y PB_NEXT ∈ X) → x ∈ X → chain m PB_NEXT x l → ∀ y, y ∈ l → y ∈ X.
Proof.
  intros Hcl. revert x. induction l as [|z l IH]; intros x Hx Hc y Hy; [by apply elem_of_nil in Hy|].
  destruct Hc as (-> & Hz & Hc). apply elem_of_cons in Hy as [->|Hy]; [done|].
  destruct (Hcl z Hx) as [E|E]; [|by eapply IH].
  rewrite E in Hc. destruct l as [|w l]; [by apply elem_of_nil in Hy|]. destruct Hc as (<- & Hc & _). done.
Qed.

(** A chain ends, so it has no repetition. *)
Lemma chain_suffix m off p l x : chain m off p l → x ∈ l → ∃ l1 l2, l = l1 ++ x :: l2 ∧ chain m off x (x :: l2).
Proof.
  intros Hc Hx. apply list_elem_of_split in Hx as (l1 & l2 & ->). exists l1, l2. split; [done|].
  apply lseg_app in Hc as (q & _ & Hc). pose proof Hc as (-> & _). done.
Qed.
Lemma chain_nodup m off p l : chain m off p l → NoDup l.
Proof.
  revert p. induction l as [|x l IH]; intros p Hc; [by apply NoDup_nil|]. apply NoDup_cons. split; [|destruct Hc as (_ & _ & Hc); by eapply IH].
  intros Hx. destruct (chain_suffix m off p (x :: l) x Hc) as (l1 & l2 & _ & _); [by apply elem_of_cons; left|].
  destruct Hc as (-> & Hn & Hc). destruct (chain_suffix m off _ l x Hc Hx) as (k1 & k2 & E & Hk).
  assert (E' : x :: l = x :: k2) by (by eapply chain_inj). injection E' as E'. rewrite E' in E. apply (f_equal length) in E.
  rewrite length_app in E. cbn [length] in E. lia.
Qed.

(** Every object of a chain but the last has a stored link, so walks have fuel for it. *)
Lemma chain_links_stored m off p l e : lseg m off p l e → e ≠ NULL → ∀ x, x ∈ l → (x, off) ∈ dom m.
Proof.
  revert p. induction l as [|y l IH]; intros p Hc He x Hx; [by apply elem_of_nil in Hx|]. destruct Hc as (_ & _ & Hc).
  apply elem_of_cons in Hx as [->|Hx]; [|by eapply IH]. apply elem_of_dom. destruct (m !! (y, off)) as [v|] eqn:E; [by eexists|].
  unfold rd in Hc. rewrite E in Hc. destruct l as [|z l]; [by destruct He|]. destruct Hc as (<- & ? & _). done.
Qed.
Lemma chain_walk_fuel m off p l : chain m off p l → (length l < walk_fuel m)%nat.
Proof.
  intros Hc. pose proof (chain_nodup _ _ _ _ Hc) as Hnd. unfold walk_fuel. destruct l as [|y l _] using rev_ind; [cbn; lia|].
  apply lseg_app in Hc as (q & Hc & -> & Hy & _). apply NoDup_app in Hnd as (Hnd & _). rewrite length_app. cbn [length].
  assert (length l ≤ size m)%nat; [|lia]. rewrite <- (size_dom m), <- (length_fmap (λ x, (x, off)) l).
  rewrite <- (size_list_to_set (C := gset (Z * Z))) by (apply NoDup_fmap_2; [by intros ?? [=]|done]).
  apply subseteq_size. intros z. rewrite elem_of_list_to_set, list_elem_of_fmap. intros (x & -> & Hx). by eapply chain_links_stored.
Qed.

(** The object whose link is NULL is the last one. *)
Lemma chain_last_at m off p l y : chain m off p l → y ∈ l → rd m y off = NULL → ∃ l0, l = l0 ++ [y].
Proof.
  intros Hc Hy Hn. destruct (chain_suffix m off p l y Hc Hy) as (l1 & l2 & -> & _ & _ & Hc2). rewrite Hn in Hc2.
  exists l1. do 2 f_equal. destruct l2 as [|z l2]; [done|]. destruct Hc2 as (<- & ? & _). done.
Qed.
Lemma chain_last_null m off p l0 y : chain m off p (l0 ++ [y]) → rd m y off = NULL.
Proof. intros Hc. apply lseg_app in Hc as (q & _ & -> & _ & Hc). exact Hc. Qed.

(** ** The walk of [pbuf_cat] *)

Lemma cat_walk_ok fuel m p t l0 y :
  chain m PB_NEXT p (l0 ++ [y]) → t ∉ l0 ++ [y] → t ≠ NULL → (length l0 < fuel)%nat →
  ∃ m', cat_walk fuel m p t = Some (m', y) ∧
    (∀ x, x ∈ l0 → rd m' x PB_TOT_LEN = u16 (rd m x PB_TOT_LEN + rd m t PB_TOT_LEN)) ∧
    (∀ x off, ¬ (x ∈ l0 ∧ off = PB_TOT_LEN) → rd m' x off = rd m x off).
Proof.
  revert m p l0. induction fuel as [|fuel IH]; intros m p l0 Hc Ht Htn Hf; [lia|]. pose proof (chain_nodup _ _ _ _ Hc) as Hnd.
  destruct l0 as [|z l0]; cbn [app] in *.
  - destruct Hc as (-> & Hy & Hn). cbn [lseg] in Hn. cbn [cat_walk]. rewrite (ld_some m y PB_NEXT) by done. cbn [mbind option_bind]. rewrite Hn. cbn [Z.eqb].
    exists m. split_and!; [done| |done]. intros x Hx. by apply elem_of_nil in Hx.
  - destruct Hc as (-> & Hz & Hc). apply NoDup_cons in Hnd as [Hzn _]. cbn [cat_walk]. rewrite (ld_some m z PB_NEXT) by done. cbn [mbind option_bind].
    assert (Hnz : rd m z PB_NEXT ≠ NULL) by (destruct l0; destruct Hc as (-> & ? & _); done).
    rewrite (proj2 (Z.eqb_neq _ _) Hnz). heap_step_head.
    set (m1 := <[(z, PB_TOT_LEN) := _]> m).
    destruct (IH m1 (rd m z PB_NEXT) l0) as (m' & E & Htot & Hout).
    { eapply lseg_frame, Hc. intros x Hx. apply rd_insert_ne. by right. }
    { set_solver. } { done. } { cbn [length] in Hf. lia. }
    exists m'. split_and!; [exact E| |].
    + intros x [->|Hx]%elem_of_cons.
      * rewrite Hout by (intros [? _]; set_solver). apply rd_insert_eq.
      * rewrite Htot by done. unfold m1. rewrite !rd_insert_ne; [done|left; set_solver|left; intros <-; apply Hzn; set_solver].
    + intros x off Hx. rewrite Hout by set_solver. apply rd_insert_ne. destruct (decide (z = x)) as [->|]; [right; set_solver|by left].
Qed.

Lemma pbuf_cat_run m h t l0 y :
  chain m PB_NEXT h (l0 ++ [y]) → t ∉ l0 ++ [y] → t ≠ NULL → (length l0 < walk_fuel m)%nat →
  ∃ m', pbuf_cat m h t = Some m' ∧ rd m' y PB_NEXT = t ∧
    (∀ x, x ∈ l0 ++ [y] → rd m' x PB_TOT_LEN = u16 (rd m x PB_TOT_LEN + rd m t PB_TOT_LEN)) ∧
    (∀ x off, ¬ (x ∈ l0 ++ [y] ∧ off = PB_TOT_LEN) → (x, off) ≠ (y, PB_NEXT) → rd m' x off = rd m x off).
Proof.
  intros Hc Ht Htn Hf. assert (Hh : h ≠ NULL) by (destruct l0; destruct Hc as (-> & ? & _); done).
  assert (Hy : y ≠ NULL) by (eapply (lseg_non_null _ _ _ _ _ y Hc); set_solver).
  pose proof (chain_nodup _ _ _ _ Hc) as Hnd. apply NoDup_app in Hnd as (_ & Hyl & _).
  unfold pbuf_cat. rewrite !(proj2 (Z.eqb_neq _ _)) by done. cbn [orb].
  destruct (cat_walk_ok (walk_fuel m) m h t l0 y Hc Ht Htn Hf) as (m1 & E & Htot & Hout). rewrite E. cbn [mbind option_bind].
  heap_step_head. eexists. split; [reflexivity|].
  split_and!; [apply rd_insert_eq| |].
  - intros x Hx. rewrite rd_insert_ne by (by right). destruct (decide (x = y)) as [->|Hne].
    + rewrite rd_insert_eq, !Hout; [done|set_solver|intros [? _]; by eapply Hyl; [|apply list_elem_of_singleton]].
    + rewrite rd_insert_ne by (left; congruence). apply Htot. set_solver.
  - intros x off Hx Hne. rewrite !rd_insert_ne; [|destruct (decide (y = x)) as [->|]; [right; set_solver|by left]..].
    apply Hout. set_solver.
Qed.

(** ** The walk of [pbuf_realloc] *)

(** The bytes of the pbufs of a list. *)
Definition clen (m : heap) (l : list ptr) : Z := foldr (λ x n, rd m x PB_LEN + n) 0 l.
Definition lens_ok (m : heap) (l : list ptr) : Prop := Forall (λ x, 0 ≤ rd m x PB_LEN < 65536) l.

Lemma clen_app m l k : clen m (l ++ k) = clen m l + clen m k.
Proof. induction l as [|x l IH]; [done|]. cbn [app clen foldr]. fold (clen m (l ++ k)) (clen m l). lia. Qed.
Lemma clen_same m m' l : (∀ x, x ∈ l → rd m' x PB_LEN = rd m x PB_LEN) → clen m' l = clen m l.
Proof. induction l as [|x l IH]; intros H; [done|]. cbn [clen foldr]. rewrite H by set_solver. fold (clen m' l) (clen m l). rewrite IH; [done|]. set_solver. Qed.
Lemma clen_nonneg m l : lens_ok m l → 0 ≤ clen m l.
Proof. induction 1 as [|x l Hx Hl IH]; [done|]. cbn [clen foldr]. fold (clen m l). lia. Qed.

Lemma realloc_walk_ok fuel m p l rem grow :
  chain m PB_NEXT p l → l ≠ [] → lens_ok m l → 0 ≤ rem < 65536 → rem ≤ clen m l → (length l < fuel)%nat →
  ∃ m' l1 q l2, l = l1 ++ q :: l2 ∧ realloc_walk fuel m p rem grow = Some (m', q, rem - clen m l1) ∧
    0 ≤ rem - clen m l1 ≤ rd m q PB_LEN ∧
    (∀ x, x ∈ l1 → rd m' x PB_TOT_LEN = u16 (rd m x PB_TOT_LEN + u16 grow)) ∧
    (∀ x off, ¬ (x ∈ l1 ∧ off = PB_TOT_LEN) → rd m' x off = rd m x off).
Proof.
  revert m p l rem. induction fuel as [|fuel IH]; intros m p l rem Hc Hne Hl Hr Hcl Hf; [lia|].
  destruct l as [|x l]; [done|]. pose proof (chain_nodup _ _ _ _ Hc) as Hnd. apply NoDup_cons in Hnd as [Hxl _].
  destruct Hc as (-> & Hx & Hc). apply Forall_cons in Hl as [Hlx Hl]. cbn [realloc_walk]. heap_step_head.
  destruct (Z.leb_spec rem (rd m x PB_LEN)) as [Hle|Hgt].
  { exists m, [], x, l. cbn [clen foldr app]. rewrite Z.sub_0_r. split_and!; try done; try lia. intros y Hy. by apply elem_of_nil in Hy. }
  heap_step_head. set (m1 := <[(x, PB_TOT_LEN) := _]> m). cbn [clen foldr] in Hcl. fold (clen m l) in Hcl.
  assert (Hm1 : ∀ y off, (y, off) ≠ (x, PB_TOT_LEN) → rd m1 y off = rd m y off).
  { intros y off Hn. by apply rd_other. }
  rewrite (Hm1 x PB_NEXT) by done. rewrite u16_small by lia.
  destruct (IH m1 (rd m x PB_NEXT) l (rem - rd m x PB_LEN)) as (m' & l1 & q & l2 & El & E & Hq & Ht & Ho).
  { eapply lseg_frame, Hc. intros y _. by apply Hm1. }
  { intros ->. cbn in Hcl. lia. }
  { eapply Forall_impl; [exact Hl|]. intros y Hy. by rewrite Hm1. }
  { lia. } { rewrite (clen_same m); [lia|]. intros y _. by apply Hm1. } { cbn [length] in Hf. lia. }
  assert (Hc1 : clen m1 l1 = clen m l1) by (apply clen_same; intros y _; by apply Hm1).
  exists m', (x :: l1), q, l2. cbn [clen foldr app]. fold (clen m l1). rewrite E, Hc1. rewrite Hc1, (Hm1 q) in Hq by done.
  split_and!; [by rewrite El|by rewrite Z.sub_add_distr|lia|lia| |].
  - intros y [->|Hy]%elem_of_cons.
    + rewrite Ho by (intros [? _]; set_solver). apply rd_insert_eq.
    + rewrite Ht by done. rewrite Hm1; [done|]. intros [= ->]. set_solver.
  - intros y off Hn. rewrite Ho by set_solver. apply Hm1. intros [= -> ->]. set_solver.
Qed.

(** ** The walks of [pbuf_split_64k] *)

(** The first part has less than 64K; the search stops at the end, at an empty pbuf or where
    the next one would reach 64K. *)
Lemma split_walk_ok fuel m i r l front :
  chain m PB_NEXT r l → lens_ok m l → 0 ≤ front < 65536 → (length l < fuel)%nat →
  ∃ k i' r' l2, split_walk fuel m i r front = Some (i', r') ∧ l = k ++ l2 ∧ (∃ k0, i :: k = k0 ++ [i']) ∧ lseg m PB_NEXT r k r' ∧
    chain m PB_NEXT r' l2 ∧ front + clen m k < 65536 ∧
    (∀ x l', l2 = x :: l' → rd m x PB_LEN = 0 ∨ 65536 ≤ front + clen m k + rd m x PB_LEN).
Proof.
  revert i r l front. induction fuel as [|fuel IH]; intros i r l front Hc Hl Hr Hf; [lia|]. cbn [split_walk]. destruct l as [|x l].
  { rewrite Hc. exists [], i, NULL, []. split_and!; try done; [by exists []|cbn [clen foldr]; lia]. }
  pose proof Hc as (-> & Hx & Hn). rewrite (proj2 (Z.eqb_neq _ _) Hx). heap_step_head. apply Forall_cons in Hl as [Hlx Hl].
  destruct (Z.ltb_spec front (u16 (front + rd m x PB_LEN))) as [Hlt|Hge].
  - assert (Hsm : front + rd m x PB_LEN < 65536).
    { unfold u16, U16_MOD in Hlt. destruct (Z.lt_ge_cases (front + rd m x PB_LEN) 65536); [done|].
      rewrite <- (Z.mod_unique_pos _ _ 1 (front + rd m x PB_LEN - 65536)) in Hlt by lia. lia. }
    heap_step_head. rewrite u16_small by lia.
    destruct (IH x (rd m x PB_NEXT) l (front + rd m x PB_LEN)) as (k & i' & r' & l2 & E & -> & (k0 & Ek) & Hk & Hc2 & Hs & He); [done..|lia|cbn in Hf; lia|].
    exists (x :: k), i', r', l2. cbn [clen foldr]. fold (clen m k). split_and!; try done; [exists (i :: k0); cbn; by rewrite Ek|lia|].
    intros y l' ->. destruct (He y l' eq_refl); [by left|right; lia].
  - exists [], i, x, (x :: l). cbn [clen foldr]. split_and!; try done; [by exists []|lia|]. intros y l' [= <- <-].
    destruct (Z.eq_dec (rd m x PB_LEN) 0); [by left|right]. destruct (Z.lt_ge_cases (front + rd m x PB_LEN) 65536); [|lia].
    rewrite u16_small in Hge by lia. lia.
Qed.

Lemma split_fix_ok fuel m p l r :
  chain m PB_NEXT p l → r ∉ l → r ≠ NULL → (length l < fuel)%nat →
  ∃ m', split_fix fuel m p r = Some m' ∧
    (∀ x, x ∈ l → rd m' x PB_TOT_LEN = u16 (rd m x PB_TOT_LEN - rd m r PB_TOT_LEN)) ∧
    (∀ x off, ¬ (x ∈ l ∧ off = PB_TOT_LEN) → rd m' x off = rd m x off).
Proof.
  revert m p l. induction fuel as [|fuel IH]; intros m p l Hc Hr Hrn Hf; [lia|]. cbn [split_fix]. pose proof (chain_nodup _ _ _ _ Hc) as Hnd.
  destruct l as [|x l].
  { rewrite Hc. exists m. split_and!; [done| |done]. intros x Hx. by apply elem_of_nil in Hx. }
  destruct Hc as (-> & Hx & Hc). apply NoDup_cons in Hnd as [Hxl _]. apply not_elem_of_cons in Hr as [Hrx Hr].
  rewrite (proj2 (Z.eqb_neq _ _) Hx). heap_step_head. set (m1 := <[(x, PB_TOT_LEN) := _]> m).
  assert (H1 : ∀ y off, (y, off) ≠ (x, PB_TOT_LEN) → rd m1 y off = rd m y off) by (intros; by apply rd_other).
  destruct (IH m1 (rd m1 x PB_NEXT) l) as (m' & E & Ht & Ho); [|done|done|cbn in Hf; lia|].
  { rewrite H1 by done. eapply lseg_frame, Hc. intros y _. by apply H1. }
  exists m'. split_and!; [exact E| |].
  - intros y [->|Hy]%elem_of_cons.
    + rewrite Ho by (by intros [? _]). apply rd_insert_eq.
    + rewrite Ht, !H1 by (done || congruence || by intros [= ->]). done.
  - intros y off Hy. rewrite elem_of_cons in Hy. rewrite Ho by tauto. apply H1. intros [= -> ->]. apply Hy. auto.
Qed.
