(* ===== verification/PbufOwn.v ===== *)
(** * Ownership of packet buffers: reference counts, release and allocation

    The invariant [pb_inv] of the pbuf pools, and what [pbuf_ref], [pbuf_free] and
    [pbuf_alloc] do under it. *)

From S2P Require Import Prelude Stddef Heap Mempool ByteMem Mbuf Pbuf.
Local Open Scope Z_scope.

(** The elements of the pbuf pool, of the pool with payloads, and of the mbuf pool. *)
Class PbufElements := {
  els_pbuf : list ptr;
  els_ram : list ptr;
  els_mbuf : list ptr;
  els_nodup : NoDup (els_pbuf ++ els_ram ++ els_mbuf);
  els_non_null : NULL ∉ els_pbuf ++ els_ram ++ els_mbuf;
}.

Ltac mem := repeat (rewrite ?list_elem_of_singleton, ?elem_of_cons, ?elem_of_app, ?elem_of_nil in *); tauto.
Section ownership.
Context `{EL : PbufElements}.

(** The free elements of the pools. *)
Record pools_ok (s : pbs) (A B K F1 F2 F3 : list ptr) : Prop := {
  po_pbuf : pool_rep (pb_m s) (pb_pools s MEMP_PBUF) F1;
  po_ram : pool_rep (pb_m s) (pb_ram s) F2;
  po_mbuf : pool_rep (pb_m s) (pb_mbufs s) F3;
  po_E1 : A ++ F1 ≡ₚ els_pbuf;
  po_E2 : B ++ F2 ≡ₚ els_ram;
  po_E3 : attached (pb_m s) (A ++ B) ++ K ++ F3 ≡ₚ els_mbuf;
  po_clean : ∀ x, x ∈ F1 ++ F2 → rd (pb_m s) x PB_MBUF = NULL;
}.

(** [A] are the live pbufs without payload, [B] those with payload, [H] the references
    held by users, [K] the mbufs held elsewhere. *)
Record pb_inv (s : pbs) (A B H K : list ptr) : Prop := {
  pi_refs : ∀ x, x ∈ A ++ B → rd (pb_m s) x PB_REF = refs (H ++ links (pb_m s) (A ++ B)) x ∧ 1 ≤ rd (pb_m s) x PB_REF < 65536;
  pi_live : ∀ x, x ∈ H ++ links (pb_m s) (A ++ B) → x ∈ A ++ B;
  pi_type : (∀ x, x ∈ A → rd (pb_m s) x PB_TYPE = PBUF_ROM ∨ rd (pb_m s) x PB_TYPE = PBUF_REF) ∧
            (∀ x, x ∈ B → rd (pb_m s) x PB_TYPE = PBUF_RAM);
  pi_chain : ∀ x, x ∈ A ++ B → ∃ l, chain (pb_m s) PB_NEXT x l;
  pi_pools : ∃ F1 F2 F3, pools_ok s A B K F1 F2 F3;
}.

(** All the objects are different. *)
Lemma pools_nodup s A B K F1 F2 F3 :
  pools_ok s A B K F1 F2 F3 → NoDup ((A ++ F1) ++ (B ++ F2) ++ attached (pb_m s) (A ++ B) ++ K ++ F3).
Proof. intros [_ _ _ P1 P2 P3 _]. rewrite P1, P2, P3. exact els_nodup. Qed.

Lemma pools_non_null s A B K F1 F2 F3 x :
  pools_ok s A B K F1 F2 F3 → x ∈ (A ++ F1) ++ (B ++ F2) ++ attached (pb_m s) (A ++ B) ++ K ++ F3 → x ≠ NULL.
Proof. intros [_ _ _ P1 P2 P3 _]. rewrite P1, P2, P3. intros Hx ->. by apply els_non_null. Qed.

Lemma inv_nodup s A B H K : pb_inv s A B H K → NoDup (A ++ B).
Proof.
  intros [_ _ _ _ (F1 & F2 & F3 & Hp)]. pose proof (pools_nodup _ _ _ _ _ _ _ Hp) as Hnd.
  rewrite !NoDup_app in *. set_solver.
Qed.

Lemma inv_non_null s A B H K x : pb_inv s A B H K → x ∈ A ++ B → x ≠ NULL.
Proof. intros [_ _ _ _ (F1 & F2 & F3 & Hp)] Hx. eapply pools_non_null; [done|]. set_solver. Qed.

Lemma inv_held s A B H K x : pb_inv s A B H K → x ∈ H → x ∈ A ++ B.
Proof. intros Hi Hx. apply (pi_live _ _ _ _ _ Hi). set_solver. Qed.

(** Reordering the references held. *)
Lemma inv_perm s A B H H' K : H ≡ₚ H' → pb_inv s A B H K → pb_inv s A B H' K.
Proof.
  intros Hp [Hr Hl Ht Hc Hpo]. split; [| |done..].
  - intros x Hx. rewrite (refs_perm (H' ++ links (pb_m s) (A ++ B)) (H ++ links (pb_m s) (A ++ B))); [by apply Hr|by rewrite Hp].
  - intros x Hx. apply Hl. by rewrite Hp.
Qed.

(** Live pbufs are cells of the store. *)
Lemma inv_size s A B H K : pb_inv s A B H K → (length (A ++ B) ≤ size (pb_m s))%nat.
Proof.
  intros Hi. pose proof (inv_nodup _ _ _ _ _ Hi) as Hnd.
  assert (Hs : ∀ x, x ∈ A ++ B → (x, PB_REF) ∈ dom (pb_m s)).
  { intros x Hx. apply elem_of_dom. destruct (pb_m s !! (x, PB_REF)) eqn:E; [by eexists|].
    destruct (pi_refs _ _ _ _ _ Hi x Hx) as [_ Hr]. unfold rd in Hr. rewrite E in Hr. cbn in Hr. lia. }
  rewrite <- size_dom. rewrite <- (length_fmap (λ x, (x, PB_REF))).
  rewrite <- (size_list_to_set (C := gset (Z * Z))).
  - apply subseteq_size. intros y Hy. rewrite elem_of_list_to_set in Hy. apply list_elem_of_fmap in Hy as (x & -> & Hx). by apply Hs.
  - apply NoDup_fmap_2; [|done]. intros ?? [=]. done.
Qed.

(** The fields the invariant speaks of, for live pbufs. *)
Definition own_fields : list Z := [PB_NEXT; PB_REF; PB_TYPE; PB_MBUF].

(** The pools do not see stores to live objects. *)
Lemma pools_frame s s' A B K F1 F2 F3 X :
  pools_ok s A B K F1 F2 F3 → same_outside X (pb_m s) (pb_m s') → (∀ x, x ∈ F1 ++ F2 ++ F3 → x ∉ X) →
  same_fields [PB_MBUF] (A ++ B) (pb_m s) (pb_m s') →
  pb_pools s' MEMP_PBUF = pb_pools s MEMP_PBUF → pb_ram s' = pb_ram s → pb_mbufs s' = pb_mbufs s →
  pools_ok s' A B K F1 F2 F3.
Proof.
  intros [P1 P2 P3 Q1 Q2 Q3 Hc] Hs HX Hm Ep Er Em. split; [rewrite Ep|rewrite Er|rewrite Em|done..|rewrite (attached_same _ _ _ Hm)|]; try done.
  1, 2, 3: eapply pool_rep_frame; [done..|]; intros x Hx; apply HX; set_solver.
  intros x Hx. rewrite Hs; [by apply Hc|]. apply HX. set_solver.
Qed.

Lemma live_not_free s A B K F1 F2 F3 x : pools_ok s A B K F1 F2 F3 → x ∈ A ++ B → x ∉ F1 ++ F2 ++ F3.
Proof. intros Hp Hx. pose proof (pools_nodup _ _ _ _ _ _ _ Hp) as Hnd. rewrite !NoDup_app in Hnd. set_solver. Qed.

Lemma pools_apart s A B K F1 F2 F3 :
  pools_ok s A B K F1 F2 F3 →
  (∀ x, x ∈ A ++ B → x ∉ F1 ++ F2 ++ F3) ∧ (∀ x, x ∈ attached (pb_m s) (A ++ B) → x ∉ (A ++ B) ++ F1 ++ F2 ++ F3) ∧
  (∀ x, x ∈ F1 → x ∉ F2 ++ F3) ∧ (∀ x, x ∈ F2 → x ∉ F3) ∧ NoDup (A ++ B).
Proof. intros Hp. pose proof (pools_nodup _ _ _ _ _ _ _ Hp) as Hnd. rewrite !NoDup_app in *. set_solver. Qed.

(** Stores to other fields of live pbufs, and to the payload. *)
Lemma inv_frame s s' A B H K :
  pb_inv s A B H K → same_outside (A ++ B) (pb_m s) (pb_m s') → same_fields own_fields (A ++ B) (pb_m s) (pb_m s') →
  pb_pools s' MEMP_PBUF = pb_pools s MEMP_PBUF → pb_ram s' = pb_ram s → pb_mbufs s' = pb_mbufs s → pb_inv s' A B H K.
Proof.
  intros Hi Hs Hf Ep Er Em. pose proof Hi as [Hr Hl Ht Hc (F1 & F2 & F3 & Hp)].
  assert (Hlk : links (pb_m s') (A ++ B) = links (pb_m s) (A ++ B)).
  { apply links_same. intros x off Hx Ho. apply Hf; [done|]. set_solver. }
  split; rewrite ?Hlk.
  - intros x Hx. rewrite (Hf x PB_REF) by set_solver. by apply Hr.
  - done.
  - split; intros x Hx; rewrite (Hf x PB_TYPE) by set_solver; by apply Ht.
  - intros x Hx. destruct (Hc x Hx) as [l Hcl]. exists l. eapply lseg_frame, Hcl. intros y Hy. apply Hf; [|set_solver].
    eapply (chain_closed (pb_m s)); [|exact Hx|done..]. intros z Hz. destruct (decide (rd (pb_m s) z PB_NEXT = NULL)); [by left|right].
    apply Hl, elem_of_app. right. by eapply elem_of_links.
  - exists F1, F2, F3. eapply pools_frame; [done|exact Hs|..|done|done|done].
    + intros x Hx Hx'. by eapply live_not_free.
    + intros x off Hx Ho. apply Hf; [done|]. set_solver.
Qed.

Lemma field_store_inv s A B H K x off v :
  pb_inv s A B H K → x ∈ A ++ B → off ∉ own_fields → pb_inv (s <| pb_m ::= <[(x, off) := v]> |>) A B H K.
Proof.
  intros Hi Hx Ho. eapply inv_frame; [done| | |done..]; cbn.
  - by apply same_outside_insert.
  - intros y o Hy Hoo. apply rd_insert_ne. right. set_solver.
Qed.

(** *** Counts *)

(** Setting the count of [x] while references to [x] come or go. *)
Lemma inv_count s A B H H' K x v :
  pb_inv s A B H K → x ∈ A ++ B → (∀ y, y ∈ H' → y ∈ A ++ B) → 1 ≤ v < 65536 →
  refs H' x + rd (pb_m s) x PB_REF = refs H x + v → (∀ y, y ≠ x → refs H' y = refs H y) →
  pb_inv (s <| pb_m ::= <[(x, PB_REF) := v]> |>) A B H' K.
Proof.
  intros Hi Hx HH Hv Ev Eo. pose proof Hi as [Hr Hl Ht Hc (F1 & F2 & F3 & Hp)]. set (s' := s <| pb_m ::= _ |>).
  assert (Hrd : ∀ y off, (y, off) ≠ (x, PB_REF) → rd (pb_m s') y off = rd (pb_m s) y off).
  { intros y off Hne. by apply rd_other. }
  assert (Hso : same_outside [x] (pb_m s) (pb_m s')) by (apply same_outside_insert; set_solver).
  assert (Hlk : links (pb_m s') (A ++ B) = links (pb_m s) (A ++ B)).
  { apply links_same. intros y off _ ->%list_elem_of_singleton. by apply Hrd. }
  split; rewrite ?Hlk.
  - intros y Hy. destruct (Hr y Hy) as [Ey Hy1]. rewrite refs_app in *. destruct (decide (y = x)) as [->|Hne].
    + replace (rd (pb_m s') x PB_REF) with v by (symmetry; apply rd_insert_eq). lia.
    + rewrite Hrd by congruence. rewrite Eo by done. lia.
  - intros y Hy. apply elem_of_app in Hy as [Hy|Hy]; [by apply HH|apply Hl; set_solver].
  - split; intros y Hy; rewrite Hrd by done; by apply Ht.
  - intros y Hy. destruct (Hc y Hy) as [l Hcl]. exists l. eapply lseg_frame, Hcl. intros z _. by apply Hrd.
  - exists F1, F2, F3. eapply pools_frame; [done|exact Hso|..|done|done|done].
    + intros y Hy ->%list_elem_of_singleton. by eapply live_not_free.
    + intros y off _ ->%list_elem_of_singleton. by apply Hrd.
Qed.

Lemma pbuf_ref_frame m x m' : pbuf_ref m x = Some m' → ∀ y off, (y, off) ≠ (x, PB_REF) → rd m' y off = rd m y off.
Proof.
  unfold pbuf_ref, ld, sto. intros E y off Hne. repeat (case_match; cbn [mbind option_bind] in E; simplify_eq; try done). by apply rd_other.
Qed.

Lemma pbuf_ref_ok s A B H K x :
  pb_inv s A B H K → x ∈ A ++ B → rd (pb_m s) x PB_REF < 65535 →
  ∃ m', pbuf_ref (pb_m s) x = Some m' ∧ pb_inv (s <| pb_m := m' |>) A B (x :: H) K.
Proof.
  intros Hi Hx Hlt. pose proof (inv_non_null _ _ _ _ _ _ Hi Hx) as Hnz. destruct (pi_refs _ _ _ _ _ Hi x Hx) as [_ Hr].
  unfold pbuf_ref. rewrite (proj2 (Z.eqb_neq _ _) Hnz), ld_some by done. cbn [mbind option_bind]. rewrite sto_some, u16_small by (done || lia).
  eexists. split; [done|]. refine (inv_count s A B H (x :: H) K x _ Hi Hx _ _ _ _); [|lia| |].
  - intros y [->|Hy]%elem_of_cons; [done|by eapply inv_held].
  - rewrite refs_cons, decide_True by done. lia.
  - intros y Hy. rewrite refs_cons, decide_False by done. done.
Qed.

(** *** Releasing a pbuf *)

(** The pool's links overlay none of a pbuf's fields but [next]. *)
Lemma pool_free_pbuf m P F x :
  pool_rep m P F → x ≠ NULL → x ∉ F →
  ∃ m' P', mempool_free m P x = Some (m', P') ∧ pool_rep m' P' (x :: F) ∧ same_outside (x :: F) m m' ∧
    ∀ q, rd m' q PB_MBUF = rd m q PB_MBUF.
Proof.
  intros HF Hx HxF. destruct (sa_free_push m P x F) as (m' & P' & E & Hrep & Hrd); [done..|].
  exists m', P'. split_and!; [done..| |]; intros q; [intros off Hq|]; apply Hrd; intros [[? ?]|[? ?]]; try done; set_solver.
Qed.

(** Each object is of one kind. *)
Lemma pools_at s A B K F1 F2 F3 x :
  pools_ok s A B K F1 F2 F3 →
  (x ∈ A ∨ x ∈ B → ¬ (x ∈ F1 ∨ x ∈ F2 ∨ x ∈ F3) ∧ x ∉ attached (pb_m s) (A ++ B)) ∧
  (x ∈ attached (pb_m s) (A ++ B) → ¬ (x ∈ F1 ∨ x ∈ F2 ∨ x ∈ F3)) ∧
  (x ∈ F1 → ¬ (x ∈ F2 ∨ x ∈ F3)) ∧ (x ∈ F2 → x ∉ F3).
Proof. intros Hp. destruct (pools_apart _ _ _ _ _ _ _ Hp) as (H1 & H2 & H3 & H4 & _). set_solver. Qed.


Lemma release_mbuf_ok s A B K F1 F2 F3 p :
  pools_ok s A B K F1 F2 F3 → p ∈ A ++ B →
  ∃ s' F3', release_mbuf p s = Some (tt, s') ∧ pools_ok s' A B K F1 F2 F3' ∧ rd (pb_m s') p PB_MBUF = NULL ∧
    (∀ x off, x ∈ A ++ B → (x, off) ≠ (p, PB_MBUF) → rd (pb_m s') x off = rd (pb_m s) x off) ∧ pb_data s' = pb_data s.
Proof.
  intros Hp Hin. assert (Hpn : p ≠ NULL) by (eapply pools_non_null; [done|]; mem).
  pose proof (λ x, pools_at _ _ _ _ _ _ _ x Hp) as Hat. pose proof (Hat p) as Hatp.
  assert (Hnd : NoDup (A ++ B)) by apply (pools_apart _ _ _ _ _ _ _ Hp). pose proof Hp as [P1 P2 P3 Q1 Q2 Q3 Hcl].
  unfold release_mbuf, pb_ld, mbind, st_bind. rewrite ld_some by done. cbn [mbind option_bind].
  destruct (Z.eqb_spec (rd (pb_m s) p PB_MBUF) NULL) as [E|E]; cbn [negb].
  { exists s, F3. split_and!; done. }
  remember (rd (pb_m s) p PB_MBUF) as mb eqn:Emb.
  destruct (proj1 (elem_of_Permutation _ _) Hin) as [L0 HL].
  assert (Hatt : attached (pb_m s) (A ++ B) ≡ₚ mb :: attached (pb_m s) L0).
  { rewrite (attached_perm _ _ _ HL). unfold attached. cbn [mbind list_bind]. unfold mbs at 1. rewrite <- Emb. by rewrite (proj2 (Z.eqb_neq _ _) E). }
  pose proof (Hat mb) as Hatm. assert (Hmb : mb ∈ attached (pb_m s) (A ++ B)) by (rewrite Hatt; mem).
  destruct (pool_free (pb_m s) (pb_mbufs s) F3 mb P3 E) as (m' & P' & Ef & HF3 & Hso); [mem|].
  unfold pb_mbuf_free, mbuf_free. rewrite Ef. cbn [mbind option_bind]. unfold pb_sto, pb_heap. cbn [pb_m set]. rewrite sto_some by done.
  cbn [mbind option_bind]. set (s' := _ <| pb_m := _ |>).
  assert (Em' : pb_m s' = <[(p, PB_MBUF) := NULL]> m') by reflexivity.
  assert (Hrd : ∀ x off, x ∉ mb :: F3 → (x, off) ≠ (p, PB_MBUF) → rd (pb_m s') x off = rd (pb_m s) x off).
  { intros x off Hx Hne. rewrite Em', rd_other by done. by apply Hso. }
  assert (Hmb0 : rd (pb_m s') p PB_MBUF = NULL) by (rewrite Em'; apply rd_insert_eq).
  assert (Hlive : ∀ x off, x ∈ A ++ B → (x, off) ≠ (p, PB_MBUF) → rd (pb_m s') x off = rd (pb_m s) x off).
  { intros x off Hx Hne. apply Hrd; [|done]. specialize (Hat x). intros [->|?]%elem_of_cons; mem. }
  assert (Hso' : same_outside (p :: mb :: F3) (pb_m s) (pb_m s')).
  { intros x off Hx. apply Hrd; [mem|]. intros [= -> ->]. mem. }
  assert (Hfree : ∀ x, x ∈ F1 ++ F2 → x ∉ p :: mb :: F3).
  { intros x Hx. specialize (Hat x). intros [->|[->|?]%elem_of_cons]%elem_of_cons; mem. }
  exists s', (mb :: F3). split_and!; [done| |done|done|done]. clear Hatp Hatm Hat Hrd. split; [..|].
  - eapply (pool_rep_frame (p :: mb :: F3)); [exact P1|exact Hso'|]. intros x Hx. apply Hfree. mem.
  - eapply (pool_rep_frame (p :: mb :: F3)); [exact P2|exact Hso'|]. intros x Hx. apply Hfree. mem.
  - eapply (pool_rep_frame [p]); [exact HF3|rewrite Em'; apply same_outside_insert; mem|]. intros x Hx ->%list_elem_of_singleton.
    pose proof (pools_at _ _ _ _ _ _ _ p Hp). apply elem_of_cons in Hx as [->|Hx]; mem.
  - done.
  - done.
  - rewrite <- Q3, Hatt.
    assert (Hat' : attached (pb_m s') (A ++ B) ≡ₚ attached (pb_m s) L0).
    { rewrite (attached_perm _ _ _ HL). unfold attached at 1. cbn [mbind list_bind]. unfold mbs at 1. rewrite Hmb0. cbn [Z.eqb app].
      fold (attached (pb_m s') L0). rewrite (attached_same (pb_m s)); [done|]. intros x off Hx ->%list_elem_of_singleton. apply Hlive.
      - rewrite HL. mem.
      - intros [= ->]. rewrite HL in Hnd. apply NoDup_cons in Hnd. tauto. }
    rewrite Hat'. solve_Permutation.
  - intros x Hx. rewrite Hso' by (by apply Hfree). by apply Hcl.
Qed.

(** Releasing an object of one of the two pools. *)
Lemma release_to s A B K F1 F2 F3 p P F m' P' :
  pools_ok s A B K F1 F2 F3 → p ∈ A ++ B → F = F1 ∨ F = F2 →
  mempool_free (pb_m s) P p = Some (m', P') → same_outside (p :: F) (pb_m s) m' →
  (∀ x, x ∈ A ++ B → x ≠ p → ∀ off, rd m' x off = rd (pb_m s) x off) ∧
  (F = F1 → pool_rep m' (pb_ram s) F2) ∧ (F = F2 → pool_rep m' (pb_pools s MEMP_PBUF) F1) ∧ pool_rep m' (pb_mbufs s) F3.
Proof.
  intros Hp Hin HF Ef Hso. pose proof (λ x, pools_at _ _ _ _ _ _ _ x Hp) as Hat. pose proof (Hat p) as Hatp. destruct Hp as [P1 P2 P3 _ _ _ _].
  split_and!.
  - intros x Hx Hne off. apply Hso. specialize (Hat x). destruct HF as [-> | ->]; mem.
  - intros ->. eapply pool_rep_frame; [exact P2|exact Hso|]. intros x Hx. specialize (Hat x). intros [->|?]%elem_of_cons; mem.
  - intros ->. eapply pool_rep_frame; [exact P1|exact Hso|]. intros x Hx. specialize (Hat x). intros [->|?]%elem_of_cons; mem.
  - eapply pool_rep_frame; [exact P3|exact Hso|]. intros x Hx. specialize (Hat x). intros [->|?]%elem_of_cons; destruct HF as [-> | ->]; mem.
Qed.

Lemma attached_drop m m' p A B A' B' :
  rd m p PB_MBUF = NULL → A ++ B ≡ₚ p :: A' ++ B' → (∀ x off, x ∈ A' ++ B' → rd m' x off = rd m x off) →
  attached m' (A' ++ B') ≡ₚ attached m (A ++ B).
Proof.
  intros Hmb HP Hrd. rewrite (attached_perm _ _ _ HP). unfold attached at 2. cbn [mbind list_bind]. unfold mbs at 1. rewrite Hmb.
  cbn [Z.eqb app]. fold (attached m (A' ++ B')). rewrite (attached_same m); [done|]. intros x off Hx _. by apply Hrd.
Qed.

Lemma release_pbuf_ok s A B K F1 F2 F3 p :
  pools_ok s A B K F1 F2 F3 → p ∈ A ++ B → rd (pb_m s) p PB_MBUF = NULL →
  (p ∈ A → rd (pb_m s) p PB_TYPE = PBUF_ROM ∨ rd (pb_m s) p PB_TYPE = PBUF_REF) → (p ∈ B → rd (pb_m s) p PB_TYPE = PBUF_RAM) →
  ∃ s' A' B' F1' F2', release_pbuf p s = Some (tt, s') ∧ pools_ok s' A' B' K F1' F2' F3 ∧ A ++ B ≡ₚ p :: A' ++ B' ∧
    (∀ x, x ∈ A' → x ∈ A) ∧ (∀ x, x ∈ B' → x ∈ B) ∧ (∀ x off, x ∈ A' ++ B' → rd (pb_m s') x off = rd (pb_m s) x off) ∧ pb_data s' = pb_data s.
Proof.
  intros Hp Hin Hmb HtA HtB. assert (Hpn : p ≠ NULL) by (eapply pools_non_null; [done|]; mem).
  pose proof (pools_at _ _ _ _ _ _ _ p Hp) as Hat. destruct (pools_apart _ _ _ _ _ _ _ Hp) as (_ & _ & _ & _ & Hnd).
  pose proof Hp as [P1 P2 P3 Q1 Q2 Q3 Hcl].
  unfold release_pbuf, pb_ld, mbind, st_bind. rewrite ld_some by done. cbn [mbind option_bind].
  pose proof Hin as [HA|HB]%elem_of_app.
  - destruct (proj1 (elem_of_Permutation _ _) HA) as [A' EA]. assert (HAB : A ++ B ≡ₚ p :: A' ++ B) by (by rewrite EA).
    assert (Et : (rd (pb_m s) p PB_TYPE =? PBUF_POOL) = false ∧ ((rd (pb_m s) p PB_TYPE =? PBUF_ROM) || (rd (pb_m s) p PB_TYPE =? PBUF_REF)) = true)
      by (destruct (HtA HA) as [-> | ->]; done). destruct Et as [-> ->].
    destruct (pool_free_pbuf (pb_m s) (pb_pools s MEMP_PBUF) F1 p P1 Hpn) as (m' & P' & Ef & HF & Hso & Hm0); [mem|].
    destruct (release_to _ _ _ _ _ _ _ p _ F1 m' P' Hp Hin (or_introl eq_refl) Ef Hso) as (Hlive & Hram & _ & Hmbu).
    unfold memp_free. cbn [has_pool]. rewrite Ef. cbn [mbind option_bind].
    assert (Hl' : ∀ x off, x ∈ A' ++ B → rd m' x off = rd (pb_m s) x off).
    { intros x off Hx. apply Hlive; [rewrite HAB; mem|]. intros ->. rewrite HAB in Hnd. apply NoDup_cons in Hnd. tauto. }
    eexists _, A', B, (p :: F1), F2. split_and!; [reflexivity| |done|intros x Hx; rewrite EA; mem|done|exact Hl'|done].
    split; [exact HF|exact (Hram eq_refl)|exact Hmbu|rewrite <- Q1, EA; solve_Permutation|done| |].
    + rewrite (attached_drop (pb_m s) m' p A B A' B Hmb HAB Hl'). done.
    + intros x Hx. cut (rd (pb_m s) x PB_MBUF = NULL); [intros <-; apply Hm0|].
      destruct (decide (x = p)) as [->|Hne]; [done|]. apply Hcl. mem.
  - destruct (proj1 (elem_of_Permutation _ _) HB) as [B' EB]. assert (HAB : A ++ B ≡ₚ p :: A ++ B') by (rewrite EB; solve_Permutation).
    rewrite (HtB HB). change (PBUF_RAM =? PBUF_POOL) with false. change ((PBUF_RAM =? PBUF_ROM) || (PBUF_RAM =? PBUF_REF)) with false. cbv iota.
    destruct (pool_free_pbuf (pb_m s) (pb_ram s) F2 p P2 Hpn) as (m' & P' & Ef & HF & Hso & Hm0); [mem|].
    destruct (release_to _ _ _ _ _ _ _ p _ F2 m' P' Hp Hin (or_intror eq_refl) Ef Hso) as (Hlive & _ & Hpb & Hmbu).
    unfold mem_free. rewrite Ef. cbn [mbind option_bind].
    assert (Hl' : ∀ x off, x ∈ A ++ B' → rd m' x off = rd (pb_m s) x off).
    { intros x off Hx. apply Hlive; [rewrite HAB; mem|]. intros ->. rewrite HAB in Hnd. apply NoDup_cons in Hnd. tauto. }
    eexists _, A, B', F1, (p :: F2). split_and!; [reflexivity| |done|done|intros x Hx; rewrite EB; mem|exact Hl'|done].
    split; [exact (Hpb eq_refl)|exact HF|exact Hmbu|done|rewrite <- Q2, EB; solve_Permutation| |].
    + rewrite (attached_drop (pb_m s) m' p A B A B' Hmb HAB Hl'). done.
    + intros x Hx. cut (rd (pb_m s) x PB_MBUF = NULL); [intros <-; apply Hm0|].
      destruct (decide (x = p)) as [->|Hne]; [done|]. apply Hcl. mem.
Qed.

(** *** A link changed under the release

    [pbuf_realloc] frees the rest of a chain before it clears the link to it.  Releasing pbufs
    does not look at the links of those that stay. *)

Definition relink (q v : Z) (s : pbs) : pbs := s <| pb_m ::= <[(q, PB_NEXT) := v]> |>.

Lemma sto_relink m p off w q v :
  p ≠ NULL → (p, off) ≠ (q, PB_NEXT) → sto (<[(q, PB_NEXT) := v]> m) p off w = Some (<[(q, PB_NEXT) := v]> (<[(p, off) := w]> m)).
Proof. intros Hp Hne. rewrite sto_some by done. by rewrite insert_insert_ne by congruence. Qed.

Lemma mempool_free_relink m P F x q v m' P' :
  pool_rep m P F → x ≠ NULL → q ∉ x :: F → mempool_free m P x = Some (m', P') →
  mempool_free (<[(q, PB_NEXT) := v]> m) P x = Some (<[(q, PB_NEXT) := v]> m', P').
Proof.
  intros (h & pc & cs & [_ _ _ Hpc _ _ _ _ _] & ->) Hx Hq. destruct P as [mds p]. cbn [fst snd] in *. unfold mempool_free.
  assert (Hqx : (x, HDR_NEXT) ≠ (q, PB_NEXT)) by (intros [=]; mem).
  destruct (mp_num_free p <? mp_chunk_size p).
  - rewrite sto_relink, sto_some by done. cbn [mbind option_bind]. by intros [= <- <-].
  - unfold mempool_free_2. destruct (negb _); [done|]. rewrite sto_relink, sto_some by done. cbn [mbind option_bind].
    destruct (Z.eqb_spec (mp_private_chunk p) NULL) as [E|E]; cbn [negb mbind option_bind]; [by intros [= <- <-]|].
    assert (Hqp : (mp_private_chunk p, HDR_NEXT_CHUNK) ≠ (q, PB_NEXT)).
    { intros Heq. assert (Hq' : q = mp_private_chunk p) by congruence. apply (chain_cons_inv m HDR_NEXT) in Hpc as (pc' & -> & _); [|done].
      apply Hq. rewrite Hq'. mem. }
    rewrite sto_relink, sto_some by done. cbn [mbind option_bind]. by intros [= <- <-].
Qed.

Lemma release_mbuf_relink s A B K F1 F2 F3 p q v s1 :
  pools_ok s A B K F1 F2 F3 → p ∈ A ++ B → q ∈ A ++ B → release_mbuf p s = Some (tt, s1) →
  release_mbuf p (relink q v s) = Some (tt, relink q v s1).
Proof.
  intros Hp Hin Hq. assert (Hpn : p ≠ NULL) by (eapply pools_non_null; [done|]; mem).
  pose proof (pools_at _ _ _ _ _ _ _ q Hp) as Hatq. unfold release_mbuf. pb_step. pb_step.
  change (pb_m (relink q v s)) with (<[(q, PB_NEXT) := v]> (pb_m s)). rewrite rd_insert_ne by (by right). destruct (Z.eqb_spec (rd (pb_m s) p PB_MBUF) NULL) as [E|E]; cbn [negb].
  { intros [= <-]. by destruct s. }
  unfold pb_mbuf_free, mbuf_free, mbind, st_bind. change (pb_mbufs (relink q v s)) with (pb_mbufs s).
  change (pb_m (relink q v s)) with (<[(q, PB_NEXT) := v]> (pb_m s)).
  destruct (mempool_free (pb_m s) (pb_mbufs s) (rd (pb_m s) p PB_MBUF)) as [[m' P']|] eqn:Ef; [|done]. cbn [mbind option_bind].
  rewrite (mempool_free_relink _ _ F3 _ q v _ _ (po_mbuf _ _ _ _ _ _ _ Hp) E) with (2 := Ef).
  - cbn [mbind option_bind]. unfold pb_sto, pb_heap.
    change (pb_m ((relink q v s) <| pb_m := _ |> <| pb_mbufs := _ |>)) with (<[(q, PB_NEXT) := v]> m').
    change (pb_m (s <| pb_m := _ |> <| pb_mbufs := _ |>)) with m'. rewrite sto_relink, sto_some by done. cbn [mbind option_bind].
    by intros [= <-].
  - intros [->|Hq']%elem_of_cons; [|mem]. apply (proj1 Hatq); [mem|]. unfold attached. apply list_elem_of_bind. exists p. split; [|done].
    unfold mbs. rewrite (proj2 (Z.eqb_neq _ _) E). mem.
Qed.

Lemma release_pbuf_relink s A B K F1 F2 F3 p q v s1 :
  pools_ok s A B K F1 F2 F3 → p ∈ A ++ B → q ∈ A ++ B → q ≠ p → release_pbuf p s = Some (tt, s1) →
  release_pbuf p (relink q v s) = Some (tt, relink q v s1).
Proof.
  intros Hp Hin Hq Hne. assert (Hpn : p ≠ NULL) by (eapply pools_non_null; [done|]; mem).
  pose proof (pools_at _ _ _ _ _ _ _ q Hp) as Hatq. unfold release_pbuf. pb_step. pb_step.
  change (pb_m (relink q v s)) with (<[(q, PB_NEXT) := v]> (pb_m s)). rewrite rd_insert_ne by (by right). unfold memp_free, mem_free. cbv beta. cbn [has_pool].
  destruct (_ =? PBUF_POOL); [intros [= <-]; done|]. destruct (_ || _).
  - change (pb_m (relink q v s)) with (<[(q, PB_NEXT) := v]> (pb_m s)). change (pb_pools (relink q v s)) with (pb_pools s).
    destruct (mempool_free (pb_m s) (pb_pools s MEMP_PBUF) p) as [[m' P']|] eqn:Ef; [|done].
    rewrite (mempool_free_relink _ _ F1 _ q v _ _ (po_pbuf _ _ _ _ _ _ _ Hp) Hpn) with (2 := Ef) by mem. by intros [= <-].
  - change (pb_m (relink q v s)) with (<[(q, PB_NEXT) := v]> (pb_m s)). change (pb_ram (relink q v s)) with (pb_ram s).
    destruct (mempool_free (pb_m s) (pb_ram s) p) as [[m' P']|] eqn:Ef; [|done].
    rewrite (mempool_free_relink _ _ F2 _ q v _ _ (po_ram _ _ _ _ _ _ _ Hp) Hpn) with (2 := Ef) by mem. by intros [= <-].
Qed.

(** The last reference to [p] goes: [p] is released, and what its [next] referred to is now
    referred to by the loop. *)
Lemma free_last s A B H K p :
  pb_inv s A B (p :: H) K → rd (pb_m s) p PB_REF = 1 →
  ∃ s' A' B', (∀ C (k : Z → ST pbs C),
      (release_mbuf p;; q ← pb_ld p PB_NEXT; release_pbuf p;; k q) (s <| pb_m ::= <[(p, PB_REF) := 0]> |>) = k (rd (pb_m s) p PB_NEXT) s') ∧
    pb_inv s' A' B' (nx (pb_m s) p ++ H) K ∧ A ++ B ≡ₚ p :: A' ++ B' ∧
    (∀ x off, x ∈ A' ++ B' → rd (pb_m s') x off = rd (pb_m s) x off) ∧ pb_data s' = pb_data s ∧
    (∀ q v, q ∈ A' ++ B' → ∀ C (k : Z → ST pbs C),
      (release_mbuf p;; q ← pb_ld p PB_NEXT; release_pbuf p;; k q) (relink q v (s <| pb_m ::= <[(p, PB_REF) := 0]> |>)) =
        k (rd (pb_m s) p PB_NEXT) (relink q v s')).
Proof.
  intros Hi E1r. pose proof Hi as [Hr Hl [HtA HtB] Hc (F1 & F2 & F3 & Hp)].
  assert (Hin : p ∈ A ++ B) by (apply Hl; mem). pose proof (inv_non_null _ _ _ _ _ _ Hi Hin) as Hpn.
  set (s0 := s <| pb_m ::= <[(p, PB_REF) := 0]> |>).
  assert (H0 : ∀ x off, (x, off) ≠ (p, PB_REF) → rd (pb_m s0) x off = rd (pb_m s) x off).
  { intros x off Hne. by apply rd_other. }
  assert (Hp0 : pools_ok s0 A B K F1 F2 F3).
  { eapply (pools_frame s s0 A B K F1 F2 F3 [p]); [done|apply same_outside_insert; mem|..|done|done|done].
    - intros x Hx ->%list_elem_of_singleton. by eapply live_not_free.
    - intros x off _ ->%list_elem_of_singleton. by apply H0. }
  destruct (release_mbuf_ok s0 A B K F1 F2 F3 p Hp0 Hin) as (s1 & F3' & R1 & Hp1 & Hm1 & Hs1 & Hd1).
  assert (Hty : ∀ x, x ∈ A ++ B → rd (pb_m s1) x PB_TYPE = rd (pb_m s) x PB_TYPE).
  { intros x Hx. rewrite Hs1 by done. by apply H0. }
  destruct (release_pbuf_ok s1 A B K F1 F2 F3' p Hp1 Hin Hm1) as (s2 & A' & B' & F1' & F2' & R2 & Hp2 & HAB & HA' & HB' & Hs2 & Hd2).
  { intros Hx. rewrite Hty by mem. by apply HtA. } { intros Hx. rewrite Hty by mem. by apply HtB. }
  pose proof (inv_nodup _ _ _ _ _ Hi) as Hnd. rewrite HAB in Hnd. apply NoDup_cons in Hnd as [Hpn' Hnd].
  assert (Hlive : ∀ x off, x ∈ A' ++ B' → rd (pb_m s2) x off = rd (pb_m s) x off).
  { intros x off Hx. assert (x ≠ p) by (by intros ->). rewrite Hs2, Hs1, H0; [done|congruence|rewrite HAB; mem|congruence|done]. }
  exists s2, A', B'. split_and!; [| |done|done|by rewrite Hd2, Hd1|].
  { intros C k. st_run R1. pb_step. st_run R2. rewrite Hs1, H0 by done. done. }
  2: { intros q v Hq C k. assert (Hqp : q ≠ p) by (by intros ->). assert (HqL : q ∈ A ++ B) by (rewrite HAB; mem). fold s0.
    st_run (release_mbuf_relink _ _ _ _ _ _ _ p q v _ Hp0 Hin HqL R1). pb_step.
    st_run (release_pbuf_relink _ _ _ _ _ _ _ p q v _ Hp1 Hin HqL Hqp R2).
    change (pb_m (relink q v s1)) with (<[(q, PB_NEXT) := v]> (pb_m s1)). rewrite rd_insert_ne by (by left). rewrite Hs1, H0 by done. done. }
  assert (Hlk : links (pb_m s) (A ++ B) ≡ₚ nx (pb_m s) p ++ links (pb_m s2) (A' ++ B')).
  { rewrite (links_perm _ _ _ HAB). unfold links at 1. cbn [mbind list_bind]. f_equiv. fold (links (pb_m s) (A' ++ B')).
    rewrite (links_same (pb_m s) (pb_m s2)); [done|]. intros x off Hx _. by apply Hlive. }
  assert (HR : p :: H ++ links (pb_m s) (A ++ B) ≡ₚ p :: (nx (pb_m s) p ++ H) ++ links (pb_m s2) (A' ++ B')).
  { rewrite Hlk. solve_Permutation. }
  assert (Hlive' : ∀ y, y ∈ (nx (pb_m s) p ++ H) ++ links (pb_m s2) (A' ++ B') → y ∈ A' ++ B').
  { intros y Hy. assert (Hy' : y ∈ A ++ B) by (apply Hl; change (p :: H) with ([p] ++ H); rewrite <- app_assoc; cbn [app]; rewrite HR; mem).
    rewrite HAB in Hy'. apply elem_of_cons in Hy' as [->|Hy']; [|done]. exfalso.
    destruct (Hr p Hin) as [Er _]. rewrite E1r, (refs_perm ((p :: H) ++ _) _ p HR), refs_cons, decide_True in Er by done.
    apply refs_pos in Hy. lia. }
  split.
  - intros x Hx. assert (Hxp : x ≠ p) by (by intros ->). rewrite Hlive by done. destruct (Hr x) as [Er Hr1]; [rewrite HAB; mem|].
    split; [|done]. rewrite Er, (refs_perm ((p :: H) ++ _) _ x HR), refs_cons, decide_False by done. lia.
  - exact Hlive'.
  - split; intros x Hx; rewrite Hlive by mem; [apply HtA|apply HtB]; auto.
  - intros x Hx. destruct (Hc x) as [l Hcl]; [rewrite HAB; mem|]. exists l. eapply lseg_frame, Hcl. intros y Hy. apply Hlive.
    eapply (chain_closed (pb_m s)); [|exact Hx|done..]. intros z Hz. destruct (decide (rd (pb_m s) z PB_NEXT = NULL)); [by left|right].
    apply Hlive', elem_of_app. right. eapply elem_of_links; [exact Hz|by apply Hlive|done].
  - by exists F1', F2', F3'.
Qed.

(** More fuel does not change the result. *)
Lemma free_loop_mono fuel fuel' p count s r : (fuel ≤ fuel')%nat → free_loop fuel p count s = Some r → free_loop fuel' p count s = Some r.
Proof.
  revert fuel' p count s. induction fuel as [|fuel IH]; intros [|fuel'] p count s Hf; try done; try lia.
  cbn [free_loop]. destruct (p =? NULL); [done|]. unfold mbind, st_bind.
  destruct (pb_ld p PB_REF s) as [[v s1]|]; [|done]. destruct (pb_sto _ _ _ s1) as [[[] s2]|]; [|done].
  destruct (_ =? 0); [|done]. destruct (release_mbuf p s2) as [[[] s3]|]; [|done]. destruct (pb_ld p PB_NEXT s3) as [[q s4]|]; [|done].
  destruct (release_pbuf p s4) as [[[] s5]|]; [|done]. apply IH. lia.
Qed.

(** [pbuf_free] takes back one reference to [p].  It releases the longest prefix [D] of the
    chain in which every pbuf has no other reference, and decrements the count of the
    pbuf after it, if there is one.  The other live pbufs keep all their fields. *)
Lemma free_loop_ok fuel s A B H K p count :
  pb_inv s A B (if p =? NULL then H else p :: H) K → (length (A ++ B) < fuel)%nat →
  ∃ s' A' B' D e, free_loop fuel p count s = Some (fold_left (λ c _, u8 (c + 1)) D count, s') ∧ pb_inv s' A' B' H K ∧
    A ++ B ≡ₚ D ++ A' ++ B' ∧ lseg (pb_m s) PB_NEXT p D e ∧ (∀ x, x ∈ D → rd (pb_m s) x PB_REF = 1) ∧
    (e ≠ NULL → e ∈ A' ++ B' ∧ rd (pb_m s') e PB_REF = rd (pb_m s) e PB_REF - 1) ∧
    (∀ x off, x ∈ A' ++ B' → (x, off) ≠ (e, PB_REF) → rd (pb_m s') x off = rd (pb_m s) x off) ∧ pb_data s' = pb_data s ∧
    (∀ q v, q ∈ A' ++ B' → free_loop fuel p count (relink q v s) = Some (fold_left (λ c _, u8 (c + 1)) D count, relink q v s')).
Proof.
  revert s A B p count. induction fuel as [|fuel IH]; intros s A B p count Hi Hf; [lia|]. cbn [free_loop].
  destruct (Z.eqb_spec p NULL) as [->|Hpn].
  { exists s, A, B, [], NULL. cbn [fold_left app lseg]. split_and!; try done. intros x Hx. by apply elem_of_nil in Hx. }
  assert (Hin : p ∈ A ++ B) by (eapply inv_held; [done|mem]).
  destruct (pi_refs _ _ _ _ _ Hi p Hin) as [Er Hr].
  assert (Hrf : ∀ q v, rd (pb_m (relink q v s)) p PB_REF = rd (pb_m s) p PB_REF) by (intros q v; apply rd_insert_ne; by right).
  assert (Hst : ∀ q v w, (relink q v s) <| pb_m ::= <[(p, PB_REF) := w]> |> = relink q v (s <| pb_m ::= <[(p, PB_REF) := w]> |>)).
  { intros q v w. unfold relink. destruct s as [m ? ? ? ?]. cbv [set]. cbn.
    by rewrite insert_insert_ne by (intros Heq; apply (f_equal snd) in Heq; done). }
  destruct (Z.eqb_spec (rd (pb_m s) p PB_REF - 1) 0) as [E0|E0].
  - assert (E1r : rd (pb_m s) p PB_REF = 1) by lia. pb_step. rewrite u16_small by lia. pb_step. rewrite E0. cbn [Z.eqb].
    destruct (free_last s A B H K p Hi E1r) as (s1 & A1 & B1 & Hrun & Hi1 & HAB & Hk1 & Hd1 & Hrel).
    rewrite Hrun.
    destruct (IH s1 A1 B1 (rd (pb_m s) p PB_NEXT) (u8 (count + 1))) as (s' & A' & B' & D & e & E & Hi' & HAB' & HD & HD1 & He & Hk & Hd & Hrl).
    { unfold nx in Hi1. destruct (rd (pb_m s) p PB_NEXT =? NULL); exact Hi1. }
    { apply Permutation_length in HAB. rewrite HAB in Hf. cbn [length] in Hf. lia. }
    assert (HDl : ∀ x, x ∈ D → x ∈ A1 ++ B1) by (intros x Hx; rewrite HAB'; mem).
    exists s', A', B', (p :: D), e. split_and!; [exact E|exact Hi'|rewrite HAB, HAB'; solve_Permutation| | | | |by rewrite Hd|].
    5: { intros q v Hq. pb_step. rewrite Hrf, u16_small by lia. pb_step. rewrite E0, Hst. cbn [Z.eqb].
      rewrite Hrel by (rewrite HAB'; mem). cbn [fold_left]. by apply Hrl. }
    + cbn [lseg]. split_and!; [done..|]. eapply lseg_frame, HD. intros x Hx. symmetry. by apply Hk1, HDl.
    + intros x [->|Hx]%elem_of_cons; [done|]. rewrite <- Hk1 by auto. by apply HD1.
    + intros Hen. destruct (He Hen) as [He1 He2]. split; [done|]. rewrite He2, Hk1; [done|]. rewrite HAB'. mem.
    + intros x off Hx Hne. rewrite Hk, Hk1; [done|rewrite HAB'; mem|done|done].
  - pb_step. rewrite u16_small by lia. pb_step. rewrite (proj2 (Z.eqb_neq _ _) E0).
    set (s' := s <| pb_m ::= _ |>). exists s', A, B, [], p. split_and!; try done.
    + refine (inv_count s A B (p :: H) H K p (rd (pb_m s) p PB_REF - 1) Hi Hin _ _ _ _); [|lia| |].
      * intros y Hy. eapply inv_held; [exact Hi|mem].
      * rewrite refs_cons, decide_True by done. lia.
      * intros y Hy. rewrite refs_cons, decide_False by done. done.
    + intros x Hx. by apply elem_of_nil in Hx.
    + intros _. split; [done|]. apply rd_insert_eq.
    + intros x off Hx Hne. by apply rd_other.
    + intros q v Hq. pb_step. rewrite Hrf, u16_small by lia. pb_step. rewrite (proj2 (Z.eqb_neq _ _) E0), Hst. done.
Qed.

Lemma pbuf_free_ok s A B H K p :
  pb_inv s A B (p :: H) K →
  ∃ s' A' B' D e, pbuf_free p s = Some (Z.of_nat (length D) mod 256, s') ∧ pb_inv s' A' B' H K ∧
    A ++ B ≡ₚ D ++ A' ++ B' ∧ lseg (pb_m s) PB_NEXT p D e ∧ (∀ x, x ∈ D → rd (pb_m s) x PB_REF = 1) ∧
    (e ≠ NULL → e ∈ A' ++ B' ∧ rd (pb_m s') e PB_REF = rd (pb_m s) e PB_REF - 1) ∧
    (∀ x off, x ∈ A' ++ B' → (x, off) ≠ (e, PB_REF) → rd (pb_m s') x off = rd (pb_m s) x off) ∧ pb_data s' = pb_data s ∧
    (∀ q v, q ∈ A' ++ B' → pbuf_free p (relink q v s) = Some (Z.of_nat (length D) mod 256, relink q v s')).
Proof.
  intros Hi. assert (Hpn : p ≠ NULL) by (eapply inv_non_null; [done|]; eapply inv_held; [done|mem]).
  unfold pbuf_free. rewrite (proj2 (Z.eqb_neq _ _) Hpn).
  destruct (free_loop_ok (walk_fuel (pb_m s)) s A B H K p 0) as (s' & A' & B' & D & e & E & Hrest).
  { by rewrite (proj2 (Z.eqb_neq _ _) Hpn). }
  { pose proof (inv_size _ _ _ _ _ Hi). unfold walk_fuel. lia. }
  destruct Hrest as (Hi' & HP & HD & HD1 & He & Hk & Hd & Hrl).
  assert (Hc : ∀ (l : list ptr) c, 0 ≤ c < 256 → fold_left (λ c _, u8 (c + 1)) l c = (c + Z.of_nat (length l)) mod 256).
  { induction l as [|x l IHl]; intros c Hc; cbn [fold_left length]; [rewrite Z.mod_small; lia|].
    rewrite IHl by apply u8_range. unfold u8, U8_MOD. rewrite Zplus_mod_idemp_l. f_equal. lia. }
  assert (EqD := Hc D 0 ltac:(lia)). rewrite Z.add_0_l in EqD. rewrite EqD in E, Hrl. exists s', A', B', D, e. split_and!; try done. intros q v Hq. specialize (Hrl q v Hq).
  eapply free_loop_mono, Hrl. unfold walk_fuel. change (pb_m (relink q v s)) with (<[(q, PB_NEXT) := v]> (pb_m s)).
  rewrite map_size_insert. destruct (pb_m s !! _); cbn [id]; lia.
Qed.

(** *** Allocating *)

(** A pbuf that was free becomes live, with one reference. *)
Lemma inv_add s s' A B A' B' H K F1 F2 F3 x :
  pb_inv s A B H K → pools_ok s' A' B' K F1 F2 F3 → A' ++ B' ≡ₚ x :: A ++ B → same_outside [x] (pb_m s) (pb_m s') →
  rd (pb_m s') x PB_NEXT = NULL → rd (pb_m s') x PB_REF = 1 →
  (∀ y, y ∈ A' → y = x ∧ (rd (pb_m s') x PB_TYPE = PBUF_ROM ∨ rd (pb_m s') x PB_TYPE = PBUF_REF) ∨ y ∈ A) →
  (∀ y, y ∈ B' → y = x ∧ rd (pb_m s') x PB_TYPE = PBUF_RAM ∨ y ∈ B) →
  pb_inv s' A' B' (x :: H) K.
Proof.
  intros Hi Hp HP Hso Hn Hr1 HA HB. pose proof Hi as [Hr Hl [HtA HtB] Hc _].
  assert (Hnd : NoDup (x :: A ++ B)) by (rewrite <- HP; apply (pools_apart _ _ _ _ _ _ _ Hp)). apply NoDup_cons in Hnd as [Hx Hnd].
  assert (Hxn : x ≠ NULL) by (eapply pools_non_null; [exact Hp|]; assert (Hin : x ∈ A' ++ B') by (rewrite HP; mem); mem).
  assert (Hold : ∀ y off, y ∈ A ++ B → rd (pb_m s') y off = rd (pb_m s) y off).
  { intros y off Hy. apply Hso. intros ->%list_elem_of_singleton. done. }
  assert (Hlk : links (pb_m s') (A' ++ B') ≡ₚ links (pb_m s) (A ++ B)).
  { rewrite (links_perm _ _ _ HP). unfold links at 1. cbn [mbind list_bind]. unfold nx at 1. rewrite Hn. cbn [Z.eqb app].
    fold (links (pb_m s') (A ++ B)). rewrite (links_same (pb_m s) (pb_m s')); [done|]. intros y off Hy _. by apply Hold. }
  assert (HR : (x :: H) ++ links (pb_m s') (A' ++ B') ≡ₚ x :: H ++ links (pb_m s) (A ++ B)) by (rewrite Hlk; done).
  split.
  - intros y Hy. rewrite (refs_perm _ _ y HR), refs_cons. rewrite HP in Hy. apply elem_of_cons in Hy as [->|Hy].
    + rewrite decide_True by done. rewrite Hr1. destruct (decide (x ∈ H ++ links (pb_m s) (A ++ B))) as [Hin|Hin]; [by apply Hl in Hin|].
      rewrite <- refs_pos in Hin. pose proof (refs_nonneg (H ++ links (pb_m s) (A ++ B)) x). lia.
    + rewrite decide_False by (by intros ->). rewrite Hold by done. destruct (Hr y Hy). lia.
  - intros y. rewrite HR, HP, !elem_of_cons. intros [->|Hy]; [by left|right; by apply Hl].
  - split; intros y Hy.
    + destruct (HA y Hy) as [[-> ?]|Hy']; [done|]. rewrite Hold by mem. by apply HtA.
    + destruct (HB y Hy) as [[-> ?]|Hy']; [done|]. rewrite Hold by mem. by apply HtB.
  - intros y Hy. rewrite HP in Hy. apply elem_of_cons in Hy as [->|Hy]; [by exists [x]; cbn [lseg]|].
    destruct (Hc y Hy) as [l Hcl]. exists l. eapply lseg_frame, Hcl. intros z Hz. apply Hold.
    eapply (chain_closed (pb_m s)); [|exact Hy|done..]. intros w Hw. destruct (decide (rd (pb_m s) w PB_NEXT = NULL)); [by left|right].
    apply Hl, elem_of_app. right. by eapply elem_of_links.
  - by exists F1, F2, F3.
Qed.

(** The pools after an element [x] was taken from one of them and its fields were set. *)
Lemma pools_add s s' A B A' B' K F1 F2 F3 G1 G2 x :
  pools_ok s A B K G1 G2 F3 → x ∈ G1 ++ G2 → x ∉ F1 ++ F2 → pb_mbufs s' = pb_mbufs s →
  pool_rep (pb_m s) (pb_pools s' MEMP_PBUF) F1 → pool_rep (pb_m s) (pb_ram s') F2 →
  A' ++ B' ≡ₚ x :: A ++ B → A' ++ F1 ≡ₚ A ++ G1 → B' ++ F2 ≡ₚ B ++ G2 → (∀ y, y ∈ F1 ++ F2 → y ∈ G1 ++ G2) →
  same_outside [x] (pb_m s) (pb_m s') → rd (pb_m s') x PB_MBUF = NULL → pools_ok s' A' B' K F1 F2 F3.
Proof.
  intros Hp Hx HxF Em P1 P2 HP Q1 Q2 Hsub Hso Hmb. pose proof (pools_at _ _ _ _ _ _ _ x Hp) as Hat. pose proof Hp as [_ _ P3 R1 R2 R3 Hcl].
  assert (Hnot : ∀ (F : list ptr) y, x ∉ F → y ∈ F → y ∉ [x]) by (intros F y HF Hy ->%list_elem_of_singleton; done).
  split; [..|].
  - eapply pool_rep_frame; [exact P1|exact Hso|]. intros y. apply Hnot. mem.
  - eapply pool_rep_frame; [exact P2|exact Hso|]. intros y. apply Hnot. mem.
  - rewrite Em. eapply pool_rep_frame; [exact P3|exact Hso|]. intros y. apply Hnot. mem.
  - by rewrite Q1.
  - by rewrite Q2.
  - rewrite (attached_perm _ _ _ HP). unfold attached at 1. cbn [mbind list_bind]. unfold mbs at 1. rewrite Hmb. cbn [Z.eqb app].
    fold (attached (pb_m s') (A ++ B)). rewrite (attached_same (pb_m s) (pb_m s')); [done|]. intros y off Hy _. apply Hso, (Hnot (A ++ B)); [mem|done].
  - intros y Hy. rewrite Hso by (apply (Hnot (F1 ++ F2)); done). apply Hcl. by apply Hsub.
Qed.

(** What the stores of [pbuf_alloc] leave in a new pbuf. *)
Definition new_pbuf (m : heap) (x : ptr) (payload length type : Z) : Prop :=
  rd m x PB_NEXT = NULL ∧ rd m x PB_REF = 1 ∧ rd m x PB_TYPE = type ∧ rd m x PB_FLAGS = 0 ∧
  rd m x PB_LEN = length ∧ rd m x PB_TOT_LEN = length ∧ rd m x PB_PAYLOAD = payload.

(** The stores of [alloc_ram] and [alloc_ref]. *)
Definition init_pbuf (x payload length type : Z) : ST pbs ptr :=
  pb_sto x PB_PAYLOAD payload;; pb_sto x PB_TOT_LEN length;; pb_sto x PB_LEN length;; pb_sto x PB_NEXT NULL;;
  pb_sto x PB_TYPE type;; alloc_done x.

Lemma init_pbuf_run s x payload length type :
  x ≠ NULL →
  ∃ m', init_pbuf x payload length type s = Some (x, s <| pb_m := m' |>) ∧ new_pbuf m' x payload length type ∧
    same_outside [x] (pb_m s) m' ∧ rd m' x PB_MBUF = rd (pb_m s) x PB_MBUF.
Proof.
  intros Hx. unfold init_pbuf, alloc_done. do 7 pb_step.
  exists (<[(x, PB_FLAGS) := 0]> (<[(x, PB_REF) := 1]> (<[(x, PB_TYPE) := type]> (<[(x, PB_NEXT) := NULL]> (<[(x, PB_LEN) := length]>
    (<[(x, PB_TOT_LEN) := length]> (<[(x, PB_PAYLOAD) := payload]> (pb_m s)))))))).
  split; [by destruct s|]. unfold new_pbuf. split_and!; repeat (rewrite rd_insert_ne by (by right)); try apply rd_insert_eq; [|done].
  intros y off Hy. rewrite list_elem_of_singleton in Hy. by rewrite !rd_insert_ne by (left; congruence).
Qed.

(** The result of an allocation: a pool without free elements leaves all as it was, otherwise a
    pbuf that was free is live now. *)
Definition alloc_spec (s : pbs) (A B H K : list ptr) (payload : ptr → Z) (length type : Z) (r : option (ptr * pbs)) : Prop :=
  (∃ s', r = Some (NULL, s') ∧ pb_inv s' A B H K ∧ pb_m s' = pb_m s ∧ pb_data s' = pb_data s ∧
    if type =? PBUF_RAM then ∀ x, x ∈ els_ram → x ∈ B else ∀ x, x ∈ els_pbuf → x ∈ A) ∨
  (∃ x s' A' B', r = Some (x, s') ∧ x ∉ A ++ B ∧ A' ++ B' ≡ₚ x :: A ++ B ∧ pb_inv s' A' B' (x :: H) K ∧
    new_pbuf (pb_m s') x (payload x) length type ∧ same_outside [x] (pb_m s) (pb_m s') ∧ rd (pb_m s') x PB_MBUF = NULL ∧
    pb_data s' = pb_data s ∧ if type =? PBUF_RAM then x ∈ els_ram else x ∈ els_pbuf).

Lemma alloc_ref_ok s A B H K length type :
  pb_inv s A B H K → type = PBUF_ROM ∨ type = PBUF_REF → alloc_spec s A B H K (λ _, NULL) length type (alloc_ref length type s).
Proof.
  intros Hi Ht. assert (Et : (type =? PBUF_RAM) = false) by (destruct Ht as [-> | ->]; done). unfold alloc_spec. rewrite Et.
  pose proof (pi_pools _ _ _ _ _ Hi) as (F1 & F2 & F3 & Hp). pose proof Hp as [P1 P2 P3 Q1 Q2 Q3 Hcl].
  unfold alloc_ref, memp_malloc, mbind, st_bind. cbn [has_pool]. destruct F1 as [|x F1].
  - left. rewrite (sa_alloc_empty _ _ P1). cbn [mbind option_bind Z.eqb]. eexists. split; [reflexivity|].
    split_and!; [|done..|intros x Hx; rewrite <- Q1 in Hx; mem].
    by eapply inv_frame; [exact Hi|..].
  - right. destruct (sa_alloc_pop _ _ _ _ P1) as (P' & E & HF & Hx). rewrite E. cbn [mbind option_bind]. rewrite (proj2 (Z.eqb_neq _ _) Hx).
    destruct (init_pbuf_run (set_pool MEMP_PBUF P' s) x NULL length type Hx) as (m' & E' & Hnew & Hso & Hmb).
    set (s' := (set_pool MEMP_PBUF P' s) <| pb_m := m' |>) in *.
    pose proof (pools_at _ _ _ _ _ _ _ x Hp) as Hat. pose proof (sa_nodup _ _ _ P1) as Hnd1. apply NoDup_cons in Hnd1 as [Hx1 _].
    assert (HxAB : x ∉ A ++ B) by mem. assert (HP : (x :: A) ++ B ≡ₚ x :: A ++ B) by done.
    assert (Hmb0 : rd m' x PB_MBUF = NULL) by (rewrite Hmb; apply Hcl; mem).
    exists x, s', (x :: A), B. split_and!; [exact E'|done|done| |exact Hnew|exact Hso|exact Hmb0|done|rewrite <- Q1; mem].
    eapply (inv_add s s' A B (x :: A) B H K F1 F2 F3 x Hi); [|done|exact Hso|apply Hnew|apply Hnew| |by right].
    + eapply (pools_add s s' A B (x :: A) B K F1 F2 F3 (x :: F1) F2 x Hp); try done; [mem..|solve_Permutation|intros y; mem].
    + intros y [->|Hy]%elem_of_cons; [left; split; [done|]|by right]. destruct Hnew as (_ & _ & Ety & _).
      change (rd m' x PB_TYPE = PBUF_ROM ∨ rd m' x PB_TYPE = PBUF_REF). by rewrite Ety.
Qed.

Lemma alloc_ram_ok s A B H K offset length :
  pb_inv s A B H K →
  alloc_spec s A B H K (λ x, u64 (x + SIZEOF_STRUCT_PBUF + offset)) length PBUF_RAM (alloc_ram offset length s).
Proof.
  intros Hi. unfold alloc_spec. change (PBUF_RAM =? PBUF_RAM) with true. cbv iota.
  pose proof (pi_pools _ _ _ _ _ Hi) as (F1 & F2 & F3 & Hp). pose proof Hp as [P1 P2 P3 Q1 Q2 Q3 Hcl].
  unfold alloc_ram, ram_alloc, mbind, st_bind. destruct F2 as [|x F2].
  - left. rewrite (sa_alloc_empty _ _ P2). cbn [mbind option_bind Z.eqb]. eexists. split; [reflexivity|].
    split_and!; [|done..|intros x Hx; rewrite <- Q2 in Hx; mem].
    by eapply inv_frame; [exact Hi|..].
  - right. destruct (sa_alloc_pop _ _ _ _ P2) as (P' & E & HF & Hx). rewrite E. cbn [mbind option_bind]. rewrite (proj2 (Z.eqb_neq _ _) Hx).
    destruct (init_pbuf_run (s <| pb_ram := P' |>) x (u64 (x + SIZEOF_STRUCT_PBUF + offset)) length PBUF_RAM Hx) as (m' & E' & Hnew & Hso & Hmb).
    set (s' := s <| pb_ram := P' |> <| pb_m := m' |>) in *.
    pose proof (pools_at _ _ _ _ _ _ _ x Hp) as Hat. pose proof (sa_nodup _ _ _ P2) as Hnd2. apply NoDup_cons in Hnd2 as [Hx2 _].
    assert (HxAB : x ∉ A ++ B) by mem. assert (HP : A ++ x :: B ≡ₚ x :: A ++ B) by solve_Permutation.
    assert (Hmb0 : rd m' x PB_MBUF = NULL) by (rewrite Hmb; apply Hcl; mem).
    exists x, s', A, (x :: B). split_and!; [exact E'|done|done| |exact Hnew|exact Hso|exact Hmb0|done|rewrite <- Q2; mem].
    eapply (inv_add s s' A B A (x :: B) H K F1 F2 F3 x Hi); [|done|exact Hso|apply Hnew|apply Hnew|by right|].
    + eapply (pools_add s s' A B A (x :: B) K F1 F2 F3 F1 (x :: F2) x Hp); try done; [mem..|solve_Permutation|intros y; mem].
    + intros y [->|Hy]%elem_of_cons; [left; split; [done|]|by right]. apply Hnew.
Qed.

(** The payload of a new pbuf: in the pbuf's own element behind the headers, or still to be set. *)
Definition new_payload (layer : pbuf_layer) (type : Z) (x : ptr) : Z :=
  if type =? PBUF_RAM then u64 (x + SIZEOF_STRUCT_PBUF + layer_offset layer) else NULL.

Lemma pbuf_alloc_ok s A B H K layer length type :
  pb_inv s A B H K →
  (type = PBUF_RAM ∨ type = PBUF_ROM ∨ type = PBUF_REF → alloc_spec s A B H K (new_payload layer type) length type (pbuf_alloc layer length type s)) ∧
  (¬ (type = PBUF_RAM ∨ type = PBUF_ROM ∨ type = PBUF_REF) → pbuf_alloc layer length type s = Some (NULL, s)).
Proof.
  intros Hi. split.
  - intros [-> |Ht].
    + exact (alloc_ram_ok s A B H K (layer_offset layer) length Hi).
    + pose proof (alloc_ref_ok s A B H K length type Hi Ht) as Ha. by destruct Ht as [-> | ->].
  - intros Hn. unfold pbuf_alloc. destruct (Z.eqb_spec type PBUF_POOL); [done|].
    rewrite !(proj2 (Z.eqb_neq type _)) by tauto. done.
Qed.

End ownership.
