(* ===== verification/PbufLink.v ===== *)
(** * Chains of packet buffers: linking, unlinking, trimming, splitting

    [pbuf_cat], [pbuf_chain], [pbuf_dechain], [pbuf_realloc], [pbuf_header] and
    [pbuf_split_64k] under the ownership invariant of PbufOwn. *)

From S2P Require Import Prelude Stddef Heap Mempool ByteMem Mbuf Pbuf PbufOwn.
Local Open Scope Z_scope.

Section linking.
Context `{EL : PbufElements}.

(** *** Linking *)

Lemma chain_live s A B H K x l : pb_inv s A B H K → x ∈ A ++ B → chain (pb_m s) PB_NEXT x l → ∀ y, y ∈ l → y ∈ A ++ B.
Proof.
  intros Hi Hx Hc. eapply chain_closed; [|exact Hx|exact Hc]. intros y Hy. destruct (decide (rd (pb_m s) y PB_NEXT = NULL)); [by left|right].
  apply (pi_live _ _ _ _ _ Hi), elem_of_app. right. by eapply elem_of_links.
Qed.

Lemma chain_fuel s A B H K x l : pb_inv s A B H K → x ∈ A ++ B → chain (pb_m s) PB_NEXT x l → (length l < walk_fuel (pb_m s))%nat.
Proof.
  intros Hi Hx Hc. pose proof (inv_size _ _ _ _ _ Hi). unfold walk_fuel.
  assert (length l ≤ length (A ++ B))%nat; [|lia]. apply submseteq_length, NoDup_submseteq; [by eapply chain_nodup|].
  intros y Hy. by eapply chain_live.
Qed.

(** The head of a live chain is split off its last pbuf. *)
Lemma chain_split s A B H K x : pb_inv s A B H K → x ∈ A ++ B → ∃ l0 y, chain (pb_m s) PB_NEXT x (l0 ++ [y]).
Proof.
  intros Hi Hx. destruct (pi_chain _ _ _ _ _ Hi x Hx) as [l Hl]. destruct l as [|z l] using rev_ind; [|by exists l, z].
  destruct (inv_non_null _ _ _ _ _ _ Hi Hx Hl).
Qed.

(** One user's reference to [t] becomes the link of the last pbuf of the chain of [h]. *)
Lemma inv_link s s' A B H K t lt y :
  pb_inv s A B (t :: H) K → y ∈ A ++ B → rd (pb_m s) y PB_NEXT = NULL → chain (pb_m s) PB_NEXT t lt → y ∉ lt →
  rd (pb_m s') y PB_NEXT = t →
  (∀ x off, off ≠ PB_TOT_LEN → (x, off) ≠ (y, PB_NEXT) → rd (pb_m s') x off = rd (pb_m s) x off) →
  same_outside (A ++ B) (pb_m s) (pb_m s') →
  pb_pools s' MEMP_PBUF = pb_pools s MEMP_PBUF → pb_ram s' = pb_ram s → pb_mbufs s' = pb_mbufs s → pb_inv s' A B H K.
Proof.
  intros Hi Hy Hyn Hct Hyt Hyt' Hrd Hso Ep Er Em. pose proof Hi as [Hr Hl Ht Hc (F1 & F2 & F3 & Hp)].
  assert (Htn : t ≠ NULL) by (eapply inv_non_null; [exact Hi|]; eapply inv_held; [exact Hi|mem]).
  destruct (proj1 (elem_of_Permutation _ _) Hy) as [L0 HL].
  pose proof (inv_nodup _ _ _ _ _ Hi) as Hnd. rewrite HL in Hnd. apply NoDup_cons in Hnd as [HyL _].
  assert (Hlk : links (pb_m s') (A ++ B) ≡ₚ t :: links (pb_m s) (A ++ B)).
  { rewrite !(links_perm _ _ _ HL). unfold links. cbn [mbind list_bind]. unfold nx at 1 3. rewrite Hyt', Hyn, (proj2 (Z.eqb_neq _ _) Htn). cbn [Z.eqb app].
    fold (links (pb_m s') L0) (links (pb_m s) L0). rewrite (links_same (pb_m s) (pb_m s')); [done|].
    intros x off Hx ->%list_elem_of_singleton. apply Hrd; [done|]. intros [= ->]. done. }
  assert (HR : H ++ links (pb_m s') (A ++ B) ≡ₚ (t :: H) ++ links (pb_m s) (A ++ B)) by (rewrite Hlk; solve_Permutation).
  split.
  - intros x Hx. rewrite (refs_perm _ _ x HR), Hrd by done. by apply Hr.
  - intros x Hx. apply Hl. by rewrite <- HR.
  - split; intros x Hx; rewrite Hrd by done; by apply Ht.
  - intros x Hx. destruct (Hc x Hx) as [l Hcl].
    assert (Hfr : ∀ p k e, y ∉ k → lseg (pb_m s) PB_NEXT p k e → lseg (pb_m s') PB_NEXT p k e).
    { intros p k e Hk Hlk'. eapply lseg_frame, Hlk'. intros z Hz. apply Hrd; [done|]. intros [= ->]. done. }
    destruct (decide (y ∈ l)) as [Hyl|Hyl]; [|exists l; by apply Hfr].
    destruct (chain_last_at _ _ _ _ _ Hcl Hyl Hyn) as [l0 ->]. exists ((l0 ++ [y]) ++ lt).
    pose proof (chain_nodup _ _ _ _ Hcl) as Hnd. apply NoDup_app in Hnd as (_ & Hyl0 & _). rewrite <- app_assoc. cbn [app].
    apply lseg_app in Hcl as (q & Hq & -> & Hyn0 & _). apply lseg_app. exists y. split.
    + apply Hfr; [|exact Hq]. intros Hin. apply (Hyl0 y Hin). by apply list_elem_of_singleton.
    + cbn [lseg]. split_and!; [done..|]. rewrite Hyt'. by apply Hfr.
  - exists F1, F2, F3. eapply pools_frame; [exact Hp|exact Hso|..|done|done|done].
    + intros x Hx Hx'. by eapply live_not_free.
    + intros x off _ ->%list_elem_of_singleton. by apply Hrd.
Qed.

(** [pbuf_cat] on live chains that have no pbuf in common. *)
Lemma pbuf_cat_ok s A B H K h t lh lt :
  pb_inv s A B (t :: H) K → h ∈ A ++ B → chain (pb_m s) PB_NEXT h lh → chain (pb_m s) PB_NEXT t lt → (∀ x, x ∈ lh → x ∉ lt) →
  ∃ m', pbuf_cat (pb_m s) h t = Some m' ∧ pb_inv (s <| pb_m := m' |>) A B H K ∧ chain m' PB_NEXT h (lh ++ lt) ∧
    (∀ x, x ∈ lh → rd m' x PB_TOT_LEN = u16 (rd (pb_m s) x PB_TOT_LEN + rd (pb_m s) t PB_TOT_LEN)) ∧
    (∀ x off, off ≠ PB_NEXT → ¬ (x ∈ lh ∧ off = PB_TOT_LEN) → rd m' x off = rd (pb_m s) x off).
Proof.
  intros Hi Hh Hlh Hlt Hd. assert (Ht : t ∈ A ++ B) by (eapply inv_held; [exact Hi|mem]). pose proof (inv_non_null _ _ _ _ _ _ Hi Ht) as Htn.
  destruct (chain_split _ _ _ _ _ _ Hi Hh) as (l0 & y & Hl0). assert (lh = l0 ++ [y]) as -> by (by eapply chain_inj).
  assert (Htl : t ∈ lt) by (destruct lt; [by cbn in Hlt|destruct Hlt as (-> & _); mem]).
  assert (Hyl : y ∈ l0 ++ [y]) by mem.
  destruct (pbuf_cat_run (pb_m s) h t l0 y Hl0) as (m' & E & Hy & Htot & Hout); [intros Hin; by apply (Hd t)|done| |].
  { pose proof (chain_fuel _ _ _ _ _ _ _ Hi Hh Hl0) as Hf. rewrite length_app in Hf. lia. }
  pose proof (chain_live _ _ _ _ _ _ _ Hi Hh Hl0) as Hlive.
  assert (Hrd : ∀ x off, off ≠ PB_TOT_LEN → (x, off) ≠ (y, PB_NEXT) → rd m' x off = rd (pb_m s) x off) by (intros x off ? ?; apply Hout; [by intros []|done]).
  exists m'. split_and!; [exact E| | |exact Htot|intros x off ? ?; apply Hout; [done|congruence]].
  - eapply (inv_link s _ A B H K t lt y Hi); [by apply Hlive|by eapply chain_last_null|exact Hlt|by apply Hd|exact Hy|exact Hrd| |done..].
    intros x off Hx. apply Hout; [intros [Hin _]; by apply Hx, Hlive|]. intros [= -> ->]. by apply Hx, Hlive.
  - pose proof (chain_nodup _ _ _ _ Hl0) as Hnd. apply NoDup_app in Hnd as (_ & Hy0 & _). rewrite <- app_assoc. cbn [app].
    apply lseg_app in Hl0 as (q & Hq & -> & Hyn0 & _). apply lseg_app. exists y. split.
    + eapply lseg_frame, Hq. intros z Hz. apply Hrd; [done|]. intros [= ->]. apply (Hy0 y Hz). mem.
    + cbn [lseg]. split_and!; [done..|]. rewrite Hy. eapply lseg_frame, Hlt. intros z Hz. apply Hrd; [done|]. intros [= ->]. by apply (Hd y).
Qed.

(** The lengths of the pbufs of [L] fit their fields. *)
Definition typed16 (m : heap) (L : list ptr) : Prop := ∀ x, x ∈ L → 0 ≤ rd m x PB_LEN < 65536 ∧ 0 ≤ rd m x PB_TOT_LEN < 65536.

Lemma typed16_same m m' L L' :
  typed16 m L → (∀ x, x ∈ L' → x ∈ L ∧ rd m' x PB_LEN = rd m x PB_LEN ∧ (rd m' x PB_TOT_LEN = rd m x PB_TOT_LEN ∨ ∃ v, rd m' x PB_TOT_LEN = u16 v)) →
  typed16 m' L'.
Proof.
  intros Ht Hs x Hx. destruct (Hs x Hx) as (HL & E1 & E2). destruct (Ht x HL) as [? ?]. rewrite E1. split; [done|].
  destruct E2 as [->|[v ->]]; [done|apply u16_range].
Qed.

Lemma pbuf_chain_ok s A B H K h t lh lt :
  pb_inv s A B (t :: H) K → h ∈ A ++ B → chain (pb_m s) PB_NEXT h lh → chain (pb_m s) PB_NEXT t lt → (∀ x, x ∈ lh → x ∉ lt) →
  rd (pb_m s) t PB_REF < 65535 →
  ∃ m', pbuf_chain (pb_m s) h t = Some m' ∧ pb_inv (s <| pb_m := m' |>) A B (t :: H) K ∧ chain m' PB_NEXT h (lh ++ lt) ∧
    (∀ x, x ∈ lh → rd m' x PB_TOT_LEN = u16 (rd (pb_m s) x PB_TOT_LEN + rd (pb_m s) t PB_TOT_LEN)) ∧
    (∀ x off, off ≠ PB_NEXT → ¬ (x ∈ lh ∧ off = PB_TOT_LEN) → (x, off) ≠ (t, PB_REF) → rd m' x off = rd (pb_m s) x off).
Proof.
  intros Hi Hh Hlh Hlt Hd Hr. destruct (pbuf_cat_ok s A B H K h t lh lt Hi Hh Hlh Hlt Hd) as (m1 & E1' & Hi1 & Hc1 & Htot & Hout).
  assert (Ht : t ∈ A ++ B) by (eapply inv_held; [exact Hi|mem]).
  destruct (pbuf_ref_ok _ A B H K t Hi1 Ht) as (m2 & E2' & Hi2); [change (rd m1 t PB_REF < 65535); rewrite Hout; [done..|by intros []]|].
  pose proof (pbuf_ref_frame _ _ _ E2') as Hf.
  exists m2. unfold pbuf_chain. rewrite E1'. split_and!; [exact E2'|exact Hi2| |intros x Hx; rewrite Hf by done; by apply Htot|].
  - eapply lseg_frame, Hc1. intros x _. by apply Hf.
  - intros x off ? ? ?. rewrite Hf by done. by apply Hout.
Qed.

(** *** Unlinking *)

(** The link of [p] becomes a reference of the user who clears it. *)
Lemma inv_unlink s A B H K p q :
  pb_inv s A B H K → p ∈ A ++ B → rd (pb_m s) p PB_NEXT = q → q ≠ NULL → pb_inv (relink p NULL s) A B (q :: H) K.
Proof.
  intros Hi Hp Eq Hq. pose proof Hi as [Hr Hl Ht Hc (F1 & F2 & F3 & Hpo)]. set (s' := relink p NULL s).
  assert (Hrd : ∀ x off, (x, off) ≠ (p, PB_NEXT) → rd (pb_m s') x off = rd (pb_m s) x off).
  { intros x off Hne. by apply rd_other. }
  assert (Hpn : rd (pb_m s') p PB_NEXT = NULL) by apply rd_insert_eq.
  destruct (proj1 (elem_of_Permutation _ _) Hp) as [L0 HL].
  pose proof (inv_nodup _ _ _ _ _ Hi) as Hnd. rewrite HL in Hnd. apply NoDup_cons in Hnd as [HpL _].
  assert (Hlk : links (pb_m s) (A ++ B) ≡ₚ q :: links (pb_m s') (A ++ B)).
  { rewrite !(links_perm _ _ _ HL). unfold links. cbn [mbind list_bind]. unfold nx at 1 3. rewrite Eq, Hpn, (proj2 (Z.eqb_neq _ _) Hq). cbn [Z.eqb app].
    fold (links (pb_m s') L0) (links (pb_m s) L0). rewrite (links_same (pb_m s) (pb_m s')); [done|].
    intros x off Hx ->%list_elem_of_singleton. apply Hrd. intros [= ->]. done. }
  assert (HR : (q :: H) ++ links (pb_m s') (A ++ B) ≡ₚ H ++ links (pb_m s) (A ++ B)) by (rewrite Hlk; solve_Permutation).
  split.
  - intros x Hx. rewrite (refs_perm _ _ x HR), Hrd by done. by apply Hr.
  - intros x Hx. apply Hl. by rewrite <- HR.
  - split; intros x Hx; rewrite Hrd by done; by apply Ht.
  - intros x Hx. destruct (Hc x Hx) as [l Hcl].
    assert (Hfr : ∀ a k e, p ∉ k → lseg (pb_m s) PB_NEXT a k e → lseg (pb_m s') PB_NEXT a k e).
    { intros a k e Hk Hlk'. eapply lseg_frame, Hlk'. intros z Hz. apply Hrd. intros [= ->]. done. }
    destruct (decide (p ∈ l)) as [Hpl|Hpl]; [|exists l; by apply Hfr].
    destruct (list_elem_of_split _ _ Hpl) as (l1 & l2 & ->). exists (l1 ++ [p]).
    pose proof (chain_nodup _ _ _ _ Hcl) as Hnd. apply NoDup_app in Hnd as (_ & Hd & _).
    apply lseg_app in Hcl as (a & Ha & -> & Hpz & _). apply lseg_app. exists p. split; [|done].
    apply Hfr; [|exact Ha]. intros Hin. apply (Hd p Hin). mem.
  - exists F1, F2, F3. eapply (pools_frame s s' A B K F1 F2 F3 [p]); [exact Hpo|apply same_outside_insert; mem|..|done|done|done].
    + intros x Hx ->%list_elem_of_singleton. by eapply live_not_free.
    + intros x off _ ->%list_elem_of_singleton. by apply Hrd.
Qed.

(** [pbuf_dechain] drops the link of [p].  It returns NULL when the number of pbufs released is
    not a multiple of 256, the former tail otherwise. *)
Lemma pbuf_dechain_ok s A B H K p :
  pb_inv s A B H K → p ∈ A ++ B →
  (rd (pb_m s) p PB_NEXT = NULL ∧ pbuf_dechain p s = Some (NULL, s)) ∨
  (rd (pb_m s) p PB_NEXT ≠ NULL ∧ ∃ s' A' B' D e,
    pbuf_dechain p s = Some (if 0 <? Z.of_nat (length D) mod 256 then NULL else rd (pb_m s) p PB_NEXT, s') ∧
    pb_inv s' A' B' H K ∧ A ++ B ≡ₚ D ++ A' ++ B' ∧ lseg (relink p NULL s).(pb_m) PB_NEXT (rd (pb_m s) p PB_NEXT) D e ∧
    (∀ x, x ∈ D → rd (pb_m s) x PB_REF = 1) ∧ (typed16 (pb_m s) (A ++ B) → typed16 (pb_m s') (A' ++ B'))).
Proof.
  intros Hi Hp. pose proof (inv_non_null _ _ _ _ _ _ Hi Hp) as Hpn. remember (rd (pb_m s) p PB_NEXT) as q eqn:Eq.
  destruct (Z.eq_dec q NULL) as [Hq|Hq]; [left|right].
  { split; [done|]. unfold pbuf_dechain. pb_step. rewrite <- Eq, Hq. done. }
  split; [done|]. assert (HqL : q ∈ A ++ B).
  { apply (pi_live _ _ _ _ _ Hi), elem_of_app. right. by eapply elem_of_links. }
  unfold pbuf_dechain. pb_step. rewrite <- Eq, (proj2 (Z.eqb_neq _ _) Hq). do 6 pb_step.
  set (s1 := s <| pb_m ::= <[(q, PB_TOT_LEN) := _]> |>). set (s3 := _ <| pb_m ::= <[(p, PB_TOT_LEN) := _]> |>).
  assert (Hi1 : pb_inv s1 A B H K) by (apply field_store_inv; [done|done|by apply (bool_decide_unpack _)]).
  assert (Hi2 : pb_inv (relink p NULL s1) A B (q :: H) K).
  { apply inv_unlink; [done|done| |done]. rewrite Eq. by apply rd_insert_ne; right. }
  assert (Hi3 : pb_inv s3 A B (q :: H) K) by (apply field_store_inv; [exact Hi2|done|by apply (bool_decide_unpack _)]).
  assert (Hnx : ∀ x, rd (pb_m s3) x PB_NEXT = rd (pb_m (relink p NULL s)) x PB_NEXT).
  { intros x. change (pb_m s3) with (<[(p, PB_TOT_LEN) := rd (pb_m (relink p NULL s1)) p PB_LEN]> (<[(p, PB_NEXT) := NULL]> (pb_m s1))).
    change (pb_m (relink p NULL s)) with (<[(p, PB_NEXT) := NULL]> (pb_m s)). rewrite rd_insert_ne by (by right).
    rewrite !rd_insert. case_decide; [done|]. by apply rd_insert_ne; right. }
  assert (Hrf : ∀ x, rd (pb_m s3) x PB_REF = rd (pb_m s) x PB_REF) by (intros x; do 3 (etransitivity; [apply rd_insert_ne; by right|]); done).
  destruct (pbuf_free_ok s3 A B H K q Hi3) as (s' & A' & B' & D & e & E & Hi' & HP & HD & HD1 & _ & Hk & _).
  exists s', A', B', D, e. st_run E. split_and!; [done|done|done| | |].
  - eapply lseg_frame, HD. intros x _. symmetry. apply Hnx.
  - intros x Hx. rewrite <- Hrf. by apply HD1.
  - intros Hty x Hx. rewrite !Hk by done. assert (HxL : x ∈ A ++ B) by (rewrite HP; mem). destruct (Hty x HxL) as [Hx1 Hx2].
    assert (Hl3 : rd (pb_m s3) x PB_LEN = rd (pb_m s) x PB_LEN) by (do 3 (etransitivity; [by apply rd_other|]); done).
    rewrite Hl3. split; [done|]. destruct (decide (x = p)) as [->|Hxp].
    { replace (rd (pb_m s3) p PB_TOT_LEN) with (rd (pb_m s) p PB_LEN); [done|]. symmetry. etransitivity; [apply rd_insert_eq|].
      do 2 (etransitivity; [by apply rd_other|]). done. }
    destruct (decide (x = q)) as [->|Hxq].
    { replace (rd (pb_m s3) q PB_TOT_LEN) with (u16 (rd (pb_m s) p PB_TOT_LEN - rd (pb_m s) p PB_LEN)); [apply u16_range|].
      symmetry. etransitivity; [apply rd_other; congruence|]. etransitivity; [by apply rd_other|]. apply rd_insert_eq. }
    replace (rd (pb_m s3) x PB_TOT_LEN) with (rd (pb_m s) x PB_TOT_LEN); [done|]. symmetry.
    do 3 (etransitivity; [apply rd_other; congruence|]). done.
Qed.

(** A store that changes no value. *)
Lemma inv_rewrite s s' A B H K :
  pb_inv s A B H K → (∀ x off, rd (pb_m s') x off = rd (pb_m s) x off) →
  pb_pools s' MEMP_PBUF = pb_pools s MEMP_PBUF → pb_ram s' = pb_ram s → pb_mbufs s' = pb_mbufs s → pb_inv s' A B H K.
Proof. intros Hi Hrd. by apply inv_frame; [|intros x off _; apply Hrd|intros x off _ _; apply Hrd]. Qed.

(** Cutting the chain behind [q], which a held pbuf leads to: free first, then clear the link. *)
Lemma cut_ok s A B H K p l1 q :
  pb_inv s A B H K → p ∈ H → q ∈ A ++ B → lseg (pb_m s) PB_NEXT p l1 q →
  ∃ s' A' B', (n ← pb_ld q PB_NEXT; (if negb (n =? NULL) then pbuf_free n;; mret () else mret ());; pb_sto q PB_NEXT NULL) s = Some (tt, s') ∧
    pb_inv s' A' B' H K ∧ (∀ x, x ∈ A' ++ B' → x ∈ A ++ B) ∧ (∀ x, x ∈ l1 ++ [q] → x ∈ A' ++ B') ∧ rd (pb_m s') q PB_NEXT = NULL ∧
    (∀ x off, x ∈ A' ++ B' → off ≠ PB_REF → (x, off) ≠ (q, PB_NEXT) → rd (pb_m s') x off = rd (pb_m s) x off) ∧ pb_data s' = pb_data s.
Proof.
  intros Hi Hp Hq Hl. pose proof (inv_non_null _ _ _ _ _ _ Hi Hq) as Hqn. remember (rd (pb_m s) q PB_NEXT) as n eqn:En.
  assert (HpL : p ∈ A ++ B) by (by eapply inv_held).
  assert (Hrl : ∀ x off, (x, off) ≠ (q, PB_NEXT) → rd (pb_m (relink q NULL s)) x off = rd (pb_m s) x off).
  { intros x off Hne. by apply rd_other. }
  assert (Hrq : rd (pb_m (relink q NULL s)) q PB_NEXT = NULL) by apply rd_insert_eq.
  assert (Hcut : chain (pb_m (relink q NULL s)) PB_NEXT p (l1 ++ [q])).
  { destruct (pi_chain _ _ _ _ _ Hi q Hq) as [lq Hlq]. assert (Hpq : chain (pb_m s) PB_NEXT p (l1 ++ lq)) by (apply lseg_app; eauto).
    apply chain_nodup in Hpq as Hnd. destruct lq as [|q' lq]; [done|]. destruct Hlq as (<- & _ & _). apply NoDup_app in Hnd as (_ & Hd & _).
    apply lseg_app. exists q. split; [|done]. eapply lseg_frame, Hl. intros x Hx. apply Hrl. intros [= ->]. apply (Hd q Hx). mem. }
  destruct (Z.eq_dec n NULL) as [Hn|Hn].
  - exists (relink q NULL s), A, B.
    assert (Hi' : pb_inv (relink q NULL s) A B H K).
    { eapply inv_rewrite; [exact Hi| |done..]. intros x off. destruct (decide ((x, off) = (q, PB_NEXT))) as [[= -> ->]|Hne]; [|by apply Hrl].
      by rewrite Hrq, <- En, Hn. }
    split_and!; [|exact Hi'|done|by apply (chain_live _ _ _ _ _ _ _ Hi' HpL Hcut)|done|intros x off _ _; apply Hrl|done].
    pb_step. rewrite <- En, Hn. cbn [Z.eqb negb]. rewrite pb_ret_bind. by apply pb_sto_run.
  - pose proof (inv_unlink s A B H K q n Hi Hq (eq_sym En) Hn) as Hi1.
    destruct (pbuf_free_ok _ A B H K n Hi1) as (s2 & A' & B' & D & e & E & Hi2 & HP & HD & _ & _ & Hk & Hd & Hrel).
    assert (HqX : ∀ x, x ∈ l1 ++ [q] → x ∈ A' ++ B').
    { eapply chain_closed; [|exact (inv_held _ _ _ _ _ _ Hi2 Hp)|exact Hcut]. intros y Hy.
      destruct (decide (rd (pb_m (relink q NULL s)) y PB_NEXT = NULL)); [by left|right].
      apply (pi_live _ _ _ _ _ Hi2), elem_of_app. right. eapply elem_of_links; [exact Hy| |done]. by apply Hk. }
    assert (HqL : q ∈ A' ++ B') by (apply HqX; mem). assert (Hq2 : rd (pb_m s2) q PB_NEXT = NULL) by (by rewrite Hk).
    exists (relink q NULL s2), A', B'.
    assert (Hi' : pb_inv (relink q NULL s2) A' B' H K).
    { eapply inv_rewrite; [exact Hi2| |done..]. intros x off. destruct (decide ((x, off) = (q, PB_NEXT))) as [[= -> ->]|Hne].
      - rewrite Hq2. apply rd_insert_eq.
      - by apply rd_other. }
    split_and!; [|exact Hi'|intros x Hx; rewrite HP; mem|exact HqX|apply rd_insert_eq| |exact Hd].
    + pb_step. rewrite <- En, (proj2 (Z.eqb_neq _ _) Hn). cbn [negb]. rewrite st_bind_assoc.
      specialize (Hrel q n HqL).
      assert (Es : relink q n (relink q NULL s) = s).
      { unfold relink. destruct s as [m ? ? ? ?]. cbv [set]. cbn. cbn in En. rewrite insert_insert_eq, insert_id; [done|].
        unfold rd in En. destruct (m !! (q, PB_NEXT)) as [w|]; cbn in En; congruence. }
      rewrite Es in Hrel. st_run Hrel. rewrite pb_ret_bind, pb_sto_run by done.
      do 2 f_equal. unfold relink. destruct s2 as [m ? ? ? ?]. cbv [set]. cbn. by rewrite insert_insert_eq.
    + intros x off Hx Ho Hne. etransitivity; [by apply rd_other|].
      rewrite Hk by (done || congruence). by apply Hrl.
Qed.

(** [pbuf_realloc] on a held chain that has at least [new_len] bytes. *)
Lemma pbuf_realloc_ok s A B H K p l new_len :
  pb_inv s A B H K → p ∈ H → chain (pb_m s) PB_NEXT p l → lens_ok (pb_m s) l →
  0 ≤ new_len < rd (pb_m s) p PB_TOT_LEN → rd (pb_m s) p PB_TOT_LEN < 65536 → new_len ≤ clen (pb_m s) l →
  ∃ s' A' B' l1 q l2, pbuf_realloc p new_len s = Some (tt, s') ∧ pb_inv s' A' B' H K ∧ l = l1 ++ q :: l2 ∧
    chain (pb_m s') PB_NEXT p (l1 ++ [q]) ∧ (∀ x, x ∈ A' ++ B' → x ∈ A ++ B) ∧ (∀ x, x ∈ l1 ++ [q] → x ∈ A' ++ B') ∧
    0 ≤ new_len - clen (pb_m s) l1 ≤ rd (pb_m s) q PB_LEN ∧
    rd (pb_m s') q PB_LEN = new_len - clen (pb_m s) l1 ∧ rd (pb_m s') q PB_TOT_LEN = new_len - clen (pb_m s) l1 ∧
    (∀ x, x ∈ l1 → rd (pb_m s') x PB_TOT_LEN = u16 (rd (pb_m s) x PB_TOT_LEN + u16 (new_len - rd (pb_m s) p PB_TOT_LEN))) ∧
    (∀ x, x ∈ A' ++ B' → x ≠ q → rd (pb_m s') x PB_LEN = rd (pb_m s) x PB_LEN) ∧
    (∀ x, x ∈ A' ++ B' → x ∉ l1 ++ [q] → rd (pb_m s') x PB_TOT_LEN = rd (pb_m s) x PB_TOT_LEN) ∧
    (∀ x, x ∈ A' ++ B' → rd (pb_m s') x PB_PAYLOAD = rd (pb_m s) x PB_PAYLOAD) ∧ pb_data s' = pb_data s.
Proof.
  intros Hi Hp Hc Hlen Hnew Htot Hcl. assert (HpL : p ∈ A ++ B) by (by eapply inv_held). pose proof (inv_non_null _ _ _ _ _ _ Hi HpL) as Hpn.
  assert (Hne : l ≠ []) by (intros ->; done). pose proof (chain_live _ _ _ _ _ _ _ Hi HpL Hc) as Hlive.
  unfold pbuf_realloc. pb_step. rewrite (proj2 (Z.leb_gt _ _)) by lia.
  destruct (realloc_walk_ok (walk_fuel (pb_m s)) (pb_m s) p l new_len (new_len - rd (pb_m s) p PB_TOT_LEN) Hc Hne Hlen) as (m1 & l1 & q & l2 & El & E & Hq & Ht & Ho);
    [lia|lia|by eapply chain_fuel|].
  unfold mbind at 1, st_bind at 1. rewrite E. cbn [mbind option_bind]. set (s1 := s <| pb_m := m1 |>). set (r := new_len - clen (pb_m s) l1) in *.
  assert (HqL : q ∈ A ++ B) by (apply Hlive; rewrite El; mem). pose proof (inv_non_null _ _ _ _ _ _ Hi HqL) as Hqn.
  assert (Hi1 : pb_inv s1 A B H K).
  { eapply inv_frame; [exact Hi| | |done..].
    - intros x off Hx. apply Ho. intros [Hin _]. apply Hx, Hlive. rewrite El. mem.
    - intros x off _ Hoff. apply Ho. intros [_ ->]. revert Hoff. by apply (bool_decide_unpack _). }
  do 2 pb_step. set (s3 := _ <| pb_m ::= <[(q, PB_TOT_LEN) := r]> |>).
  assert (Hi3 : pb_inv s3 A B H K) by (apply field_store_inv; [apply field_store_inv; [exact Hi1|done|]|done|]; by apply (bool_decide_unpack _)).
  assert (H3 : ∀ x off, (x, off) ≠ (q, PB_LEN) → (x, off) ≠ (q, PB_TOT_LEN) → rd (pb_m s3) x off = rd m1 x off).
  { intros x off N1 N2. do 2 (etransitivity; [by apply rd_other|]). done. }
  assert (Hl3 : lseg (pb_m s3) PB_NEXT p l1 q).
  { rewrite El in Hc. apply lseg_app in Hc as (q0 & Hl1 & -> & _). eapply lseg_frame, Hl1. intros x _. rewrite H3 by done. apply Ho. by intros []. }
  destruct (cut_ok s3 A B H K p l1 q Hi3 Hp HqL Hl3) as (s' & A' & B' & Hrun & Hi' & Hsub & Hkeep & Hqn' & Hrd & Hd).
  assert (Hnd : NoDup (l1 ++ [q])) by (apply chain_nodup in Hc; rewrite El in Hc; by eapply NoDup_app_sub; [|apply sublist_skip, sublist_nil_l]).
  apply NoDup_app in Hnd as (_ & Hqn1 & _).
  assert (Hne1 : ∀ x, x ∈ l1 → x ≠ q) by (intros x Hx ->; apply (Hqn1 q Hx); mem).
  assert (Hl1 : ∀ x, x ∈ l1 → x ∈ A' ++ B') by (intros x Hx; apply Hkeep; mem). assert (Hq' : q ∈ A' ++ B') by (apply Hkeep; mem).
  exists s', A', B', l1, q, l2. split_and!; try done; try lia.
  - apply lseg_app. exists q. split; [|done]. eapply lseg_frame, Hl3. intros x Hx. apply Hrd; [by apply Hl1|done|]. intros [= ->]. by apply (Hne1 q).
  - rewrite Hrd by done. etransitivity; [by apply rd_other|]. apply rd_insert_eq.
  - rewrite Hrd by done. apply rd_insert_eq.
  - intros x Hx. assert (x ≠ q) by auto. rewrite Hrd, H3 by (auto; congruence). by apply Ht.
  - intros x Hx Hxq. rewrite Hrd, H3 by (auto; congruence). apply Ho. by intros [].
  - intros x Hx Hxq. assert (x ≠ q) by (intros ->; apply Hxq; mem). rewrite Hrd, H3 by (auto; congruence). apply Ho. intros [? _]. apply Hxq. mem.
  - intros x Hx. rewrite Hrd, H3 by (auto; congruence). apply Ho. by intros [].
Qed.
(** *** Moving the payload pointer *)

(** [pbuf_header] changes at most the payload pointer and the two lengths. *)
Lemma pbuf_header_frame m p n r m' :
  pbuf_header m p n = Some (r, m') → ∀ x off, ¬ (x = p ∧ off ∈ [PB_PAYLOAD; PB_LEN; PB_TOT_LEN]) → rd m' x off = rd m x off.
Proof.
  unfold pbuf_header, ld, sto. intros E x off Ho.
  assert (Hp : (x, off) ≠ (p, PB_PAYLOAD)) by (intros [= -> ->]; apply Ho; split; [done|]; by apply (bool_decide_unpack _)).
  assert (Hl : (x, off) ≠ (p, PB_LEN)) by (intros [= -> ->]; apply Ho; split; [done|]; by apply (bool_decide_unpack _)).
  assert (Ht : (x, off) ≠ (p, PB_TOT_LEN)) by (intros [= -> ->]; apply Ho; split; [done|]; by apply (bool_decide_unpack _)).
  clear Ho. repeat (case_match; cbn [mbind option_bind] in E; simplify_eq; try done); by rewrite ?rd_other.
Qed.

Lemma pbuf_header_typed m p n r m' :
  pbuf_header m p n = Some (r, m') → 0 ≤ rd m p PB_LEN < 65536 ∧ 0 ≤ rd m p PB_TOT_LEN < 65536 →
  0 ≤ rd m' p PB_LEN < 65536 ∧ 0 ≤ rd m' p PB_TOT_LEN < 65536.
Proof.
  unfold pbuf_header, ld, sto. intros E Ht.
  repeat (case_match; cbn [mbind option_bind] in E; simplify_eq; try done); rewrite ?rd_insert_eq, ?rd_other by done; try done;
    rewrite ?rd_insert_eq, ?rd_other by done; split; try apply u16_range; try done; rewrite ?rd_insert_eq; apply u16_range.
Qed.

Lemma pbuf_header_ok s A B H K p n :
  pb_inv s A B H K → p ∈ A ++ B → - n ≤ rd (pb_m s) p PB_LEN → -32768 ≤ n < 32768 →
  ∃ r m', pbuf_header (pb_m s) p n = Some (r, m') ∧ pb_inv (s <| pb_m := m' |>) A B H K.
Proof.
  intros Hi Hp Hn Hr. pose proof (inv_non_null _ _ _ _ _ _ Hi Hp) as Hpn.
  destruct (pbuf_header (pb_m s) p n) as [[r m']|] eqn:E; [|exfalso].
  2: { revert E. unfold pbuf_header. rewrite (proj2 (Z.eqb_neq p NULL)), orb_false_r by done. destruct (n =? 0); [done|].
    rewrite (ld_some _ _ PB_LEN) by done. cbn [mbind option_bind]. cbv zeta. rewrite (proj2 (andb_false_iff (n <? 0) _)).
    2: { destruct (Z.ltb_spec n 0); [right|by left]. unfold u16, U16_MOD. rewrite Z.mod_small by lia. apply negb_false_iff, Z.leb_le. lia. }
    unfold sto, ld. rewrite !(proj2 (Z.eqb_neq p NULL)) by done. cbn [mbind option_bind]. by repeat case_match. }
  exists r, m'. split; [done|]. eapply inv_frame; [exact Hi| | |done..].
  - intros x off Hx. eapply pbuf_header_frame; [done|]. by intros [-> _].
  - intros x off _ Hoff. eapply pbuf_header_frame; [done|]. intros [_ Hin]. unfold own_fields in Hoff. set_solver by lia.
Qed.

(** *** Splitting *)

(** The second part is handed over to the caller, who gets the reference its predecessor had. *)
Definition split_users (r : ptr) (H : list ptr) : list ptr := if r =? NULL then H else r :: H.

(** What the chain [l] of [p] becomes: [l1] of less than 64K, and [l2] from [r]. *)
Record split_spec (m m' : heap) (p r : ptr) (l l1 l2 : list ptr) : Prop := {
  sp_parts : l = l1 ++ l2;
  sp_front : chain m' PB_NEXT p l1;
  sp_rest : chain m' PB_NEXT r l2;
  sp_small : clen m l1 < 65536;
  sp_full : ∀ x l', l2 = x :: l' → rd m x PB_LEN = 0 ∨ 65536 ≤ clen m l1 + rd m x PB_LEN;
  sp_tot : r ≠ NULL → ∀ x, x ∈ l1 → rd m' x PB_TOT_LEN = u16 (rd m x PB_TOT_LEN - rd m r PB_TOT_LEN);
  sp_same : ∀ x off, off ≠ PB_NEXT → off ≠ PB_FLAGS → ¬ (x ∈ l1 ∧ off = PB_TOT_LEN ∧ r ≠ NULL) → rd m' x off = rd m x off;
}.

Lemma split_flags m p r :
  p ≠ NULL → r ≠ NULL → ∃ m', (fl ← ld m p PB_FLAGS;
    if negb (Z.land fl PBUF_FLAG_TCP_FIN =? 0) then
      rf ← ld m r PB_FLAGS; m ← sto m r PB_FLAGS (Z.lor rf PBUF_FLAG_TCP_FIN); Some (m, r)
    else Some (m, r)) = Some (m', r) ∧ (∀ x off, (x, off) ≠ (r, PB_FLAGS) → rd m' x off = rd m x off).
Proof.
  intros Hp Hr. heap_step_head. destruct (negb _); [|by exists m].
  heap_step_head. eexists. split; [done|]. intros x off Hne. by apply rd_other.
Qed.

Lemma chain_cut_store m p l0 i r : lseg m PB_NEXT p (l0 ++ [i]) r → NoDup (l0 ++ [i]) → chain (<[(i, PB_NEXT) := NULL]> m) PB_NEXT p (l0 ++ [i]).
Proof.
  intros (q & H0 & -> & Hi & _)%lseg_app (_ & Hn & _)%NoDup_app. apply lseg_app. exists i. split; [|split_and!; [done..|apply rd_insert_eq]].
  eapply lseg_frame, H0. intros x Hx. apply rd_other. intros [= ->]. apply (Hn i Hx). mem.
Qed.

(** The update of the lengths and flags behind the cut. *)
Lemma split_finish s A B H K p k0 i r l2 :
  pb_inv s A B H K → p ∈ A ++ B → lseg (pb_m s) PB_NEXT p (k0 ++ [i]) r → chain (pb_m s) PB_NEXT r l2 → NoDup ((k0 ++ [i]) ++ l2) → r ≠ NULL →
  let m1 := <[(i, PB_NEXT) := NULL]> (pb_m s) in
  ∃ m', (m ← split_fix (walk_fuel m1) m1 p r; fl ← ld m p PB_FLAGS;
    if negb (Z.land fl PBUF_FLAG_TCP_FIN =? 0) then
      rf ← ld m r PB_FLAGS; m ← sto m r PB_FLAGS (Z.lor rf PBUF_FLAG_TCP_FIN); Some (m, r)
    else Some (m, r)) = Some (m', r) ∧ pb_inv (s <| pb_m := m' |>) A B (r :: H) K ∧
    chain m' PB_NEXT p (k0 ++ [i]) ∧ chain m' PB_NEXT r l2 ∧
    (∀ x, x ∈ k0 ++ [i] → rd m' x PB_TOT_LEN = u16 (rd (pb_m s) x PB_TOT_LEN - rd (pb_m s) r PB_TOT_LEN)) ∧
    (∀ x off, off ≠ PB_NEXT → off ≠ PB_FLAGS → ¬ (x ∈ k0 ++ [i] ∧ off = PB_TOT_LEN) → rd m' x off = rd (pb_m s) x off).
Proof.
  intros Hi HpL Hl1 Hl2 Hnd Hrn m1. pose proof (inv_non_null _ _ _ _ _ _ Hi HpL) as Hpn. apply NoDup_app in Hnd as (Hnd1 & Hd & Hnd2).
  pose proof (chain_cut_store _ _ _ _ _ Hl1 Hnd1) as Hc1. fold m1 in Hc1.
  assert (Hi1 : pb_inv (relink i NULL s) A B (r :: H) K).
  { assert (Hil : i ∈ A ++ B).
    { eapply (chain_live _ _ _ _ _ p ((k0 ++ [i]) ++ l2) Hi HpL); [apply lseg_app; eauto|mem]. }
    apply lseg_app in Hl1 as (q & _ & -> & _ & E). by apply inv_unlink. }
  pose proof (chain_live _ _ _ _ _ _ _ Hi1 HpL Hc1) as Hlive.
  assert (Hr1 : r ∉ k0 ++ [i]) by (intros Hin; apply (Hd r Hin); destruct l2 as [|z l2]; [done|destruct Hl2 as (<- & _)]; mem).
  destruct (split_fix_ok (walk_fuel m1) m1 p (k0 ++ [i]) r Hc1 Hr1 Hrn) as (m2 & E2 & Ht & Ho); [exact (chain_fuel _ _ _ _ _ _ _ Hi1 HpL Hc1)|].
  rewrite E2. cbn [mbind option_bind]. destruct (split_flags m2 p r Hpn Hrn) as (m' & E3 & H3). exists m'. split; [exact E3|].
  assert (H1 : ∀ x off, off ≠ PB_NEXT → rd m1 x off = rd (pb_m s) x off) by (intros x off Hoff; apply rd_other; congruence).
  assert (Hnx : ∀ x, rd m' x PB_NEXT = rd m1 x PB_NEXT) by (intros x; rewrite H3, Ho by (done || by intros []); done).
  assert (Hrest : ∀ x off, off ≠ PB_NEXT → off ≠ PB_FLAGS → ¬ (x ∈ k0 ++ [i] ∧ off = PB_TOT_LEN) → rd m' x off = rd (pb_m s) x off).
  { intros x off ? ? ?. by rewrite H3, Ho, H1 by congruence. }
  split_and!; [| | | |exact Hrest].
  - eapply inv_frame; [exact Hi1| | |done..].
    + intros x off Hx. cbn. rewrite H3, Ho; [done|intros [? _]; by apply Hx, Hlive|]. intros [= -> ->]. apply Hx, (inv_held _ _ _ _ _ _ Hi1). mem.
    + intros x off _ Hoff. cbn. rewrite H3, Ho; [done|intros [_ ->]|intros [= _ ->]]; revert Hoff; by apply (bool_decide_unpack _).
  - eapply lseg_frame, Hc1. intros x _. apply Hnx.
  - eapply lseg_frame, Hl2. intros x Hx. rewrite Hnx. apply rd_other. intros [= ->]. apply (Hd i); [mem|done].
  - intros x Hx. rewrite H3 by done. rewrite Ht, !H1 by done. done.
Qed.

Lemma pbuf_split_64k_ok s A B H K p l :
  pb_inv s A B H K → p ∈ A ++ B → chain (pb_m s) PB_NEXT p l → lens_ok (pb_m s) l →
  ∃ m' r, pbuf_split_64k (pb_m s) p = Some (m', r) ∧ pb_inv (s <| pb_m := m' |>) A B (split_users r H) K ∧
    ∃ l1 l2, split_spec (pb_m s) m' p r l l1 l2.
Proof.
  intros Hi HpL Hc Hlen. pose proof (inv_non_null _ _ _ _ _ _ Hi HpL) as Hpn. set (m := pb_m s) in *.
  pose proof (chain_live _ _ _ _ _ _ _ Hi HpL Hc) as Hlive. pose proof (chain_fuel _ _ _ _ _ _ _ Hi HpL Hc) as Hfu. fold m in Hfu.
  pose proof (chain_nodup _ _ _ _ Hc) as Hnd. unfold pbuf_split_64k. rewrite (proj2 (Z.eqb_neq _ _) Hpn), (ld_some m p PB_NEXT) by done. cbn [mbind option_bind].
  destruct l as [|p' l]; [done|]. destruct Hc as (<- & _ & Hc). apply Forall_cons in Hlen as [Hlp Hlen].
  destruct (Z.eqb_spec (rd m p PB_NEXT) NULL) as [En|En].
  { rewrite En in Hc. assert (l = []) as -> by (destruct l as [|z l]; [done|by destruct Hc as (<- & ? & _)]).
    exists m, NULL. split_and!; [done|by eapply (inv_rewrite s)|].
    exists [p], []. split; try done; cbn [clen foldr]; lia. }
  rewrite (ld_some m p PB_LEN) by done. cbn [mbind option_bind].
  destruct (split_walk_ok (walk_fuel m) m p _ l (rd m p PB_LEN) Hc Hlen) as (k & i & r & l2 & E & -> & (k0 & Ek) & Hk & Hc2 & Hs & He); [lia|cbn in Hfu; lia|].
  rewrite E. cbn [mbind option_bind]. assert (Hl1 : lseg m PB_NEXT p (k0 ++ [i]) r) by (by rewrite <- Ek).
  change (p :: k ++ l2) with ((p :: k) ++ l2) in *. assert (Hcl : clen m (p :: k) = rd m p PB_LEN + clen m k) by done. rewrite Ek in *.
  assert (i ≠ NULL ∧ rd m i PB_NEXT = r) as [Hin Hir] by (apply lseg_app in Hl1 as (q & _ & -> & ? & ?); done).
  rewrite (sto_some m i) by done. cbn [mbind option_bind]. destruct (Z.eqb_spec r NULL) as [->|Hrn].
  - assert (l2 = []) as -> by (destruct l2 as [|z l2]; [done|by destruct Hc2 as (<- & ? & _)]).
    assert (Hsame : ∀ x off, rd (<[(i, PB_NEXT) := NULL]> m) x off = rd m x off).
    { intros x off. destruct (decide ((x, off) = (i, PB_NEXT))) as [[= -> ->]|]; [rewrite Hir; apply rd_insert_eq|by apply rd_other]. }
    eexists _, NULL. split_and!; [done|by eapply (inv_rewrite s)|]. exists (k0 ++ [i]), []. split; try done; [|lia].
    eapply lseg_frame, Hl1. intros x _. apply Hsame.
  - destruct (split_finish s A B H K p k0 i r l2 Hi HpL Hl1 Hc2 Hnd Hrn) as (m' & E' & Hi' & Hf1 & Hf2 & Ht & Ho).
    exists m', r. split_and!; [exact E'|unfold split_users; by rewrite (proj2 (Z.eqb_neq _ _) Hrn)|]. exists (k0 ++ [i]), l2.
    split; try done; [lia| |intros x off ? ? Hn; apply Ho; [done..|tauto]]. intros x l' Ex. specialize (He x l' Ex). lia.
Qed.

End linking.
