(* ===== verification/PbufStep.v ===== *)
(** * Disciplined use of packet buffers

    The users of the pbuf module as a transition system: each step is one call, allowed when
    the caller holds the references the call is documented to need.  Every such call returns,
    and no sequence of them loses, duplicates or leaks a pbuf or an mbuf. *)

From S2P Require Import Prelude Stddef Heap Mempool ByteMem Mbuf Pbuf PbufOwn PbufLink.
Local Open Scope Z_scope.

(** ** Operations *)

Inductive pb_op :=
  | PAlloc (layer : pbuf_layer) (length type : Z)
  | PRef (p : ptr)
  | PFree (p : ptr)
  | PCat (h t : ptr)
  | PChain (h t : ptr)
  | PDechain (p : ptr)
  | PRealloc (p : ptr) (new_len : Z)
  | PHeader (p : ptr) (increment : Z)
  | PSplit (p : ptr)
  | PRecv (pkt : ptr) (len header_len tcphdr : Z).

(** One call: its result (0 where it has none) and the state after it. *)
Definition run_op (o : pb_op) (s : pbs) : option (Z * pbs) :=
  let heap_op (r : option heap) := m ← r; Some (0, s <| pb_m := m |>) in
  match o with
  | PAlloc layer length type => pbuf_alloc layer length type s
  | PRef p => heap_op (pbuf_ref (pb_m s) p)
  | PFree p => pbuf_free p s
  | PCat h t => heap_op (pbuf_cat (pb_m s) h t)
  | PChain h t => heap_op (pbuf_chain (pb_m s) h t)
  | PDechain p => pbuf_dechain p s
  | PRealloc p n => '(_, s') ← pbuf_realloc p n s; Some (0, s')
  | PHeader p n => '(r, m) ← pbuf_header (pb_m s) p n; Some (r, s <| pb_m := m |>)
  | PSplit p => '(m, r) ← pbuf_split_64k (pb_m s) p; Some (r, s <| pb_m := m |>)
  | PRecv pkt len header_len tcphdr => tcp_input_pbuf pkt len header_len tcphdr s
  end.

Fixpoint drop_ref (p : ptr) (H : list ptr) : list ptr :=
  match H with
  | [] => []
  | x :: H => if x =? p then H else x :: drop_ref p H
  end.

(** The references held after a call with result [r], and the mbufs not yet handed to a pbuf. *)
Definition users_after (o : pb_op) (r : Z) (H : list ptr) : list ptr :=
  match o with
  | PAlloc _ _ _ | PSplit _ => split_users r H
  | PRef p => p :: H
  | PFree p | PCat _ p => drop_ref p H
  | PRecv _ _ _ _ => r :: H
  | PChain _ _ | PDechain _ | PRealloc _ _ | PHeader _ _ => H
  end.
Definition mbufs_after (o : pb_op) (K : list ptr) : list ptr :=
  match o with PRecv pkt _ _ _ => drop_ref pkt K | _ => K end.

Record pb_client := mk_pb_client { pc_s : pbs; pc_users : list ptr; pc_mbufs : list ptr }.

(** The chains of [h] and [t] share no pbuf. *)
Definition joinable (m : heap) (h t : ptr) : Prop :=
  ∀ lh lt, chain m PB_NEXT h lh → chain m PB_NEXT t lt → ∀ x, x ∈ lh → x ∉ lt.

Definition disciplined (o : pb_op) (c : pb_client) : Prop :=
  let m := pb_m (pc_s c) in
  let H := pc_users c in
  match o with
  | PAlloc _ length _ => 0 ≤ length < 65536
  | PRef p => p ∈ H ∧ rd m p PB_REF < 65535
  | PFree p | PDechain p | PSplit p => p ∈ H
  | PCat h t => h ∈ H ∧ t ∈ H ∧ joinable m h t
  | PChain h t => h ∈ H ∧ t ∈ H ∧ joinable m h t ∧ rd m t PB_REF < 65535
  | PRealloc p n => p ∈ H ∧ 0 ≤ n ∧ ∀ l, chain m PB_NEXT p l → n ≤ clen m l
  | PHeader p n => p ∈ H ∧ -32768 ≤ n < 32768 ∧ - n ≤ rd m p PB_LEN
  | PRecv pkt _ _ _ => pkt ∈ pc_mbufs c ∧ ∃ x P, mempool_alloc m (pb_pools (pc_s c) MEMP_PBUF) = Some (x, P) ∧ x ≠ NULL
  end.

(** One call of a user. *)
Inductive pb_step_op (o : pb_op) (c : pb_client) : pb_client → Prop :=
  | pb_call r s' : disciplined o c → run_op o (pc_s c) = Some (r, s') →
      pb_step_op o c (mk_pb_client s' (users_after o r (pc_users c)) (mbufs_after o (pc_mbufs c))).

Lemma drop_ref_perm p H : p ∈ H → H ≡ₚ p :: drop_ref p H.
Proof.
  induction H as [|x H IH]; intros Hp; [by apply elem_of_nil in Hp|]. cbn [drop_ref]. destruct (Z.eqb_spec x p) as [->|Hne]; [done|].
  apply elem_of_cons in Hp as [->|Hp]; [done|]. rewrite (IH Hp) at 1. solve_Permutation.
Qed.

Section clients.
Context `{EL : PbufElements}.

(** *** Handing an mbuf to a pbuf *)
Lemma attached_set m x v L :
  NoDup L → x ∈ L → rd m x PB_MBUF = NULL → v ≠ NULL → attached (<[(x, PB_MBUF) := v]> m) L ≡ₚ v :: attached m L.
Proof.
  intros Hnd Hx Hn Hv. destruct (proj1 (elem_of_Permutation _ _) Hx) as [L0 HL]. rewrite HL in Hnd. apply NoDup_cons in Hnd as [Hx0 _].
  rewrite !(attached_perm _ _ _ HL). unfold attached. cbn [mbind list_bind]. unfold mbs at 1 3. rewrite rd_insert_eq, Hn, (proj2 (Z.eqb_neq _ _) Hv).
  cbn [Z.eqb app]. apply Permutation_cons; [done|]. change (attached (<[(x, PB_MBUF) := v]> m) L0 ≡ₚ attached m L0).
  rewrite (attached_same m); [done|]. intros y off Hy ->%list_elem_of_singleton. apply rd_other. intros [= ->]. done.
Qed.

Lemma inv_attach s A B H K x v :
  pb_inv s A B H (v :: K) → x ∈ A ++ B → rd (pb_m s) x PB_MBUF = NULL → pb_inv (s <| pb_m ::= <[(x, PB_MBUF) := v]> |>) A B H K.
Proof.
  intros Hi Hx Hn. pose proof (inv_nodup _ _ _ _ _ Hi) as Hnd. destruct Hi as [Hr Hl Ht Hc (F1 & F2 & F3 & Hp)]. set (s' := s <| pb_m ::= _ |>).
  assert (Hv : v ≠ NULL) by (eapply pools_non_null; [exact Hp|]; mem).
  assert (Hrd : ∀ y off, off ≠ PB_MBUF → rd (pb_m s') y off = rd (pb_m s) y off) by (intros y off Ho; apply rd_other; congruence).
  assert (Hlk : links (pb_m s') (A ++ B) = links (pb_m s) (A ++ B)) by (apply links_same; intros y off _ ->%list_elem_of_singleton; by apply Hrd).
  assert (Hso : same_outside [x] (pb_m s) (pb_m s')) by (apply same_outside_insert; mem).
  pose proof (live_not_free _ _ _ _ _ _ _ x Hp Hx) as Hxf. split; rewrite ?Hlk.
  - intros y Hy. rewrite Hrd by done. by apply Hr.
  - done.
  - split; intros y Hy; rewrite Hrd by done; by apply Ht.
  - intros y Hy. destruct (Hc y Hy) as [l Hcl]. exists l. eapply lseg_frame, Hcl. intros z _. by apply Hrd.
  - exists F1, F2, F3. destruct Hp as [P1 P2 P3 Q1 Q2 Q3 Hcl]. split; try done.
    1, 2, 3: eapply pool_rep_frame; [done..|]; intros y Hy ->%list_elem_of_singleton; apply Hxf; mem.
    + rewrite <- Q3. change (attached (<[(x, PB_MBUF) := v]> (pb_m s)) (A ++ B) ++ K ++ F3 ≡ₚ attached (pb_m s) (A ++ B) ++ (v :: K) ++ F3).
      rewrite attached_set by done. solve_Permutation.
    + intros y Hy. rewrite Hso; [by apply Hcl|]. intros ->%list_elem_of_singleton. apply Hxf. mem.
Qed.

Lemma inv_perm_mbufs s A B H K K' : K ≡ₚ K' → pb_inv s A B H K → pb_inv s A B H K'.
Proof.
  intros HK [Hr Hl Ht Hc (F1 & F2 & F3 & [P1 P2 P3 Q1 Q2 Q3 Hcl])]. split; [done..|]. exists F1, F2, F3. split; try done. by rewrite <- HK.
Qed.

(** *** The invariant of the clients *)
Definition client_ok (c : pb_client) : Prop :=
  ∃ A B, pb_inv (pc_s c) A B (pc_users c) (pc_mbufs c) ∧ typed16 (pb_m (pc_s c)) (A ++ B).

(** The call returns and the invariant holds afterwards. *)
Definition op_ok (o : pb_op) (c : pb_client) : Prop :=
  ∃ r s', run_op o (pc_s c) = Some (r, s') ∧ client_ok (mk_pb_client s' (users_after o r (pc_users c)) (mbufs_after o (pc_mbufs c))).

Lemma alloc_op_ok c layer length type : client_ok c → disciplined (PAlloc layer length type) c → op_ok (PAlloc layer length type) c.
Proof.
  intros (A & B & Hi & Hty) Hlen. destruct c as [s H K]. cbn in Hi, Hty, Hlen. unfold op_ok. cbn [pc_s pc_users pc_mbufs run_op users_after mbufs_after].
  destruct (pbuf_alloc_ok s A B H K layer length type Hi) as [Ha Hn].
  destruct (decide (type = PBUF_RAM ∨ type = PBUF_ROM ∨ type = PBUF_REF)) as [Ht|Ht]; [|exists NULL, s; split; [by apply Hn|by exists A, B]].
  destruct (Ha Ht) as [(s' & E & Hi' & Em & _)|(x & s' & A' & B' & E & Hx & HP & Hi' & (_ & _ & _ & _ & El & Et & _) & Hso & _)].
  - exists NULL, s'. split; [done|]. exists A, B. cbn. by rewrite Em.
  - exists x, s'. split; [done|]. assert (Hxn : x ≠ NULL) by (eapply inv_non_null; [exact Hi'|]; rewrite HP; mem).
    exists A', B'. cbn. unfold split_users. rewrite (proj2 (Z.eqb_neq _ _) Hxn). split; [done|].
    intros y Hy. rewrite HP in Hy. apply elem_of_cons in Hy as [->|Hy]; [by rewrite El, Et|].
    rewrite !Hso by (intros ->%list_elem_of_singleton; done). by apply Hty.
Qed.

Lemma ref_op_ok c p : client_ok c → disciplined (PRef p) c → op_ok (PRef p) c.
Proof.
  intros (A & B & Hi & Hty) [Hp Hr]. destruct c as [s H K]. cbn in *.
  destruct (pbuf_ref_ok s A B H K p Hi) as (m' & E & Hi'); [by eapply inv_held|done|]. pose proof (pbuf_ref_frame _ _ _ E) as Hf.
  exists 0, (s <| pb_m := m' |>). cbn [run_op pc_s]. rewrite E. split; [done|]. exists A, B. split; [exact Hi'|].
  intros x Hx. cbn. rewrite !Hf by done. by apply Hty.
Qed.

Lemma free_op_ok c p : client_ok c → disciplined (PFree p) c → op_ok (PFree p) c.
Proof.
  intros (A & B & Hi & Hty) Hp. destruct c as [s H K]. cbn in *. apply (inv_perm _ _ _ _ _ _ (drop_ref_perm p H Hp)) in Hi.
  destruct (pbuf_free_ok s A B _ K p Hi) as (s' & A' & B' & D & e & E & Hi' & HP & _ & _ & _ & Hk & _).
  eexists _, s'. split; [exact E|]. exists A', B'. split; [exact Hi'|]. intros x Hx. cbn. rewrite !Hk by done. apply Hty. rewrite HP. mem.
Qed.

Lemma cat_op_ok c h t : client_ok c → disciplined (PCat h t) c → op_ok (PCat h t) c.
Proof.
  intros (A & B & Hi & Hty) (Hh & Ht & Hj). destruct c as [s H K]. cbn in *. assert (HhL : h ∈ A ++ B) by (by eapply inv_held).
  destruct (pi_chain _ _ _ _ _ Hi h HhL) as [lh Hlh]. destruct (pi_chain _ _ _ _ _ Hi t) as [lt Hlt]; [by eapply inv_held|].
  apply (inv_perm _ _ _ _ _ _ (drop_ref_perm t H Ht)) in Hi.
  destruct (pbuf_cat_ok s A B _ K h t lh lt Hi HhL Hlh Hlt (Hj _ _ Hlh Hlt)) as (m' & E & Hi' & _ & Htot & Ho).
  exists 0, (s <| pb_m := m' |>). cbn [run_op pc_s]. rewrite E. split; [done|]. exists A, B. split; [exact Hi'|].
  eapply typed16_same; [exact Hty|]. intros x Hx. split_and!; [done|apply Ho; [done|by intros []]|].
  destruct (decide (x ∈ lh)); [right; eexists; by apply Htot|left; apply Ho; [done|by intros []]].
Qed.

Lemma chain_op_ok c h t : client_ok c → disciplined (PChain h t) c → op_ok (PChain h t) c.
Proof.
  intros (A & B & Hi & Hty) (Hh & Ht & Hj & Hr). destruct c as [s H K]. cbn in *. assert (HhL : h ∈ A ++ B) by (by eapply inv_held).
  destruct (pi_chain _ _ _ _ _ Hi h HhL) as [lh Hlh]. destruct (pi_chain _ _ _ _ _ Hi t) as [lt Hlt]; [by eapply inv_held|].
  pose proof (drop_ref_perm t H Ht) as HP. apply (inv_perm _ _ _ _ _ _ HP) in Hi.
  destruct (pbuf_chain_ok s A B _ K h t lh lt Hi HhL Hlh Hlt (Hj _ _ Hlh Hlt) Hr) as (m' & E & Hi' & _ & Htot & Ho).
  exists 0, (s <| pb_m := m' |>). cbn [run_op pc_s]. rewrite E. split; [done|]. exists A, B. split; [by eapply inv_perm|].
  eapply typed16_same; [exact Hty|]. intros x Hx. split_and!; [done|apply Ho; [done|by intros []|done]|].
  destruct (decide (x ∈ lh)); [right; eexists; by apply Htot|left; apply Ho; [done|by intros []|done]].
Qed.

Lemma dechain_op_ok c p : client_ok c → disciplined (PDechain p) c → op_ok (PDechain p) c.
Proof.
  intros (A & B & Hi & Hty) Hp. destruct c as [s H K]. cbn in *.
  destruct (pbuf_dechain_ok s A B H K p Hi) as [(_ & E)|(_ & s' & A' & B' & D & e & E & Hi' & _ & _ & _ & Ht)]; [by eapply inv_held|..].
  - exists NULL, s. split; [exact E|]. by exists A, B.
  - eexists _, s'. split; [exact E|]. exists A', B'. split; [exact Hi'|by apply Ht].
Qed.

Lemma realloc_op_ok c p n : client_ok c → disciplined (PRealloc p n) c → op_ok (PRealloc p n) c.
Proof.
  intros (A & B & Hi & Hty) (Hp & Hn & Hcl). destruct c as [s H K]. cbn in *. assert (HpL : p ∈ A ++ B) by (by eapply inv_held).
  destruct (pi_chain _ _ _ _ _ Hi p HpL) as [l Hl]. pose proof (chain_live _ _ _ _ _ _ _ Hi HpL Hl) as Hlive. unfold op_ok. cbn [pc_s run_op].
  destruct (Z.le_gt_cases (rd (pb_m s) p PB_TOT_LEN) n) as [Hle|Hgt].
  { exists 0, s. unfold pbuf_realloc. rewrite pb_ld_bind by (by eapply inv_non_null). rewrite (proj2 (Z.leb_le _ _) Hle). split; [done|]. by exists A, B. }
  destruct (pbuf_realloc_ok s A B H K p l n Hi Hp Hl) as (s' & A' & B' & l1 & q & l2 & E & Hi' & -> & _ & Hsub & _ & Hr & Elq & Etq & Et & Hl' & Ht' & _).
  { apply Forall_forall. intros x Hx. by apply Hty, Hlive. } { lia. } { by apply Hty. } { by apply Hcl. }
  exists 0, s'. rewrite E. split; [done|]. exists A', B'. split; [exact Hi'|]. intros x Hx. cbn.
  assert (HqL : q ∈ A ++ B) by (apply Hlive; mem). pose proof (Hty q HqL) as [Hq1 _]. destruct (Hty x (Hsub x Hx)) as [Hx1 Hx2].
  destruct (decide (x = q)) as [->|Hxq]; [rewrite Elq, Etq; lia|]. rewrite Hl' by done. split; [done|].
  destruct (decide (x ∈ l1)) as [Hx3|Hx3]; [rewrite Et by done; apply u16_range|]. rewrite Ht' by (done || mem). done.
Qed.

Lemma header_op_ok c p n : client_ok c → disciplined (PHeader p n) c → op_ok (PHeader p n) c.
Proof.
  intros (A & B & Hi & Hty) (Hp & Hn & Hl). destruct c as [s H K]. cbn in *. assert (HpL : p ∈ A ++ B) by (by eapply inv_held).
  destruct (pbuf_header_ok s A B H K p n Hi HpL Hl Hn) as (r & m' & E & Hi').
  exists r, (s <| pb_m := m' |>). cbn [run_op pc_s]. rewrite E. split; [done|]. exists A, B. split; [exact Hi'|]. intros x Hx. cbn.
  destruct (decide (x = p)) as [->|Hne]; [by eapply pbuf_header_typed; [exact E|apply Hty]|].
  rewrite !(pbuf_header_frame _ _ _ _ _ E) by (by intros [-> _]). by apply Hty.
Qed.

Lemma split_op_ok c p : client_ok c → disciplined (PSplit p) c → op_ok (PSplit p) c.
Proof.
  intros (A & B & Hi & Hty) Hp. destruct c as [s H K]. cbn in *. assert (HpL : p ∈ A ++ B) by (by eapply inv_held).
  destruct (pi_chain _ _ _ _ _ Hi p HpL) as [l Hl]. pose proof (chain_live _ _ _ _ _ _ _ Hi HpL Hl) as Hlive.
  destruct (pbuf_split_64k_ok s A B H K p l Hi HpL Hl) as (m' & r & E & Hi' & l1 & l2 & Hsp); [apply Forall_forall; intros x Hx; by apply Hty, Hlive|].
  exists r, (s <| pb_m := m' |>). cbn [run_op pc_s]. rewrite E. split; [done|]. exists A, B. split; [exact Hi'|].
  eapply typed16_same; [exact Hty|]. intros x Hx. pose proof (sp_same _ _ _ _ _ _ _ Hsp x) as Hs. split_and!; [done|apply Hs; [done..|by intros (_ & ? & _)]|].
  destruct (decide (x ∈ l1 ∧ r ≠ NULL)) as [[Hx1 Hr]|Hx1]; [right; eexists; by apply (sp_tot _ _ _ _ _ _ _ Hsp)|left; apply Hs; [done..|tauto]].
Qed.

Lemma recv_op_ok c pkt len header_len tcphdr : client_ok c → disciplined (PRecv pkt len header_len tcphdr) c → op_ok (PRecv pkt len header_len tcphdr) c.
Proof.
  intros (A & B & Hi & Hty) (Hp & x0 & P & Ea & Hx0). destruct c as [s H K]. cbn in Hi, Hty, Hp, Ea. unfold op_ok. cbn [pc_s pc_users pc_mbufs run_op users_after mbufs_after].
  set (n := u16 (ntoh16 len - header_len * 4)). destruct (pbuf_alloc_ok s A B H K PBUF_RAW n PBUF_ROM Hi) as [Ha _].
  destruct Ha as [(s' & E & _ & _ & _ & Hall)|(x & s' & A' & B' & E & Hx & HP & Hi' & (_ & _ & _ & _ & El & Et & _) & Hso & Hmb & _)]; [by right; left|..].
  - exfalso. change (alloc_ref n PBUF_ROM s = Some (NULL, s')) in E. unfold alloc_ref in E.
    assert (Em : memp_malloc MEMP_PBUF s = Some (x0, set_pool MEMP_PBUF P s)) by (unfold memp_malloc; cbn [has_pool]; by rewrite Ea).
    rewrite (st_run _ _ _ _ _ Em), (proj2 (Z.eqb_neq _ _) Hx0) in E. do 5 (rewrite pb_sto_bind in E by done; cbv beta in E).
    unfold alloc_done in E. do 2 (rewrite pb_sto_bind in E by done; cbv beta in E). injection E as E' _. done.
  - assert (HxL : x ∈ A' ++ B') by (rewrite HP; mem). pose proof (inv_non_null _ _ _ _ _ _ Hi' HxL) as Hxn.
    unfold tcp_input_pbuf. fold n. rewrite (st_run _ _ _ _ _ E). do 2 pb_step. eexists x, _. split; [done|]. exists A', B'. cbn [pc_s pc_users pc_mbufs].
    apply (inv_perm_mbufs _ _ _ _ _ _ (drop_ref_perm pkt K Hp)) in Hi'. split.
    + apply inv_attach; [apply field_store_inv; [exact Hi'|done|by apply (bool_decide_unpack _)]|done|]. etransitivity; [by apply rd_other|exact Hmb].
    + intros y Hy. change (pb_m _) with (<[(x, PB_MBUF) := pkt]> (<[(x, PB_PAYLOAD) := tcphdr]> (pb_m s'))). rewrite !rd_other by done.
      rewrite HP in Hy. apply elem_of_cons in Hy as [->|Hy]; [rewrite El, Et; split; apply u16_range|].
      rewrite !Hso by (intros ->%list_elem_of_singleton; done). by apply Hty.
Qed.

(** Every disciplined call returns and keeps the invariant. *)
Lemma disciplined_ok o c : client_ok c → disciplined o c → op_ok o c.
Proof.
  destruct o; [apply alloc_op_ok|apply ref_op_ok|apply free_op_ok|apply cat_op_ok|apply chain_op_ok|apply dechain_op_ok|apply realloc_op_ok
    |apply header_op_ok|apply split_op_ok|apply recv_op_ok].
Qed.

(** *** Nothing leaks *)

Lemma links_length m L : (length (links m L) ≤ length L)%nat ∧ (∀ x, x ∈ L → rd m x PB_NEXT = NULL → (length (links m L) < length L)%nat).
Proof.
  induction L as [|y L [IH1 IH2]]; [split; [done|intros x Hx; by apply elem_of_nil in Hx]|].
  unfold links. cbn [mbind list_bind]. fold (links m L). unfold nx. rewrite length_app. cbn [length].
  split; [case_match; cbn [length]; lia|]. intros x [->|Hx]%elem_of_cons En.
  - rewrite En. cbn [Z.eqb length]. lia.
  - specialize (IH2 x Hx En). case_match; cbn [length]; lia.
Qed.

(** Without references from users there is no live pbuf: the last pbuf of a chain has no link
    to give to another. *)
Lemma no_users_no_live s A B K : pb_inv s A B [] K → A ++ B = [].
Proof.
  intros Hi. destruct (A ++ B) as [|x L] eqn:EL'; [done|exfalso]. pose proof (inv_nodup _ _ _ _ _ Hi) as Hnd.
  assert (Hx : x ∈ A ++ B) by (rewrite EL'; mem). destruct (chain_split _ _ _ _ _ _ Hi Hx) as (l0 & y & Hl).
  assert (HyL : y ∈ A ++ B) by (eapply chain_live; [exact Hi|exact Hx|exact Hl|mem]).
  pose proof (proj2 (links_length (pb_m s) (A ++ B)) y HyL (chain_last_null _ _ _ _ _ Hl)) as Hlt.
  assert (Hsub : A ++ B ⊆+ links (pb_m s) (A ++ B)).
  { apply NoDup_submseteq; [done|]. intros z Hz. apply refs_pos. destruct (pi_refs _ _ _ _ _ Hi z Hz) as [E ?]. cbn [app] in E. lia. }
  apply submseteq_length in Hsub. lia.
Qed.

(** The pools at start: all elements free, with the [mbuf] fields clear. *)
Record client_init (c : pb_client) : Prop := {
  ci_pbuf : ∃ F, pool_rep (pb_m (pc_s c)) (pb_pools (pc_s c) MEMP_PBUF) F ∧ F ≡ₚ els_pbuf;
  ci_ram : ∃ F, pool_rep (pb_m (pc_s c)) (pb_ram (pc_s c)) F ∧ F ≡ₚ els_ram;
  ci_mbuf : ∃ F, pool_rep (pb_m (pc_s c)) (pb_mbufs (pc_s c)) F ∧ pc_mbufs c ++ F ≡ₚ els_mbuf;
  ci_users : pc_users c = [];
  ci_clean : ∀ x, x ∈ els_pbuf ++ els_ram → rd (pb_m (pc_s c)) x PB_MBUF = NULL;
}.

Lemma client_init_ok c : client_init c → client_ok c.
Proof.
  intros [(F1 & P1 & E1) (F2 & P2 & E2) (F3 & P3 & E3) Hu Hc]. exists [], []. rewrite Hu. split; [|intros x Hx; by apply elem_of_nil in Hx].
  split; [intros x Hx; by apply elem_of_nil in Hx|done|split; intros x Hx; by apply elem_of_nil in Hx|intros x Hx; by apply elem_of_nil in Hx|].
  exists F1, F2, F3. split; try done. intros x Hx. apply Hc. by rewrite <- E1, <- E2.
Qed.

Lemma reachable_ok c0 c : client_init c0 → rtc (λ c c', ∃ o, pb_step_op o c c') c0 c → client_ok c.
Proof.
  intros Hi Hr. apply client_init_ok in Hi. induction Hr as [|c0 c1 c (o & [r s' Hd E]) _ IH]; [done|]. apply IH.
  destruct (disciplined_ok o c0 Hi Hd) as (r' & s'' & E' & Hok). by rewrite E in E'; injection E' as <- <-.
Qed.

(** C10: lwIP packet buffers under their documented discipline.  From pools whose elements are all
    free, after any sequence of calls of [pbuf_alloc], [pbuf_ref], [pbuf_free], [pbuf_cat],
    [pbuf_chain], [pbuf_dechain], [pbuf_realloc], [pbuf_header], [pbuf_split_64k] and of the
    reception of a TCP packet, each made by a holder of the references it needs:
    the next disciplined call returns; the reference count of every live pbuf is the number of
    references users and links have to it; every pbuf and mbuf is live, held, or free, and none
    is two of these; and when no user holds a reference, all pbufs are back in their pools. *)
Theorem pbufs_disciplined c0 c :
  client_init c0 → rtc (λ c c', ∃ o, pb_step_op o c c') c0 c →
  (∀ o, disciplined o c → ∃ c', pb_step_op o c c') ∧
  (∃ A B F1 F2 F3, let m := pb_m (pc_s c) in
    (∀ x, x ∈ A ++ B → rd m x PB_REF = refs (pc_users c ++ links m (A ++ B)) x) ∧
    pool_rep m (pb_pools (pc_s c) MEMP_PBUF) F1 ∧ pool_rep m (pb_ram (pc_s c)) F2 ∧ pool_rep m (pb_mbufs (pc_s c)) F3 ∧
    A ++ F1 ≡ₚ els_pbuf ∧ B ++ F2 ≡ₚ els_ram ∧ attached m (A ++ B) ++ pc_mbufs c ++ F3 ≡ₚ els_mbuf ∧
    (pc_users c = [] → F1 ≡ₚ els_pbuf ∧ F2 ≡ₚ els_ram ∧ pc_mbufs c ++ F3 ≡ₚ els_mbuf)).
Proof.
  intros H0 Hr. pose proof (reachable_ok c0 c H0 Hr) as Hok. split.
  - intros o Hd. destruct (disciplined_ok o c Hok Hd) as (r & s' & E & _). eexists. by econstructor.
  - destruct Hok as (A & B & Hi & _). destruct (pi_pools _ _ _ _ _ Hi) as (F1 & F2 & F3 & Hp). pose proof Hp as [P1 P2 P3 Q1 Q2 Q3 _].
    exists A, B, F1, F2, F3. split_and!; try done; [intros x Hx; by apply (pi_refs _ _ _ _ _ Hi)|].
    intros Hu. rewrite Hu in Hi. apply no_users_no_live in Hi as HAB. apply app_eq_nil in HAB as [-> ->]. done.
Qed.

End clients.

(** ** Example *)

(** A check of the discipline for the calls of the example. *)
Fixpoint walk (fuel : nat) (m : heap) (p : ptr) : option (list ptr) :=
  match fuel with
  | O => None
  | S fuel' => if p =? NULL then Some [] else l ← walk fuel' m (rd m p PB_NEXT); Some (p :: l)
  end.
Lemma walk_chain fuel m p l : walk fuel m p = Some l → chain m PB_NEXT p l.
Proof.
  revert p l. induction fuel as [|fuel IH]; intros p l E; [done|]. cbn [walk] in E. destruct (Z.eqb_spec p NULL) as [->|Hp]; [by injection E as <-|].
  destruct (walk fuel m _) as [l'|] eqn:E'; [|done]. injection E as <-. split_and!; [done..|by apply IH].
Qed.

Definition check_op (o : pb_op) (c : pb_client) : bool :=
  let m := pb_m (pc_s c) in
  match o with
  | PAlloc _ length _ => bool_decide (0 ≤ length < 65536)
  | PFree p => bool_decide (p ∈ pc_users c)
  | PCat h t =>
      match walk 100 m h, walk 100 m t with
      | Some lh, Some lt => bool_decide (h ∈ pc_users c ∧ t ∈ pc_users c ∧ Forall (λ x, x ∉ lt) lh)
      | _, _ => false
      end
  | PRecv pkt _ _ _ =>
      match mempool_alloc m (pb_pools (pc_s c) MEMP_PBUF) with
      | Some (x, _) => bool_decide (pkt ∈ pc_mbufs c) && negb (x =? NULL)
      | None => false
      end
  | _ => false
  end.
Lemma check_op_sound o c : check_op o c = true → disciplined o c.
Proof.
  destruct o; cbn [check_op disciplined]; try done; intros E.
  - by apply bool_decide_eq_true in E.
  - by apply bool_decide_eq_true in E.
  - destruct (walk 100 _ h) as [lh|] eqn:Eh; [|done]. destruct (walk 100 _ t) as [lt|] eqn:Et; [|done]. apply bool_decide_eq_true in E as (Hh & Ht & Hd).
    split_and!; [done..|]. intros lh' lt' Hlh Hlt. apply walk_chain in Eh, Et.
    rewrite (chain_inj _ _ _ _ _ Hlh Eh), (chain_inj _ _ _ _ _ Hlt Et). by apply Forall_forall.
  - destruct (mempool_alloc _ _) as [[x P]|] eqn:Ea; [|done]. apply andb_true_iff in E as [E1 E2].
    split; [by apply bool_decide_eq_true in E1|]. exists x, P. split; [done|]. by apply negb_true_iff, Z.eqb_neq in E2.
Qed.

Fixpoint run_client (ops : list pb_op) (c : pb_client) : option pb_client :=
  match ops with
  | [] => Some c
  | o :: ops =>
      if check_op o c then
        '(r, s') ← run_op o (pc_s c); run_client ops (mk_pb_client s' (users_after o r (pc_users c)) (mbufs_after o (pc_mbufs c)))
      else None
  end.
Lemma run_client_steps ops c c' : run_client ops c = Some c' → rtc (λ c c', ∃ o, pb_step_op o c c') c c'.
Proof.
  revert c. induction ops as [|o ops IH]; intros c E; [by injection E as ->|]. cbn [run_client] in E. destruct (check_op o c) eqn:Ec; [|done].
  destruct (run_op o (pc_s c)) as [[r s']|] eqn:Eo; [|done]. eapply rtc_l; [|by apply IH]. exists o. by constructor; [apply check_op_sound|].
Qed.

(** Two free elements in each pool, and one mbuf with the driver. *)
Definition ex_pb_pool (a len : Z) : pool :=
  (mk_mempool_datastore MEMPOOL_MAGIC a a 1 2 len 1 2 1 1 0 0 0, mk_mempool 0 0 len MEMPOOL_MAGIC a 0 0 2 1 2 0 0).
Definition ex_pb_heap : heap := <[(1000, HDR_NEXT) := 1048]> (<[(20000, HDR_NEXT) := 24096]> (<[(60000, HDR_NEXT) := 62048]> ∅)).
Definition ex_pb_state : pbs := mk_pbs ex_pb_heap (λ _, ex_pb_pool 1000 48) (ex_pb_pool 20000 4096) (ex_pb_pool 60000 2048) ∅.
Definition ex_client : pb_client := mk_pb_client ex_pb_state [] [70000].
#[export] Instance ex_els : PbufElements.
Proof.
  refine {| els_pbuf := [1000; 1048]; els_ram := [20000; 24096]; els_mbuf := [70000; 60000; 62048] |}; by apply (bool_decide_unpack _).
Defined.

Lemma ex_client_init : client_init ex_client.
Proof.
  split; cbn.
  - exists [1000; 1048]. split; [|done]. exists [], [], [[1000; 1048]]. split; [|done]. split; try done; simpl. apply (bool_decide_unpack _). by vm_compute.
  - exists [20000; 24096]. split; [|done]. exists [], [], [[20000; 24096]]. split; [|done]. split; try done; simpl. apply (bool_decide_unpack _). by vm_compute.
  - exists [60000; 62048]. split; [|done]. exists [], [], [[60000; 62048]]. split; [|done]. split; try done; simpl. apply (bool_decide_unpack _). by vm_compute.
  - done.
  - apply Forall_forall. repeat (apply Forall_cons; split; [by vm_compute|]). by apply Forall_nil.
Qed.

(** A header in front of a received packet, sent and freed. *)
Definition ex_ops : list pb_op :=
  [PRecv 70000 (hton16 60) 5 70020; PAlloc PBUF_TRANSPORT 20 PBUF_RAM; PCat 20000 1000; PAlloc PBUF_RAW 8 PBUF_REF; PFree 20000; PFree 1048].

Lemma pbufs_disciplined_witness :
  ∃ c F1 F2 F3, run_client ex_ops ex_client = Some c ∧ pc_users c = [] ∧ pool_rep (pb_m (pc_s c)) (pb_pools (pc_s c) MEMP_PBUF) F1 ∧
    pool_rep (pb_m (pc_s c)) (pb_mbufs (pc_s c)) F3 ∧ F1 ≡ₚ [1000; 1048] ∧ F2 ≡ₚ [20000; 24096] ∧ F3 ≡ₚ [70000; 60000; 62048].
Proof.
  assert (Hc : ∃ c, run_client ex_ops ex_client = Some c ∧ pc_users c = [] ∧ pc_mbufs c = []).
  { assert (Hb : match run_client ex_ops ex_client with Some c => bool_decide (pc_users c = [] ∧ pc_mbufs c = []) | None => false end = true) by (by vm_compute).
    destruct (run_client ex_ops ex_client) as [c|]; [|done]. exists c. split; [done|]. by apply bool_decide_eq_true in Hb. }
  destruct Hc as (c & E & Hu & Hk).
  destruct (pbufs_disciplined ex_client c ex_client_init (run_client_steps _ _ _ E)) as (_ & A & B & F1 & F2 & F3 & _ & P1 & _ & P3 & _ & _ & _ & Hl).
  destruct (Hl Hu) as (E1 & E2 & E3). rewrite Hk in E3. exists c, F1, F2, F3. exact (conj E (conj Hu (conj P1 (conj P3 (conj E1 (conj E2 E3)))))).
Defined.
