(* ===== verification/PbufData.v ===== *)
(** * The bytes of packet buffers (dp/lwip/pbuf.c, copying and searching)

    The contents of a packet are the payload bytes of its chain.  Copying out of, into and
    between packets, merging a packet into one pbuf, and searching. *)

From S2P Require Import Prelude Stddef Heap Mempool ByteMem Mbuf Pbuf PbufOwn PbufLink.
Local Open Scope Z_scope.

(** ** Operations *)

(** An LWIP_ERROR of [pbuf_copy]: a pbuf that ends its packet is the last of its chain. *)
Definition one_packet (m : heap) (p : ptr) : option unit :=
  if p =? NULL then Some tt else
  len ← ld m p PB_LEN; tot ← ld m p PB_TOT_LEN;
  if len =? tot then n ← ld m p PB_NEXT; if n =? NULL then Some tt else None else Some tt.

Fixpoint copy_walk (fuel : nat) (m : heap) (D : gmap Z Z) (p_to p_from offset_to offset_from : Z) : option (gmap Z Z) :=
  match fuel with
  | O => None
  | S fuel' =>
      to_len ← ld m p_to PB_LEN;
      from_len ← ld m p_from PB_LEN;
      let len := u16 (if from_len - offset_from <=? to_len - offset_to then from_len - offset_from else to_len - offset_to) in
      to_payload ← ld m p_to PB_PAYLOAD;
      from_payload ← ld m p_from PB_PAYLOAD;
      let D := memcpy D (to_payload + offset_to) (from_payload + offset_from) len in
      let offset_to := u16 (offset_to + len) in
      let offset_from := u16 (offset_from + len) in
      '(p_from, offset_from) ← (if from_len <=? offset_from then n ← ld m p_from PB_NEXT; Some (n, 0) else Some (p_from, offset_from));
      '(p_to, offset_to) ← (if offset_to =? to_len then
        n ← ld m p_to PB_NEXT;
        if negb (n =? NULL) || (p_from =? NULL) then Some (n, 0) else None
      else Some (p_to, offset_to));
      _ ← one_packet m p_from;
      _ ← one_packet m p_to;
      if p_from =? NULL then Some D else copy_walk fuel' m D p_to p_from offset_to offset_from
  end.
Definition pbuf_copy (m : heap) (D : gmap Z Z) (p_to p_from : ptr) : option (Z * gmap Z Z) :=
  if (p_to =? NULL) || (p_from =? NULL) then None else
  a ← ld m p_to PB_TOT_LEN;
  b ← ld m p_from PB_TOT_LEN;
  if negb (b <=? a) then None else
  D ← copy_walk (walk_fuel m + walk_fuel m) m D p_to p_from 0 0;
  Some (ERR_OK, D).

Fixpoint partial_walk (fuel : nat) (m : heap) (D : gmap Z Z) (p dataptr left len offset copied_total : Z) : option (Z * gmap Z Z) :=
  match fuel with
  | O => None
  | S fuel' =>
      if (len =? 0) || (p =? NULL) then Some (copied_total, D) else
      plen ← ld m p PB_LEN;
      if negb (offset =? 0) && (plen <=? offset) then
        n ← ld m p PB_NEXT;
        partial_walk fuel' m D n dataptr left len (u16 (offset - plen)) copied_total
      else
        let buf_copy_len := u16 (plen - offset) in
        let buf_copy_len := if len <? buf_copy_len then len else buf_copy_len in
        payload ← ld m p PB_PAYLOAD;
        let D := memcpy D (dataptr + left) (payload + offset) buf_copy_len in
        n ← ld m p PB_NEXT;
        partial_walk fuel' m D n dataptr (u16 (left + buf_copy_len)) (u16 (len - buf_copy_len)) 0 (u16 (copied_total + buf_copy_len))
  end.
Definition pbuf_copy_partial (m : heap) (D : gmap Z Z) (buf dataptr len offset : Z) : option (Z * gmap Z Z) :=
  if (buf =? NULL) || (dataptr =? NULL) then None else partial_walk (walk_fuel m) m D buf dataptr 0 len offset 0.

Fixpoint take_walk (fuel : nat) (m : heap) (D : gmap Z Z) (p dataptr total_copy_len copied_total : Z) : option (gmap Z Z) :=
  match fuel with
  | O => None
  | S fuel' =>
      if total_copy_len =? 0 then Some D else
      plen ← ld m p PB_LEN;
      let buf_copy_len := if plen <? total_copy_len then plen else total_copy_len in
      payload ← ld m p PB_PAYLOAD;
      let D := memcpy D payload (dataptr + copied_total) buf_copy_len in
      n ← ld m p PB_NEXT;
      take_walk fuel' m D n dataptr (u16 (total_copy_len - buf_copy_len)) (u16 (copied_total + buf_copy_len))
  end.
Definition pbuf_take (m : heap) (D : gmap Z Z) (buf dataptr len : Z) : option (Z * gmap Z Z) :=
  if (buf =? NULL) || (dataptr =? NULL) then None else
  tot ← ld m buf PB_TOT_LEN;
  if tot <? len then Some (ERR_ARG, D) else
  D ← take_walk (walk_fuel m) m D buf dataptr len 0;
  Some (ERR_OK, D).

Definition pb_copy (q p : ptr) : ST pbs Z := λ s, '(e, D) ← pbuf_copy (pb_m s) (pb_data s) q p; Some (e, s <| pb_data := D |>).
Definition pbuf_coalesce (p : ptr) (layer : pbuf_layer) : ST pbs ptr :=
  n ← pb_ld p PB_NEXT;
  if n =? NULL then mret p else
  tot ← pb_ld p PB_TOT_LEN;
  q ← pbuf_alloc layer tot PBUF_RAM;
  if q =? NULL then mret p else
  err ← pb_copy q p;
  (if err =? ERR_OK then mret () else λ _, None);;
  pbuf_free p;;
  mret q.

(** The pbuf with byte [off] of the packet, and the offset in it. *)
Fixpoint skip_to (fuel : nat) (m : heap) (q off : Z) : option (Z * Z) :=
  match fuel with
  | O => None
  | S fuel' =>
      if q =? NULL then Some (q, off) else
      len ← ld m q PB_LEN;
      if len <=? off then n ← ld m q PB_NEXT; skip_to fuel' m n (u16 (off - len)) else Some (q, off)
  end.
Definition pbuf_get_at (m : heap) (D : gmap Z Z) (p : ptr) (offset : Z) : option Z :=
  '(q, copy_from) ← skip_to (walk_fuel m) m p offset;
  if q =? NULL then Some 0 else
  len ← ld m q PB_LEN;
  if copy_from <? len then payload ← ld m q PB_PAYLOAD; Some (rdb D (payload + copy_from)) else Some 0.

(** The comparison of the bytes [i], ..., [i + k - 1]. *)
Fixpoint cmp_loop (k : nat) (m : heap) (D : gmap Z Z) (q start s2 i : Z) : option Z :=
  match k with
  | O => Some 0
  | S k' =>
      a ← pbuf_get_at m D q (u16 (start + i));
      if negb (a =? rdb D (s2 + i)) then Some (u16 (i + 1)) else cmp_loop k' m D q start s2 (i + 1)
  end.
Definition pbuf_memcmp (m : heap) (D : gmap Z Z) (p offset s2 n : Z) : option Z :=
  '(q, start) ← skip_to (walk_fuel m) m p offset;
  if q =? NULL then Some 65535 else
  len ← ld m q PB_LEN;
  if start <? len then cmp_loop (Z.to_nat n) m D q start s2 0 else Some 65535.

Fixpoint find_loop (fuel : nat) (m : heap) (D : gmap Z Z) (p mem mem_len max i : Z) : option Z :=
  match fuel with
  | O => None
  | S fuel' =>
      if max <? i then Some 65535 else
      plus ← pbuf_memcmp m D p i mem mem_len;
      if plus =? 0 then Some i else find_loop fuel' m D p mem mem_len max (u16 (i + plus))
  end.
Definition pbuf_memfind (m : heap) (D : gmap Z Z) (p mem mem_len start_offset : Z) : option Z :=
  tot ← ld m p PB_TOT_LEN;
  let max := u16 (tot - mem_len) in
  if mem_len + start_offset <=? tot then find_loop (Z.to_nat 65537) m D p mem mem_len max start_offset else Some 65535.

(** [strlen]: memory never written is 0, so the string ends within the bytes written. *)
Fixpoint strlen (fuel : nat) (D : gmap Z Z) (a : Z) : Z :=
  match fuel with O => 0 | S fuel' => if rdb D a =? 0 then 0 else 1 + strlen fuel' D (a + 1) end.
Definition pbuf_strstr (m : heap) (D : gmap Z Z) (p substr : Z) : option Z :=
  if (substr =? NULL) || (rdb D substr =? 0) then Some 65535 else
  tot ← ld m p PB_TOT_LEN;
  if tot =? 65535 then Some 65535 else
  let substr_len := strlen (S (size D)) D substr in
  if 65535 <=? substr_len then Some 65535 else pbuf_memfind m D p substr substr_len 0.

(** ** Addresses and copies *)

Fixpoint span (a : Z) (n : nat) : list Z := match n with O => [] | S n' => a :: span (a + 1) n' end.

Lemma length_span a n : length (span a n) = n.
Proof. revert a. induction n as [|n IH]; intros a; [done|]. cbn [span length]. by rewrite IH. Qed.
Lemma span_app a n k : span a (n + k) = span a n ++ span (a + Z.of_nat n) k.
Proof.
  revert a. induction n as [|n IH]; intros a; [by rewrite Z.add_0_r|]. cbn [span Nat.add app]. rewrite IH. do 3 f_equal. lia.
Qed.
Lemma elem_of_span a n x : x ∈ span a n ↔ a ≤ x < a + Z.of_nat n.
Proof. revert a. induction n as [|n IH]; intros a; cbn [span]; [rewrite elem_of_nil; lia|]. rewrite elem_of_cons, IH. lia. Qed.
Lemma NoDup_span a n : NoDup (span a n).
Proof. revert a. induction n as [|n IH]; intros a; [by apply NoDup_nil|]. apply NoDup_cons. rewrite elem_of_span. split; [lia|apply IH]. Qed.
Lemma take_span a n k : take k (span a n) = span a (k `min` n).
Proof.
  revert a k. induction n as [|n IH]; intros a k; [rewrite Nat.min_0_r; apply take_nil|]. destruct k as [|k]; [done|]. cbn [span take Nat.min]. by rewrite IH.
Qed.
Lemma drop_span a n k : drop k (span a n) = span (a + Z.of_nat k) (n - k).
Proof.
  revert a k. induction n as [|n IH]; intros a k; [apply drop_nil|]. destruct k as [|k]; [by rewrite Z.add_0_r|].
  cbn [span drop Nat.sub]. rewrite IH. f_equal. lia.
Qed.
Lemma bytes_at_span D a n : bytes_at D a n = rdb D <$> span a n.
Proof. revert a. induction n as [|n IH]; intros a; [done|]. cbn [bytes_at span fmap list_fmap]. by rewrite IH. Qed.

Lemma sublist_elem (l l' : list Z) x : l `sublist_of` l' → x ∈ l → x ∈ l'.
Proof. intros Hs Hx. eapply elem_of_submseteq; [exact Hx|by apply sublist_submseteq]. Qed.

(** Copying the bytes at [ss] to [ds]. *)
Fixpoint write (D : gmap Z Z) (ds bs : list Z) : gmap Z Z :=
  match ds, bs with d :: ds, b :: bs => write (<[d := b]> D) ds bs | _, _ => D end.
Definition cp (D : gmap Z Z) (ds ss : list Z) : gmap Z Z := write D ds (rdb D <$> ss).

Lemma write_app D ds1 ds2 bs1 bs2 : length ds1 = length bs1 → write D (ds1 ++ ds2) (bs1 ++ bs2) = write (write D ds1 bs1) ds2 bs2.
Proof.
  revert D bs1. induction ds1 as [|d ds1 IH]; intros D [|b bs1] E; try done. cbn [write app]. apply IH. by injection E.
Qed.
Lemma rdb_write_out D ds bs x : x ∉ ds → rdb (write D ds bs) x = rdb D x.
Proof.
  revert D bs. induction ds as [|d ds IH]; intros D [|b bs] Hx; try done. apply not_elem_of_cons in Hx as [? ?]. cbn [write].
  rewrite IH by done. unfold rdb. by rewrite lookup_insert_ne.
Qed.
Lemma rdb_write D ds bs : NoDup ds → length ds = length bs → Forall is_byte bs → rdb (write D ds bs) <$> ds = bs.
Proof.
  revert D bs. induction ds as [|d ds IH]; intros D [|b bs] Hnd E Hb; try done. apply NoDup_cons in Hnd as [Hd Hnd]. apply Forall_cons in Hb as [Hb Hbs].
  cbn [write fmap list_fmap]. injection E as E. rewrite IH by done. f_equal. rewrite rdb_write_out by done. unfold rdb. rewrite lookup_insert_eq.
  cbn [default id]. by apply Z.mod_small.
Qed.
Lemma put_bytes_write D a l : put_bytes D a l = write D (span a (length l)) l.
Proof. revert D a. induction l as [|b l IH]; intros D a; [done|]. cbn [put_bytes length span write]. apply IH. Qed.

Lemma memcpy_cp D dst src n : memcpy D dst src n = cp D (span dst (Z.to_nat n)) (span src (Z.to_nat n)).
Proof. unfold memcpy, cp. by rewrite put_bytes_write, length_bytes_at, bytes_at_span. Qed.
Lemma rdb_cp_out D ds ss x : x ∉ ds → rdb (cp D ds ss) x = rdb D x.
Proof. apply rdb_write_out. Qed.
Lemma rdb_cp D ds ss : NoDup ds → length ds = length ss → rdb (cp D ds ss) <$> ds = rdb D <$> ss.
Proof.
  intros Hnd E. apply rdb_write; [done|by rewrite length_fmap|]. apply Forall_fmap, Forall_true. intros x. apply rdb_range.
Qed.
Lemma cp_app D ds1 ss1 ds2 ss2 :
  length ds1 = length ss1 → (∀ x, x ∈ ss2 → x ∉ ds1) → cp (cp D ds1 ss1) ds2 ss2 = cp D (ds1 ++ ds2) (ss1 ++ ss2).
Proof.
  intros E Hd. unfold cp at 1 3. rewrite fmap_app, write_app by (by rewrite length_fmap). f_equal.
  apply list_fmap_ext. intros i x Hx. apply rdb_cp_out, Hd. by eapply list_elem_of_lookup_2.
Qed.

(** ** Contents *)

Definition area (m : heap) (x : ptr) : list Z := span (rd m x PB_PAYLOAD) (Z.to_nat (rd m x PB_LEN)).
Definition addrs (m : heap) (l : list ptr) : list Z := l ≫= area m.
Definition contents (m : heap) (D : gmap Z Z) (l : list ptr) : list Z := rdb D <$> addrs m l.

Lemma addrs_cons m x l : addrs m (x :: l) = area m x ++ addrs m l.
Proof. done. Qed.
Lemma addrs_app m l1 l2 : addrs m (l1 ++ l2) = addrs m l1 ++ addrs m l2.
Proof. apply bind_app. Qed.
Lemma contents_app m D l1 l2 : contents m D (l1 ++ l2) = contents m D l1 ++ contents m D l2.
Proof. unfold contents. by rewrite addrs_app, fmap_app. Qed.
Lemma addrs_same m m' l :
  (∀ x, x ∈ l → rd m' x PB_PAYLOAD = rd m x PB_PAYLOAD) → (∀ x, x ∈ l → rd m' x PB_LEN = rd m x PB_LEN) → addrs m' l = addrs m l.
Proof.
  induction l as [|x l IH]; intros H1 H2; [done|]. rewrite !addrs_cons. unfold area. rewrite H1, H2, IH; [done|..]; intros; try (apply H1 || apply H2); mem.
Qed.
Lemma length_area m x : 0 ≤ rd m x PB_LEN → Z.of_nat (length (area m x)) = rd m x PB_LEN.
Proof. intros H. unfold area. rewrite length_span. lia. Qed.
Lemma length_addrs m l : lens_ok m l → Z.of_nat (length (addrs m l)) = clen m l.
Proof.
  induction 1 as [|x l Hx Hl IH]; [done|]. rewrite addrs_cons, length_app. cbn [clen foldr]. fold (clen m l). rewrite Nat2Z.inj_add, length_area by lia. lia.
Qed.
Lemma length_contents m D l : lens_ok m l → Z.of_nat (length (contents m D l)) = clen m l.
Proof. unfold contents. rewrite length_fmap. apply length_addrs. Qed.

(** ** Copying out *)

(** The addresses copied from: [len] bytes from [offset] on, as far as the packet goes. *)
Definition part (len offset : Z) (l : list Z) : list Z := take (Z.to_nat len) (drop (Z.to_nat offset) l).

Lemma part_skip len offset l1 l2 :
  Z.of_nat (length l1) ≤ offset → part len offset (l1 ++ l2) = part len (offset - Z.of_nat (length l1)) l2.
Proof. intros H. unfold part. rewrite drop_app_ge by lia. do 2 f_equal. lia. Qed.
Lemma part_split len offset l1 l2 :
  0 ≤ len → 0 ≤ offset ≤ Z.of_nat (length l1) →
  part len offset (l1 ++ l2) = part len offset l1 ++ part (len - Z.min len (Z.of_nat (length l1) - offset)) 0 l2.
Proof.
  intros Hlen Ho. unfold part. rewrite drop_app_le, take_app by lia. rewrite length_drop, Z2Nat.inj_0. cbn [drop]. do 2 f_equal. lia.
Qed.
Lemma part_area m x len offset :
  0 ≤ len → 0 ≤ offset ≤ rd m x PB_LEN →
  part len offset (area m x) = span (rd m x PB_PAYLOAD + offset) (Z.to_nat (Z.min len (rd m x PB_LEN - offset))).
Proof.
  intros Hlen Ho. unfold part, area. rewrite drop_span, take_span. f_equal; [lia|]. lia.
Qed.

Lemma partial_walk_ok fuel m D p l dataptr left len offset copied :
  chain m PB_NEXT p l → lens_ok m l → (length l < fuel)%nat → 0 ≤ len → 0 ≤ offset < 65536 → 0 ≤ left → left + len < 65536 →
  0 ≤ copied → copied + len < 65536 →
  (∀ x, x ∈ part len offset (addrs m l) → ¬ (dataptr + left ≤ x < dataptr + left + len)) →
  partial_walk fuel m D p dataptr left len offset copied =
    Some (copied + Z.of_nat (length (part len offset (addrs m l))),
          cp D (span (dataptr + left) (length (part len offset (addrs m l)))) (part len offset (addrs m l))).
Proof.
  revert D p l left len offset copied. induction fuel as [|fuel IH]; intros D p l left len offset copied Hc Hl Hf Hlen Hoff Hle Hsum Hco Hcs Hap; [lia|].
  cbn [partial_walk]. destruct (Z.eqb_spec len 0) as [->|Hn0]; [cbn [orb part Z.to_nat take length]; by rewrite Z.add_0_r|]. cbn [orb].
  destruct l as [|x l].
  { rewrite Hc. unfold part. cbn [addrs mbind list_bind]. rewrite drop_nil, take_nil. cbn. by rewrite Z.add_0_r. }
  destruct Hc as (-> & Hx & Hc). rewrite (proj2 (Z.eqb_neq _ _) Hx), (ld_some m x PB_LEN) by done. cbn [mbind option_bind].
  apply Forall_cons in Hl as [Hlx Hl]. rewrite addrs_cons in *. pose proof (length_area m x (proj1 Hlx)) as Ha. cbn [length] in Hf.
  destruct (negb (offset =? 0) && (rd m x PB_LEN <=? offset)) eqn:Eb.
  { rewrite part_skip, Ha in * by lia. rewrite (ld_some m x PB_NEXT) by done. cbn [mbind option_bind]. rewrite u16_small by lia.
    apply IH; try done; lia. }
  assert (Ho : 0 ≤ offset ≤ rd m x PB_LEN) by lia. rewrite part_split, Ha, part_area in * by lia.
  rewrite (u16_small (rd m x PB_LEN - offset)) by lia. rewrite (ld_some m x PB_PAYLOAD), (ld_some m x PB_NEXT) by done. cbn [mbind option_bind].
  replace (if len <? _ then len else _) with (Z.min len (rd m x PB_LEN - offset)) by (destruct (Z.ltb_spec len (rd m x PB_LEN - offset)); lia).
  set (k := Z.min len (rd m x PB_LEN - offset)) in *. assert (Hk : 0 ≤ k ≤ len) by lia. rewrite !u16_small by lia.
  rewrite memcpy_cp. rewrite length_app, length_span.
  rewrite (IH _ (rd m x PB_NEXT) l (left + k) (len - k) 0 (copied + k)); try done; try lia.
  - f_equal. f_equal; [lia|]. rewrite cp_app; [|by rewrite !length_span|].
    + f_equal. rewrite span_app. do 2 f_equal. lia.
    + intros y Hy. rewrite elem_of_span. intros Hy'. apply (Hap y); [mem|lia].
  - intros y Hy Hy'. apply (Hap y); [mem|lia].
Qed.

(** What [pbuf_copy_partial] writes. *)
Lemma pbuf_copy_partial_run m D buf l dataptr len offset :
  chain m PB_NEXT buf l → lens_ok m l → (length l < walk_fuel m)%nat → buf ≠ NULL → dataptr ≠ NULL → 0 ≤ len < 65536 → 0 ≤ offset < 65536 →
  (∀ x, x ∈ part len offset (addrs m l) → ¬ (dataptr ≤ x < dataptr + len)) →
  let n := length (part len offset (addrs m l)) in
  pbuf_copy_partial m D buf dataptr len offset = Some (Z.of_nat n, cp D (span dataptr n) (part len offset (addrs m l))).
Proof.
  intros Hc Hl Hf Hb Hd Hlen Ho Hap. unfold pbuf_copy_partial. rewrite (proj2 (Z.eqb_neq buf _) Hb), (proj2 (Z.eqb_neq _ _) Hd). cbn [orb].
  rewrite (partial_walk_ok _ m D buf l dataptr 0 len offset 0) by (rewrite ?Z.add_0_r; done || lia). by rewrite Z.add_0_r.
Qed.

(** ** Copying in *)

Lemma take_walk_ok fuel m D p l dataptr total copied :
  chain m PB_NEXT p l → lens_ok m l → (length l < fuel)%nat → 0 ≤ total ≤ clen m l → 0 ≤ copied → copied + total < 65536 →
  (∀ x, x ∈ addrs m l → ¬ (dataptr + copied ≤ x < dataptr + copied + total)) →
  take_walk fuel m D p dataptr total copied =
    Some (cp D (take (Z.to_nat total) (addrs m l)) (span (dataptr + copied) (Z.to_nat total))).
Proof.
  revert D p l total copied. induction fuel as [|fuel IH]; intros D p l total copied Hc Hl Hf Ht Hco Hcs Hap; [lia|].
  cbn [take_walk]. destruct (Z.eqb_spec total 0) as [->|Hn0]; [done|].
  destruct l as [|x l]; [cbn [clen foldr] in Ht; lia|].
  destruct Hc as (-> & Hx & Hc). rewrite (ld_some m x PB_LEN), (ld_some m x PB_PAYLOAD), (ld_some m x PB_NEXT) by done. cbn [mbind option_bind].
  apply Forall_cons in Hl as [Hlx Hl]. rewrite addrs_cons in *. pose proof (length_area m x (proj1 Hlx)) as Ha. cbn [length] in Hf.
  cbn [clen foldr] in Ht. fold (clen m l) in Ht. pose proof (clen_nonneg m l Hl) as Hcl.
  replace (if rd m x PB_LEN <? total then _ else _) with (Z.min total (rd m x PB_LEN)) by (destruct (Z.ltb_spec (rd m x PB_LEN) total); lia).
  set (k := Z.min total (rd m x PB_LEN)) in *. assert (Hk : 0 ≤ k ≤ total) by lia. rewrite !u16_small by lia. rewrite memcpy_cp.
  rewrite (IH _ (rd m x PB_NEXT) l (total - k) (copied + k)); try done; try lia.
  - f_equal. rewrite take_app. unfold area. rewrite take_span, length_span, cp_app.
    + f_equal; [f_equal; [|f_equal]; f_equal; lia|].
      replace (Z.to_nat total) with (Z.to_nat k + Z.to_nat (total - k))%nat by lia. rewrite span_app. do 2 f_equal. lia.
    + by rewrite !length_span.
    + intros y Hy. rewrite elem_of_span in *. intros Hy'. apply (Hap y); [apply elem_of_app; left; apply elem_of_span; lia|lia].
  - intros y Hy Hy'. apply (Hap y); [mem|lia].
Qed.

(** The whole of [pbuf_take]. *)
Lemma pbuf_take_run m D buf l dataptr len :
  chain m PB_NEXT buf l → lens_ok m l → (length l < walk_fuel m)%nat → buf ≠ NULL → dataptr ≠ NULL →
  rd m buf PB_TOT_LEN = clen m l → 0 ≤ len < 65536 → (∀ x, x ∈ addrs m l → ¬ (dataptr ≤ x < dataptr + len)) →
  pbuf_take m D buf dataptr len =
    if clen m l <? len then Some (ERR_ARG, D) else Some (ERR_OK, cp D (take (Z.to_nat len) (addrs m l)) (span dataptr (Z.to_nat len))).
Proof.
  intros Hc Hl Hf Hb Hd Et Hlen Hap. unfold pbuf_take. rewrite (proj2 (Z.eqb_neq buf _) Hb), (proj2 (Z.eqb_neq _ _) Hd). cbn [orb].
  rewrite ld_some by done. cbn [mbind option_bind]. rewrite Et. destruct (Z.ltb_spec (clen m l) len); [done|].
  rewrite (take_walk_ok _ m D buf l dataptr len 0) by (rewrite ?Z.add_0_r; done || lia). by rewrite Z.add_0_r.
Qed.

(** ** Copying between packets *)

(** The documented relation of the lengths of a packet: [tot_len] counts the bytes from here on. *)
Fixpoint tots (m : heap) (l : list ptr) : Prop :=
  match l with [] => True | x :: l' => rd m x PB_TOT_LEN = clen m (x :: l') ∧ tots m l' end.

(** A packet without empty pbufs, and a position [off] in its first pbuf. *)
Record at_pos (m : heap) (p : ptr) (l : list ptr) (off : Z) : Prop := {
  ap_chain : chain m PB_NEXT p l;
  ap_lens : Forall (λ x, 0 < rd m x PB_LEN < 65536) l;
  ap_tots : tots m l;
  ap_off : match l with [] => off = 0 | x :: _ => 0 ≤ off < rd m x PB_LEN end;
}.
(** The addresses from the position on. *)
Definition from_pos (m : heap) (l : list ptr) (off : Z) : list Z := drop (Z.to_nat off) (addrs m l).

Lemma pos_lens_ok m l : Forall (λ x, 0 < rd m x PB_LEN < 65536) l → lens_ok m l.
Proof. intros H. eapply Forall_impl; [exact H|]. cbn. lia. Qed.
Lemma pos_clen m l : Forall (λ x, 0 < rd m x PB_LEN < 65536) l → l ≠ [] → 0 < clen m l.
Proof.
  intros [|x l' Hx Hl] Hne; [done|]. cbn [clen foldr]. fold (clen m l'). pose proof (clen_nonneg m l' (pos_lens_ok _ _ Hl)). lia.
Qed.

Lemma at_pos_one_packet m p l off : at_pos m p l off → one_packet m p = Some tt.
Proof.
  intros [Hc Hl Ht _]. unfold one_packet. destruct l as [|x l]; [by rewrite Hc|]. destruct Hc as (-> & Hx & Hc). rewrite (proj2 (Z.eqb_neq _ _) Hx).
  heap_step_head. destruct (Z.eqb_spec (rd m x PB_LEN) (rd m x PB_TOT_LEN)) as [E|]; [|done]. heap_step_head.
  destruct l as [|y l]; [by rewrite Hc|]. exfalso. destruct Ht as [Et _]. apply Forall_cons in Hl as [_ Hl]. apply pos_clen in Hl; [|done].
  cbn [clen foldr] in *. lia.
Qed.

(** Moving on by [k] bytes within the first pbuf, to the next one at its end. *)
Lemma at_pos_advance m x l off k :
  at_pos m x (x :: l) off → 0 < k ≤ rd m x PB_LEN - off →
  ∃ l', at_pos m (if off + k =? rd m x PB_LEN then rd m x PB_NEXT else x) l' (if off + k =? rd m x PB_LEN then 0 else off + k) ∧
    from_pos m l' (if off + k =? rd m x PB_LEN then 0 else off + k) = drop (Z.to_nat k) (from_pos m (x :: l) off) ∧
    (length l' ≤ length (x :: l))%nat ∧ (off + k = rd m x PB_LEN → (length l' < length (x :: l))%nat).
Proof.
  intros [Hc Hl Ht Ho] Hk. unfold from_pos. rewrite drop_drop. pose proof Hc as (_ & Hx & Hn). pose proof Hl as [Hlx Hl']%Forall_cons. cbn in Ho.
  destruct (Z.eqb_spec (off + k) (rd m x PB_LEN)) as [E|E].
  - exists l. split_and!; [split; [done|done|apply Ht|destruct l as [|y l]; [done|apply Forall_cons in Hl' as [? _]; lia]]| |cbn; lia|cbn; lia].
    rewrite addrs_cons, drop_app_ge; [f_equal|]; unfold area; rewrite length_span; lia.
  - exists (x :: l). split_and!; [split; [done..|lia]|f_equal; lia|cbn; lia|done].
Qed.

Lemma take_from_pos m x l off k :
  at_pos m x (x :: l) off → 0 ≤ k ≤ rd m x PB_LEN - off → take (Z.to_nat k) (from_pos m (x :: l) off) = span (rd m x PB_PAYLOAD + off) (Z.to_nat k).
Proof.
  intros [_ Hl _ Ho] Hk. apply Forall_cons in Hl as [Hlx _]. cbn in Ho. unfold from_pos. rewrite addrs_cons. unfold area.
  rewrite drop_app_le, drop_span, take_app_le, take_span by (rewrite ?length_drop, ?length_span; lia). f_equal; lia.
Qed.

Lemma from_pos_nil m p l off : at_pos m p l off → from_pos m l off = [] → l = [].
Proof.
  intros [_ Hl _ Ho] E. destruct l as [|x l]; [done|exfalso]. cbn in Ho. apply (f_equal length) in E. unfold from_pos in E.
  rewrite length_drop in E. pose proof (length_addrs m (x :: l) (pos_lens_ok _ _ Hl)) as Ha. apply Forall_cons in Hl as [_ Hl].
  pose proof (clen_nonneg m l (pos_lens_ok _ _ Hl)). cbn [clen foldr] in Ha. fold (clen m l) in Ha. cbn [length] in E. lia.
Qed.

(** The move fo [copy_walk] to the next source pbuf. *)
Lemma copy_from_next m y fo k :
  y ≠ NULL → 0 ≤ k ≤ rd m y PB_LEN - fo →
  (if rd m y PB_LEN <=? fo + k then n ← ld m y PB_NEXT; Some (n, 0) else Some (y, fo + k)) =
  Some (if fo + k =? rd m y PB_LEN then rd m y PB_NEXT else y, if fo + k =? rd m y PB_LEN then 0 else fo + k).
Proof.
  intros Hy Hk. destruct (Z.leb_spec (rd m y PB_LEN) (fo + k)), (Z.eqb_spec (fo + k) (rd m y PB_LEN)); try lia; [|done].
  by rewrite ld_some.
Qed.

Lemma copy_to_next m x ot k (pf : ptr) :
  x ≠ NULL → (pf = NULL ∨ (if ot + k =? rd m x PB_LEN then rd m x PB_NEXT else x) ≠ NULL) →
  (if ot + k =? rd m x PB_LEN then n ← ld m x PB_NEXT; if negb (n =? NULL) || (pf =? NULL) then Some (n, 0) else None else Some (x, ot + k)) =
  Some (if ot + k =? rd m x PB_LEN then rd m x PB_NEXT else x, if ot + k =? rd m x PB_LEN then 0 else ot + k).
Proof.
  intros Hx Hn. destruct (Z.eqb_spec (ot + k) (rd m x PB_LEN)); [|done]. rewrite ld_some by done. cbn [mbind option_bind].
  destruct (Z.eqb_spec (rd m x PB_NEXT) NULL), (Z.eqb_spec pf NULL); try done. by destruct Hn.
Qed.

Lemma at_pos_null m p l off : at_pos m p l off → p = NULL ↔ l = [].
Proof. intros [Hc _ _ _]. destruct l as [|x l]; [done|]. destruct Hc as (-> & ? & _). done. Qed.

Lemma copy_walk_ok fuel m D p_to p_from lt lf ot fo :
  at_pos m p_to lt ot → at_pos m p_from lf fo → lf ≠ [] → (length lt + length lf < fuel)%nat →
  (length (from_pos m lf fo) ≤ length (from_pos m lt ot))%nat → (∀ x, x ∈ from_pos m lf fo → x ∉ from_pos m lt ot) →
  copy_walk fuel m D p_to p_from ot fo = Some (cp D (take (length (from_pos m lf fo)) (from_pos m lt ot)) (from_pos m lf fo)).
Proof.
  revert D p_to p_from lt lf ot fo. induction fuel as [|fuel IH]; intros D p_to p_from lt lf ot fo Ht Hf Hne Hfu Hlen Hd; [lia|].
  destruct lf as [|y lf]; [done|]. destruct lt as [|x lt].
  { exfalso. unfold from_pos in Hlen at 2. cbn [addrs mbind list_bind] in Hlen. rewrite drop_nil in Hlen. cbn [length] in Hlen.
    apply Hne, (from_pos_nil _ _ _ _ Hf). destruct (from_pos m (y :: lf) fo); [done|cbn in Hlen; lia]. }
  pose proof (ap_chain _ _ _ _ Ht) as (-> & Hx & _). pose proof (ap_chain _ _ _ _ Hf) as (-> & Hy & _).
  pose proof (ap_off _ _ _ _ Ht) as Hot. pose proof (ap_off _ _ _ _ Hf) as Hof. cbn in Hot, Hof.
  pose proof (proj1 (proj1 (Forall_cons _ _ _) (ap_lens _ _ _ _ Ht))) as Hlx. pose proof (proj1 (proj1 (Forall_cons _ _ _) (ap_lens _ _ _ _ Hf))) as Hly.
  set (k := Z.min (rd m y PB_LEN - fo) (rd m x PB_LEN - ot)). assert (Hk : 0 < k) by lia.
  destruct (at_pos_advance m x lt ot k Ht) as (lt' & Ht' & Et & Lt & Lt1); [lia|].
  destruct (at_pos_advance m y lf fo k Hf) as (lf' & Hf' & Ef & Lf & Lf1); [lia|].
  cbn [copy_walk]. rewrite (ld_some m x PB_LEN), (ld_some m y PB_LEN), (ld_some m x PB_PAYLOAD), (ld_some m y PB_PAYLOAD) by done. cbn [mbind option_bind].
  replace (u16 (if _ <=? _ then _ else _)) with k
    by (destruct (Z.leb_spec (rd m y PB_LEN - fo) (rd m x PB_LEN - ot)); rewrite u16_small by lia; lia).
  rewrite !u16_small by lia. rewrite memcpy_cp, <- (take_from_pos m x lt ot k), <- (take_from_pos m y lf fo k) by (done || lia).
  set (ds := from_pos m (x :: lt) ot) in *. set (ss := from_pos m (y :: lf) fo) in *.
  rewrite (copy_from_next m y fo k) by (done || lia). cbn [mbind option_bind].
  remember (if fo + k =? rd m y PB_LEN then rd m y PB_NEXT else y) as pf eqn:Epf. remember (if fo + k =? rd m y PB_LEN then 0 else fo + k) as fo' eqn:Efo.
  assert (Hks : (Z.to_nat k ≤ length ss)%nat).
  { pose proof (f_equal length (take_from_pos m y lf fo k Hf ltac:(lia))) as E. rewrite length_take, length_span in E. fold ss in E. lia. }
  assert (Hnx : pf = NULL ∨ (if ot + k =? rd m x PB_LEN then rd m x PB_NEXT else x) ≠ NULL).
  { destruct (Z.eq_dec pf NULL) as [|Hpf]; [by left|right]. intros Hpt. apply Hpf, (at_pos_null _ _ _ _ Hf'), (from_pos_nil _ _ _ _ Hf').
    apply (at_pos_null _ _ _ _ Ht') in Hpt as ->. unfold from_pos at 1 in Et. cbn [addrs mbind list_bind] in Et. rewrite drop_nil in Et.
    apply (f_equal length) in Et. rewrite length_drop in Et. cbn [length] in Et. apply length_zero_iff_nil. rewrite Ef, length_drop. lia. }
  rewrite (copy_to_next m x ot k pf Hx Hnx). cbn [mbind option_bind]. rewrite (at_pos_one_packet _ _ _ _ Hf'), (at_pos_one_packet _ _ _ _ Ht'). cbn [mbind option_bind].
  destruct (Z.eqb_spec pf NULL) as [Ep|Ep].
  - apply (at_pos_null _ _ _ _ Hf') in Ep as ->. unfold from_pos in Ef. cbn [addrs mbind list_bind] in Ef. rewrite drop_nil in Ef.
    apply (f_equal length) in Ef. rewrite length_drop in Ef. cbn [length] in Ef. assert (Z.to_nat k = length ss) as -> by lia. by rewrite firstn_all.
  - rewrite (IH _ _ _ lt' lf'); [|done|done|by rewrite <- (at_pos_null _ _ _ _ Hf')| |rewrite Ef, Et, !length_drop; lia|].
    + f_equal. rewrite Ef, Et, cp_app, take_drop, take_take_drop, length_drop; [f_equal; f_equal; lia|rewrite !length_take; lia|].
      intros z Hz Hz'. apply (Hd z); [by eapply sublist_elem, Hz; apply sublist_drop|by eapply sublist_elem, Hz'; apply sublist_take].
    + assert (fo + k = rd m y PB_LEN ∨ ot + k = rd m x PB_LEN) as [E|E] by lia; [specialize (Lf1 E)|specialize (Lt1 E)]; lia.
    + rewrite Ef, Et. intros z Hz Hz'. apply (Hd z); [eapply sublist_elem, Hz|eapply sublist_elem, Hz']; apply sublist_drop.
Qed.

Lemma pbuf_copy_run m D p_to p_from lt lf :
  at_pos m p_to lt 0 → at_pos m p_from lf 0 → lt ≠ [] → lf ≠ [] → (length lt < walk_fuel m)%nat → (length lf < walk_fuel m)%nat →
  clen m lf ≤ clen m lt → (∀ x, x ∈ addrs m lf → x ∉ addrs m lt) →
  pbuf_copy m D p_to p_from = Some (ERR_OK, cp D (take (length (addrs m lf)) (addrs m lt)) (addrs m lf)).
Proof.
  intros Ht Hf Htn Hfn Htl Hfl Hcl Hd. unfold pbuf_copy.
  pose proof (length_addrs m lf (pos_lens_ok _ _ (ap_lens _ _ _ _ Hf))) as Ef. pose proof (length_addrs m lt (pos_lens_ok _ _ (ap_lens _ _ _ _ Ht))) as Et.
  assert (Hpt : p_to ≠ NULL) by (rewrite (at_pos_null _ _ _ _ Ht); done). assert (Hpf : p_from ≠ NULL) by (rewrite (at_pos_null _ _ _ _ Hf); done).
  rewrite (proj2 (Z.eqb_neq _ _) Hpt), (proj2 (Z.eqb_neq _ _) Hpf). cbn [orb]. heap_step_head.
  assert (E : ∀ p l, at_pos m p l 0 → l ≠ [] → rd m p PB_TOT_LEN = clen m l).
  { intros p [|x l] [Hc _ Hto _] Hn; [done|]. destruct Hc as (-> & _). apply Hto. }
  rewrite (E _ _ Ht Htn), (E _ _ Hf Hfn), (proj2 (Z.leb_le _ _) Hcl). cbn [negb].
  rewrite (copy_walk_ok _ m D p_to p_from lt lf 0 0 Ht Hf Hfn); [done|lia| |exact Hd]. change (length (addrs m lf) ≤ length (addrs m lt))%nat. lia.
Qed.

(** ** Merging a packet into one pbuf *)
Section coalesce.
Context `{EL : PbufElements}.

(** The area of a new RAM pbuf is outside the packet. *)
Definition ram_apart (m : heap) (B l : list ptr) (layer : pbuf_layer) (len : Z) : Prop :=
  ∀ x a, x ∈ els_ram → x ∉ B → a ∈ addrs m l → ¬ (new_payload layer PBUF_RAM x ≤ a < new_payload layer PBUF_RAM x + len).

Lemma at_pos_single m q len : q ≠ NULL → rd m q PB_NEXT = NULL → rd m q PB_LEN = len → rd m q PB_TOT_LEN = len → 0 < len < 65536 → at_pos m q [q] 0.
Proof.
  intros Hq Hn Hl Ht Hlen. split; [done|by apply Forall_singleton; rewrite Hl|split; [cbn; lia|done]|lia].
Qed.

Lemma at_pos_frame m m' p l off : at_pos m p l off → (∀ x o, x ∈ l → rd m' x o = rd m x o) → at_pos m' p l off.
Proof.
  intros [Hc Hl Ht Ho] Hs. split.
  - eapply lseg_frame, Hc. intros x Hx. by apply Hs.
  - apply Forall_forall. intros x Hx. rewrite Hs by done. by apply (proj1 (Forall_forall _ _) Hl).
  - clear Hc Hl Ho. induction l as [|x l IH]; [done|]. destruct Ht as [Ht1 Ht2]. split; [|apply IH; [done|intros; apply Hs; mem]].
    rewrite Hs by mem. rewrite Ht1. symmetry. apply clen_same. intros y Hy. by apply Hs.
  - destruct l as [|x l]; [done|]. rewrite Hs by mem. done.
Qed.

(** The copy of a packet into one pbuf of the same length. *)
Lemma coalesce_copy s A B H K q p l :
  pb_inv s A B H K → q ∈ A ++ B → p ∈ A ++ B → at_pos (pb_m s) q [q] 0 → at_pos (pb_m s) p l 0 → clen (pb_m s) l = clen (pb_m s) [q] →
  (∀ a, a ∈ addrs (pb_m s) l → a ∉ addrs (pb_m s) [q]) →
  ∃ D', pb_copy q p s = Some (ERR_OK, s <| pb_data := D' |>) ∧ rdb D' <$> addrs (pb_m s) [q] = rdb (pb_data s) <$> addrs (pb_m s) l ∧
    (∀ a, a ∉ addrs (pb_m s) [q] → rdb D' a = rdb (pb_data s) a).
Proof.
  intros Hi Hq Hp Haq Hap Ecl Hd. pose proof (inv_non_null _ _ _ _ _ _ Hi Hp) as Hpn.
  pose proof (length_addrs _ _ (pos_lens_ok _ _ (ap_lens _ _ _ _ Hap))) as Lp. pose proof (length_addrs _ _ (pos_lens_ok _ _ (ap_lens _ _ _ _ Haq))) as Lq.
  unfold pb_copy. rewrite (pbuf_copy_run _ _ q p [q] l Haq Hap); [|done|by rewrite <- (at_pos_null _ _ _ _ Hap)|..|lia|exact Hd].
  2, 3: eapply chain_fuel; [exact Hi| |eapply ap_chain; done]; done.
  cbn [mbind option_bind]. rewrite (firstn_all2 (addrs (pb_m s) [q])) by lia. eexists. split_and!; [done| |intros a Ha; by apply rdb_cp_out].
  apply rdb_cp; [|lia]. unfold addrs, area. cbn [mbind list_bind]. rewrite app_nil_r. apply NoDup_span.
Qed.
End coalesce.
