(* ===== verification/PbufSearch.v ===== *)
(** * Searching packet buffers (dp/lwip/pbuf.c)

    [pbuf_get_at], [pbuf_memcmp] and [pbuf_memfind] against the contents of the packet. *)

From S2P Require Import Prelude Stddef Heap Mempool ByteMem Mbuf Pbuf PbufOwn PbufLink PbufData.
Local Open Scope Z_scope.

(** Byte [i] of the packet, 0 behind its end. *)
Definition byte_at (m : heap) (D : gmap Z Z) (l : list ptr) (i : Z) : Z := default 0 (contents m D l !! Z.to_nat i).

Lemma skip_to_ok fuel m q l off :
  chain m PB_NEXT q l → lens_ok m l → (length l < fuel)%nat → 0 ≤ off < 65536 →
  ∃ l1 l2 q' off', skip_to fuel m q off = Some (q', off') ∧ l = l1 ++ l2 ∧ chain m PB_NEXT q' l2 ∧ off = clen m l1 + off' ∧ 0 ≤ off' ∧
    match l2 with [] => True | x :: _ => off' < rd m x PB_LEN end.
Proof.
  revert q l off. induction fuel as [|fuel IH]; intros q l off Hc Hl Hf Ho; [lia|]. cbn [skip_to]. destruct l as [|x l].
  { rewrite Hc. exists [], [], NULL, off. split_and!; try done; cbn [clen foldr]; lia. }
  destruct Hc as (-> & Hx & Hc). rewrite (proj2 (Z.eqb_neq _ _) Hx). pose proof Hl as [Hlx Hl']%Forall_cons. heap_step_head.
  destruct (Z.leb_spec (rd m x PB_LEN) off) as [Hle|Hgt].
  - heap_step_head. rewrite u16_small by lia.
    destruct (IH (rd m x PB_NEXT) l (off - rd m x PB_LEN)) as (l1 & l2 & q' & off' & E & -> & Hc' & Eo & Ho' & Hx'); [done|done|cbn in Hf; lia|lia|].
    exists (x :: l1), l2, q', off'. split_and!; try done. cbn [clen foldr]. fold (clen m l1). lia.
  - exists [], (x :: l), x, off. split_and!; try done; cbn [clen foldr]; lia.
Qed.

Lemma byte_at_skip m D l1 l2 i : lens_ok m l1 → 0 ≤ i → byte_at m D (l1 ++ l2) (clen m l1 + i) = byte_at m D l2 i.
Proof.
  intros Hl Hi. unfold byte_at. rewrite contents_app. pose proof (length_contents m D l1 Hl) as E. pose proof (clen_nonneg m l1 Hl).
  rewrite lookup_app_r by lia. do 2 f_equal. lia.
Qed.

Lemma pbuf_get_at_ok m D p l offset :
  chain m PB_NEXT p l → lens_ok m l → (length l < walk_fuel m)%nat → 0 ≤ offset < 65536 → pbuf_get_at m D p offset = Some (byte_at m D l offset).
Proof.
  intros Hc Hl Hf Ho. destruct (skip_to_ok _ m p l offset Hc Hl Hf Ho) as (l1 & l2 & q & off & E & -> & Hq & Eo & Ho' & Hx).
  unfold pbuf_get_at. rewrite E. cbn [mbind option_bind]. apply Forall_app in Hl as [Hl1 Hl2]. rewrite Eo, byte_at_skip by done.
  destruct l2 as [|x l2]; [by rewrite Hq|]. destruct Hq as (-> & Hxn & _). rewrite (proj2 (Z.eqb_neq _ _) Hxn).
  heap_step_head. rewrite (proj2 (Z.ltb_lt _ _) Hx). unfold byte_at, contents. rewrite addrs_cons, fmap_app.
  unfold area. rewrite <- bytes_at_span, lookup_app_l, bytes_at_lookup by (rewrite ?length_bytes_at; lia). cbn [default id]. do 2 f_equal. lia.
Qed.

(** The result of a comparison of [n] bytes. *)
Definition cmp_result (r n : Z) (a b : Z → Z) : Prop :=
  (r = 0 ∧ ∀ j, 0 ≤ j < n → a j = b j) ∨ (1 ≤ r ≤ n ∧ a (r - 1) ≠ b (r - 1) ∧ ∀ j, 0 ≤ j < r - 1 → a j = b j).

Lemma cmp_loop_ok k m D q l start s2 i n :
  chain m PB_NEXT q l → lens_ok m l → (length l < walk_fuel m)%nat → 0 ≤ start → 0 ≤ i → n = i + Z.of_nat k → start + n ≤ 65536 → n < 65536 →
  (∀ j, 0 ≤ j < i → byte_at m D l (start + j) = rdb D (s2 + j)) →
  ∃ r, cmp_loop k m D q start s2 i = Some r ∧ cmp_result r n (λ j, byte_at m D l (start + j)) (λ j, rdb D (s2 + j)).
Proof.
  intros Hc Hl Hf Hs. revert i. induction k as [|k IH]; intros i Hi En Hn Hn' Heq.
  { exists 0. split; [done|]. left. split; [done|]. intros j Hj. apply Heq. lia. }
  cbn [cmp_loop]. rewrite (u16_small (start + i)), (pbuf_get_at_ok m D q l) by (done || lia). cbn [mbind option_bind].
  destruct (Z.eqb_spec (byte_at m D l (start + i)) (rdb D (s2 + i))) as [E|E]; cbn [negb].
  - apply IH; try lia. intros j Hj. destruct (Z.eq_dec j i) as [->|]; [done|apply Heq; lia].
  - rewrite u16_small by lia. exists (i + 1). split; [done|]. right. rewrite Z.add_simpl_r. split_and!; [lia..|done|done].
Qed.

Lemma pbuf_memcmp_ok m D p l offset s2 n :
  chain m PB_NEXT p l → lens_ok m l → (length l < walk_fuel m)%nat → 0 ≤ offset < 65536 → 0 ≤ n < 65536 → offset + n ≤ 65536 →
  if offset <? clen m l then
    ∃ r, pbuf_memcmp m D p offset s2 n = Some r ∧ cmp_result r n (λ j, byte_at m D l (offset + j)) (λ j, rdb D (s2 + j))
  else pbuf_memcmp m D p offset s2 n = Some 65535.
Proof.
  intros Hc Hl Hf Ho Hn Hs. destruct (skip_to_ok _ m p l offset Hc Hl Hf Ho) as (l1 & l2 & q & off & E & -> & Hq & Eo & Ho' & Hx).
  unfold pbuf_memcmp. rewrite E. cbn [mbind option_bind]. pose proof Hl as [Hl1 Hl2]%Forall_app. rewrite clen_app. pose proof (clen_nonneg m l1 Hl1).
  destruct l2 as [|x l2].
  { rewrite Hq. cbn [clen foldr]. rewrite (proj2 (Z.ltb_ge _ _)) by lia. done. }
  pose proof Hq as (-> & Hxn & _). pose proof Hl2 as [Hlx Hl2']%Forall_cons. pose proof (clen_nonneg m l2 Hl2').
  rewrite (proj2 (Z.ltb_lt offset _)) by (cbn [clen foldr]; fold (clen m l2); lia). rewrite (proj2 (Z.eqb_neq _ _) Hxn), ld_some by done. cbn [mbind option_bind].
  rewrite (proj2 (Z.ltb_lt _ _) Hx).
  destruct (cmp_loop_ok (Z.to_nat n) m D x (x :: l2) off s2 0 n Hq Hl2) as (r & Er & Hr); [rewrite length_app in Hf; lia|lia..|].
  exists r. split; [done|]. unfold cmp_result in *.
  assert (Eb : ∀ j, 0 ≤ j → byte_at m D (l1 ++ x :: l2) (offset + j) = byte_at m D (x :: l2) (off + j)).
  { intros j Hj. replace (offset + j) with (clen m l1 + (off + j)) by lia. apply byte_at_skip; [done|lia]. }
  destruct Hr as [[-> Hr]|(Hr1 & Hr2 & Hr3)]; [left; split; [done|]|right; split_and!; [lia..| |]].
  - intros j Hj. rewrite Eb by lia. by apply Hr.
  - rewrite Eb by lia. done.
  - intros j Hj. rewrite Eb by lia. by apply Hr3.
Qed.

(** [mem] occurs at position [i] of the packet. *)
Definition occurs (m : heap) (D : gmap Z Z) (l : list ptr) (mem mem_len i : Z) : Prop :=
  0 ≤ i ∧ i + mem_len ≤ clen m l ∧ ∀ j, 0 ≤ j < mem_len → byte_at m D l (i + j) = rdb D (mem + j).

Section find.
Context (m : heap) (D : gmap Z Z) (p : ptr) (l : list ptr) (mem mem_len : Z).
Context (Hc : chain m PB_NEXT p l) (Hl : lens_ok m l) (Hf : (length l < walk_fuel m)%nat).
Context (Hlen : clen m l < 65536) (Hmem : 0 < mem_len ≤ clen m l).

Lemma find_loop_ok fuel i :
  0 ≤ i ≤ clen m l → (Z.to_nat (clen m l - i) < fuel)%nat →
  ∃ r, find_loop fuel m D p mem mem_len (clen m l - mem_len) i = Some r ∧ (r = 65535 ∨ i ≤ r ∧ occurs m D l mem mem_len r) ∧
    (∀ t, occurs m D l mem mem_len t → i ≤ t → (∀ j, i ≤ j < t → byte_at m D l j ≠ rdb D mem) → r = t).
Proof.
  revert i. induction fuel as [|fuel IH]; intros i Hi Hfu; [lia|]. cbn [find_loop].
  destruct (Z.ltb_spec (clen m l - mem_len) i) as [Hlt|Hge].
  { exists 65535. split_and!; [done|by left|]. intros t (_ & Ht & _) Hit. lia. }
  pose proof (pbuf_memcmp_ok m D p l i mem mem_len Hc Hl Hf) as Hcmp. rewrite (proj2 (Z.ltb_lt i _)) in Hcmp by lia.
  destruct Hcmp as (r & Er & Hr); [lia..|]. rewrite Er. cbn [mbind option_bind].
  destruct Hr as [[-> Hr]|(Hr1 & Hr2 & Hr3)].
  - cbn [Z.eqb]. exists i. split; [done|]. split; [right; split_and!; [lia|split_and!; [lia..|done]]|]. intros t (_ & _ & Ht) Hit Hno.
    destruct (Z.eq_dec i t); [done|]. destruct (Hno i); [lia|]. specialize (Hr 0). rewrite !Z.add_0_r in Hr. apply Hr. lia.
  - rewrite (proj2 (Z.eqb_neq r 0)) by lia. rewrite u16_small by lia. destruct (IH (i + r)) as (r' & E' & Hcase & Hfirst); [lia..|].
    exists r'. split_and!; [done|destruct Hcase as [?|[? ?]]; [by left|right; split; [lia|done]]|].
    intros t Ht Hit Hno. apply Hfirst; [done| |intros j Hj; apply Hno; lia]. destruct Ht as (_ & _ & Ht). destruct (Z.eq_dec i t) as [->|]; [destruct Hr2; apply Ht; lia|].
    destruct (Z.eq_dec r 1) as [->|Hr']; [lia|]. exfalso. apply (Hno i); [lia|]. specialize (Hr3 0). rewrite !Z.add_0_r in Hr3. apply Hr3. lia.
Qed.
End find.


(** A packet "aab" at 100, in pbufs of one and two bytes, and the string "ab" at 200. *)
Definition ex_find_heap : heap :=
  <[(1000, PB_NEXT) := 2000]> (<[(1000, PB_PAYLOAD) := 100]> (<[(1000, PB_LEN) := 1]> (<[(1000, PB_TOT_LEN) := 3]>
    (<[(2000, PB_PAYLOAD) := 101]> (<[(2000, PB_LEN) := 2]> (<[(2000, PB_TOT_LEN) := 2]> ∅)))))).
Definition ex_find_data : gmap Z Z := put_bytes (put_bytes ∅ 100 [97; 97; 98]) 200 [97; 98].


(** The first mismatch is skipped too: "ab" is in the packet, and is not found. *)
Example memfind_misses : pbuf_memfind ex_find_heap ex_find_data 1000 200 2 0 = Some 65535 ∧ occurs ex_find_heap ex_find_data [1000; 2000] 200 2 1.
Proof.
  split; [by vm_compute|]. split_and!; [done..|]. intros j Hj. assert (j = 0 ∨ j = 1) as [-> | ->] by lia; by vm_compute.
Qed.

(** The search for no bytes from the end of the packet: the comparison answers 0xffff, and the
    position goes back by one. *)
Example memfind_empty_before_start : pbuf_memfind ex_find_heap ex_find_data 1000 200 0 3 = Some 2.
Proof. by vm_compute. Qed.
