(* ===== verification/Packet.v ===== *)
(** * Packets as byte strings

    A packet is a chain of pbufs with consistent lengths; it stands for the string of its
    payload bytes.  Joining, trimming, splitting, copying and merging packets are the
    corresponding operations on strings. *)

From S2P Require Import Prelude Stddef Heap Mempool ByteMem Mbuf Pbuf PbufOwn PbufLink PbufStep PbufData.
Local Open Scope Z_scope.

(** [tot_len] counts the bytes from a pbuf on, in 16 bits. *)
Fixpoint tots16 (m : heap) (l : list ptr) : Prop :=
  match l with [] => True | x :: l' => rd m x PB_TOT_LEN = u16 (clen m (x :: l')) ∧ tots16 m l' end.

Record packet (m : heap) (p : ptr) (l : list ptr) : Prop := {
  pk_chain : chain m PB_NEXT p l;
  pk_lens : lens_ok m l;
  pk_tots : tots16 m l;
}.

Lemma tots16_exact m l : lens_ok m l → clen m l < 65536 → tots16 m l → tots m l.
Proof.
  induction l as [|x l IH]; [done|]. intros Hl Hc [Ht Hts]. pose proof Hl as [Hlx Hl']%Forall_cons. pose proof (clen_nonneg m l Hl').
  assert (E : clen m (x :: l) = rd m x PB_LEN + clen m l) by done. split; [rewrite Ht, u16_small; lia|apply IH; [done|lia|done]].
Qed.

(** The [tot_len] of the pbufs of a prefix change by the same amount as the bytes behind it. *)
Lemma tots16_prefix m m' l1 l2 l2' d :
  tots16 m (l1 ++ l2) → (∀ x, x ∈ l1 → rd m' x PB_LEN = rd m x PB_LEN) →
  (∀ x, x ∈ l1 → rd m' x PB_TOT_LEN = u16 (rd m x PB_TOT_LEN + d)) → u16 (clen m l2 + d) = u16 (clen m' l2') → tots16 m' l2' →
  tots16 m' (l1 ++ l2').
Proof.
  intros Ht Hl Htot Hd H2. induction l1 as [|x l1 IH]; [done|]. destruct Ht as [Htx Ht]. split.
  - rewrite Htot by mem. rewrite Htx. change (x :: l1 ++ ?k) with ((x :: l1) ++ k). rewrite !clen_app, (clen_same m m' (x :: l1)) by done.
    unfold u16 in *. rewrite Zplus_mod_idemp_l, <- Z.add_assoc, Zplus_mod, Hd, <- Zplus_mod. done.
  - apply IH; [done|intros; apply Hl; mem|intros; apply Htot; mem].
Qed.
Lemma tots16_same m m' l :
  (∀ x, x ∈ l → rd m' x PB_LEN = rd m x PB_LEN) → (∀ x, x ∈ l → rd m' x PB_TOT_LEN = rd m x PB_TOT_LEN) → tots16 m l → tots16 m' l.
Proof.
  induction l as [|x l IH]; [done|]. intros H1 H2 [Ht Hts]. split; [rewrite H2, (clen_same m m') by (done || mem); done|].
  apply IH; [intros; apply H1; mem|intros; apply H2; mem|done].
Qed.
Lemma tots16_app m l1 l2 : tots16 m (l1 ++ l2) → tots16 m l2.
Proof. induction l1 as [|x l1 IH]; [done|]. intros [_ Ht]. auto. Qed.
Lemma lens_ok_same m m' l : (∀ x, x ∈ l → rd m' x PB_LEN = rd m x PB_LEN) → lens_ok m l → lens_ok m' l.
Proof. intros Hs Hl. apply Forall_forall. intros x Hx. rewrite Hs by done. by apply (proj1 (Forall_forall _ _) Hl). Qed.
Lemma contents_same m m' D l :
  (∀ x, x ∈ l → rd m' x PB_PAYLOAD = rd m x PB_PAYLOAD) → (∀ x, x ∈ l → rd m' x PB_LEN = rd m x PB_LEN) → contents m' D l = contents m D l.
Proof. intros H1 H2. unfold contents. by rewrite (addrs_same m m'). Qed.

(** The stores of [pbuf_header] that hides [n] bytes. *)
Lemma pbuf_header_hide_run m p n :
  p ≠ NULL → 0 < n ≤ rd m p PB_LEN → n < 32768 → rd m p PB_LEN < 65536 →
  (rd m p PB_TYPE = PBUF_RAM ∧ u64 (p + SIZEOF_STRUCT_PBUF) ≤ rd m p PB_PAYLOAD) ∨ rd m p PB_TYPE = PBUF_ROM ∨ rd m p PB_TYPE = PBUF_REF →
  0 ≤ rd m p PB_PAYLOAD → rd m p PB_PAYLOAD + n < 2 ^ 64 →
  pbuf_header m p (- n) = Some (0, <[(p, PB_TOT_LEN) := u16 (rd m p PB_TOT_LEN - n)]>
    (<[(p, PB_LEN) := rd m p PB_LEN - n]> (<[(p, PB_PAYLOAD) := rd m p PB_PAYLOAD + n]> m))).
Proof.
  intros Hp Hn Hn' Hlp Hty Hpay Hov. set (pay := rd m p PB_PAYLOAD) in *. set (len := rd m p PB_LEN) in *.
  set (m1 := <[(p, PB_PAYLOAD) := pay + n]> m). set (m2 := <[(p, PB_LEN) := len - n]> m1). set (m3 := <[(p, PB_TOT_LEN) := _]> m2).
  unfold pbuf_header. rewrite (proj2 (Z.eqb_neq (- n) 0)), (proj2 (Z.eqb_neq p NULL)), (proj2 (Z.ltb_lt (- n) 0)) by (done || lia). cbn [orb].
  rewrite (ld_some m p PB_LEN), (ld_some m p PB_TYPE), (ld_some m p PB_PAYLOAD) by done. cbn [mbind option_bind]. fold pay len.
  rewrite Z.opp_involutive, (u16_small n), (proj2 (Z.leb_le n len)) by lia. cbn [negb andb]. rewrite Z.sub_opp_r.
  rewrite (u64_small (pay + n)) by (unfold U64_MOD; lia). rewrite !(u16_small (len + - n)) by lia.
  assert (Ef : (m ← sto m1 p PB_LEN (len - n); tot ← ld m p PB_TOT_LEN; m ← sto m p PB_TOT_LEN (u16 (tot + - n)); Some (0, m)) = Some (0, m3)).
  { rewrite sto_some by done. cbn [mbind option_bind]. rewrite ld_some by done. cbn [mbind option_bind]. rewrite sto_some by done. cbn [mbind option_bind].
    unfold m3, m2, m1. by rewrite !rd_other by done. }
  destruct Hty as [[-> Hge]|[-> | ->]]; 
    [change ((PBUF_RAM =? PBUF_RAM) || (PBUF_RAM =? PBUF_POOL)) with true; rewrite (proj2 (Z.ltb_ge (pay + n) _)) by lia
    |change ((PBUF_ROM =? PBUF_RAM) || (PBUF_ROM =? PBUF_POOL)) with false; change ((PBUF_ROM =? PBUF_REF) || (PBUF_ROM =? PBUF_ROM)) with true
    |change ((PBUF_REF =? PBUF_RAM) || (PBUF_REF =? PBUF_POOL)) with false; change ((PBUF_REF =? PBUF_REF) || (PBUF_REF =? PBUF_ROM)) with true];
    cbv iota; rewrite sto_some by done; exact Ef.
Qed.

(** Hiding the first [n] bytes. *)
Lemma pbuf_header_hide m p l n :
  packet m p l → 0 < n ≤ rd m p PB_LEN → n < 32768 → p ≠ NULL →
  (rd m p PB_TYPE = PBUF_RAM ∧ u64 (p + SIZEOF_STRUCT_PBUF) ≤ rd m p PB_PAYLOAD) ∨ rd m p PB_TYPE = PBUF_ROM ∨ rd m p PB_TYPE = PBUF_REF →
  0 ≤ rd m p PB_PAYLOAD → rd m p PB_PAYLOAD + n < 2 ^ 64 →
  ∃ m', pbuf_header m p (- n) = Some (0, m') ∧ packet m' p l ∧ ∀ D, contents m' D l = drop (Z.to_nat n) (contents m D l).
Proof.
  intros [Hc Hl Ht] Hn Hn' Hp Hty Hpay Hov. set (pay := rd m p PB_PAYLOAD) in *. set (len := rd m p PB_LEN) in *.
  destruct l as [|x l]; [done|]. pose proof (chain_nodup _ _ _ _ Hc) as Hnd. destruct Hc as (<- & _ & Hc). apply NoDup_cons in Hnd as [Hnp _].
  pose proof Hl as [Hlp Hl']%Forall_cons. fold len in Hlp. destruct Ht as [Htp Hts].
  pose proof (pbuf_header_hide_run m p n Hp ltac:(lia) Hn' ltac:(lia) Hty Hpay Hov) as E. fold pay len in E.
  set (m1 := <[(p, PB_PAYLOAD) := pay + n]> m) in *. set (m2 := <[(p, PB_LEN) := len - n]> m1) in *. set (m3 := <[(p, PB_TOT_LEN) := _]> m2) in *.
  assert (Ho : ∀ y off, y ≠ p → rd m3 y off = rd m y off) by (intros y off Hy; unfold m3, m2, m1; rewrite !rd_other by congruence; done).
  assert (El : rd m3 p PB_LEN = len - n) by (unfold m3, m2; rewrite rd_other by done; apply rd_insert_eq).
  assert (Ep : rd m3 p PB_PAYLOAD = pay + n) by (unfold m3, m2, m1; rewrite !rd_other by done; apply rd_insert_eq).
  assert (En : rd m3 p PB_NEXT = rd m p PB_NEXT) by (unfold m3, m2, m1; rewrite !rd_other by done; done).
  assert (Hol : ∀ y, y ∈ l → y ≠ p) by (by intros y Hy ->).
  exists m3. split_and!; [exact E|split| ].
  - split_and!; [done..|]. rewrite En. eapply lseg_frame, Hc. intros y Hy. apply Ho. auto.
  - apply Forall_cons. split; [lia|]. eapply (lens_ok_same m); [intros y Hy; apply Ho; auto|done].
  - split; [|eapply (tots16_same m); [intros y Hy; apply Ho; auto..|done]]. unfold m3 at 1. rewrite rd_insert_eq, Htp. cbn [clen foldr]. fold (clen m l) (clen m3 l). rewrite El.
    rewrite (clen_same m m3 l) by (intros y Hy; apply Ho; auto). unfold u16. rewrite Zminus_mod_idemp_l. f_equal. fold len. lia.
  - intros D. unfold contents. rewrite <- fmap_drop, !addrs_cons, drop_app_le by (unfold area; rewrite length_span; lia).
    rewrite (addrs_same m m3 l) by (intros y Hy; apply Ho; auto). unfold area. rewrite drop_span, El, Ep. do 3 f_equal; lia.
Qed.

Section edits.
Context `{EL : PbufElements}.

(** Appending. *)
Lemma pbuf_cat_packet s A B H K h t lh lt :
  pb_inv s A B (t :: H) K → h ∈ A ++ B → packet (pb_m s) h lh → packet (pb_m s) t lt → (∀ x, x ∈ lh → x ∉ lt) →
  ∃ m', pbuf_cat (pb_m s) h t = Some m' ∧ pb_inv (s <| pb_m := m' |>) A B H K ∧ packet m' h (lh ++ lt) ∧
    ∀ D, contents m' D (lh ++ lt) = contents (pb_m s) D lh ++ contents (pb_m s) D lt.
Proof.
  intros Hi Hh [Hc1 Hl1 Ht1] [Hc2 Hl2 Ht2] Hd.
  destruct (pbuf_cat_ok s A B H K h t lh lt Hi Hh Hc1 Hc2 Hd) as (m' & E & Hi' & Hc' & Htot & Ho). exists m'. split_and!; [done..| |].
  - assert (Hlen : ∀ x, rd m' x PB_LEN = rd (pb_m s) x PB_LEN) by (intros x; apply Ho; [done|by intros []]).
    assert (Et : rd (pb_m s) t PB_TOT_LEN = u16 (clen (pb_m s) lt)).
    { destruct lt as [|z lt]; [|destruct Hc2 as (-> & _); apply Ht2]. assert (t ∈ A ++ B) as Ht by (eapply inv_held; [exact Hi|mem]).
      by destruct (inv_non_null _ _ _ _ _ _ Hi Ht). }
    split; [done|apply Forall_app; split; (eapply lens_ok_same; [intros x _; apply Hlen|done])|].
    eapply (tots16_prefix (pb_m s) m' lh [] lt); [by rewrite app_nil_r|done|exact Htot| |].
    + cbn [clen foldr]. rewrite Z.add_0_l, (clen_same (pb_m s) m') by done. rewrite Et. unfold u16. by rewrite Zmod_mod.
    + eapply (tots16_same (pb_m s) m'); [intros x _; apply Hlen| |exact Ht2]. intros x Hx. apply Ho; [done|]. intros [Hx' _]. by apply (Hd x).
  - intros D. rewrite <- contents_app. apply contents_same; intros x _; (apply Ho; [done|by intros []]).
Qed.

(** Trimming to [new_len] bytes. *)
Lemma pbuf_realloc_packet s A B H K p l new_len :
  pb_inv s A B H K → p ∈ H → packet (pb_m s) p l → 0 ≤ new_len < rd (pb_m s) p PB_TOT_LEN →
  ∃ s' A' B' l', pbuf_realloc p new_len s = Some (tt, s') ∧ pb_inv s' A' B' H K ∧ packet (pb_m s') p l' ∧ pb_data s' = pb_data s ∧
    ∀ D, contents (pb_m s') D l' = take (Z.to_nat new_len) (contents (pb_m s) D l).
Proof.
  intros Hi Hp [Hc Hl Ht] Hn. assert (HpL : p ∈ A ++ B) by (by eapply inv_held). pose proof (inv_non_null _ _ _ _ _ _ Hi HpL) as Hpn.
  assert (Etp : rd (pb_m s) p PB_TOT_LEN = u16 (clen (pb_m s) l)) by (destruct l as [|z l]; [done|]; destruct Hc as (-> & _); apply Ht).
  pose proof (clen_nonneg _ _ Hl) as Hcl. pose proof (u16_range (clen (pb_m s) l)) as Hu. pose proof (Z.mod_le (clen (pb_m s) l) 65536 Hcl eq_refl) as Hle.
  change (_ mod 65536) with (u16 (clen (pb_m s) l)) in Hle.
  destruct (pbuf_realloc_ok s A B H K p l new_len Hi Hp Hc Hl Hn) as (s' & A' & B' & l1 & q & l2 & E & Hi' & -> & Hc' & _ & Hkeep & Hr & Elq & Etq & Et1 & Hl' & _ & Hpay & Hd); [lia..|].
  set (r := new_len - clen (pb_m s) l1) in *. set (m := pb_m s) in *. set (m' := pb_m s') in *. pose proof Hl as [Hl1 [Hlq Hl2]%Forall_cons]%Forall_app.
  pose proof (chain_nodup _ _ _ _ Hc) as (_ & Hnd & _)%NoDup_app.
  assert (Hl1' : ∀ x, x ∈ l1 → rd m' x PB_LEN = rd m x PB_LEN) by (intros x Hx; apply Hl'; [apply Hkeep; mem|intros ->; apply (Hnd q Hx); mem]).
  assert (Hsingle : clen m' [q] = r) by (cbn [clen foldr]; lia).
  exists s', A', B', (l1 ++ [q]). fold m'. split_and!; [done|done|split; [done| |]|done|].
  - apply Forall_app. split; [by eapply lens_ok_same|]. apply Forall_singleton. lia.
  - eapply (tots16_prefix m m' l1 (q :: l2) [q]); [exact Ht|exact Hl1'|exact Et1| |split; [|done]; rewrite Hsingle, Etq, u16_small by lia; done].
    rewrite Hsingle, Etp, clen_app. unfold u16, U16_MOD. rewrite Zplus_mod_idemp_r. rewrite Z.add_sub_assoc, Zminus_mod_idemp_r. f_equal. lia.
  - intros D. rewrite !contents_app, take_app. pose proof (length_contents m D l1 Hl1) as E1. pose proof (clen_nonneg m l1 Hl1).
    rewrite (take_ge (contents m D l1)) by lia. f_equal; [apply contents_same; [intros x Hx; apply Hpay, Hkeep; mem|done]|].
    replace (_ - length _)%nat with (Z.to_nat r) by lia. unfold contents. rewrite <- fmap_take, !addrs_cons. cbn [addrs mbind list_bind]. rewrite app_nil_r, take_app_le by (unfold area; rewrite length_span; lia).
    unfold area. rewrite take_span, Elq, Hpay by (apply Hkeep; mem). do 2 f_equal. lia.
Qed.

(** Splitting off what exceeds 64K. *)
Lemma pbuf_split_packet s A B H K p l :
  pb_inv s A B H K → p ∈ A ++ B → packet (pb_m s) p l →
  ∃ m' r l1 l2, pbuf_split_64k (pb_m s) p = Some (m', r) ∧ pb_inv (s <| pb_m := m' |>) A B (split_users r H) K ∧
    packet m' p l1 ∧ packet m' r l2 ∧ clen m' l1 < 65536 ∧
    (∀ x l', l2 = x :: l' → rd m' x PB_LEN = 0 ∨ 65536 ≤ clen m' l1 + rd m' x PB_LEN) ∧
    ∀ D, contents m' D l1 ++ contents m' D l2 = contents (pb_m s) D l.
Proof.
  intros Hi Hp [Hc Hl Ht]. destruct (pbuf_split_64k_ok s A B H K p l Hi Hp Hc Hl) as (m' & r & E & Hi' & l1 & l2 & [-> Hc1 Hc2 Hsm Hfull Htot Hsame]).
  set (m := pb_m s) in *. pose proof Hl as [Hl1 Hl2]%Forall_app. pose proof (chain_nodup _ _ _ _ Hc) as (_ & Hnd & _)%NoDup_app.
  assert (Hlen : ∀ x, rd m' x PB_LEN = rd m x PB_LEN) by (intros x; apply Hsame; [done..|by intros (_ & ? & _)]).
  assert (Ecl : ∀ k, clen m' k = clen m k) by (intros k; by apply clen_same).
  assert (Ht2 : tots16 m' l2).
  { eapply (tots16_same m m'); [intros x _; apply Hlen| |by eapply tots16_app]. intros x Hx. apply Hsame; [done..|]. intros (Hx' & _). by apply (Hnd x). }
  exists m', r, l1, l2. split_and!; [done|done|split; [done|by eapply (lens_ok_same m)|]|split; [done|by eapply (lens_ok_same m)|done]|by rewrite Ecl| |].
  - destruct (Z.eq_dec r NULL) as [Hr|Hr].
    + assert (l2 = []) as -> by (destruct l2 as [|z l2]; [done|by destruct Hc2 as (<- & ? & _)]). rewrite app_nil_r in Ht.
      eapply (tots16_same m m'); [intros x _; apply Hlen| |exact Ht]. intros x _. apply Hsame; [done..|]. by intros (_ & _ & ?).
    + rewrite <- (app_nil_r l1). eapply (tots16_prefix m m' l1 l2 []); [exact Ht|intros x _; apply Hlen| | |done].
      * intros x Hx. rewrite Htot by done. done.
      * destruct l2 as [|z l2]; [done|]. destruct Hc2 as (-> & _). rewrite (proj1 (tots16_app _ _ _ Ht)). unfold u16, U16_MOD. cbn [clen foldr].
        rewrite Z.add_opp_r, Zminus_mod_idemp_r, Z.sub_diag. done.
  - intros x l' ->. rewrite Ecl, Hlen. by eapply Hfull.
  - intros D. rewrite <- contents_app. apply contents_same; [|intros x _; apply Hlen]. intros x _. apply Hsame; [done..|by intros (_ & ? & _)].
Qed.

(** C13: The pbuf operations act on packets as string operations on their bytes, and keep the
    ownership invariant.  [pbuf_cat] appends the second packet's bytes and takes over the
    caller's reference to it; [pbuf_realloc] keeps the first [new_len] bytes and releases
    what lies behind; [pbuf_split_64k] cuts the packet into a first part of less than 64K and
    the rest, and cuts only before an empty pbuf or one that would reach 64K; [pbuf_header]
    with a negative increment hides the first bytes.  All of them leave consistent lengths. *)
Theorem packet_edits s A B H K :
  pb_inv s A B H K →
  (∀ h t lh lt H', H ≡ₚ t :: H' → h ∈ A ++ B → packet (pb_m s) h lh → packet (pb_m s) t lt → (∀ x, x ∈ lh → x ∉ lt) →
    ∃ m', pbuf_cat (pb_m s) h t = Some m' ∧ pb_inv (s <| pb_m := m' |>) A B H' K ∧ packet m' h (lh ++ lt) ∧
      ∀ D, contents m' D (lh ++ lt) = contents (pb_m s) D lh ++ contents (pb_m s) D lt) ∧
  (∀ p l new_len, p ∈ H → packet (pb_m s) p l → 0 ≤ new_len < rd (pb_m s) p PB_TOT_LEN →
    ∃ s' A' B' l', pbuf_realloc p new_len s = Some (tt, s') ∧ pb_inv s' A' B' H K ∧ packet (pb_m s') p l' ∧ pb_data s' = pb_data s ∧
      ∀ D, contents (pb_m s') D l' = take (Z.to_nat new_len) (contents (pb_m s) D l)) ∧
  (∀ p l, p ∈ A ++ B → packet (pb_m s) p l →
    ∃ m' r l1 l2, pbuf_split_64k (pb_m s) p = Some (m', r) ∧ pb_inv (s <| pb_m := m' |>) A B (split_users r H) K ∧
      packet m' p l1 ∧ packet m' r l2 ∧ clen m' l1 < 65536 ∧
      (∀ x l', l2 = x :: l' → rd m' x PB_LEN = 0 ∨ 65536 ≤ clen m' l1 + rd m' x PB_LEN) ∧
      ∀ D, contents m' D l1 ++ contents m' D l2 = contents (pb_m s) D l) ∧
  (∀ p l n, p ∈ A ++ B → packet (pb_m s) p l → 0 < n ≤ rd (pb_m s) p PB_LEN → n < 32768 →
    (p ∈ B → u64 (p + SIZEOF_STRUCT_PBUF) ≤ rd (pb_m s) p PB_PAYLOAD) → 0 ≤ rd (pb_m s) p PB_PAYLOAD → rd (pb_m s) p PB_PAYLOAD + n < 2 ^ 64 →
    ∃ m', pbuf_header (pb_m s) p (- n) = Some (0, m') ∧ pb_inv (s <| pb_m := m' |>) A B H K ∧ packet m' p l ∧
      ∀ D, contents m' D l = drop (Z.to_nat n) (contents (pb_m s) D l)).
Proof.
  intros Hi. split_and!.
  - intros h t lh lt H' HP. intros. eapply pbuf_cat_packet; try done. by eapply inv_perm.
  - intros. by eapply pbuf_realloc_packet.
  - intros. by eapply pbuf_split_packet.
  - intros p l n Hp Hpk Hn Hn' Hram Hpay Hov. pose proof (pi_type _ _ _ _ _ Hi) as [HtA HtB]. pose proof (inv_non_null _ _ _ _ _ _ Hi Hp) as Hpn.
    destruct (pbuf_header_hide (pb_m s) p l n) as (m' & E & Hpk' & Hcont); try done.
    { apply elem_of_app in Hp as [Hp|Hp]; [right; by apply HtA|left; split; [by apply HtB|by apply Hram]]. }
    destruct (pbuf_header_ok s A B H K p (- n) Hi Hp) as (r & m'' & E' & Hi'); [lia..|]. rewrite E in E'. injection E' as <- <-. by exists m'.
Qed.
End edits.

Section merge.
Context `{EL : PbufElements}.

End merge.

(** The example: a RAM pbuf of 20 bytes and a ROM pbuf of 10. *)
Definition ex_pair : pb_client := default ex_client (run_client [PAlloc PBUF_TRANSPORT 20 PBUF_RAM; PAlloc PBUF_RAW 10 PBUF_ROM] ex_client).
Lemma ex_pair_inv : ∃ A B, pb_inv (pc_s ex_pair) A B [1000; 20000] [70000].
Proof.
  destruct (reachable_ok ex_client ex_pair ex_client_init) as (A & B & Hi & _).
  - apply (run_client_steps [PAlloc PBUF_TRANSPORT 20 PBUF_RAM; PAlloc PBUF_RAW 10 PBUF_ROM]). unfold ex_pair.
    assert (Hb : match run_client [PAlloc PBUF_TRANSPORT 20 PBUF_RAM; PAlloc PBUF_RAW 10 PBUF_ROM] ex_client with Some _ => true | None => false end = true) by (by vm_compute).
    by destruct (run_client _ ex_client).
  - exists A, B. replace [1000; 20000] with (pc_users ex_pair) by (by vm_compute). by replace [70000] with (pc_mbufs ex_pair) by (by vm_compute).
Qed.
Lemma ex_pair_packets : packet (pb_m (pc_s ex_pair)) 20000 [20000] ∧ packet (pb_m (pc_s ex_pair)) 1000 [1000].
Proof. split; (split; [split_and!; [done..|]; by vm_compute|apply Forall_singleton; by vm_compute|split; [by vm_compute|done]]). Qed.

Lemma packet_edits_witness :
  ∃ m', pbuf_cat (pb_m (pc_s ex_pair)) 20000 1000 = Some m' ∧ packet m' 20000 [20000; 1000] ∧
    ∀ D, contents m' D [20000; 1000] = contents (pb_m (pc_s ex_pair)) D [20000] ++ contents (pb_m (pc_s ex_pair)) D [1000].
Proof.
  destruct ex_pair_inv as (A & B & Hi). destruct ex_pair_packets as [P1 P2].
  destruct (packet_edits (pc_s ex_pair) A B [1000; 20000] [70000] Hi) as (Hcat & _).
  destruct (Hcat 20000 1000 [20000] [1000] [20000]) as (m' & E & _ & Hp & Hc); [done| |done|done| |].
  - eapply inv_held; [exact Hi|]. apply elem_of_cons. right. by apply list_elem_of_singleton.
  - intros x ->%list_elem_of_singleton Hx. by apply list_elem_of_singleton in Hx.
  - exists m'. exact (conj E (conj Hp Hc)).
Defined.

(** [pbuf_copy_partial] on a packet.  It returns the number of bytes the packet has between
    [offset] and [offset + len], writes just these bytes to the destination, in order, and
    changes no other byte. *)
Theorem copy_partial_spec m D buf l dataptr len offset :
  packet m buf l → buf ≠ NULL → dataptr ≠ NULL → 0 ≤ len < 65536 → 0 ≤ offset < 65536 →
  (∀ x, x ∈ addrs m l → ¬ (dataptr ≤ x < dataptr + len)) →
  let bs := take (Z.to_nat len) (drop (Z.to_nat offset) (contents m D l)) in
  ∃ D', pbuf_copy_partial m D buf dataptr len offset = Some (Z.of_nat (length bs), D') ∧ bytes_at D' dataptr (length bs) = bs ∧
    (∀ a, ¬ (dataptr ≤ a < dataptr + Z.of_nat (length bs)) → rdb D' a = rdb D a).
Proof.
  intros [Hc Hl _] Hb Hd Hlen Ho Hap bs. pose proof (chain_walk_fuel _ _ _ _ Hc) as Hf. assert (Ebs : bs = rdb D <$> part len offset (addrs m l)) by (unfold bs, contents, part; by rewrite <- fmap_drop, <- fmap_take).
  rewrite (pbuf_copy_partial_run m D buf l dataptr len offset Hc Hl Hf Hb Hd Hlen Ho).
  - rewrite Ebs, length_fmap. eexists. split_and!; [done| |intros a Ha; apply rdb_cp_out; by rewrite elem_of_span].
    rewrite bytes_at_span. apply rdb_cp; [apply NoDup_span|apply length_span].
  - intros x Hx. apply Hap. eapply sublist_elem, Hx. unfold part. etransitivity; [apply sublist_take|apply sublist_drop].
Qed.

(** C35: Data stored in a packet by [pbuf_take] is what [pbuf_copy_partial] reads back from its
    start; the rest of the packet keeps its bytes.  More data than the packet holds is refused. *)
Theorem take_copy_roundtrip m D buf l src dst len :
  packet m buf l → clen m l < 65536 → NoDup (addrs m l) → buf ≠ NULL → src ≠ NULL → dst ≠ NULL → 0 ≤ len < 65536 →
  (∀ x, x ∈ addrs m l → ¬ (src ≤ x < src + len) ∧ ¬ (dst ≤ x < dst + len)) →
  if clen m l <? len then pbuf_take m D buf src len = Some (ERR_ARG, D)
  else ∃ D1 D2, pbuf_take m D buf src len = Some (ERR_OK, D1) ∧ pbuf_copy_partial m D1 buf dst len 0 = Some (len, D2) ∧
    bytes_at D2 dst (Z.to_nat len) = bytes_at D src (Z.to_nat len) ∧ contents m D1 l = bytes_at D src (Z.to_nat len) ++ drop (Z.to_nat len) (contents m D l).
Proof.
  intros [Hc Hl Ht] Hcl Hnd Hb Hs Hd Hlen Hap. pose proof (chain_walk_fuel _ _ _ _ Hc) as Hf. pose proof (tots16_exact m l Hl Hcl Ht) as Hte.
  assert (Et : rd m buf PB_TOT_LEN = clen m l) by (destruct l as [|x l]; [by cbn in Hc|]; destruct Hc as (-> & _); apply Hte).
  pose proof (pbuf_take_run m D buf l src len Hc Hl Hf Hb Hs Et Hlen (λ x Hx, proj1 (Hap x Hx))) as E.
  destruct (Z.ltb_spec (clen m l) len) as [|Hle]; [exact E|]. pose proof (length_addrs m l Hl) as La. set (ds := take (Z.to_nat len) (addrs m l)) in E.
  set (D1 := cp D ds (span src (Z.to_nat len))) in E. assert (Lds : length ds = Z.to_nat len) by (unfold ds; rewrite length_take; lia).
  assert (NoDup ds ∧ ∀ x, x ∈ drop (Z.to_nat len) (addrs m l) → x ∉ ds) as [Hnds Hdr].
  { rewrite <- (take_drop (Z.to_nat len) (addrs m l)) in Hnd. apply NoDup_app in Hnd as (H1 & H2 & _). split; [exact H1|]. intros x Hx Hx'. by apply (H2 x). }
  assert (Hpart : part len 0 (addrs m l) = ds) by done.
  assert (Hrd : rdb D1 <$> ds = bytes_at D src (Z.to_nat len)) by (rewrite bytes_at_span; apply rdb_cp; [done|by rewrite length_span]).
  pose proof (pbuf_copy_partial_run m D1 buf l dst len 0 Hc Hl Hf Hb Hd Hlen ltac:(lia)) as E2. rewrite Hpart, Lds in E2.
  eexists D1, _. split_and!; [exact E|rewrite E2| |].
  - rewrite Z2Nat.id by lia. done.
  - intros x Hx. apply (Hap x). eapply sublist_elem, Hx. apply sublist_take.
  - rewrite bytes_at_span, rdb_cp; [exact Hrd|apply NoDup_span|by rewrite length_span].
  - unfold contents at 1. rewrite <- (take_drop (Z.to_nat len) (addrs m l)), fmap_app. fold ds. rewrite Hrd. f_equal. unfold contents. rewrite <- fmap_drop.
    apply list_fmap_ext. intros i x Hx. apply rdb_cp_out, Hdr. by eapply list_elem_of_lookup_2.
Qed.

Definition ex_pair_heap : heap := pb_m (pc_s ex_pair).
(** The bytes 1, 2, ... at 300. *)
Definition ex_pair_data : gmap Z Z := put_bytes ∅ 300 [1; 2; 3; 4; 5; 6; 7; 8].

Lemma ex_pair_addrs x : x ∈ addrs ex_pair_heap [20000] → 20000 ≤ x.
Proof.
  unfold addrs, area. cbn [mbind list_bind]. rewrite app_nil_r, elem_of_span. replace (rd ex_pair_heap 20000 PB_PAYLOAD) with 20102 by (by vm_compute). lia.
Qed.

Lemma copy_partial_spec_witness :
  ∃ D', pbuf_copy_partial ex_pair_heap ex_pair_data 20000 300 15 8 = Some (12, D') ∧ bytes_at D' 300 12 = replicate 12 0 ∧ rdb D' 312 = 0.
Proof.
  destruct (copy_partial_spec ex_pair_heap ex_pair_data 20000 [20000] 300 15 8) as (D' & E & Hb & Ho); [apply ex_pair_packets|done..| |].
  { intros x Hx%ex_pair_addrs. lia. }
  exists D'. split_and!; [exact E|exact Hb|]. rewrite Ho; [by vm_compute|]. vm_compute. by intros [_ ?].
Defined.

Lemma take_copy_roundtrip_witness :
  ∃ D1 D2, pbuf_take ex_pair_heap ex_pair_data 20000 300 8 = Some (ERR_OK, D1) ∧ pbuf_copy_partial ex_pair_heap D1 20000 500 8 0 = Some (8, D2) ∧
    bytes_at D2 500 8 = [1; 2; 3; 4; 5; 6; 7; 8].
Proof.
  assert (Hcl : clen ex_pair_heap [20000] = 20) by (by vm_compute).
  pose proof (take_copy_roundtrip ex_pair_heap ex_pair_data 20000 [20000] 300 500 8) as Hrt. rewrite Hcl in Hrt. cbn [Z.ltb Z.compare Pos.compare Pos.compare_cont] in Hrt.
  destruct Hrt as (D1 & D2 & E1 & E2 & Hb & _); [apply ex_pair_packets|lia| |lia..| |].
  { apply NoDup_app; split_and!; [apply NoDup_span|intros x _ Hx; by apply elem_of_nil in Hx|by apply NoDup_nil]. }
  { intros x Hx%ex_pair_addrs. lia. }
  exists D1, D2. split_and!; [exact E1|exact E2|exact Hb].
Defined.

(** The two pbufs as one packet. *)
Definition ex_joined : pb_client :=
  default ex_client (run_client [PAlloc PBUF_TRANSPORT 20 PBUF_RAM; PAlloc PBUF_RAW 10 PBUF_ROM; PCat 20000 1000] ex_client).
Lemma ex_joined_inv : ∃ A B, pb_inv (pc_s ex_joined) A B [20000] [70000].
Proof.
  destruct (reachable_ok ex_client ex_joined ex_client_init) as (A & B & Hi & _).
  - apply (run_client_steps [PAlloc PBUF_TRANSPORT 20 PBUF_RAM; PAlloc PBUF_RAW 10 PBUF_ROM; PCat 20000 1000]). unfold ex_joined.
    match goal with |- ?r = _ => assert (Hb : match r with Some _ => true | None => false end = true) by (by vm_compute) end.
    by destruct (run_client _ ex_client).
  - exists A, B. replace [20000] with (pc_users ex_joined) by (by vm_compute). by replace [70000] with (pc_mbufs ex_joined) by (by vm_compute).
Qed.
Lemma ex_joined_packet : at_pos (pb_m (pc_s ex_joined)) 20000 [20000; 1000] 0.
Proof.
  split; [split_and!; [done..| |done|]; by vm_compute| |split_and!; by vm_compute|by vm_compute].
  apply Forall_cons. split; [by vm_compute|]. apply Forall_singleton. by vm_compute.
Qed.
Lemma two_addrs m x y px py lx ly a :
  rd m x PB_PAYLOAD = px → rd m y PB_PAYLOAD = py → rd m x PB_LEN = lx → rd m y PB_LEN = ly → a ∈ addrs m [x; y] →
  px ≤ a < px + Z.of_nat (Z.to_nat lx) ∨ py ≤ a < py + Z.of_nat (Z.to_nat ly).
Proof. intros <- <- <- <- Ha. unfold addrs, area in Ha. cbn [mbind list_bind] in Ha. by rewrite app_nil_r, elem_of_app, !elem_of_span in Ha. Qed.
Lemma ram_live s A B H K x : pb_inv s A B H K → x ∈ H → rd (pb_m s) x PB_TYPE = PBUF_RAM → x ∈ B.
Proof.
  intros Hi Hx Et. pose proof (inv_held _ _ _ _ _ _ Hi Hx) as [Hl|Hl]%elem_of_app; [|done]. apply (pi_type _ _ _ _ _ Hi) in Hl. rewrite Et in Hl. by destruct Hl.
Qed.
Lemma ex_joined_apart A B : pb_inv (pc_s ex_joined) A B [20000] [70000] → ram_apart (pb_m (pc_s ex_joined)) B [20000; 1000] PBUF_RAW 30.
Proof.
  intros Hi x a Hx HB Ha. assert (Ety : rd (pb_m (pc_s ex_joined)) 20000 PB_TYPE = PBUF_RAM) by (by vm_compute).
  pose proof (ram_live _ _ _ _ _ 20000 Hi (list_elem_of_here _ _) Ety) as H20. clear Ety Hi.
  assert (H1 : rd (pb_m (pc_s ex_joined)) 20000 PB_PAYLOAD = 20102) by (by vm_compute). assert (H2 : rd (pb_m (pc_s ex_joined)) 1000 PB_PAYLOAD = 0) by (by vm_compute).
  assert (H3 : rd (pb_m (pc_s ex_joined)) 20000 PB_LEN = 20) by (by vm_compute). assert (H4 : rd (pb_m (pc_s ex_joined)) 1000 PB_LEN = 10) by (by vm_compute).
  pose proof (two_addrs _ _ _ _ _ _ _ a H1 H2 H3 H4 Ha) as Ha'. clear H1 H2 H3 H4 Ha. revert Ha'. assert (Hx' : x ∈ [20000; 24096]) by exact Hx.
  rewrite elem_of_cons, list_elem_of_singleton in Hx'. destruct Hx' as [->| ->]; [done|].
  assert (En : new_payload PBUF_RAW PBUF_RAM 24096 = 24144) by (by vm_compute). rewrite En. lia.
Qed.

