(* ===== verification/LwipChksum.v ===== *)
(** * The checksums of lwIP (dp/lwip/inet_chksum.c, inc/lwip/lwip/inet_chksum.h)

    [lwip_standard_chksum] is the second of the three algorithms of the file, the one the
    defaults select.  It sums 16-bit words of a buffer at any alignment; the checksum of a
    packet is put together from those of its pbufs. *)

From S2P Require Import Prelude Stddef Bytes Heap Mempool ByteMem Chksum Mbuf Pbuf PbufOwn PbufLink PbufData PbufSearch.
Local Open Scope Z_scope.

(** ** Definitions *)

Definition FOLD_U32T (u : Z) : Z := Z.shiftr u 16 + Z.land u 0xffff.
Definition SWAP_BYTES_IN_WORD (w : Z) : Z := hton16 (u16 w).

(** The words from [ps] on while more than one byte is left. *)
Fixpoint sum_words (fuel : nat) (D : gmap Z Z) (ps len sum : Z) : Z * Z * Z :=
  match fuel with
  | O => (ps, len, sum)
  | S fuel' => if 1 <? len then sum_words fuel' D (ps + 2) (len - 2) (u32 (sum + ldb 2 D ps)) else (ps, len, sum)
  end.
Definition lwip_standard_chksum (D : gmap Z Z) (dataptr len : Z) : Z :=
  let odd := negb (Z.land dataptr 1 =? 0) in
  let '(pb, len, t1) := if odd && (0 <? len) then (dataptr + 1, len - 1, rdb D dataptr) else (dataptr, len, 0) in
  let '(ps, len, sum) := sum_words (Z.to_nat len) D pb len 0 in
  let t0 := if 0 <? len then rdb D ps else 0 in
  let sum := u32 (sum + (t0 + 256 * t1)) in
  let sum := u32 (FOLD_U32T sum) in
  let sum := u32 (FOLD_U32T sum) in
  u16 (if odd then SWAP_BYTES_IN_WORD sum else sum).

Definition inet_chksum (D : gmap Z Z) (dataptr len : Z) : Z := u16 (Z.lnot (lwip_standard_chksum D dataptr len)).

Fixpoint chksum_walk (fuel : nat) (m : heap) (D : gmap Z Z) (q acc : Z) (swapped : bool) : option (Z * bool) :=
  match fuel with
  | O => None
  | S fuel' =>
      if q =? NULL then Some (acc, swapped) else
      payload ← ld m q PB_PAYLOAD;
      len ← ld m q PB_LEN;
      let acc := u32 (FOLD_U32T (u32 (acc + lwip_standard_chksum D payload len))) in
      let '(swapped, acc) := if negb (len mod 2 =? 0) then (negb swapped, SWAP_BYTES_IN_WORD acc) else (swapped, acc) in
      n ← ld m q PB_NEXT;
      chksum_walk fuel' m D n acc swapped
  end.
Definition inet_chksum_pbuf (m : heap) (D : gmap Z Z) (p : ptr) : option Z :=
  '(acc, swapped) ← chksum_walk (walk_fuel m) m D p 0 false;
  let acc := if swapped : bool then SWAP_BYTES_IN_WORD acc else acc in
  Some (u16 (Z.lnot (Z.land acc 0xffff))).

(** The pseudo header alone, for a card that adds the rest. *)
Definition in_pseudo (sum b c : Z) : Z :=
  let '(sum, cf) := adc 32 sum b false in
  let '(sum, cf) := adc 32 sum c cf in
  let '(sum, _) := adc 32 sum 0 cf in
  let sum := Z.land sum 0xffff + Z.shiftr sum 16 in
  u16 (if 0xffff <? sum then sum - 0xffff else sum).
Definition inet_chksum_pseudo (m : heap) (p proto proto_len src dest : Z) : option Z :=
  tot ← ld m p PB_TOT_LEN;
  Some (in_pseudo src dest (hton32 (proto + tot))).

Fixpoint partial_sum_walk (fuel : nat) (m : heap) (D : gmap Z Z) (q chksum_len acc : Z) (swapped : bool) : option (Z * bool) :=
  match fuel with
  | O => None
  | S fuel' =>
      if (q =? NULL) || negb (0 <? chksum_len) then Some (acc, swapped) else
      len ← ld m q PB_LEN;
      let chklen := if chksum_len <? len then chksum_len else len in
      payload ← ld m q PB_PAYLOAD;
      let acc := u32 (acc + lwip_standard_chksum D payload chklen) in
      let chksum_len := u16 (chksum_len - chklen) in
      let acc := u32 (FOLD_U32T acc) in
      let '(swapped, acc) := if negb (len mod 2 =? 0) then (negb swapped, SWAP_BYTES_IN_WORD acc) else (swapped, acc) in
      n ← ld m q PB_NEXT;
      partial_sum_walk fuel' m D n chksum_len acc swapped
  end.
Definition inet_cksum_pseudo_partial_base (m : heap) (D : gmap Z Z) (p proto proto_len chksum_len acc : Z) : option Z :=
  '(acc, swapped) ← partial_sum_walk (walk_fuel m) m D p chksum_len acc false;
  let acc := if swapped : bool then SWAP_BYTES_IN_WORD acc else acc in
  let acc := u32 (acc + hton16 proto) in
  let acc := u32 (acc + hton16 proto_len) in
  let acc := u32 (FOLD_U32T acc) in
  let acc := u32 (FOLD_U32T acc) in
  Some (u16 (Z.lnot (Z.land acc 0xffff))).
Definition inet_chksum_pseudo_partial (m : heap) (D : gmap Z Z) (p proto proto_len chksum_len src dest : Z) : option Z :=
  let acc := Z.land src 0xffff in
  let acc := u32 (acc + Z.land (Z.shiftr src 16) 0xffff) in
  let acc := u32 (acc + Z.land dest 0xffff) in
  let acc := u32 (acc + Z.land (Z.shiftr dest 16) 0xffff) in
  let acc := u32 (FOLD_U32T acc) in
  let acc := u32 (FOLD_U32T acc) in
  inet_cksum_pseudo_partial_base m D p proto proto_len chksum_len acc.

(** ** One's complement sums and byte order *)

Lemma ones_eq_trans a b c : ones_eq a b → ones_eq b c → ones_eq a c.
Proof.
  intros (? & ? & H1 & [k Hk]) (? & ? & H2 & [j Hj]). split_and!; [lia..| |exists (k + j); lia]. by rewrite H1, H2.
Qed.
Lemma ones_eq_sym a b : ones_eq a b → ones_eq b a.
Proof. intros (? & ? & H & [k Hk]). split_and!; [lia..|done|exists (- k); lia]. Qed.
Lemma ones_eq_256 a b : ones_eq a b → ones_eq (256 * a) (256 * b).
Proof. intros (? & ? & H & [k Hk]). split_and!; [lia..|exists (256 * k); lia]. Qed.
Lemma ones_eq_256_256 a b : ones_eq a (256 * b) → ones_eq (256 * a) b.
Proof.
  intros H. eapply ones_eq_trans; [by apply ones_eq_256|]. destruct H as (_ & Hb & _). replace (256 * (256 * b)) with (65536 * b) by lia.
  apply ones_eq_shift, ones_eq_self. lia.
Qed.

Lemma swap_range v : 0 ≤ SWAP_BYTES_IN_WORD v ≤ 65535.
Proof. unfold SWAP_BYTES_IN_WORD, hton16. pose proof (u16_range v). pose proof (bswap16_invol (u16 v)) as [? _]; lia. Qed.
(** Swapping the bytes of a word multiplies it by 256. *)
Lemma swap_ones v : 0 ≤ v ≤ 65535 → ones_eq (SWAP_BYTES_IN_WORD v) (256 * v).
Proof.
  intros Hv. unfold SWAP_BYTES_IN_WORD, hton16. rewrite u16_small, bswap16_sum by lia. pose proof (Z.div_mod v 256 ltac:(lia)). pose proof (Z.mod_pos_bound v 256 ltac:(lia)).
  assert (0 ≤ v / 256) by (apply Z.div_pos; lia). split_and!; [lia..|exists (- (v / 256)); lia].
Qed.

Lemma fold_ones u s : ones_eq u s → 0 ≤ u < 2 ^ 32 → ones_eq (FOLD_U32T u) s ∧ 0 ≤ FOLD_U32T u ≤ 65535 + u / 65536 ∧ u32 (FOLD_U32T u) = FOLD_U32T u.
Proof.
  intros He Hu. apply (ones_eq_carry 16) in He; [|by left]. unfold FOLD_U32T. rewrite Z.shiftr_div_pow2 by lia. rewrite (Z.land_ones _ 16) by lia.
  pose proof (Z.mod_pos_bound u (2 ^ 16) ltac:(lia)) as Hm. assert (0 ≤ u / 2 ^ 16 < 65536) as Hd by (split; [apply Z.div_pos; lia|apply Z.div_lt_upper_bound; lia]).
  change (2 ^ 16) with 65536 in *. split_and!; [by rewrite Z.add_comm|lia|lia|apply u32_small; unfold U32_MOD; lia].
Qed.
(** Folding twice leaves a 16-bit sum. *)
Lemma fold_twice u s : ones_eq u s → 0 ≤ u < 2 ^ 32 → u32 (FOLD_U32T (u32 (FOLD_U32T u))) = ones_fold s.
Proof.
  intros He Hu. destruct (fold_ones u s He Hu) as (H1 & R1 & ->). assert (u / 65536 < 65536) by (apply Z.div_lt_upper_bound; lia).
  destruct (fold_ones _ s H1) as (H2 & R2 & ->); [lia|]. apply ones_fold_unique; [done|].
  set (v := FOLD_U32T u) in *. assert (v / 65536 ≤ 1) by (apply Z.lt_succ_r, Z.div_lt_upper_bound; lia).
  unfold FOLD_U32T in *. rewrite Z.shiftr_div_pow2 by lia. rewrite (Z.land_ones _ 16) by lia. change (2 ^ 16) with 65536.
  pose proof (Z.div_mod v 65536 ltac:(lia)). pose proof (Z.mod_pos_bound v 65536 ltac:(lia)). lia.
Qed.
(** One fold is enough for the sum of two 16-bit sums. *)
Lemma fold_once u s : ones_eq u s → 0 ≤ u ≤ 131070 → 0 ≤ u32 (FOLD_U32T (u32 u)) ≤ 65535 ∧ ones_eq (u32 (FOLD_U32T (u32 u))) s.
Proof.
  intros He Hu. rewrite (u32_small u) by (unfold U32_MOD; lia). destruct (fold_ones u s He ltac:(lia)) as (H1 & R1 & ->). split; [|done].
  unfold FOLD_U32T. rewrite Z.shiftr_div_pow2 by lia. rewrite (Z.land_ones _ 16) by lia. change (2 ^ 16) with 65536.
  pose proof (Z.div_mod u 65536 ltac:(lia)). pose proof (Z.mod_pos_bound u 65536 ltac:(lia)). assert (u / 65536 ≤ 1) by (apply Z.lt_succ_r, Z.div_lt_upper_bound; lia). lia.
Qed.

(** ** Sums of byte strings *)

Lemma word_sum_head x l : word_sum (x :: l) = x + word_sum (0 :: l).
Proof. destruct l as [|y l]; simpl; lia. Qed.
Lemma word_sum_shift l : bytes_wf l → ones_eq (256 * word_sum l) (word_sum (0 :: l)).
Proof.
  induction l as [l IH] using (induction_ltof1 _ length). unfold ltof in IH. destruct l as [|x [|y l]]; intros Hwf; [apply ones_eq_zero|..].
  - apply Forall_cons in Hwf as [Hx _]. replace (word_sum [0; x]) with (256 * word_sum [x]) by (cbn [word_sum]; lia). apply ones_eq_self. cbn [word_sum]. lia.
  - apply Forall_cons in Hwf as [Hx Hwf]. apply Forall_cons in Hwf as [Hy Hwf].
    change (word_sum (0 :: x :: y :: l)) with (0 + 256 * x + word_sum (y :: l)). rewrite (word_sum_head y l).
    change (word_sum (x :: y :: l)) with (x + 256 * y + word_sum l).
    replace (256 * (x + 256 * y + word_sum l)) with (256 * x + (65536 * y + 256 * word_sum l)) by lia. rewrite Z.add_0_l.
    apply ones_eq_add; [apply ones_eq_self; lia|]. apply ones_eq_add; [apply ones_eq_shift, ones_eq_self; lia|apply IH; [cbn; lia|done]].
Qed.
Lemma word_sum_odd_app l k : Nat.Odd (length l) → word_sum (l ++ k) = word_sum l + word_sum (0 :: k).
Proof.
  destruct l as [|x l] using rev_ind; [intros [n Hn]; cbn in Hn; lia|]. rewrite length_app. cbn [length]. intros [n Hn]. rewrite <- app_assoc. cbn [app].
  rewrite !word_sum_app by (exists n; lia). rewrite (word_sum_head x k). simpl. lia.
Qed.

Lemma ldb2_words D a : ldb 2 D a = word_sum (bytes_at D a 2).
Proof. cbn [ldb bytes_at word_sum]. lia. Qed.

(** The loop over the words, with a sum of [k] words so far. *)
Lemma sum_words_ok fuel D ps len sum s :
  0 ≤ len → (Z.to_nat len ≤ fuel)%nat → 0 ≤ sum → sum = s → sum + 65535 * (len / 2) < 2 ^ 32 →
  let n := Z.to_nat (2 * (len / 2)) in
  sum_words fuel D ps len sum = (ps + 2 * (len / 2), len mod 2, s + word_sum (bytes_at D ps n)).
Proof.
  revert ps len sum s. induction fuel as [|fuel IH]; intros ps len sum s Hlen Hf Hs <- Hov n.
  { assert (len = 0) as -> by lia. cbn. by rewrite !Z.add_0_r. }
  cbn [sum_words]. destruct (Z.ltb_spec 1 len) as [H1|H1].
  - assert (Ed : len / 2 = 1 + (len - 2) / 2) by (replace len with ((len - 2) + 1 * 2) at 1 by lia; rewrite Z.div_add by lia; lia).
    assert (0 ≤ (len - 2) / 2) by (apply Z.div_pos; lia).
    pose proof (ldb_range 2 D ps) as Hr. change (256 ^ Z.of_nat 2) with 65536 in Hr.
    rewrite u32_small by (unfold U32_MOD; lia). rewrite (IH (ps + 2) (len - 2) _ (sum + ldb 2 D ps)) by lia.
    f_equal; [f_equal; [lia|]|].
    + rewrite (Z.mod_eq len), (Z.mod_eq (len - 2)) by lia. lia.
    + unfold n. rewrite Ed. replace (Z.to_nat (2 * (1 + (len - 2) / 2))) with (2 + Z.to_nat (2 * ((len - 2) / 2)))%nat by lia.
      rewrite bytes_at_app, word_sum_app, <- ldb2_words by (exists 1%nat; by rewrite length_bytes_at). change (Z.of_nat 2) with 2. lia.
  - assert (len / 2 = 0) as E0 by (apply Z.div_small; lia). unfold n. rewrite E0. cbn [Z.mul Z.to_nat bytes_at word_sum].
    by rewrite !Z.add_0_r, Z.mod_small by lia.
Qed.

(** The sum of an aligned buffer: the words and the byte left over. *)
Lemma sum_aligned D pb len :
  0 ≤ len → 65535 * (len / 2) < 2 ^ 32 →
  let '(ps, rest, sum) := sum_words (Z.to_nat len) D pb len 0 in
  sum + (if 0 <? rest then rdb D ps else 0) = word_sum (bytes_at D pb (Z.to_nat len)) ∧ 0 ≤ sum ≤ 65535 * (len / 2).
Proof.
  intros Hlen Hov. rewrite (sum_words_ok (Z.to_nat len) D pb len 0 0) by lia. pose proof (Z.div_mod len 2 ltac:(lia)) as Ed. pose proof (Z.mod_pos_bound len 2 ltac:(lia)) as Hm.
  assert (0 ≤ len / 2) by (apply Z.div_pos; lia). rewrite Z.add_0_l. split.
  - replace (Z.to_nat len) with (Z.to_nat (2 * (len / 2)) + Z.to_nat (len mod 2))%nat by lia. rewrite bytes_at_app, word_sum_app.
    2: { rewrite length_bytes_at. exists (Z.to_nat (len / 2)). lia. }
    rewrite Z2Nat.id by lia. f_equal. assert (len mod 2 = 0 ∨ len mod 2 = 1) as [-> | ->] by lia; done.
  - remember (len / 2) as h eqn:Eh. clear Eh Ed. replace (Z.to_nat (2 * h)) with (2 * Z.to_nat h)%nat by lia. rewrite <- (Z2Nat.id h) at 3 by lia.
    generalize (Z.to_nat h) as k. clear. intros k. revert pb. induction k as [|k IH]; intros pb; [done|].
    replace (2 * S k)%nat with (2 + 2 * k)%nat by lia. rewrite bytes_at_app, word_sum_app, <- ldb2_words by (exists 1%nat; by rewrite length_bytes_at).
    pose proof (ldb_range 2 D pb) as Hr. change (256 ^ Z.of_nat 2) with 65536 in Hr. specialize (IH (pb + Z.of_nat 2)). lia.
Qed.

Lemma bytes_at_wf D a n : bytes_wf (bytes_at D a n).
Proof. apply bytes_at_bytes. Qed.

Lemma ones_fold_eq s : 0 ≤ s → ones_eq (ones_fold s) s.
Proof.
  intros Hs. unfold ones_fold. destruct (Z.eqb_spec s 0) as [->|H0]; [apply ones_eq_zero|]. pose proof (Z.mod_pos_bound (s - 1) 65535 ltac:(lia)).
  pose proof (Z.div_mod (s - 1) 65535 ltac:(lia)). split_and!; [lia..|exists (- ((s - 1) / 65535)); lia].
Qed.
(** The swap undoes the shift by one byte of an odd alignment. *)
Lemma swap_unfold s : 0 ≤ s → u16 (SWAP_BYTES_IN_WORD (ones_fold (256 * s))) = ones_fold s.
Proof.
  intros Hs. pose proof (ones_fold_range (256 * s) ltac:(lia)) as Hr. rewrite u16_small by (pose proof (swap_range (ones_fold (256 * s))); lia).
  apply ones_fold_unique; [|apply swap_range]. eapply ones_eq_trans; [by apply swap_ones|]. apply ones_eq_256_256, ones_fold_eq. lia.
Qed.

(** The sum of [lwip_standard_chksum], at any alignment. *)
Lemma lwip_standard_chksum_ok D dataptr len :
  0 ≤ len ≤ 0x20000 → lwip_standard_chksum D dataptr len = ones_fold (word_sum (bytes_at D dataptr (Z.to_nat len))).
Proof.
  intros Hlen. unfold lwip_standard_chksum. set (odd := negb (Z.land dataptr 1 =? 0)).
  destruct (odd && (0 <? len)) eqn:Eo.
  - apply andb_true_iff in Eo as [Eo Hl]. apply Z.ltb_lt in Hl. rewrite Eo.
    assert (Hd : (len - 1) / 2 ≤ 65535) by (apply Z.lt_succ_r, Z.div_lt_upper_bound; lia).
    pose proof (sum_aligned D (dataptr + 1) (len - 1) ltac:(lia) ltac:(lia)) as Hsum. destruct (sum_words _ D (dataptr + 1) (len - 1) 0) as [[ps rest] sum].
    destruct Hsum as [Hsum Hr]. set (t0 := if 0 <? rest then rdb D ps else 0) in *. pose proof (rdb_range D dataptr) as Hb.
    assert (Ht0 : 0 ≤ t0 < 256) by (unfold t0; case_match; [apply rdb_range|lia]).
    rewrite (u32_small (sum + _)) by (unfold U32_MOD; lia). set (bs := bytes_at D dataptr (Z.to_nat len)).
    assert (Eb : sum + (t0 + 256 * rdb D dataptr) = word_sum (0 :: bs)).
    { unfold bs. replace (Z.to_nat len) with (S (Z.to_nat (len - 1))) by lia. cbn [bytes_at].
      change (word_sum (0 :: rdb D dataptr :: ?k)) with (0 + 256 * rdb D dataptr + word_sum k). lia. }
    rewrite Eb. pose proof (word_sum_shift bs (bytes_at_wf _ _ _)) as Hsh.
    rewrite (fold_twice _ (256 * word_sum bs)); [|by apply ones_eq_sym|rewrite <- Eb; lia].
    apply swap_unfold, word_sum_nonneg, bytes_at_wf.
  - assert (Hsum : 0 ≤ len / 2 ≤ 65536) by (split; [apply Z.div_pos; lia|apply Z.div_le_upper_bound; lia]).
    pose proof (sum_aligned D dataptr len ltac:(lia) ltac:(lia)) as Hs. destruct (sum_words _ D dataptr len 0) as [[ps rest] sum] eqn:Ew.
    destruct Hs as [Hs Hr]. rewrite Z.mul_0_r, Z.add_0_r, Hs. pose proof (word_sum_nonneg _ (bytes_at_wf D dataptr (Z.to_nat len))) as Hn.
    assert (Hb : 0 ≤ (if 0 <? rest then rdb D ps else 0) < 256) by (case_match; [apply rdb_range|lia]).
    rewrite (u32_small (word_sum _)) by (unfold U32_MOD; lia). rewrite (fold_twice _ (word_sum (bytes_at D dataptr (Z.to_nat len)))) by (lia || by apply ones_eq_self).
    apply andb_false_iff in Eo as [->|Hl]; [apply u16_small; pose proof (ones_fold_range _ Hn); lia|].
    apply Z.ltb_ge in Hl. assert (len = 0) as -> by lia. by destruct odd.
Qed.

(** ** Sums of packets *)

(** [acc] is the sum [T], with its bytes swapped when [swapped]. *)
Record sum_state (acc : Z) (swapped : bool) (T : Z) : Prop := {
  ss_range : 0 ≤ acc ≤ 65535;
  ss_sum : ones_eq acc (if swapped then 256 * T else T);
}.

Lemma sum_state_swap acc sw T : sum_state acc sw T → sum_state (SWAP_BYTES_IN_WORD acc) (negb sw) T.
Proof.
  intros [Hr Hs]. split; [apply swap_range|]. eapply ones_eq_trans; [by apply swap_ones|]. destruct sw; cbn [negb]; [by apply ones_eq_256_256|by apply ones_eq_256].
Qed.
Lemma sum_state_final acc sw T : sum_state acc sw T → sum_state (if sw then SWAP_BYTES_IN_WORD acc else acc) false T.
Proof. intros H. destruct sw; [exact (sum_state_swap acc true T H)|done]. Qed.

(** Adding the sum of the next bytes [k] behind the bytes [l]. *)
Lemma sum_state_add acc sw s0 l k :
  sum_state acc sw (s0 + word_sum l) → sw = Nat.odd (length l) → bytes_wf k →
  sum_state (u32 (FOLD_U32T (u32 (acc + ones_fold (word_sum k))))) sw (s0 + word_sum (l ++ k)).
Proof.
  intros [Hr Hs] Esw Hk. pose proof (word_sum_nonneg k Hk) as Hkn. pose proof (ones_fold_range _ Hkn) as Hkr. pose proof (ones_fold_eq _ Hkn) as Hke.
  cut (ones_eq (acc + ones_fold (word_sum k)) (if sw then 256 * (s0 + word_sum (l ++ k)) else s0 + word_sum (l ++ k))).
  { intros He. destruct (fold_once _ _ He) as [H1 H2]; [lia|]. by split. }
  destruct sw.
  - rewrite word_sum_odd_app by (by apply Nat.odd_spec). rewrite Z.add_assoc, Z.mul_add_distr_l. apply ones_eq_add; [done|].
    eapply ones_eq_trans; [exact Hke|]. apply ones_eq_sym, ones_eq_256_256, ones_eq_sym, word_sum_shift, Hk.
  - rewrite word_sum_app by (apply Nat.even_spec; rewrite <- Nat.negb_odd, <- Esw; done). rewrite Z.add_assoc. by apply ones_eq_add.
Qed.

Lemma odd_length_app (l : bytes) (n : Z) (k : bytes) :
  0 ≤ n → length k = Z.to_nat n → Nat.odd (length (l ++ k)) = (if negb (n mod 2 =? 0) then negb (Nat.odd (length l)) else Nat.odd (length l)).
Proof.
  intros Hn Hk. rewrite length_app, Nat.odd_add, Hk. replace (Nat.odd (Z.to_nat n)) with (negb (n mod 2 =? 0)); [by destruct (negb _), (Nat.odd (length l))|].
  rewrite <- (Z2Nat.id n) at 1 by lia. generalize (Z.to_nat n) as j. intros j.
  destruct (Nat.Even_or_Odd j) as [[h ->]|[h ->]]; rewrite ?Nat.odd_add, Nat.odd_mul.
  - rewrite Nat2Z.inj_mul, Z.mul_comm, Z_mod_mult. done.
  - rewrite Nat2Z.inj_add, Nat2Z.inj_mul, Z.add_comm, Z.mul_comm, Z_mod_plus_full. done.
Qed.

(** One pbuf: its sum is added, and the bytes are swapped if its length is odd. *)
Lemma sum_state_pbuf D acc sw s0 l payload len :
  sum_state acc sw (s0 + word_sum l) → sw = Nat.odd (length l) → 0 ≤ len < 65536 →
  let a := u32 (FOLD_U32T (u32 (acc + lwip_standard_chksum D payload len))) in
  let l' := l ++ bytes_at D payload (Z.to_nat len) in
  let '(sw', acc') := if negb (len mod 2 =? 0) then (negb sw, SWAP_BYTES_IN_WORD a) else (sw, a) in
  sum_state acc' sw' (s0 + word_sum l') ∧ sw' = Nat.odd (length l').
Proof.
  intros Hs Esw Hlen a l'. pose proof (sum_state_add acc sw s0 l (bytes_at D payload (Z.to_nat len)) Hs Esw (bytes_at_wf _ _ _)) as Ha.
  rewrite <- lwip_standard_chksum_ok in Ha by lia. fold a in Ha.
  pose proof (odd_length_app l len (bytes_at D payload (Z.to_nat len)) ltac:(lia) (length_bytes_at _ _ _)) as Eo. fold l' in Eo, Ha. rewrite <- Esw in Eo.
  destruct (negb (len mod 2 =? 0)); (split; [|done]); [by apply sum_state_swap|done].
Qed.

Lemma contents_cons m D x l : contents m D (x :: l) = bytes_at D (rd m x PB_PAYLOAD) (Z.to_nat (rd m x PB_LEN)) ++ contents m D l.
Proof. unfold contents. rewrite addrs_cons, fmap_app. unfold area. by rewrite <- bytes_at_span. Qed.

Lemma chksum_walk_ok fuel m D q l acc sw s0 bs :
  chain m PB_NEXT q l → lens_ok m l → (length l < fuel)%nat → sum_state acc sw (s0 + word_sum bs) → sw = Nat.odd (length bs) →
  ∃ acc' sw', chksum_walk fuel m D q acc sw = Some (acc', sw') ∧ sum_state acc' sw' (s0 + word_sum (bs ++ contents m D l)).
Proof.
  revert q l acc sw bs. induction fuel as [|fuel IH]; intros q l acc sw bs Hc Hl Hf Hs Esw; [lia|]. cbn [chksum_walk]. destruct l as [|x l].
  { rewrite Hc. exists acc, sw. split; [done|]. unfold contents. cbn [addrs mbind list_bind fmap list_fmap]. by rewrite app_nil_r. }
  destruct Hc as (-> & Hx & Hc). rewrite (proj2 (Z.eqb_neq _ _) Hx), (ld_some m x PB_PAYLOAD), (ld_some m x PB_LEN) by done. cbn [mbind option_bind].
  apply Forall_cons in Hl as [Hlx Hl]. pose proof (sum_state_pbuf D acc sw s0 bs (rd m x PB_PAYLOAD) (rd m x PB_LEN) Hs Esw Hlx) as Hp.
  cbv zeta in Hp. destruct (if negb (rd m x PB_LEN mod 2 =? 0) then _ else _) as [sw' acc']. destruct Hp as [Hs' Esw'].
  rewrite (ld_some m x PB_NEXT) by done. cbn [mbind option_bind]. rewrite contents_cons, app_assoc. apply IH; try done. cbn in Hf. lia.
Qed.

Lemma partial_sum_walk_ok fuel m D q l n acc sw s0 bs :
  chain m PB_NEXT q l → lens_ok m l → (length l < fuel)%nat → 0 ≤ n < 65536 → sum_state acc sw (s0 + word_sum bs) → sw = Nat.odd (length bs) →
  ∃ acc' sw', partial_sum_walk fuel m D q n acc sw = Some (acc', sw') ∧ sum_state acc' sw' (s0 + word_sum (bs ++ take (Z.to_nat n) (contents m D l))).
Proof.
  revert q l n acc sw bs. induction fuel as [|fuel IH]; intros q l n acc sw bs Hc Hl Hf Hn Hs Esw; [lia|]. cbn [partial_sum_walk]. destruct l as [|x l].
  { rewrite Hc. exists acc, sw. split; [done|]. unfold contents. cbn [addrs mbind list_bind fmap list_fmap]. by rewrite take_nil, app_nil_r. }
  destruct Hc as (-> & Hx & Hc). rewrite (proj2 (Z.eqb_neq _ _) Hx). cbn [orb]. destruct (Z.ltb_spec 0 n) as [Hn0|Hn0]; cbn [negb].
  2: { exists acc, sw. split; [done|]. assert (n = 0) as -> by lia. cbn [Z.to_nat take]. by rewrite app_nil_r. }
  rewrite (ld_some m x PB_LEN), (ld_some m x PB_PAYLOAD) by done. cbn [mbind option_bind]. apply Forall_cons in Hl as [Hlx Hl]. cbn [length] in Hf.
  rewrite (ld_some m x PB_NEXT) by done. destruct (Z.ltb_spec n (rd m x PB_LEN)) as [Hlt|Hge].
  - rewrite Z.sub_diag, contents_cons, take_app_le, bytes_at_take by (rewrite length_bytes_at; lia). rewrite Nat.min_l by lia.
    pose proof (sum_state_add acc sw s0 bs (bytes_at D (rd m x PB_PAYLOAD) (Z.to_nat n)) Hs Esw (bytes_at_wf _ _ _)) as Ha. rewrite <- lwip_standard_chksum_ok in Ha by lia.
    set (a := u32 (FOLD_U32T _)) in *. destruct fuel as [|fuel]; [lia|].
    assert (Hstop : ∀ acc' sw', partial_sum_walk (S fuel) m D (rd m x PB_NEXT) (u16 0) acc' sw' = Some (acc', sw')) by (intros; cbn [partial_sum_walk]; by rewrite orb_true_r).
    destruct (negb (rd m x PB_LEN mod 2 =? 0)); cbn [mbind option_bind]; rewrite Hstop; eexists _, _; (split; [done|]); [by apply sum_state_swap|done].
  - rewrite contents_cons, take_app, bytes_at_take, Nat.min_r, length_bytes_at by lia. rewrite u16_small by lia.
    pose proof (sum_state_pbuf D acc sw s0 bs (rd m x PB_PAYLOAD) (rd m x PB_LEN) Hs Esw Hlx) as Hp.
    cbv zeta in Hp. destruct (if negb (rd m x PB_LEN mod 2 =? 0) then _ else _) as [sw' acc']. destruct Hp as [Hs' Esw'].
    cbn [mbind option_bind]. rewrite app_assoc. replace (Z.to_nat n - Z.to_nat (rd m x PB_LEN))%nat with (Z.to_nat (n - rd m x PB_LEN)) by lia.
    apply IH; try done; lia.
Qed.

Lemma lnot16 v : 0 ≤ v ≤ 65535 → u16 (Z.lnot v) = 65535 - v.
Proof. intros Hv. unfold u16, U16_MOD, Z.lnot. rewrite <- (Z.mod_unique_pos (Z.pred (- v)) 65536 (-1) (65535 - v)); lia. Qed.
Lemma land16 v : 0 ≤ v ≤ 65535 → Z.land v 0xffff = v.
Proof. intros Hv. rewrite (Z.land_ones _ 16) by lia. apply Z.mod_small. lia. Qed.

Lemma contents_wf m D l : bytes_wf (contents m D l).
Proof. apply Forall_fmap, Forall_true. intros x. apply rdb_range. Qed.

(** C19: lwIP's checksums are those of RFC 1071.  The sum of a buffer at an even or odd address, of
    up to 128K, is the 16-bit one's complement sum of its words; [inet_chksum] is its complement;
    and [inet_chksum_pbuf], which puts the sum of a packet together from those of its pbufs and
    swaps bytes behind pbufs of odd length, is the checksum of the packet's bytes. *)
Theorem lwip_chksum_rfc1071 m D :
  (∀ a len, 0 ≤ len ≤ 0x20000 → lwip_standard_chksum D a len = ones_fold (word_sum (bytes_at D a (Z.to_nat len)))) ∧
  (∀ a len, 0 ≤ len < 65536 → inet_chksum D a len = 65535 - ones_fold (word_sum (bytes_at D a (Z.to_nat len)))) ∧
  (∀ p l, chain m PB_NEXT p l → lens_ok m l →
    inet_chksum_pbuf m D p = Some (65535 - ones_fold (word_sum (contents m D l)))).
Proof.
  split_and!.
  - apply lwip_standard_chksum_ok.
  - intros a len Hlen. unfold inet_chksum. rewrite lwip_standard_chksum_ok by lia. apply lnot16, ones_fold_range, word_sum_nonneg, bytes_at_wf.
  - intros p l Hc Hl. pose proof (chain_walk_fuel _ _ _ _ Hc) as Hf. unfold inet_chksum_pbuf.
    destruct (chksum_walk_ok (walk_fuel m) m D p l 0 false 0 [] Hc Hl Hf) as (acc & sw & E & Hs); [split; [lia|apply ones_eq_zero]|done|].
    rewrite E. cbn [mbind option_bind]. apply sum_state_final in Hs as [Hr Hs]. rewrite land16, lnot16 by done. rewrite (ones_fold_unique _ _ Hs) by lia. done.
Qed.

Lemma lwip_chksum_rfc1071_witness :
  inet_chksum_pbuf ex_find_heap ex_find_data 1000 = Some (65535 - ones_fold (word_sum [97; 97; 98])).
Proof.
  destruct (lwip_chksum_rfc1071 ex_find_heap ex_find_data) as (_ & _ & Hp). apply (Hp 1000 [1000; 2000]).
  - split_and!; done.
  - apply Forall_cons. split; [done|]. apply Forall_cons. split; [done|]. by apply Forall_nil.
Defined.

(** ** Pseudo headers *)

(** The bytes of a word in memory, and of the pseudo header of RFC 793. *)
Definition le4 (v : Z) : bytes := [v mod 256; v / 256 mod 256; v / 65536 mod 256; v / 16777216 mod 256].
Definition pseudo_header (src dest proto len : Z) : bytes := le4 src ++ le4 dest ++ [0; proto; len / 256; len mod 256].

Lemma word_sum_le4 v : 0 ≤ v < 2 ^ 32 → word_sum (le4 v) = v mod 65536 + v / 65536.
Proof.
  intros Hv. cbn [le4 word_sum]. rewrite (Z.mod_small (v / 16777216)) by (split; [apply Z.div_pos; lia|apply Z.div_lt_upper_bound; lia]).
  replace (v / 16777216) with (v / 65536 / 256) by (rewrite Z.div_div by lia; done).
  pose proof (Z.rem_mul_r v 256 256 ltac:(lia) ltac:(lia)) as E. change (256 * 256) with 65536 in E. rewrite E. pose proof (Z.div_mod (v / 65536) 256 ltac:(lia)). lia.
Qed.
Lemma word_sum_pseudo src dest proto len :
  0 ≤ src < 2 ^ 32 → 0 ≤ dest < 2 ^ 32 →
  word_sum (pseudo_header src dest proto len) = (src mod 65536 + src / 65536) + (dest mod 65536 + dest / 65536) + 256 * proto + (len / 256 + 256 * (len mod 256)).
Proof.
  intros Hs Hd. unfold pseudo_header. rewrite !word_sum_app by (by exists 2%nat). rewrite !word_sum_le4 by done. cbn [word_sum]. lia.
Qed.
Lemma ones_eq_halves v : 0 ≤ v → ones_eq v (v mod 65536 + v / 65536).
Proof. intros Hv. apply ones_eq_sym. apply (ones_eq_carry 16); [by apply ones_eq_self|by left]. Qed.

(** A value in network byte order is 256 times the value. *)
Lemma hton16_ones v : 0 ≤ v < 65536 → hton16 v = v / 256 + 256 * (v mod 256).
Proof. intros Hv. unfold hton16. rewrite bswap16_sum by lia. lia. Qed.
Lemma hton32_ones proto tot :
  0 ≤ proto < 256 → 0 ≤ tot < 65536 → 0 ≤ hton32 (proto + tot) < 2 ^ 32 ∧ ones_eq (hton32 (proto + tot)) (256 * proto + (tot / 256 + 256 * (tot mod 256))).
Proof.
  intros Hp Ht. set (x := proto + tot). pose proof (bswap32_invol x ltac:(lia)) as [Hr _]. split; [exact Hr|]. unfold hton32 in *. rewrite bswap32_sum in * by lia.
  replace (x / 2 ^ 24) with 0 by (symmetry; apply Z.div_small; lia). pose proof (Z.div_mod tot 256 ltac:(lia)). pose proof (Z.mod_pos_bound tot 256 ltac:(lia)).
  assert (Hx16 : 0 ≤ x / 2 ^ 16 < 256) by (split; [apply Z.div_pos; lia|apply Z.div_lt_upper_bound; lia]). rewrite (Z.mod_small (x / 2 ^ 16)) by lia.
  pose proof (Z.div_mod x 65536 ltac:(lia)) as E1. pose proof (Z.rem_mul_r x 256 256 ltac:(lia) ltac:(lia)) as E2. change (256 * 256) with 65536 in E2.
  change (2 ^ 16) with 65536 in *. change (2 ^ 8) with 256 in *. change (2 ^ 24) with 16777216 in *.
  pose proof (Z.mod_pos_bound x 256 ltac:(lia)). pose proof (Z.mod_pos_bound (x / 256) 256 ltac:(lia)). assert (0 ≤ tot / 256) by (apply Z.div_pos; lia).
  set (b0 := x mod 256) in *. set (b1 := (x / 256) mod 256) in *. set (b2 := x / 65536) in *. set (th := tot / 256) in *. set (tl := tot mod 256) in *.
  assert (E : x = b0 + 256 * b1 + 65536 * b2) by lia. unfold x in E. split_and!; [lia|lia|lia|].
  exists (256 * b0 - 256 * b2 + th). lia.
Qed.

Lemma in_pseudo_ok a b c S : 0 ≤ a < 2 ^ 32 → 0 ≤ b < 2 ^ 32 → 0 ≤ c < 2 ^ 32 → ones_eq (a + b + c) S → in_pseudo a b c = ones_fold S.
Proof.
  intros Ha Hb Hc HS. unfold in_pseudo.
  destruct (adc_step 32 a b false (a + b)) as [C1 O1]; [by right; left|done|done|cbn [Z.b2z]; rewrite Z.add_0_r; apply ones_eq_self; lia|].
  destruct (adc 32 a b false) as [r1 f1]. cbn [fst snd] in *.
  destruct (adc_step 32 r1 c f1 (a + b + c)) as [C2 O2]; [by right; left|done|done|apply ones_eq_add; [done|apply ones_eq_self; lia]|].
  destruct (adc 32 r1 c f1) as [r2 f2]. cbn [fst snd] in *.
  destruct (adc_carry 32 r2 f2 (a + b + c)) as [C3 O3]; [done..|]. destruct (adc 32 r2 0 f2) as [r3 f3]. cbn [fst snd] in *.
  pose proof (fold_ones r3 S (ones_eq_trans _ _ _ O3 HS) C3) as (O4 & R4 & _). unfold FOLD_U32T in *. rewrite Z.add_comm in O4, R4.
  assert (r3 / 65536 < 65536) by (apply Z.div_lt_upper_bound; lia). set (v := Z.land r3 65535 + Z.shiftr r3 16) in *.
  destruct (Z.ltb_spec 65535 v) as [Hv|Hv]; rewrite u16_small by lia; (apply ones_fold_unique; [|lia]); [|done].
  eapply ones_eq_trans, O4. split_and!; [lia..|]. exists (-1). lia.
Qed.

Lemma addr_halves a : 0 ≤ a < 2 ^ 32 →
  Z.land a 0xffff = a mod 65536 ∧ Z.land (Z.shiftr a 16) 0xffff = a / 65536 ∧ 0 ≤ a mod 65536 < 65536 ∧ 0 ≤ a / 65536 < 65536.
Proof.
  intros Ha. assert (0 ≤ a / 65536 < 65536) by (split; [apply Z.div_pos; lia|apply Z.div_lt_upper_bound; lia]). rewrite !(Z.land_ones _ 16), Z.shiftr_div_pow2 by lia.
  change (2 ^ 16) with 65536. rewrite (Z.mod_small (a / 65536)) by lia. pose proof (Z.mod_pos_bound a 65536 ltac:(lia)). split_and!; done || lia.
Qed.

(** The sum of the two addresses that starts the partial checksum. *)
Lemma pseudo_addrs src dest :
  0 ≤ src < 2 ^ 32 → 0 ≤ dest < 2 ^ 32 →
  let acc := u32 (u32 (u32 (Z.land src 0xffff + Z.land (Z.shiftr src 16) 0xffff) + Z.land dest 0xffff) + Z.land (Z.shiftr dest 16) 0xffff) in
  let T := (src mod 65536 + src / 65536) + (dest mod 65536 + dest / 65536) in
  sum_state (u32 (FOLD_U32T (u32 (FOLD_U32T acc)))) false T.
Proof.
  intros Hs Hd. destruct (addr_halves src Hs) as (-> & -> & ? & ?), (addr_halves dest Hd) as (-> & -> & ? & ?).
  set (a := src mod 65536) in *. set (b := src / 65536) in *. set (c := dest mod 65536) in *. set (d := dest / 65536) in *.
  rewrite (u32_small (a + b)), (u32_small (a + b + c)), (u32_small (a + b + c + d)) by (unfold U32_MOD; lia). intros acc T.
  assert (Ho : ones_eq acc T) by (unfold acc, T; rewrite !Z.add_assoc; apply ones_eq_self; lia).
  rewrite (fold_twice acc T Ho) by lia. assert (0 ≤ T) by lia. split; [by apply ones_fold_range|by apply ones_fold_eq].
Qed.

(** The end of the partial checksum: protocol and length are added. *)
Lemma pseudo_finish F T proto proto_len :
  sum_state F false T → 0 ≤ proto < 256 → 0 ≤ proto_len < 65536 → 
  u16 (Z.lnot (Z.land (u32 (FOLD_U32T (u32 (FOLD_U32T (u32 (u32 (F + hton16 proto) + hton16 proto_len)))))) 0xffff)) =
  65535 - ones_fold (T + 256 * proto + (proto_len / 256 + 256 * (proto_len mod 256))).
Proof.
  intros [Hr Hs] Hp Hl. rewrite !hton16_ones, (Z.div_small proto), (Z.mod_small proto) by lia. rewrite Z.add_0_l.
  pose proof (Z.mod_pos_bound proto_len 256 ltac:(lia)). assert (0 ≤ proto_len / 256 < 256) by (split; [apply Z.div_pos; lia|apply Z.div_lt_upper_bound; lia]).
  rewrite (u32_small (F + _)), (u32_small (F + _ + _)) by (unfold U32_MOD; lia).
  rewrite (fold_twice _ (T + 256 * proto + (proto_len / 256 + 256 * (proto_len mod 256)))); [|repeat apply ones_eq_add; [done|apply ones_eq_self; lia..]|lia].
  destruct Hs as (_ & HT & _). assert (0 ≤ T) by done. rewrite land16, lnot16 by (apply ones_fold_range; lia). done.
Qed.

(** C34: The checksums with a pseudo header.  [inet_chksum_pseudo], for a card that adds the rest of
    the sum, is the one's complement sum of the pseudo header with the length of the packet;
    [inet_chksum_pseudo_partial] is the checksum of the pseudo header followed by the first
    [chksum_len] bytes of the packet, however they are spread over pbufs. *)
Theorem pseudo_chksum_rfc1071 m D p l proto proto_len src dest :
  chain m PB_NEXT p l → lens_ok m l → p ≠ NULL → 0 ≤ rd m p PB_TOT_LEN < 65536 →
  0 ≤ proto < 256 → 0 ≤ proto_len < 65536 → 0 ≤ src < 2 ^ 32 → 0 ≤ dest < 2 ^ 32 →
  inet_chksum_pseudo m p proto proto_len src dest = Some (ones_fold (word_sum (pseudo_header src dest proto (rd m p PB_TOT_LEN)))) ∧
  (∀ chksum_len, 0 ≤ chksum_len < 65536 →
    inet_chksum_pseudo_partial m D p proto proto_len chksum_len src dest =
      Some (65535 - ones_fold (word_sum (pseudo_header src dest proto proto_len ++ take (Z.to_nat chksum_len) (contents m D l))))).
Proof.
  intros Hc Hl Hp Htot Hpr Hpl Hs Hd. pose proof (chain_walk_fuel _ _ _ _ Hc) as Hf. split.
  - unfold inet_chksum_pseudo. rewrite ld_some by done. cbn [mbind option_bind]. destruct (hton32_ones proto (rd m p PB_TOT_LEN) Hpr Htot) as [Hr Ho]. f_equal.
    apply in_pseudo_ok; [done..|]. rewrite word_sum_pseudo by done. rewrite <- (Z.add_assoc (_ + _) (256 * proto)).
    apply ones_eq_add; [apply ones_eq_add; apply ones_eq_halves; lia|done].
  - intros n Hn. unfold inet_chksum_pseudo_partial, inet_cksum_pseudo_partial_base. pose proof (pseudo_addrs src dest Hs Hd) as Ha. cbv zeta in Ha.
    set (T := _ + (dest mod 65536 + dest / 65536)) in Ha. set (a0 := u32 (FOLD_U32T (u32 (FOLD_U32T _)))) in *.
    destruct (partial_sum_walk_ok (walk_fuel m) m D p l n a0 false T [] Hc Hl Hf Hn) as (acc & sw & E & Hss); [by cbn [word_sum]; rewrite Z.add_0_r|done|].
    rewrite E. cbn [mbind option_bind]. apply sum_state_final in Hss. rewrite (pseudo_finish _ _ _ _ Hss Hpr Hpl). cbn [app].
    rewrite word_sum_app by (by exists 6%nat). rewrite word_sum_pseudo by done. fold T. do 3 f_equal. lia.
Qed.

Lemma pseudo_chksum_rfc1071_witness :
  inet_chksum_pseudo_partial ex_find_heap ex_find_data 1000 17 3 2 0x0100a8c0 0x0200a8c0 =
    Some (65535 - ones_fold (word_sum ([192; 168; 0; 1; 192; 168; 0; 2; 0; 17; 0; 3] ++ [97; 97]))).
Proof.
  refine (proj2 (pseudo_chksum_rfc1071 ex_find_heap ex_find_data 1000 [1000; 2000] 17 3 0x0100a8c0 0x0200a8c0 _ _ _ _ _ _ _ _) 2 _); try done.
  - apply Forall_cons. split; [done|]. apply Forall_cons. split; [done|]. by apply Forall_nil.
Defined.
