(* ===== verification/NetInput.v ===== *)
(** * Packet input (dp/net/ip.c, dp/net/udp.c)

    [eth_input] takes a received frame through [ip_input] and [udp_input].  It
    either accepts the frame and returns the number of the configured port the
    datagram is for, or frees the buffer and returns -1; a datagram to port 6666
    ends the program. *)

From S2P Require Import Prelude Stddef Heap Mempool Bytes Mbuf Dispatch.
Local Open Scope Z_scope.

(** ** Layout and constants

    Offsets in a frame: [struct eth_hdr] is 14 bytes with [type] at 12; in
    [struct ip_hdr] the byte at 0 holds [header_len] and [version], [len] is at
    2, [off] at 6, [proto] at 9, the addresses at 12 and 16; in [struct udp_hdr]
    the ports are at 0 and 2 and [len] is at 4. *)
Definition ETH_TYPE_OFF : nat := 12.
Definition IP_OFF : nat := 14.
Definition SIZEOF_IP_HDR : Z := 20.
Definition UDP_HDR_LEN : nat := 8.
Definition ETHTYPE_IP : Z := 0x0800.
Definition IPPROTO_ICMP : Z := 1.
Definition IPPROTO_TCP : Z := 6.
Definition IPPROTO_UDP : Z := 17.
Definition IP_MF : Z := 0x2000.
Definition IP_OFFMASK : Z := 0x1fff.

(** The two ways [udp_input] ends: it returns, or it calls [exit(0)]. *)
Inductive input_result := Ret (r : Z) | Exit.

(** ** Operations *)

(** The loop over the configured ports, from index [i], [n] rounds left. *)
Fixpoint port_index (ports : list Z) (n i : nat) (dst_port : Z) : option (option nat) :=
  match n with
  | O => Some None
  | S n' => p ← ports !! i; if dst_port =? p then Some (Some i) else port_index ports n' (S i) dst_port
  end.

Definition udp_input (cfg : cfg_params) (m : heap) (P : pool) (d : bytes) (pkt : ptr) (udphdr : nat) :
    option (input_result * heap * pool) :=
  len ← get16 d (udphdr + 4);
  let len := ntoh16 len in
  plen ← ld m pkt MB_LEN;
  if negb (mbuf_enough_space plen (Z.of_nat udphdr) len) then
    '(m, P) ← mbuf_free m P pkt;
    Some (Ret (-1), m, P)
  else
  dst_port ← get16 d (udphdr + 2);
  let dst_port := ntoh16 dst_port in
  i ← port_index (cfg_ports cfg) (num_ports cfg) 0 dst_port;
  match i with
  | Some i => Some (Ret (Z.of_nat i), m, P)
  | None => if dst_port =? 6666 then Some (Exit, m, P) else Some (Ret (-1), m, P)
  end.

(** The label [out] of [ip_input]. *)
Definition ip_input_out (m : heap) (P : pool) (pkt : ptr) : option (input_result * heap * pool) :=
  '(m, P) ← mbuf_free m P pkt;
  Some (Ret (-1), m, P).

Definition ip_input (cfg : cfg_params) (m : heap) (P : pool) (d : bytes) (pkt : ptr) (hdr : nat) :
    option (input_result * heap * pool) :=
  plen ← ld m pkt MB_LEN;
  if negb (mbuf_enough_space plen (Z.of_nat hdr) SIZEOF_IP_HDR) then ip_input_out m P pkt else
  vhl ← get8 d hdr;
  let version := Z.shiftr vhl 4 in
  let header_len := Z.land vhl 15 in
  if negb (version =? 4) then ip_input_out m P pkt else
  if header_len <? 5 then ip_input_out m P pkt else
  off ← get16 d (hdr + 6);
  if negb (Z.land (ntoh16 off) (Z.lor IP_OFFMASK IP_MF) =? 0) then ip_input_out m P pkt else
  let hdrlen := header_len * 4 in
  len ← get16 d (hdr + 2);
  let pktlen := ntoh16 len in
  if pktlen <? hdrlen then ip_input_out m P pkt else
  if negb (mbuf_enough_space plen (Z.of_nat hdr) pktlen) then ip_input_out m P pkt else
  proto ← get8 d (hdr + 9);
  if proto =? IPPROTO_TCP then ip_input_out m P pkt else
  if proto =? IPPROTO_UDP then
    '(r, m, P) ← udp_input cfg m P d pkt (hdr + Z.to_nat hdrlen);
    match r with
    | Ret ret => if ret <? 0 then ip_input_out m P pkt else Some (Ret ret, m, P)
    | Exit => Some (Exit, m, P)
    end
  else
  if proto =? IPPROTO_ICMP then ip_input_out m P pkt else
  ip_input_out m P pkt.

Definition eth_input (cfg : cfg_params) (m : heap) (P : pool) (d : bytes) (pkt : ptr) :
    option (input_result * heap * pool) :=
  type ← get16 d ETH_TYPE_OFF;
  if type =? hton16 ETHTYPE_IP then ip_input cfg m P d pkt IP_OFF
  else
    '(m, P) ← mbuf_free m P pkt;
    Some (Ret (-1), m, P).

(** ** What the checks mean

    A frame of [plen] bytes in network byte order. *)

Definition ip_hdrlen (d : bytes) : Z := 4 * (byte_at d IP_OFF mod 16).
Definition udp_off (d : bytes) : nat := (IP_OFF + Z.to_nat (ip_hdrlen d))%nat.

#[global] Arguments udp_off : simpl never.
#[global] Arguments ip_hdrlen : simpl never.
#[global] Arguments IP_OFF : simpl never.

(** An unfragmented IPv4 packet that carries UDP and fits in the frame. *)
Definition ip_udp_ok (plen : Z) (d : bytes) : bool :=
  (be16 d ETH_TYPE_OFF =? ETHTYPE_IP) && (34 <=? plen) &&
  (byte_at d IP_OFF / 16 =? 4) && (20 <=? ip_hdrlen d) &&
  (be16 d (IP_OFF + 6) mod 0x4000 =? 0) &&
  (ip_hdrlen d <=? be16 d (IP_OFF + 2)) && (14 + be16 d (IP_OFF + 2) <=? plen) &&
  (byte_at d (IP_OFF + 9) =? IPPROTO_UDP).

(** The UDP length goes past the end of the frame. *)
Definition udp_overrun (plen : Z) (d : bytes) : bool :=
  plen <? Z.of_nat (udp_off d) + be16 d (udp_off d + 4).

Inductive verdict := Deliver (i : nat) | Drop | DropTwice | Quit.

Definition eth_verdict (cfg : cfg_params) (plen : Z) (d : bytes) : verdict :=
  if negb (ip_udp_ok plen d) then Drop else
  if udp_overrun plen d then DropTwice else
  let port := be16 d (udp_off d + 2) in
  match list_find (λ p, port = p) (take (num_ports cfg) (cfg_ports cfg)) with
  | Some (i, _) => Deliver i
  | None => if port =? 6666 then Quit else Drop
  end.

(** What [eth_input] does with the buffer on each verdict. *)
Definition verdict_result (m : heap) (P : pool) (pkt : ptr) (v : verdict) : option (input_result * heap * pool) :=
  match v with
  | Deliver i => Some (Ret (Z.of_nat i), m, P)
  | Drop => '(m, P) ← mbuf_free m P pkt; Some (Ret (-1), m, P)
  | DropTwice => '(m, P) ← mbuf_free m P pkt; '(m, P) ← mbuf_free m P pkt; Some (Ret (-1), m, P)
  | Quit => Some (Exit, m, P)
  end.

Lemma space_leb plen pos sz : 0 ≤ pos < 65536 → 0 ≤ sz < 65536 → mbuf_enough_space plen pos sz = (pos + sz <=? plen).
Proof. intros Hp Hs. unfold mbuf_enough_space. by rewrite u64_small by (unfold U64_MOD; lia). Qed.

Lemma port_index_find ports n i dst :
  (i + n ≤ length ports)%nat →
  port_index ports n i dst =
    Some (match list_find (λ p, dst = p) (take n (drop i ports)) with Some (k, _) => Some (i + k)%nat | None => None end).
Proof.
  revert i. induction n as [|n IH]; intros i Hi; [done|]. simpl.
  destruct (lookup_lt_is_Some_2 ports i) as [p Hp]; [lia|]. rewrite Hp. simpl.
  rewrite (drop_S ports p i Hp). simpl. destruct (Z.eqb_spec dst p) as [->|Hne].
  - rewrite decide_True by done. do 2 f_equal. lia.
  - rewrite decide_False by done. rewrite IH by lia.
    destruct (list_find _ _) as [[k x]|]; simpl; [|done]. do 2 f_equal. lia.
Qed.

(** The tests of the code, one by one, in network byte order. *)
Lemma eth_type_test d v : bytes_wf d → get16 d ETH_TYPE_OFF = Some v → 0 ≤ v < 65536 →
  ntoh16 v = be16 d ETH_TYPE_OFF → (v =? hton16 ETHTYPE_IP) = (be16 d ETH_TYPE_OFF =? ETHTYPE_IP).
Proof.
  intros Hwf E Hv En. destruct (bswap16_invol v Hv) as [_ Hi]. unfold ntoh16 in En. rewrite En in Hi.
  destruct (Z.eqb_spec v (hton16 ETHTYPE_IP)) as [->|Hne]; symmetry; [apply Z.eqb_eq|apply Z.eqb_neq].
  - rewrite <-En. by vm_compute.
  - intros E'. apply Hne. rewrite <-Hi, E'. done.
Qed.

Lemma frag_test x : 0 ≤ x < 65536 → (Z.land x (Z.lor IP_OFFMASK IP_MF) =? 0) = (x mod 0x4000 =? 0).
Proof. intros Hx. change (Z.lor IP_OFFMASK IP_MF) with (Z.ones 14). by rewrite Z.land_ones. Qed.

Lemma ip_hdrlen_range d : 0 ≤ ip_hdrlen d ≤ 60.
Proof. unfold ip_hdrlen. pose proof (Z.mod_pos_bound (byte_at d IP_OFF) 16). lia. Qed.

Lemma udp_off_range d : (14 ≤ udp_off d ≤ 74)%nat.
Proof. unfold udp_off, IP_OFF. pose proof (ip_hdrlen_range d). lia. Qed.

Section input.
Context (cfg : cfg_params) (m : heap) (P : pool) (d : bytes) (pkt : ptr) (plen : Z).
Context (Hwf : bytes_wf d) (Hlen : (128 ≤ length d)%nat) (Hpkt : pkt ≠ NULL) (Hplen : rd m pkt MB_LEN = plen).
Context (Hports : (num_ports cfg ≤ length (cfg_ports cfg))%nat).

Lemma ld_len : ld m pkt MB_LEN = Some plen.
Proof. unfold ld. rewrite (proj2 (Z.eqb_neq _ _) Hpkt). by rewrite Hplen. Qed.

Lemma udp_input_run :
  udp_input cfg m P d pkt (udp_off d) =
    if udp_overrun plen d then ip_input_out m P pkt else
    match list_find (λ p, be16 d (udp_off d + 2) = p) (take (num_ports cfg) (cfg_ports cfg)) with
    | Some (i, _) => Some (Ret (Z.of_nat i), m, P)
    | None => if be16 d (udp_off d + 2) =? 6666 then Some (Exit, m, P) else Some (Ret (-1), m, P)
    end.
Proof.
  pose proof (udp_off_range d) as Hr. unfold udp_input, udp_overrun.
  destruct (get16_ntoh d (udp_off d + 4)) as (v & -> & Ev & _); [done|lia|]. cbn [mbind option_bind]. rewrite ld_len, Ev. cbn [mbind option_bind].
  rewrite space_leb by (try apply be16_range; lia || done). rewrite Z.leb_antisym, negb_involutive.
  destruct (plen <? _); [done|].
  destruct (get16_ntoh d (udp_off d + 2)) as (p & -> & Ep & _); [done|lia|]. cbn [mbind option_bind]. rewrite Ep.
  rewrite port_index_find by lia. rewrite drop_0. cbn [mbind option_bind]. by destruct (list_find _ _) as [[i x]|].
Qed.

Lemma eth_input_verdict_ok : eth_input cfg m P d pkt = verdict_result m P pkt (eth_verdict cfg plen d).
Proof.
  unfold eth_input, eth_verdict, ip_udp_ok.
  destruct (get16_ntoh d ETH_TYPE_OFF) as (v & E & Ev & Hv); [done|unfold ETH_TYPE_OFF; lia|]. rewrite E. cbn [mbind option_bind].
  rewrite (eth_type_test d v) by done. destruct (be16 d ETH_TYPE_OFF =? ETHTYPE_IP); [|done].
  unfold ip_input. rewrite ld_len. cbn [mbind option_bind].
  rewrite space_leb by (unfold IP_OFF, SIZEOF_IP_HDR; lia). change (Z.of_nat IP_OFF + SIZEOF_IP_HDR) with 34.
  destruct (34 <=? plen); [cbn [negb andb mbind option_bind]|done]. rewrite (get8_byte d IP_OFF) by (unfold IP_OFF; lia). cbn [mbind option_bind].
  rewrite Z.shiftr_div_pow2 by lia. change (2 ^ 4) with 16. destruct (byte_at d IP_OFF / 16 =? 4); [cbn [negb andb mbind option_bind]|done].
  change 15 with (Z.ones 4). rewrite Z.land_ones by lia. change (2 ^ 4) with 16.
  replace (byte_at d IP_OFF mod 16 * 4) with (ip_hdrlen d) by (unfold ip_hdrlen; lia).
  replace (byte_at d IP_OFF mod 16 <? 5) with (negb (20 <=? ip_hdrlen d)).
  2:{ rewrite <-Z.ltb_antisym. unfold ip_hdrlen.
      by destruct (Z.ltb_spec (4 * (byte_at d IP_OFF mod 16)) 20), (Z.ltb_spec (byte_at d IP_OFF mod 16) 5); lia. }
  destruct (20 <=? ip_hdrlen d); [cbn [negb andb mbind option_bind]|done].
  destruct (get16_ntoh d (IP_OFF + 6)) as (o & E6 & Eo & _); [done|unfold IP_OFF; lia|]. rewrite E6. cbn [mbind option_bind].
  rewrite Eo, frag_test by (by apply be16_range). destruct (be16 d (IP_OFF + 6) mod 16384 =? 0); [cbn [negb andb mbind option_bind]|done].
  destruct (get16_ntoh d (IP_OFF + 2)) as (l & E2 & El & _); [done|unfold IP_OFF; lia|]. rewrite E2. cbn [mbind option_bind].
  rewrite El, Z.ltb_antisym. destruct (ip_hdrlen d <=? be16 d (IP_OFF + 2)); [cbn [negb andb mbind option_bind]|done].
  rewrite space_leb by (first [by apply be16_range|unfold IP_OFF; lia]). change (Z.of_nat IP_OFF) with 14.
  destruct (14 + be16 d (IP_OFF + 2) <=? plen); [cbn [negb andb mbind option_bind]|done].
  rewrite get8_byte by (unfold IP_OFF; lia). cbn [mbind option_bind]. 
  destruct (Z.eqb_spec (byte_at d (IP_OFF + 9)) IPPROTO_TCP) as [->|_]; [done|].
  destruct (byte_at d (IP_OFF + 9) =? IPPROTO_UDP); [|by destruct (_ =? _)].
  fold (udp_off d). rewrite udp_input_run. cbn [mbind option_bind]. destruct (udp_overrun plen d).
  - unfold ip_input_out. cbn [negb verdict_result]. by destruct (mbuf_free m P pkt) as [[m1 P1]|].
  - destruct (list_find _ _) as [[i x]|]; cbn [mbind option_bind].
    + by rewrite (proj2 (Z.ltb_ge _ _)) by lia.
    + by destruct (_ =? 6666).
Qed.
End input.

(** C27: [eth_input] decides as the protocol headers say: on every frame it does
    what the verdict, read off the frame in network byte order, prescribes.  An
    unfragmented IPv4/UDP packet that fits the frame and whose datagram fits is
    delivered to the first configured port it matches and its buffer is left
    alone; everything else is freed, and a datagram to port 6666 quits. *)
Theorem eth_input_decides cfg m P d pkt :
  bytes_wf d → (128 ≤ length d)%nat → pkt ≠ NULL → (num_ports cfg ≤ length (cfg_ports cfg))%nat →
  eth_input cfg m P d pkt = verdict_result m P pkt (eth_verdict cfg (rd m pkt MB_LEN) d).
Proof. intros. by apply eth_input_verdict_ok. Qed.

(** Two frees of one element make the pool hand it out twice. *)
Lemma double_free m P x :
  x ≠ NULL → mp_num_free P.2 + 1 < mp_chunk_size P.2 →
  ∃ m1 P1 m2 P2 Q1 Q2, mempool_free m P x = Some (m1, P1) ∧ mempool_free m1 P1 x = Some (m2, P2) ∧
    mempool_alloc m2 P2 = Some (x, Q1) ∧ mempool_alloc m2 Q1 = Some (x, Q2).
Proof.
  destruct P as [mds p]. simpl. intros Hx Hn. unfold mempool_free, mempool_alloc.
  rewrite (proj2 (Z.ltb_lt _ _)) by lia. unfold sto. rewrite (proj2 (Z.eqb_neq _ _) Hx). simpl.
  do 6 eexists. split; [done|]. cbv beta iota zeta. rsimpl. rewrite (proj2 (Z.ltb_lt _ _)) by lia. simpl.
  split; [done|]. cbv beta iota zeta. rsimpl. unfold ld. rewrite (proj2 (Z.eqb_neq _ _) Hx). simpl. rewrite rd_insert_eq.
  split; [done|]. cbv beta iota zeta. rsimpl. rewrite (proj2 (Z.eqb_neq _ _) Hx). simpl. by rewrite rd_insert_eq.
Qed.

(** C37: A UDP datagram whose length field goes past the end of the frame is freed
    twice, by [udp_input] and by [ip_input]; the next two allocations from the
    pool return the same buffer. *)
Theorem udp_overrun_double_free cfg m P d pkt :
  bytes_wf d → (128 ≤ length d)%nat → pkt ≠ NULL → (num_ports cfg ≤ length (cfg_ports cfg))%nat →
  ip_udp_ok (rd m pkt MB_LEN) d = true → udp_overrun (rd m pkt MB_LEN) d = true →
  mp_num_free P.2 + 1 < mp_chunk_size P.2 →
  ∃ m' P' P1 P2, eth_input cfg m P d pkt = Some (Ret (-1), m', P') ∧
    mempool_alloc m' P' = Some (pkt, P1) ∧ mempool_alloc m' P1 = Some (pkt, P2).
Proof.
  intros Hwf Hl Hp Hc Hok Hov Hn. destruct (double_free m P pkt Hp Hn) as (m1 & P1 & m2 & P2 & Q1 & Q2 & E1 & E2 & A1 & A2).
  exists m2, P2, Q1, Q2. split; [|done]. rewrite (eth_input_verdict_ok cfg m P d pkt (rd m pkt MB_LEN)) by done.
  unfold eth_verdict. rewrite Hok, Hov. simpl. unfold mbuf_free. rewrite E1. simpl. by rewrite E2.
Qed.

(** ** Examples *)

(** A datagram to port 5001 with 16 bytes of payload and the given UDP length. *)
Definition ex_frame (udp_len : Z) : bytes :=
  replicate 12 0 ++ [8; 0] ++
  [0x45; 0; 0; 44; 0; 0; 0x40; 0; 64; 17; 0; 0; 10; 0; 0; 2; 10; 0; 0; 1] ++
  [0x1f; 0x90; 0x13; 0x89; 0; udp_len; 0; 0] ++ replicate 16 7 ++ replicate 70 0.

Definition ex_net_cfg : cfg_params := mk_cfg_params 2 [] [] [5000; 5001].
Definition ex_pkt_heap : heap := <[(8192, MB_LEN) := 58]> ∅.

Lemma ex_frame_wf u : 0 ≤ u < 256 → bytes_wf (ex_frame u).
Proof. intros Hu. unfold bytes_wf, ex_frame. simpl. repeat constructor; lia. Qed.

Lemma eth_input_decides_witness :
  eth_input ex_net_cfg ex_pkt_heap ex_pool (ex_frame 24) 8192 = Some (Ret 1, ex_pkt_heap, ex_pool).
Proof.
  exact (eth_input_decides ex_net_cfg ex_pkt_heap ex_pool (ex_frame 24) 8192
    (ex_frame_wf 24 ltac:(lia)) ltac:(vm_compute; lia) ltac:(done) ltac:(simpl; lia)).
Defined.

Lemma udp_overrun_double_free_witness :
  ∃ m' P' P1 P2, eth_input ex_net_cfg ex_pkt_heap ex_pool (ex_frame 200) 8192 = Some (Ret (-1), m', P') ∧
    mempool_alloc m' P' = Some (8192, P1) ∧ mempool_alloc m' P1 = Some (8192, P2).
Proof.
  exact (udp_overrun_double_free ex_net_cfg ex_pkt_heap ex_pool (ex_frame 200) 8192
    (ex_frame_wf 200 ltac:(lia)) ltac:(vm_compute; lia) ltac:(done) ltac:(simpl; lia)
    ltac:(vm_compute; reflexivity) ltac:(vm_compute; reflexivity) ltac:(vm_compute; reflexivity)).
Defined.
