(* ===== verification/EthQueue.v ===== *)
(** * Ethernet queues (inc/ix/ethqueue.h, dp/core/ethqueue.c)

    A receive queue is a list of packet buffers linked through [next].  The
    driver appends with [eth_recv]; [eth_process_recv] takes frames from the
    queues in turn, has [eth_input] decide on each, and collects the accepted
    ones in a batch. *)

From S2P Require Import Prelude Stddef Heap Mempool Bytes Mbuf Dispatch NetInput.
Local Open Scope Z_scope.

Definition ETH_RX_MAX_DEPTH : Z := 32768.

(** ** Receive queues *)

Record eth_rx_queue := mk_eth_rx_queue { rxq_head : ptr; rxq_tail : ptr; rxq_len : Z }.

Definition eth_recv (m : heap) (rxq : eth_rx_queue) (mbuf : ptr) : option (Z * heap * eth_rx_queue) :=
  if ETH_RX_MAX_DEPTH <=? rxq_len rxq then Some (- EBUSY, m, rxq) else
  m ← sto m mbuf MB_NEXT NULL;
  '(m, head, tail) ←
    (if rxq_head rxq =? NULL then Some (m, mbuf, mbuf)
     else m ← sto m (rxq_tail rxq) MB_NEXT mbuf; Some (m, rxq_head rxq, mbuf));
  Some (0, m, mk_eth_rx_queue head tail (rxq_len rxq + 1)).

(** The position, the result of [eth_input] on it, and the state. *)
Definition eth_process_recv_queue (cfg : cfg_params) (data : packets) (m : heap) (P : pool) (rxq : eth_rx_queue) :
    option (ptr * input_result * heap * pool * eth_rx_queue) :=
  let pos := rxq_head rxq in
  if pos =? NULL then Some (NULL, Ret (- EAGAIN), m, P, rxq) else
  next ← ld m pos MB_NEXT;
  let rxq := mk_eth_rx_queue next (rxq_tail rxq) (rxq_len rxq - 1) in
  '(r, m, P) ← eth_input cfg m P (mbuf_data data pos) pos;
  Some (pos, r, m, P, rxq).

(** The batch so far: the entries of [recv_mbufs] and [recv_type] below [count].
    Both arrays have [ETH_RX_MAX_BATCH] entries. *)
Abbreviation recv_batch := (list (Z * Z)).

Definition recv_push (acc : recv_batch) (pos type : Z) : option recv_batch :=
  if (length acc <? ETH_RX_MAX_BATCH)%nat then Some (acc ++ [(pos, type)]) else None.

(** What the networker's core works on. *)
Record rx_st := mk_rx_st { r_mem : heap; r_mbufs : pool; r_rxqs : list eth_rx_queue }.

(** The [for] loop over the queues, from queue [i], [n] queues left; the inner
    [None] is [exit]. *)
Fixpoint recv_pass (cfg : cfg_params) (data : packets) (n i : nat) (s : rx_st) (acc : recv_batch) (empty : bool) :
    option (option (rx_st * recv_batch * bool)) :=
  match n with
  | O => Some (Some (s, acc, empty))
  | S n' =>
      rxq ← r_rxqs s !! i;
      '(pos, r, m, P, rxq) ← eth_process_recv_queue cfg data (r_mem s) (r_mbufs s) rxq;
      let s := mk_rx_st m P (<[i := rxq]> (r_rxqs s)) in
      match r with
      | Exit => Some None
      | Ret type =>
          if 0 <=? type then
            acc ← recv_push acc pos type;
            recv_pass cfg data n' (S i) s acc false
          else recv_pass cfg data n' (S i) s acc empty
      end
  end.

(** The [do] loop, [fuel] iterations at most. *)
Fixpoint recv_loop (cfg : cfg_params) (data : packets) (fuel nq : nat) (s : rx_st) (acc : recv_batch) :
    option (option (rx_st * recv_batch)) :=
  match fuel with
  | O => None
  | S fuel' =>
      r ← recv_pass cfg data nq 0 s acc true;
      match r with
      | None => Some None
      | Some (s, acc, empty) =>
          if negb empty && (length acc <? ETH_RX_MAX_BATCH)%nat then recv_loop cfg data fuel' nq s acc
          else Some (Some (s, acc))
      end
  end.

(** Every iteration but the last accepts a packet, so [ETH_RX_MAX_BATCH]
    iterations are enough. *)
Definition eth_process_recv (cfg : cfg_params) (data : packets) (eth_num_queues : nat) (s : rx_st) :
    option (option (rx_st * recv_batch)) :=
  recv_loop cfg data ETH_RX_MAX_BATCH eth_num_queues s [].

(** ** The queue as a list *)

Record rx_rep (m : heap) (rxq : eth_rx_queue) (q : list ptr) : Prop := {
  rx_chain : chain m MB_NEXT (rxq_head rxq) q;
  rx_tail : q ≠ [] → rxq_tail rxq = default NULL (last q);
  rx_len : rxq_len rxq = Z.of_nat (length q);
  rx_nodup : NoDup q;
}.

Lemma rx_rep_frame X m m' rxq q :
  rx_rep m rxq q → same_outside X m m' → (∀ x, x ∈ q → x ∉ X) → rx_rep m' rxq q.
Proof.
  intros [Hc Ht Hl Hn] Hs Hd. split; try done. eapply lseg_frame, Hc. by eapply same_outside_agree.
Qed.

Lemma eth_recv_ok m rxq q x :
  rx_rep m rxq q → x ≠ NULL → x ∉ q → Z.of_nat (length q) < ETH_RX_MAX_DEPTH →
  ∃ m' rxq', eth_recv m rxq x = Some (0, m', rxq') ∧ rx_rep m' rxq' (q ++ [x]) ∧
    (∀ p off, off ≠ MB_NEXT ∨ p ∉ q ++ [x] → rd m' p off = rd m p off).
Proof.
  intros [Hc Ht Hl Hn] Hx Hxq Hlen. unfold eth_recv. rewrite (proj2 (Z.leb_gt _ _)) by lia. heap_step.
  assert (NoDup (q ++ [x])) as Hn' by (apply NoDup_app; split_and!; [done|set_solver|apply NoDup_singleton]).
  destruct q as [|y q' _] using rev_ind.
  - simpl in Hc. rewrite Hc. simpl. eexists _, _. split; [done|]. split.
    + split; simpl; [|done|simpl in *; lia|done]. split_and!; [done..|]. by rewrite rd_insert_eq.
    + intros p off Hp. apply rd_insert_ne. destruct Hp as [?|Hp]; [by right|left; set_solver].
  - rewrite (proj2 (Z.eqb_neq _ _)).
    2:{ intros E. apply (chain_head_null _ _ _ _ Hc) in E. by destruct q'. }
    rewrite Ht, last_snoc by (by destruct q'). simpl.
    assert (y ≠ NULL) as Hy by (eapply lseg_non_null; [done|set_solver]). assert (x ≠ y) by set_solver.
    heap_step. eexists _, _. split; [done|]. split.
    + split; simpl; [| |rewrite !length_app in *; simpl in *; lia|done].
      * eapply lseg_link_last; [|done|done|done|by rewrite rd_insert_eq].
        eapply lseg_frame, Hc. apply agree_on_insert_ne. by left.
      * by rewrite last_snoc.
    + intros p off Hp. rewrite !rd_insert_ne; [done|..]; destruct Hp as [?|Hp]; try (by right); left; set_solver.
Qed.

(** The frames a batch of at most [n] takes from the queue [q]: the accepted
    ones, the one that was dropped, the rest, and whether the program ended. *)
Fixpoint take_batch (v : ptr → verdict) (n : nat) (q : list ptr) : recv_batch * list ptr * list ptr * bool :=
  match n, q with
  | O, _ => ([], [], q, false)
  | _, [] => ([], [], [], false)
  | S n', x :: q' =>
      match v x with
      | Deliver i => let '(b, dr, rest, e) := take_batch v n' q' in ((x, Z.of_nat i) :: b, dr, rest, e)
      | Quit => ([], [], q', true)
      | _ => ([], [x], q', false)
      end
  end.

Lemma take_batch_parts v n q b dr rest :
  take_batch v n q = (b, dr, rest, false) →
  q = b.*1 ++ dr ++ rest ∧ (length b ≤ n)%nat ∧ (length dr ≤ 1)%nat ∧
  (∀ x t, (x, t) ∈ b → ∃ i, v x = Deliver i ∧ t = Z.of_nat i).
Proof.
  revert q b. induction n as [|n IH]; intros q b H; simpl in H.
  { simplify_eq. split_and!; [done|simpl; lia..|]. intros x t []%not_elem_of_nil. }
  destruct q as [|x q]; [simplify_eq/=; split_and!; [done|simpl; lia..|]; intros x t []%not_elem_of_nil|].
  destruct (v x) as [i| | |] eqn:Hv; simplify_eq/=.
  - destruct (take_batch v n q) as [[[b' dr'] r'] e'] eqn:E. simplify_eq/=. destruct (IH _ _ E) as (-> & H1 & H2 & H3).
    split_and!; [done|lia|done|]. intros y t [[= -> ->]|Hy]%elem_of_cons; [eauto|by apply H3].
  - split_and!; [done|simpl; lia..|]. intros y t []%not_elem_of_nil.
  - split_and!; [done|simpl; lia..|]. intros y t []%not_elem_of_nil.
Qed.

Section receive.
Context (cfg : cfg_params) (data : packets).
Context (Hdata : packets_wf data) (Hports : (num_ports cfg ≤ length (cfg_ports cfg))%nat).

(** The verdict on the frame in buffer [x]. *)
Definition frame_verdict (m : heap) (x : ptr) : verdict := eth_verdict cfg (rd m x MB_LEN) (mbuf_data data x).

Lemma eth_input_frame m P x :
  x ≠ NULL → eth_input cfg m P (mbuf_data data x) x = verdict_result m P x (frame_verdict m x).
Proof.
  intros Hx. destruct (mbuf_data_wf data x Hdata) as [Hwf Hlen].
  apply (eth_input_verdict_ok cfg m P (mbuf_data data x) x); [done| |done|done|done].
  rewrite Hlen. vm_compute. lia.
Qed.

(** The frame at the head of the queue, on each verdict. *)
Lemma recv_queue_run m P rxq x q F :
  rx_rep m rxq (x :: q) → pool_rep m P F → x ∉ F → (∀ y, y ∈ q → y ∉ F) → frame_verdict m x ≠ DropTwice →
  ∃ rxq', rx_rep m rxq' q ∧
    match frame_verdict m x with
    | Deliver i => eth_process_recv_queue cfg data m P rxq = Some (x, Ret (Z.of_nat i), m, P, rxq')
    | Quit => eth_process_recv_queue cfg data m P rxq = Some (x, Exit, m, P, rxq')
    | _ => ∃ m' P', eth_process_recv_queue cfg data m P rxq = Some (x, Ret (-1), m', P', rxq') ∧
             pool_rep m' P' (x :: F) ∧ rx_rep m' rxq' q ∧ same_outside (x :: F) m m'
    end.
Proof.
  intros [(Hh & Hx & Hc) Ht Hl Hn] HF HxF Hq Hv. apply NoDup_cons in Hn as [Hxq Hn].
  assert (rx_rep m (mk_eth_rx_queue (rd m x MB_NEXT) (rxq_tail rxq) (rxq_len rxq - 1)) q) as Hrep.
  { split; simpl in *; [done| |lia|done]. intros Hne. rewrite Ht by done. by destruct q. }
  eexists. split; [exact Hrep|]. unfold eth_process_recv_queue.
  rewrite Hh, (proj2 (Z.eqb_neq _ _) Hx). heap_step. rewrite eth_input_frame by done.
  destruct (frame_verdict m x); simpl; [done| |done|done].
  destruct (pool_free m P F x HF Hx HxF) as (m' & P' & E & HF' & Hs). unfold mbuf_free. rewrite E. simpl.
  exists m', P'.
  split_and!; [done|done| |done]. eapply rx_rep_frame; [done..|]. set_solver.
Qed.

(** The loop with [n] entries of the batch left. *)
Lemma recv_loop_single n m P rxq q F acc :
  (length acc + n = ETH_RX_MAX_BATCH)%nat → (1 ≤ n)%nat → rx_rep m rxq q → pool_rep m P F →
  (∀ x, x ∈ q → x ∉ F ∧ frame_verdict m x ≠ DropTwice) →
  let '(b, dr, rest, quit) := take_batch (frame_verdict m) n q in
  if quit : bool then recv_loop cfg data n 1 (mk_rx_st m P [rxq]) acc = Some None
  else ∃ m' P' rxq',
    recv_loop cfg data n 1 (mk_rx_st m P [rxq]) acc = Some (Some (mk_rx_st m' P' [rxq'], acc ++ b)) ∧
    rx_rep m' rxq' rest ∧ pool_rep m' P' (dr ++ F) ∧ same_outside (dr ++ F) m m'.
Proof.
  revert rxq q acc. induction n as [|n IH]; intros rxq q acc Hlen Hn Hq HF Hok; [lia|]. simpl.
  destruct q as [|x q].
  - assert (rxq_head rxq = NULL) as Hh by (by destruct Hq as [Hc _ _ _]).
    unfold eth_process_recv_queue. rewrite Hh. simpl. rewrite app_nil_r. exists m, P, rxq. split_and!; done.
  - destruct (Hok x) as [HxF Hv]; [set_solver|].
    destruct (recv_queue_run m P rxq x q F Hq HF HxF) as (rxq' & Hq' & Hrun); [set_solver|done|].
    destruct (frame_verdict m x) as [i| | |] eqn:Ev; [|destruct Hrun as (m' & P' & Hrun & HF' & Hq2 & Hs)|done|];
      rewrite Hrun; simpl.
    + rewrite (proj2 (Z.leb_le _ _)) by lia. unfold recv_push. rewrite (proj2 (Nat.ltb_lt _ _)) by lia. simpl.
      rewrite length_app. simpl. destruct n as [|n].
      * rewrite (proj2 (Nat.ltb_ge _ _)) by lia. exists m, P, rxq'. split_and!; done.
      * rewrite (proj2 (Nat.ltb_lt _ _)) by lia. specialize (IH rxq' q (acc ++ [(x, Z.of_nat i)])).
        destruct (take_batch (frame_verdict m) (S n) q) as [[[b dr] rest] quit].
        destruct quit; [|edestruct IH as (m' & P' & r' & E & ?); [| | | | |exists m', P', r'; rewrite <-app_assoc in E; done]];
          try apply IH; rewrite ?length_app; simpl; done || lia || set_solver.
    + exists m', P', rxq'. rewrite app_nil_r. split_and!; done.
    + done.
Qed.
End receive.


(** Two receive queues, where [n] buffers with the given frame lengths wait in
    each: the buffers of queue [k] start at [0x10000 * (k + 1)]. *)
Definition ex_queue_heap (k : Z) (n : nat) (len0 : Z) : heap :=
  foldr (λ i m, let p := 0x10000 * (k + 1) + Z.of_nat i * 4096 in
           <[(p, MB_NEXT) := if (i =? n - 1)%nat then NULL else p + 4096]>
             (<[(p, MB_LEN) := if (i =? 0)%nat then len0 else 58]> m)) ∅ (seq 0 n).
Definition ex_queue (k : Z) (n : nat) : eth_rx_queue :=
  mk_eth_rx_queue (0x10000 * (k + 1)) (0x10000 * (k + 1) + Z.of_nat (n - 1) * 4096) (Z.of_nat n).
Definition ex_queue_data (k : Z) (n : nat) : packets :=
  foldr (λ i d, <[0x10000 * (k + 1) + Z.of_nat i * 4096 := ex_frame 24]> d) ∅ (seq 0 n).

Definition ex_two_queues (len0 : Z) : option (option (rx_st * recv_batch)) :=
  eth_process_recv ex_net_cfg (ex_queue_data 0 4 ∪ ex_queue_data 1 4) 2
    (mk_rx_st (ex_queue_heap 0 4 58 ∪ ex_queue_heap 1 4 len0) ex_pool [ex_queue 0 4; ex_queue 1 4]).


Definition ex_rx_heap : heap := ex_queue_heap 0 2 58 ∪ ex_heap.
Definition ex_rx_data : packets :=
  <[0x10000 := ex_frame 24 ++ replicate 1920 0]> (<[0x11000 := ex_frame 24 ++ replicate 1920 0]> ∅).

Lemma ex_rx_rep : rx_rep ex_rx_heap (ex_queue 0 2) [0x10000; 0x11000].
Proof.
  split; [by vm_compute|by vm_compute|by vm_compute|]. apply (bool_decide_unpack _). by vm_compute.
Qed.

Lemma ex_rx_pool : pool_rep ex_rx_heap ex_pool [4096; 4160].
Proof. eapply sa_frame; [apply ex_pool_rep|..]; intros x Hx; apply elem_of_cons in Hx as [->| ->%list_elem_of_singleton]; by vm_compute. Qed.

Lemma ex_rx_wf : packets_wf ex_rx_data.
Proof.
  intros p d. unfold ex_rx_data. rewrite !lookup_insert_Some, lookup_empty.
  assert (bytes_wf (ex_frame 24 ++ replicate 1920 0)) as H.
  { apply Forall_app. split; [by apply ex_frame_wf|apply Forall_replicate; lia]. }
  intros [[_ <-]|[_ [[_ <-]|[_ ?]]]]; [by split; [|vm_compute]..|done].
Qed.

