(* ===== verification/RxRing.v ===== *)
(** * Receive rings of the network card (dp/drivers/ixgbe.c, dp/drivers/i40e.c)

    The card writes a received frame into the buffer of the next descriptor and
    marks the descriptor done.  The poll routine takes the buffers of the done
    descriptors in ring order, gives each descriptor a fresh buffer, and appends
    the filled one to the receive queue.  The two drivers differ in how a
    descriptor encodes the result. *)

From S2P Require Import Prelude Stddef Heap Mempool Page Bytes Mbuf Dispatch NetInput EthQueue.
Local Open Scope Z_scope.

(** ** Descriptors

    A descriptor is two 64-bit words.  The card reads buffer addresses from them
    and writes status, length and hash over them. *)
Record rx_desc := mk_rx_desc { rd_qword0 : Z; rd_qword1 : Z }.

(** What a driver reads from a written-back descriptor. *)
Record rx_view := mk_rx_view {
  rv_done : bool;
  rv_valid_checksum : bool;
  rv_length : Z;
  rv_flm : bool;
  rv_rss : Z;
}.

Definition flag_set (x flag : Z) : bool := negb (Z.land x flag =? 0).

Definition IXGBE_RXDADV_STAT_DD : Z := 0x01.
Definition IXGBE_RXDADV_STAT_FLM : Z := 0x04.
Definition IXGBE_RXD_STAT_L4CS : Z := 0x20.
Definition IXGBE_RXD_STAT_IPCS : Z := 0x40.
Definition IXGBE_RXDADV_ERR_TCPE : Z := 0x40000000.
Definition IXGBE_RXDADV_ERR_IPE : Z := 0x80000000.
Definition IXGBE_RDT_THRESH : Z := 32.

(** [struct wb] of the ixgbe descriptor: [status_error] and [length] are the low
    32 bits and the next 16 bits of the second word, [rss] the high half of the
    first. *)
Definition ixgbe_view (d : rx_desc) : rx_view :=
  let status := u32 (rd_qword1 d) in
  mk_rx_view
    (flag_set status IXGBE_RXDADV_STAT_DD)
    (negb (flag_set status IXGBE_RXD_STAT_IPCS && flag_set status IXGBE_RXDADV_ERR_IPE) &&
     negb (flag_set status IXGBE_RXD_STAT_L4CS && flag_set status IXGBE_RXDADV_ERR_TCPE))
    (u16 (Z.shiftr (rd_qword1 d) 32))
    (flag_set status IXGBE_RXDADV_STAT_FLM)
    (u32 (Z.shiftr (rd_qword0 d) 32)).

Definition I40E_RXD_QW1_STATUS_MASK : Z := 0x7FFFF.
Definition I40E_RXD_QW1_ERROR_SHIFT : Z := 19.
Definition I40E_RXD_QW1_LENGTH_PBUF_SHIFT : Z := 38.
Definition I40E_RXD_QW1_LENGTH_PBUF_MASK : Z := Z.shiftl 0x3FFF 38.
Definition I40E_RX_DESC_STATUS_DD_SHIFT : Z := 0.
Definition I40E_RX_DESC_STATUS_FLM_SHIFT : Z := 11.
Definition I40E_RX_DESC_ERROR_IPE_SHIFT : Z := 3.
Definition I40E_RX_DESC_ERROR_L4E_SHIFT : Z := 4.

Definition i40e_view (d : rx_desc) : rx_view :=
  let qword1 := rd_qword1 d in
  let rx_status := u32 (Z.land qword1 I40E_RXD_QW1_STATUS_MASK) in
  let error_bits := Z.shiftr qword1 I40E_RXD_QW1_ERROR_SHIFT in
  mk_rx_view
    (flag_set rx_status (Z.shiftl 1 I40E_RX_DESC_STATUS_DD_SHIFT))
    (negb (flag_set error_bits (Z.shiftl 1 I40E_RX_DESC_ERROR_IPE_SHIFT)) &&
     negb (flag_set error_bits (Z.shiftl 1 I40E_RX_DESC_ERROR_L4E_SHIFT)))
    (Z.shiftr (Z.land qword1 I40E_RXD_QW1_LENGTH_PBUF_MASK) I40E_RXD_QW1_LENGTH_PBUF_SHIFT)
    (flag_set qword1 (Z.shiftl 1 I40E_RX_DESC_STATUS_FLM_SHIFT))
    (u32 (Z.shiftr (rd_qword0 d) 32)).

(** ** The ring *)

(** [struct rx_queue]: the indices run freely modulo 2^16 and are masked. *)
Record rx_queue := mk_rx_queue {
  rq_ring : list rx_desc;
  rq_entries : list ptr;
  rq_head : Z;
  rq_tail : Z;
  rq_len : Z;
}.
#[export] Instance eta_rx_queue : Settable rx_queue :=
  λ q, mk_rx_queue (rq_ring q) (rq_entries q) (rq_head q) (rq_tail q) (rq_len q).

(** What a poll works on. *)
Record poll_st := mk_poll_st { po_mem : heap; po_mbufs : pool; po_rxq : eth_rx_queue; po_ring : rx_queue }.

Definition rq_slot (q : rx_queue) : nat := Z.to_nat (Z.land (rq_head q) (rq_len q - 1)).

(** The flow group of a frame; [fgs] are the ids of the device's flow groups. *)
Definition rx_fg_id (fgs : list Z) (v : rx_view) : option Z :=
  if rv_flm v then Some MBUF_INVALID_FG_ID
  else fgs !! Z.to_nat (Z.land (rv_rss v) (Z.of_nat (length fgs) - 1)).

Section driver.
Context (view : rx_desc → rx_view).
Context (g : pages) (fgs : list Z).

(** [if (!valid_checksum || eth_recv(rx, b)) mbuf_free(b);] *)
Definition rx_deliver (valid_checksum : bool) (m : heap) (P : pool) (rxq : eth_rx_queue) (b : ptr) :
    option (heap * pool * eth_rx_queue) :=
  '(drop, m, rxq) ←
    (if valid_checksum then '(ret, m, rxq) ← eth_recv m rxq b; Some (negb (ret =? 0), m, rxq)
     else Some (true, m, rxq));
  '(m, P) ← (if drop : bool then mbuf_free m P b else Some (m, P));
  Some (m, P, rxq).

(** One iteration of the poll loop at time [now]: [None] inside is the way out. *)
Definition rx_poll_one (now : Z) (s : poll_st) : option (bool * poll_st) :=
  let q := po_ring s in
  rxd ← rq_ring q !! rq_slot q;
  let v := view rxd in
  if negb (rv_done v) then Some (false, s) else
  b ← rq_entries q !! rq_slot q;
  m ← sto (po_mem s) b MB_LEN (rv_length v);
  fg ← rx_fg_id fgs v;
  m ← sto m b MB_FG_ID fg;
  m ← sto m b MB_TIMESTAMP now;
  '(new_b, m, P) ← mbuf_alloc m (po_mbufs s);
  if new_b =? NULL then Some (false, mk_poll_st m P (po_rxq s) q) else
  maddr ← page_machaddr g (mbuf_mtod_off new_b 0);
  let q := q <| rq_entries ::= <[rq_slot q := new_b]> |>
             <| rq_ring ::= <[rq_slot q := mk_rx_desc maddr maddr]> |> in
  '(m, P, rxq) ← rx_deliver (rv_valid_checksum v) m P (po_rxq s) b;
  Some (true, mk_poll_st m P rxq (q <| rq_head ::= λ h, u16 (h + 1) |>)).

(** The loop, [fuel] iterations at most; the count is [nb_descs]. *)
Fixpoint rx_poll_loop (fuel : nat) (now : Z) (n : nat) (s : poll_st) : option (nat * poll_st) :=
  match fuel with
  | O => None
  | S fuel' =>
      '(more, s) ← rx_poll_one now s;
      if more : bool then rx_poll_loop fuel' now (S n) s else Some (n, s)
  end.

(** The hand-back of descriptors to the card. *)
Definition rx_poll_tail (q : rx_queue) : rx_queue :=
  if IXGBE_RDT_THRESH <=? u16 (rq_len q - (rq_tail q + 1 - rq_head q))
  then q <| rq_tail := u16 (rq_head q + rq_len q - 1) |>
  else q.

(** Every iteration but the last clears the done bit of one descriptor. *)
Definition rx_poll (now : Z) (s : poll_st) : option (nat * poll_st) :=
  '(n, s) ← rx_poll_loop (S (length (rq_ring (po_ring s)))) now 0 s;
  Some (n, mk_poll_st (po_mem s) (po_mbufs s) (po_rxq s) (rx_poll_tail (po_ring s))).
End driver.

Definition ixgbe_rx_poll := rx_poll ixgbe_view.
Definition i40e_rx_poll := rx_poll i40e_view.

(** [ixgbe_rx_ready] *)
Definition ixgbe_rx_ready (q : rx_queue) : option bool :=
  rxd ← rq_ring q !! rq_slot q; Some (rv_done (ixgbe_view rxd)).
Definition i40e_rx_ready (q : rx_queue) : option bool :=
  rxd ← rq_ring q !! rq_slot q; Some (rv_done (i40e_view rxd)).

(** ** Filling the ring at start-up *)

(** The loop behind the label [fail], freeing the entries below [i]. *)
Fixpoint free_rx_entries (m : heap) (P : pool) (entries : list ptr) (i : nat) : option (heap * pool) :=
  match i with
  | O => Some (m, P)
  | S i' => b ← entries !! i'; '(m, P) ← mbuf_free m P b; free_rx_entries m P entries i'
  end.

(** The loop from entry [i] with [n] entries left; [hdr] gives the header address
    written for a buffer at a machine address. *)
Fixpoint alloc_rx_loop (hdr : Z → Z) (g : pages) (n i : nat) (m : heap) (P : pool) (q : rx_queue) :
    option (Z * heap * pool * rx_queue) :=
  match n with
  | O => Some (0, m, P, q)
  | S n' =>
      '(b, m, P) ← mbuf_alloc m P;
      if b =? NULL then '(m, P) ← free_rx_entries m P (rq_entries q) i; Some (- ENOMEM, m, P, q) else
      maddr ← page_machaddr g (mbuf_mtod_off b 0);
      if decide (i < length (rq_entries q) ∧ i < length (rq_ring q))%nat then
        alloc_rx_loop hdr g n' (S i) m P
          (q <| rq_entries ::= <[i := b]> |> <| rq_ring ::= <[i := mk_rx_desc maddr (hdr maddr)]> |>)
      else None
  end.

Definition ixgbe_alloc_rx_mbufs (g : pages) (m : heap) (P : pool) (q : rx_queue) :=
  alloc_rx_loop (λ a, a) g (Z.to_nat (rq_len q)) 0 m P q.
Definition i40e_alloc_rx_mbufs (g : pages) (m : heap) (P : pool) (q : rx_queue) :=
  alloc_rx_loop (λ _, 0) g (Z.to_nat (rq_len q)) 0 m P q.

(** ** Setting up a ring *)

Definition IXGBE_ALIGN : Z := 128.
Definition IXGBE_MIN_RING_DESC : Z := 64.
Definition IXGBE_MAX_RING_DESC : Z := 4096.
Definition SIZEOF_RX_DESC : Z := 16.
Definition ETH_DEV_RX_QUEUE_SZ : Z := 512.

(** What the two set-up routines have in common, after their checks: the results
    of DPDK's set-up, of the page allocation and of the address lookup are
    arguments. *)
Definition ring_setup (dpdk_ret page lookup_ret nb_desc : Z) : Z * option rx_queue :=
  if dpdk_ret <? 0 then (dpdk_ret, None) else
  if page =? MAP_FAILED then (- ENOMEM, None) else
  if negb (lookup_ret =? 0) then (lookup_ret, None) else
  (0, Some (mk_rx_queue (replicate (Z.to_nat nb_desc) (mk_rx_desc 0 0)) (replicate (Z.to_nat nb_desc) NULL)
              0 (u16 (nb_desc - 1)) nb_desc)).

Definition ixgbe_rx_queue_setup (dpdk_ret page lookup_ret nb_desc : Z) : Z * option rx_queue :=
  if negb ((nb_desc * SIZEOF_RX_DESC) mod IXGBE_ALIGN =? 0) || (IXGBE_MAX_RING_DESC <? nb_desc) ||
     (nb_desc <? IXGBE_MIN_RING_DESC) then (- EINVAL, None) else
  if negb (Z.land nb_desc (nb_desc - 1) =? 0) then (- EINVAL, None) else
  ring_setup dpdk_ret page lookup_ret nb_desc.

Definition i40e_rx_queue_setup (dpdk_ret page lookup_ret nb_desc : Z) : Z * option rx_queue :=
  if negb (Z.land nb_desc (nb_desc - 1) =? 0) then (- EINVAL, None) else
  ring_setup dpdk_ret page lookup_ret nb_desc.

(** The two drivers. *)
Inductive driver := Ixgbe | I40e.

Definition drv_view (d : driver) : rx_desc → rx_view := match d with Ixgbe => ixgbe_view | I40e => i40e_view end.
Definition drv_rx_queue_setup (d : driver) := match d with Ixgbe => ixgbe_rx_queue_setup | I40e => i40e_rx_queue_setup end.
Definition drv_alloc_rx_mbufs (d : driver) := match d with Ixgbe => ixgbe_alloc_rx_mbufs | I40e => i40e_alloc_rx_mbufs end.

(** ** Correctness of the poll *)

(** A descriptor that holds an even address twice is not done. *)
Definition view_clears (view : rx_desc → rx_view) : Prop :=
  ∀ a, Z.even a = true → rv_done (view (mk_rx_desc a a)) = false.

Lemma flag_set_1 x : flag_set x 1 = Z.odd x.
Proof.
  unfold flag_set. change 1 with (Z.ones 1). rewrite Z.land_ones by lia. change (2 ^ 1) with 2.
  rewrite Zmod_odd. by destruct (Z.odd x).
Qed.

Lemma odd_u32 x : Z.odd (u32 x) = Z.odd x.
Proof. rewrite <-!Z.bit0_odd. unfold u32. change U32_MOD with (2 ^ 32). by apply Z.mod_pow2_bits_low. Qed.

Lemma ixgbe_view_clears : view_clears ixgbe_view.
Proof.
  intros a Ha. unfold ixgbe_view. cbn [rv_done rd_qword1]. unfold IXGBE_RXDADV_STAT_DD.
  by rewrite flag_set_1, odd_u32, <-Z.negb_even, Ha.
Qed.

Lemma i40e_view_clears : view_clears i40e_view.
Proof.
  intros a Ha. unfold i40e_view. cbn [rv_done rd_qword1]. change (Z.shiftl 1 I40E_RX_DESC_STATUS_DD_SHIFT) with 1.
  rewrite flag_set_1, odd_u32, <-Z.bit0_odd, Z.land_spec, Z.bit0_odd, <-Z.negb_even, Ha. done.
Qed.

(** What delivery does to the queue and the free list. *)
Definition deliver_spec (valid : bool) (b : ptr) (q F : list ptr) : list ptr * list ptr :=
  if valid && bool_decide (Z.of_nat (length q) < ETH_RX_MAX_DEPTH) then (q ++ [b], F) else (q, b :: F).

(** A ring read from slot [i] on. *)
Definition from_slot {A} (i : nat) (l : list A) : list A := drop i l ++ take i l.
Definition next_slot (i n : nat) : nat := if decide (S i = n) then 0%nat else S i.

Lemma from_slot_head {A} i (l : list A) x : l !! i = Some x → from_slot i l = x :: drop (S i) l ++ take i l.
Proof. intros Hx. unfold from_slot. by rewrite (drop_S l x i Hx). Qed.

Lemma from_slot_next {A} i (l : list A) y :
  (i < length l)%nat →
  from_slot (next_slot i (length l)) (<[i := y]> l) = (drop (S i) l ++ take i l) ++ [y].
Proof.
  intros Hi. unfold next_slot, from_slot. rewrite <-app_assoc. case_decide as Hn.
  - rewrite drop_0, take_0, app_nil_r, insert_take_drop, (drop_ge l) by lia. done.
  - rewrite drop_insert_lt by lia. f_equal. rewrite (take_S_r _ _ y) by (by apply list_lookup_insert_eq).
    by rewrite take_insert_ge by lia.
Qed.

Lemma drv_view_clears d : view_clears (drv_view d).
Proof. destruct d; [apply ixgbe_view_clears|apply i40e_view_clears]. Qed.

Section poll.
Context (view : rx_desc → rx_view) (g : pages) (fgs : list Z) (U : list ptr).
Context (Hview : view_clears view) (Hfgs : fgs ≠ []).
Context (HU : NoDup U) (Hnull : 0 ∉ U).
Context (Hmach : ∀ x, x ∈ U → ∃ a, page_machaddr g (mbuf_mtod_off x 0) = Some a ∧ Z.even a = true).

(** The ring has a power of two of entries, and its buffers, the queued frames
    [q] and the free buffers [F] are exactly [U]. *)
Record poll_inv (q F : list ptr) (s : poll_st) : Prop := {
  pi_pool : pool_rep (po_mem s) (po_mbufs s) F;
  pi_rxq : rx_rep (po_mem s) (po_rxq s) q;
  pi_all : rq_entries (po_ring s) ++ q ++ F ≡ₚ U;
  pi_ring : length (rq_ring (po_ring s)) = length (rq_entries (po_ring s));
  pi_len : rq_len (po_ring s) = Z.of_nat (length (rq_entries (po_ring s)));
  pi_pow : ∃ k, 0 ≤ k ≤ 15 ∧ rq_len (po_ring s) = 2 ^ k;
  pi_head : 0 ≤ rq_head (po_ring s) < 65536;
}.

Lemma slot_in_range q F s : poll_inv q F s → (rq_slot (po_ring s) < length (rq_entries (po_ring s)))%nat.
Proof.
  intros [_ _ _ _ Hl (k & Hk & Hp) Hh]. unfold rq_slot. rewrite Hp, Z.sub_1_r, <-Z.ones_equiv, Z.land_ones by lia.
  pose proof (Z.mod_pos_bound (rq_head (po_ring s)) (2 ^ k) ltac:(apply Z.pow_pos_nonneg; lia)). lia.
Qed.

Lemma rx_fg_id_ok v : is_Some (rx_fg_id fgs v).
Proof.
  unfold rx_fg_id. destruct (rv_flm v); [done|]. apply lookup_lt_is_Some_2.
  set (x := rv_rss v). set (n := Z.of_nat (length fgs)).
  assert (0 < n) by (destruct fgs; simpl in *; [done|lia]).
  pose proof (land_le_mask x (n - 1) ltac:(lia)). lia.
Qed.

Lemma rx_deliver_ok valid m P rxq b q F :
  pool_rep m P F → rx_rep m rxq q → b ≠ NULL → b ∉ F → b ∉ q → (∀ x, x ∈ q → x ∉ F) →
  ∃ m' P' rxq' q' F', rx_deliver valid m P rxq b = Some (m', P', rxq') ∧ pool_rep m' P' F' ∧ rx_rep m' rxq' q' ∧
    (q', F') = deliver_spec valid b q F ∧ same_outside (b :: q ++ F) m m'.
Proof.
  intros HF Hq Hb HbF Hbq Hd. unfold rx_deliver, deliver_spec.
  destruct (pool_free m P F b HF Hb HbF) as (m1 & P1 & E1 & HF1 & Hs1).
  change (mempool_free m P b) with (mbuf_free m P b) in E1.
  assert (rx_rep m1 rxq q) as Hq1 by (eapply rx_rep_frame; [done|done|set_solver]).
  assert (same_outside (b :: q ++ F) m m1) as Hs1' by (eapply same_outside_weaken; [done|set_solver]).
  destruct valid; cbn [mbind option_bind andb].
  - case_bool_decide.
    + destruct (eth_recv_ok m rxq q b) as (m' & rxq' & -> & Hq' & Hfoot); [done..|]. cbn [mbind option_bind negb Z.eqb].
      exists m', P, rxq', (q ++ [b]), F. split; [done|].
      assert (same_outside (q ++ [b]) m m') as Hs by (intros p off Hp; apply Hfoot; by right).
      split_and!; [|done|done|eapply same_outside_weaken; [done|set_solver]].
      eapply pool_rep_frame; [done|done|]. set_solver.
    + unfold eth_recv. rewrite (rx_len _ _ _ Hq), (proj2 (Z.leb_le _ _)) by lia.
      change (negb (- EBUSY =? 0)) with true. cbn [mbind option_bind]. rewrite E1. by exists m1, P1, rxq, q, (b :: F).
  - rewrite E1. by exists m1, P1, rxq, q, (b :: F).
Qed.

Lemma deliver_spec_perm valid b q F : (deliver_spec valid b q F).1 ++ (deliver_spec valid b q F).2 ≡ₚ b :: q ++ F.
Proof. unfold deliver_spec. destruct (valid && _); simpl; solve_Permutation. Qed.

(** The slots of the ring from the head on. *)
Definition pending (q : rx_queue) : list (rx_desc * ptr) := from_slot (rq_slot q) (zip (rq_ring q) (rq_entries q)).

Lemma rq_slot_next r :
  (∃ k, 0 ≤ k ≤ 15 ∧ rq_len r = 2 ^ k) → rq_len r = Z.of_nat (length (rq_entries r)) →
  rq_slot (r <| rq_head ::= λ h, u16 (h + 1) |>) = next_slot (rq_slot r) (length (rq_entries r)).
Proof.
  intros (k & Hk & Hp) Hl. unfold rq_slot, next_slot.
  change (rq_len (r <| rq_head ::= λ h, u16 (h + 1) |>)) with (rq_len r).
  change (rq_head (r <| rq_head ::= λ h, u16 (h + 1) |>)) with (u16 (rq_head r + 1)).
  rewrite Hp, Z.sub_1_r, <-Z.ones_equiv, !Z.land_ones by lia.
  assert (0 < 2 ^ k) by (apply Z.pow_pos_nonneg; lia).
  unfold u16. change U16_MOD with (2 ^ 16). rewrite Z.mod_mod_divide; [|exists (2 ^ (16 - k)); rewrite <-Z.pow_add_r by lia; f_equal; lia].
  pose proof (Z.mod_pos_bound (rq_head r) (2 ^ k) ltac:(lia)) as Hb.
  rewrite <-Z.add_mod_idemp_l by lia. set (h := rq_head r mod 2 ^ k) in *.
  case_decide as Hn.
  - assert (h + 1 = 2 ^ k) as -> by lia. by rewrite Z.mod_same by lia.
  - rewrite Z.mod_small by lia. lia.
Qed.

(** One iteration. *)
Lemma rx_poll_one_ok now q F s :
  poll_inv q F s →
  ∃ more s' q' F', rx_poll_one view g fgs now s = Some (more, s') ∧ poll_inv q' F' s' ∧
    same_outside U (po_mem s) (po_mem s') ∧
    match pending (po_ring s), F with
    | (d, b) :: l, x :: F0 =>
        more = rv_done (view d) ∧
        (more = true → ∃ a, Z.even a = true ∧ pending (po_ring s') = l ++ [(mk_rx_desc a a, x)] ∧
           (q', F') = deliver_spec (rv_valid_checksum (view d)) b q F0) ∧
        (more = false → q' = q)
    | _, _ => more = false ∧ q' = q
    end.
Proof.
  intros Hinv. pose proof (slot_in_range q F s Hinv) as Hslot. pose proof Hinv as [HF Hq Hall Hring Hlen Hpow Hhead].
  unfold rx_poll_one. set (i := rq_slot (po_ring s)) in *. set (en := rq_entries (po_ring s)) in *.
  destruct (lookup_lt_is_Some_2 (rq_ring (po_ring s)) i) as [d Hd]; [lia|]. rewrite Hd. cbn [mbind option_bind].
  destruct (lookup_lt_is_Some_2 en i) as [b Hb]; [lia|].
  assert (zip (rq_ring (po_ring s)) en !! i = Some (d, b)) as Hz by (apply lookup_zip_with_Some; eauto).
  unfold pending at 1. fold i en. rewrite (from_slot_head _ _ _ Hz).
  destruct (rv_done (view d)) eqn:Hdone; cbn [negb].
  2:{ exists false, s, q, F. split_and!; [done..|]. by destruct F. }
  rewrite Hb. cbn [mbind option_bind].
  assert (NoDup (en ++ q ++ F)) as Hnd by (by rewrite Hall).
  assert (en ≡ₚ b :: (take i en ++ drop (S i) en)) as Ep.
  { rewrite <-(take_drop_middle en i b Hb) at 1. solve_Permutation. }
  assert (∀ y, y ∈ b :: q ++ F → y ∈ U) as Hin by (intros y Hy; rewrite <-Hall, Ep; set_solver).
  assert (b ≠ NULL) as Hb0 by (intros ->; apply Hnull, Hin; by left).
  rewrite Ep in Hnd. apply NoDup_cons in Hnd as [Hbn Hnd].
  assert (b ∉ F ∧ b ∉ q ∧ ∀ x, x ∈ q → x ∉ F) as (HbF & Hbq & Hqf).
  { apply NoDup_app in Hnd as (_ & _ & Hnd). apply NoDup_app in Hnd as (_ & Hd' & _). set_solver. }
  destruct (rx_fg_id_ok (view d)) as [fg Hfg].
  rewrite sto_some by done. cbn [mbind option_bind]. rewrite Hfg. cbn [mbind option_bind]. heap_step_head.
  set (m1 := <[(b, MB_TIMESTAMP) := _]> _).
  assert (same_outside [b] (po_mem s) m1) as Hs1.
  { unfold m1. do 3 (eapply same_outside_trans; [|apply same_outside_insert; by left]). done. }
  assert (pool_rep m1 (po_mbufs s) F) as HF1 by (eapply pool_rep_frame; [done|done|set_solver]).
  assert (rx_rep m1 (po_rxq s) q) as Hq1 by (eapply rx_rep_frame; [done|done|set_solver]).
  destruct F as [|x F].
  { rewrite mbuf_alloc_empty by done. cbn [mbind option_bind Z.eqb]. exists false, (mk_poll_st m1 (po_mbufs s) (po_rxq s) (po_ring s)), q, [].
    split; [done|]. split; [by split|]. split_and!; [|done..]. eapply same_outside_weaken; [done|set_solver]. }
  destruct (mbuf_alloc_ok m1 (po_mbufs s) x F HF1) as (m2 & P2 & -> & HF2 & Hx0 & HxF & _ & Hs2). cbn [mbind option_bind].
  rewrite (proj2 (Z.eqb_neq _ _) Hx0).
  destruct (Hmach x) as (a & Ha & Hev); [rewrite <-Hall; set_solver|]. rewrite Ha. cbn [mbind option_bind].
  destruct (rx_deliver_ok (rv_valid_checksum (view d)) m2 P2 (po_rxq s) b q F) as (m3 & P3 & rxq3 & q' & F' & E3 & HF3 & Hq3 & Hp3 & Hs3);
    [done|eapply rx_rep_frame; [done|done|set_solver]|done|set_solver|done|set_solver|].
  rewrite E3. cbn [mbind option_bind]. eexists true, _, q', F'. split; [done|].
  pose proof (deliver_spec_perm (rv_valid_checksum (view d)) b q F) as Hperm. rewrite <-Hp3 in Hperm. cbn [fst snd] in Hperm.
  set (r := (po_ring s) <| rq_entries ::= <[i := x]> |> <| rq_ring ::= <[i := mk_rx_desc a a]> |>).
  assert (length (rq_entries r) = length en) as Hle by apply length_insert.
  split; [split; rsimpl|]; rewrite ?length_insert; try done; try (fold en; lia).
  - rewrite <-Hall, Hperm. fold en i. rewrite insert_take_drop by lia.
    transitivity ((b :: take i en ++ drop (S i) en) ++ q ++ x :: F); [solve_Permutation|by rewrite <-Ep].
  - unfold u16, U16_MOD. apply Z.mod_pos_bound. lia.
  - split.
    { eapply same_outside_trans; [eapply same_outside_weaken; [exact Hs1|]|].
      2:eapply same_outside_trans; [eapply same_outside_weaken; [exact Hs2|]|eapply same_outside_weaken; [exact Hs3|]].
      all: intros y Hy; apply Hin; set_solver. }
    split; [done|]. split; [|done]. intros _. exists a. split_and!; [done| |done].
    unfold pending. cbn [po_ring]. rewrite rq_slot_next by (rewrite ?Hle; done).
    change (rq_slot r) with i. rewrite Hle. change (rq_ring (r <| rq_head ::= λ h, u16 (h + 1) |>)) with (<[i := mk_rx_desc a a]> (rq_ring (po_ring s))).
    change (rq_entries (r <| rq_head ::= λ h, u16 (h + 1) |>)) with (<[i := x]> en).
    rewrite <-insert_zip_with, <-(length_zip_with_r_eq pair (rq_ring (po_ring s)) en) by done.
    apply from_slot_next. rewrite length_zip_with. lia.
Qed.
(** What a poll should do, on the slots [l] from the head on: consume the done
    descriptors in order while there is a free buffer to replace theirs, and queue
    the buffers with a valid checksum while the queue has room. *)
Fixpoint poll_spec (l : list (rx_desc * ptr)) (q F : list ptr) : nat * list ptr :=
  match l, F with
  | (d, b) :: l, x :: F =>
      if rv_done (view d) then
        let '(q', F') := deliver_spec (rv_valid_checksum (view d)) b q F in
        let '(n, q'') := poll_spec l q' F' in (S n, q'')
      else (0%nat, q)
  | _, _ => (0%nat, q)
  end.

(** A slot that is not done ends the poll. *)
Lemma poll_spec_stop l q F d b : rv_done (view d) = false → poll_spec (l ++ [(d, b)]) q F = poll_spec l q F.
Proof.
  intros Hd. revert q F. induction l as [|[d' b'] l IH]; intros q F; simpl.
  - rewrite Hd. by destruct F.
  - destruct F; [done|]. destruct (rv_done (view d')); [|done]. destruct (deliver_spec _ _ _ _). by rewrite IH.
Qed.

Definition done_count (l : list (rx_desc * ptr)) : nat := length (filter (λ e, rv_done (view e.1)) l).

Lemma done_count_cons d b l : done_count ((d, b) :: l) = ((if rv_done (view d) then 1 else 0) + done_count l)%nat.
Proof. unfold done_count. rewrite filter_cons. simpl. by destruct (rv_done (view d)). Qed.

Lemma done_count_snoc d b l : rv_done (view d) = false → done_count (l ++ [(d, b)]) = done_count l.
Proof. intros Hd. unfold done_count. rewrite filter_app, filter_cons. simpl. rewrite Hd. simpl. by rewrite app_nil_r. Qed.

Lemma done_count_pending r : (done_count (pending r) ≤ length (rq_ring r))%nat.
Proof.
  unfold done_count, pending, from_slot. etransitivity; [apply length_filter|].
  rewrite length_app, length_take, length_drop, length_zip_with. lia.
Qed.

Lemma rx_poll_loop_ok fuel now n q F s :
  poll_inv q F s → (done_count (pending (po_ring s)) < fuel)%nat →
  ∃ s' F', rx_poll_loop view g fgs fuel now n s = Some ((n + (poll_spec (pending (po_ring s)) q F).1)%nat, s') ∧
    poll_inv (poll_spec (pending (po_ring s)) q F).2 F' s' ∧ same_outside U (po_mem s) (po_mem s').
Proof.
  revert n q F s. induction fuel as [|fuel IH]; intros n q F s Hinv Hfuel; [lia|].
  destruct (rx_poll_one_ok now q F s Hinv) as (more & s1 & q1 & F1 & E & Hinv1 & Hs1 & Hcase). simpl.
  rewrite E. cbn [mbind option_bind].
  assert (more = false → q1 = q → poll_spec (pending (po_ring s)) q F = (0%nat, q) →
    ∃ s' F', (if more then rx_poll_loop view g fgs fuel now (S n) s1 else Some (n, s1)) =
      Some ((n + (poll_spec (pending (po_ring s)) q F).1)%nat, s') ∧
      poll_inv (poll_spec (pending (po_ring s)) q F).2 F' s' ∧ same_outside U (po_mem s) (po_mem s')) as Hstop.
  { intros -> -> ->. exists s1, F1. by rewrite Nat.add_0_r. }
  destruct (pending (po_ring s)) as [|[d b] l] eqn:Hpend; [by destruct Hcase; apply Hstop|].
  destruct F as [|x F]; [by destruct Hcase; apply Hstop|]. destruct Hcase as (Hm & Hmore & Hno).
  rewrite done_count_cons in Hfuel. simpl in Hstop |- *. rewrite <-Hm in *. destruct more; [clear Hstop|by apply Hstop; auto].
  destruct Hmore as (a & Ha & Hp & Hq1); [done|]. rewrite <-Hq1.
  destruct (IH (S n) q1 F1 s1 Hinv1) as (s' & F' & E' & Hinv' & Hs').
  { rewrite Hp, done_count_snoc by (by apply Hview). lia. }
  rewrite Hp, poll_spec_stop in E', Hinv' by (by apply Hview).
  destruct (poll_spec l q1 F1) as [k q']. exists s', F'. rewrite E'. split_and!; [f_equal; f_equal; simpl; lia|done|].
  by eapply same_outside_trans.
Qed.

Lemma rx_poll_ok now q F s :
  poll_inv q F s →
  ∃ s' F', rx_poll view g fgs now s = Some ((poll_spec (pending (po_ring s)) q F).1, s') ∧
    poll_inv (poll_spec (pending (po_ring s)) q F).2 F' s' ∧ same_outside U (po_mem s) (po_mem s').
Proof.
  intros Hinv. pose proof (done_count_pending (po_ring s)) as Hd.
  destruct (rx_poll_loop_ok (S (length (rq_ring (po_ring s)))) now 0 q F s Hinv) as (s1 & F' & E & [HF Hq Hall Hr Hl Hpow Hh] & Hs); [lia|].
  unfold rx_poll. rewrite E. cbn [mbind option_bind]. eexists _, F'. split; [done|]. split; [|done].
  unfold rx_poll_tail. destruct (_ <=? _); split; done.
Qed.
End poll.

(** C16: Polling a receive ring returns, for both drivers and whatever the card wrote
    into the descriptors.  It consumes the done descriptors in ring order, each
    replaced with a free buffer, appends exactly the frames with a valid checksum
    to the receive queue (as long as it has room), returns the others to the pool,
    and loses and duplicates no buffer. *)
Theorem rx_poll_frames d g fgs U now q F s :
  let view := drv_view d in
  fgs ≠ [] → NoDup U → 0 ∉ U →
  (∀ x, x ∈ U → ∃ a, page_machaddr g (mbuf_mtod_off x 0) = Some a ∧ Z.even a = true) →
  poll_inv U q F s →
  ∃ s' F', rx_poll view g fgs now s = Some ((poll_spec view (pending (po_ring s)) q F).1, s') ∧
    poll_inv U (poll_spec view (pending (po_ring s)) q F).2 F' s' ∧ same_outside U (po_mem s) (po_mem s').
Proof.
  intros view ? ? ? ? ?. apply rx_poll_ok; [apply drv_view_clears|done..].
Qed.

(** ** Correctness of filling the ring *)

Lemma free_rx_entries_ok i m P entries F :
  pool_rep m P F → (i ≤ length entries)%nat → NoDup (take i entries ++ F) → NULL ∉ take i entries →
  ∃ m' P', free_rx_entries m P entries i = Some (m', P') ∧ pool_rep m' P' (take i entries ++ F) ∧
    same_outside (take i entries ++ F) m m'.
Proof.
  revert m P F. induction i as [|i IH]; intros m P F HF Hi Hnd H0; [by exists m, P|].
  destruct (lookup_lt_is_Some_2 entries i) as [b Hb]; [lia|]. simpl. rewrite Hb. cbn [mbind option_bind].
  rewrite (take_S_r _ _ _ Hb) in *. rewrite <-app_assoc in *. simpl in *.
  destruct (pool_free m P F b HF) as (m1 & P1 & E1 & HF1 & Hs1).
  { intros ->. set_solver. }
  { apply NoDup_app in Hnd as (_ & _ & Hnd). by apply NoDup_cons in Hnd as []. }
  change (mempool_free m P b) with (mbuf_free m P b) in E1. rewrite E1. cbn [mbind option_bind].
  destruct (IH m1 P1 (b :: F)) as (m2 & P2 & E2 & HF2 & Hs2); [done|lia|done|set_solver|].
  exists m2, P2. split_and!; [done..|]. eapply same_outside_trans; [|done].
  eapply same_outside_weaken; [done|set_solver].
Qed.

Section fill.
Context (hdr : Z → Z) (g : pages) (U : list ptr).
Context (HU : NoDup U) (Hnull : 0 ∉ U).
Context (Hmach : ∀ x, x ∈ U → ∃ a, page_machaddr g (mbuf_mtod_off x 0) = Some a ∧ Z.even a = true).

Lemma alloc_rx_loop_ok n i m P q F :
  pool_rep m P F → take i (rq_entries q) ++ F = U → (i + n = length (rq_entries q))%nat →
  length (rq_ring q) = length (rq_entries q) →
  ∃ ret m' P' q' F', alloc_rx_loop hdr g n i m P q = Some (ret, m', P', q') ∧ pool_rep m' P' F' ∧ same_outside U m m' ∧
    rq_head q' = rq_head q ∧ rq_tail q' = rq_tail q ∧ rq_len q' = rq_len q ∧
    length (rq_ring q') = length (rq_ring q) ∧ length (rq_entries q') = length (rq_entries q) ∧
    if decide (n ≤ length F)%nat then ret = 0 ∧ rq_entries q' ++ F' = U else ret = - ENOMEM ∧ F' = U.
Proof.
  revert i m P q F. induction n as [|n IH]; intros i m P q F HF HUq Hn Hlen; cbn [alloc_rx_loop].
  { exists 0, m, P, q, F. split_and!; [done..|]. rewrite take_ge in HUq by lia. by case_decide; [|lia]. }
  destruct F as [|x F].
  - rewrite mbuf_alloc_empty by done. cbn [mbind option_bind Z.eqb].
    destruct (free_rx_entries_ok i m P (rq_entries q) []) as (m1 & P1 & E1 & HF1 & Hs1);
      [done|lia|by rewrite HUq|rewrite app_nil_r in HUq; by rewrite HUq|].
    rewrite HUq in *. rewrite E1. cbn [mbind option_bind].
    exists (- ENOMEM), m1, P1, q, U. split_and!; try done.
  - destruct (mbuf_alloc_ok m P x F HF) as (m1 & P1 & -> & HF1 & Hx0 & _ & _ & Hs1). cbn [mbind option_bind].
    rewrite (proj2 (Z.eqb_neq _ _) Hx0).
    destruct (Hmach x) as (a & Ha & _); [rewrite <-HUq; set_solver|]. rewrite Ha. cbn [mbind option_bind].
    rewrite decide_True by lia.
    set (q1 := q <| rq_entries ::= <[i := x]> |> <| rq_ring ::= <[i := mk_rx_desc a (hdr a)]> |>).
    assert (rq_entries q1 = <[i := x]> (rq_entries q)) as He by done.
    assert (rq_ring q1 = <[i := mk_rx_desc a (hdr a)]> (rq_ring q)) as Hr by done.
    destruct (IH (S i) m1 P1 q1 F HF1) as (ret & m2 & P2 & q2 & F2 & E2 & HF2 & Hs2 & Hh & Ht & Hl & Hlr & Hle & Hres).
    { rewrite He, (take_S_r _ _ x) by (apply list_lookup_insert_eq; lia). rewrite take_insert_ge by lia. by rewrite <-app_assoc. }
    { rewrite He, length_insert. lia. }
    { by rewrite He, Hr, !length_insert. }
    rewrite Hr, He, !length_insert in *. exists ret, m2, P2, q2, F2. split_and!; try done.
    + eapply same_outside_trans; [|done]. eapply same_outside_weaken; [done|]. rewrite <-HUq. set_solver.
    + simpl. destruct (decide (n ≤ length F)%nat), (decide (S n ≤ S (length F))%nat); try done; lia.
Qed.
End fill.

Lemma alloc_rx_mbufs_ok d g m P q F :
  pool_rep m P F → 0 ∉ F →
  (∀ x, x ∈ F → ∃ a, page_machaddr g (mbuf_mtod_off x 0) = Some a ∧ Z.even a = true) →
  rq_len q = Z.of_nat (length (rq_entries q)) → length (rq_ring q) = length (rq_entries q) →
  ∃ ret m' P' q' F', drv_alloc_rx_mbufs d g m P q = Some (ret, m', P', q') ∧ pool_rep m' P' F' ∧ same_outside F m m' ∧
    rq_head q' = rq_head q ∧ rq_len q' = rq_len q ∧
    length (rq_ring q') = length (rq_ring q) ∧ length (rq_entries q') = length (rq_entries q) ∧
    if decide (rq_len q ≤ Z.of_nat (length F)) then ret = 0 ∧ rq_entries q' ++ F' = F
    else ret = - ENOMEM ∧ F' = F.
Proof.
  intros HF H0 Hmach Hlen Hring. pose proof (sa_nodup _ _ _ HF) as Hnd.
  assert (∃ hdr, drv_alloc_rx_mbufs d g m P q = alloc_rx_loop hdr g (Z.to_nat (rq_len q)) 0 m P q) as [hdr ->]
    by (destruct d; by eexists).
  destruct (alloc_rx_loop_ok hdr g F Hnd H0 Hmach (Z.to_nat (rq_len q)) 0 m P q F) as
    (ret & m' & P' & q' & F' & E & HF' & Hs & Hh & _ & Hl & Hlr & Hle & Hres); [done|done|lia|done|].
  exists ret, m', P', q', F'. split_and!; [done..|].
  destruct (decide (_ ≤ length F)%nat), (decide (rq_len q ≤ _)); try lia; intuition.
Qed.

(** At start-up both drivers either fill the whole receive ring with distinct
    buffers of the pool, keeping every other buffer free, or report [-ENOMEM]; then
    they have given back every buffer they had taken, in the order of the free
    list. *)
Theorem alloc_rx_mbufs_all_or_nothing d g m P q F :
  pool_rep m P F → 0 ∉ F →
  (∀ x, x ∈ F → ∃ a, page_machaddr g (mbuf_mtod_off x 0) = Some a ∧ Z.even a = true) →
  rq_len q = Z.of_nat (length (rq_entries q)) → length (rq_ring q) = length (rq_entries q) →
  ∃ ret m' P' q' F', drv_alloc_rx_mbufs d g m P q = Some (ret, m', P', q') ∧ pool_rep m' P' F' ∧
    if decide (rq_len q ≤ Z.of_nat (length F)) then ret = 0 ∧ rq_entries q' ++ F' = F ∧ length (rq_entries q') = length (rq_entries q)
    else ret = - ENOMEM ∧ F' = F.
Proof.
  intros HF H0 Hm Hl Hr. destruct (alloc_rx_mbufs_ok d g m P q F HF H0 Hm Hl Hr)
    as (ret & m' & P' & q' & F' & E & HF' & _ & _ & _ & _ & Hle & Hres).
  exists ret, m', P', q', F'. split_and!; [done..|]. case_decide; intuition.
Qed.

(** A number whose only set bit is its highest is a power of two. *)
Lemma land_pred_pow2 n : 0 < n → Z.land n (n - 1) = 0 → n = 2 ^ Z.log2 n.
Proof.
  intros Hn Hl. destruct (Z.log2_spec n Hn) as [Hlo Hhi]. destruct (decide (n = 2 ^ Z.log2 n)) as [|Hne]; [done|].
  assert (Z.testbit (Z.land n (n - 1)) (Z.log2 n) = true) as Hb; [|by rewrite Hl, Z.bits_0 in Hb].
  rewrite Z.land_spec, Z.bit_log2 by done. simpl.
  assert (Z.log2 (n - 1) = Z.log2 n) as <-; [|apply Z.bit_log2; pose proof (Z.pow_pos_nonneg 2 (Z.log2 n)); pose proof (Z.log2_nonneg n); lia].
  apply Z.log2_unique; [apply Z.log2_nonneg|lia].
Qed.

(** A receive ring that the ixgbe driver accepts has a power of two of
    descriptors between 64 and 4096, as many entries as descriptors, none of them
    marked done, and starts at slot 0 with all but one descriptor handed to the
    card; every other request is answered with an error, and no ring. *)
Theorem ixgbe_rx_queue_setup_ring dpdk_ret page lookup_ret nb_desc :
  0 ≤ nb_desc < 65536 →
  match ixgbe_rx_queue_setup dpdk_ret page lookup_ret nb_desc with
  | (ret, Some q) => ret = 0 ∧ rq_len q = nb_desc ∧ (∃ k, 6 ≤ k ≤ 12 ∧ nb_desc = 2 ^ k) ∧
      length (rq_ring q) = Z.to_nat nb_desc ∧ length (rq_entries q) = Z.to_nat nb_desc ∧
      rq_head q = 0 ∧ rq_tail q = nb_desc - 1 ∧ ixgbe_rx_ready q = Some false
  | (ret, None) => ret ≠ 0
  end.
Proof.
  intros Hn. unfold ixgbe_rx_queue_setup, ring_setup.
  destruct (_ || _ || _) eqn:Hc; [done|]. apply orb_false_iff in Hc as [[_ H2]%orb_false_iff H3].
  apply Z.ltb_ge in H2, H3. unfold IXGBE_MAX_RING_DESC, IXGBE_MIN_RING_DESC in *.
  destruct (Z.eqb_spec (Z.land nb_desc (nb_desc - 1)) 0) as [Hl|]; simpl; [|done].
  destruct (Z.ltb_spec dpdk_ret 0); [lia|]. destruct (page =? MAP_FAILED); [done|].
  destruct (Z.eqb_spec lookup_ret 0); simpl; [|done].
  pose proof (land_pred_pow2 nb_desc ltac:(lia) Hl) as Hp.
  assert (6 ≤ Z.log2 nb_desc ≤ 12).
  { split; [apply Z.log2_le_pow2; lia|]. apply Z.lt_succ_r, Z.log2_lt_pow2; [lia|]. change (2 ^ Z.succ 12) with 8192. lia. }
  rewrite !length_replicate, u16_small by (unfold U16_MOD; lia). split_and!; [done|done|by exists (Z.log2 nb_desc)|done..|].
  unfold ixgbe_rx_ready, rq_slot. simpl. by destruct (Z.to_nat nb_desc) eqn:E; [lia|].
Qed.

Lemma ixgbe_rx_queue_setup_ring_witness :
  ∃ q, ixgbe_rx_queue_setup 0 0x200000 0 ETH_DEV_RX_QUEUE_SZ = (0, Some q) ∧ rq_tail q = 511.
Proof.
  pose proof (ixgbe_rx_queue_setup_ring 0 0x200000 0 ETH_DEV_RX_QUEUE_SZ ltac:(unfold ETH_DEV_RX_QUEUE_SZ; lia)) as H.
  destruct (ixgbe_rx_queue_setup 0 0x200000 0 ETH_DEV_RX_QUEUE_SZ) as [ret [q|]] eqn:E; [|by vm_compute in E].
  destruct H as (-> & _ & _ & _ & _ & _ & Ht & _). exists q. split; [done|exact Ht].
Defined.

(** A ring of two slots: a good frame and one with a bad checksum have arrived. *)
Definition ex_nic_base : Z := MEM_PHYS_BASE_ADDR.
Definition ex_nic_free : list ptr := [ex_nic_base + 0x1000; ex_nic_base + 0x2000].
Definition ex_nic_entries : list ptr := [ex_nic_base + 0x3000; ex_nic_base + 0x4000].
Definition ex_nic_heap : heap := <[(ex_nic_base + 0x1000, HDR_NEXT) := ex_nic_base + 0x2000]> ∅.
Definition ex_nic_pool : pool :=
  (ex_ds <| ds_chunk_head := ex_nic_base + 0x1000 |> <| ds_buf := ex_nic_base + 0x1000 |>, ex_pool.2).
Definition ex_nic_ring : rx_queue :=
  mk_rx_queue [mk_rx_desc 0 0x3a00000001; mk_rx_desc 0 0x3a80000041] ex_nic_entries 0 1 2.
Definition ex_nic_st : poll_st := mk_poll_st ex_nic_heap ex_nic_pool (mk_eth_rx_queue 0 0 0) ex_nic_ring.

Lemma ex_nic_pool_rep : pool_rep ex_nic_heap ex_nic_pool ex_nic_free.
Proof.
  exists [], [], [ex_nic_free]. split; [|done]. split; try done; simpl.
  apply (bool_decide_unpack _). by vm_compute.
Qed.

Lemma ex_nic_mach x :
  x ∈ ex_nic_free ++ ex_nic_entries → ∃ a, page_machaddr pages_zero (mbuf_mtod_off x 0) = Some a ∧ Z.even a = true.
Proof.
  assert (Forall (λ x, from_option Z.even false (page_machaddr pages_zero (mbuf_mtod_off x 0)) = true)
    (ex_nic_free ++ ex_nic_entries)) as H by (repeat (apply Forall_cons; split; [by vm_compute|]); apply Forall_nil_2).
  intros Hx. apply (proj1 (Forall_forall _ _) H) in Hx. destruct (page_machaddr _ _) as [a|]; [by exists a|done].
Qed.

Lemma rx_poll_frames_witness :
  ∃ s' F', rx_poll (drv_view Ixgbe) pages_zero [0; 1] 7 ex_nic_st = Some (2%nat, s') ∧
    rx_rep (po_mem s') (po_rxq s') [ex_nic_base + 0x3000] ∧ pool_rep (po_mem s') (po_mbufs s') F'.
Proof.
  destruct (rx_poll_frames Ixgbe pages_zero [0; 1] (ex_nic_free ++ ex_nic_entries) 7 [] ex_nic_free ex_nic_st)
    as (s' & F' & E & [HF Hq _ _ _ _ _] & _).
  - done.
  - apply (bool_decide_unpack _). by vm_compute.
  - apply (bool_decide_unpack _). by vm_compute.
  - apply ex_nic_mach.
  - split; [apply ex_nic_pool_rep|split; try done; constructor| |done|done|by exists 1|done].
    change (ex_nic_entries ++ ex_nic_free ≡ₚ ex_nic_free ++ ex_nic_entries). apply Permutation_app_comm.
  - assert (poll_spec (drv_view Ixgbe) (pending (po_ring ex_nic_st)) [] ex_nic_free = (2%nat, [ex_nic_base + 0x3000])) as Hs by (by vm_compute).
    rewrite Hs in E, Hq. by exists s', F'.
Defined.

Lemma alloc_rx_mbufs_all_or_nothing_witness :
  ∃ m' P' q', drv_alloc_rx_mbufs I40e pages_zero ex_nic_heap ex_nic_pool (mk_rx_queue (replicate 3 (mk_rx_desc 0 0)) (replicate 3 0) 0 0 3) =
    Some (- ENOMEM, m', P', q') ∧ pool_rep m' P' ex_nic_free.
Proof.
  destruct (alloc_rx_mbufs_all_or_nothing I40e pages_zero ex_nic_heap ex_nic_pool
    (mk_rx_queue (replicate 3 (mk_rx_desc 0 0)) (replicate 3 0) 0 0 3) ex_nic_free) as (ret & m' & P' & q' & F' & E & HF & Hres).
  - apply ex_nic_pool_rep.
  - apply (bool_decide_unpack _). by vm_compute.
  - intros x Hx. apply ex_nic_mach. set_solver.
  - done.
  - done.
  - destruct Hres as [-> ->]. by exists m', P', q'.
Defined.
