(* ===== verification/TxRing.v ===== *)
(** * Transmit rings (dp/drivers/ixgbe.c, dp/drivers/i40e.c) and queues

    [eth_send] collects packets, [eth_process_send] has the driver write their
    descriptors into the transmit ring, and [eth_process_reclaim] gives the
    packets back whose last descriptor the card has finished.  A packet takes one
    descriptor for its own data and one for each element of its scatter-gather
    list; the ring entry of its last descriptor holds the packet. *)

From S2P Require Import Prelude Stddef Heap Mempool Page Bytes Mbuf Dispatch NetInput EthQueue RxRing.
Local Open Scope Z_scope.

(** ** What a transmission works on *)

(** The store, the core's pools of packet buffers and of responses, the page
    table and the packet data. *)
Record tx_env := mk_tx_env {
  te_mem : heap;
  te_mbufs : pool;
  te_resp : pool;
  te_pages : pages;
  te_data : packets;
}.
#[export] Instance eta_tx_env : Settable tx_env :=
  λ e, mk_tx_env (te_mem e) (te_mbufs e) (te_resp e) (te_pages e) (te_data e).

(** [struct mbuf_iov]: 24 bytes, and the list lies in the data of its packet. *)
Record mbuf_iov := mk_mbuf_iov { iov_base : ptr; iov_maddr : Z; iov_len : Z }.
Definition SIZEOF_MBUF_IOV : Z := 24.

(** [pkt->iovs[i]] *)
Definition iov_at (e : tx_env) (pkt : ptr) (i : nat) : option mbuf_iov :=
  iovs ← ld (te_mem e) pkt MB_IOVS;
  let o := iovs - mbuf_mtod_off pkt 0 + SIZEOF_MBUF_IOV * Z.of_nat i in
  if o <? 0 then None else
  let d := mbuf_data (te_data e) pkt in
  base ← get64 d (Z.to_nat o);
  maddr ← get64 d (Z.to_nat o + 8);
  len ← get64 d (Z.to_nat o + 16);
  Some (mk_mbuf_iov base maddr len).

(** [mbuf_iov_free] *)
Definition mbuf_iov_free (cpu : nat) (e : tx_env) (iov : mbuf_iov) : option tx_env :=
  '(_, g) ← page_put cpu (te_pages e) (iov_base iov); Some (e <| te_pages := g |>).

Fixpoint free_iovs (cpu : nat) (e : tx_env) (pkt : ptr) (i n : nat) : option tx_env :=
  match n with
  | O => Some e
  | S n' => iov ← iov_at e pkt i; e ← mbuf_iov_free cpu e iov; free_iovs cpu e pkt (S i) n'
  end.

(** [udp_mbuf_done]: the payload of the packet is a response. *)
Definition udp_mbuf_done (cpu : nat) (e : tx_env) (pkt : ptr) : option tx_env :=
  nr ← ld (te_mem e) pkt MB_NR_IOV;
  e ← free_iovs cpu e pkt 0 (Z.to_nat nr);
  done_data ← ld (te_mem e) pkt MB_DONE_DATA;
  '(m, R) ← mempool_free (te_mem e) (te_resp e) done_data;
  '(m, P) ← mbuf_free m (te_mbufs e) pkt;
  Some (e <| te_mem := m |> <| te_resp := R |> <| te_mbufs := P |>).

Definition mbuf_default_done (e : tx_env) (pkt : ptr) : option tx_env :=
  '(m, P) ← mbuf_free (te_mem e) (te_mbufs e) pkt; Some (e <| te_mem := m |> <| te_mbufs := P |>).

(** [mbuf_xmit_done] calls through the function pointer; any other address is no
    function of the program. *)
Definition udp_mbuf_done_fn : Z := 2.
Definition mbuf_xmit_done (cpu : nat) (e : tx_env) (pkt : ptr) : option tx_env :=
  fn ← ld (te_mem e) pkt MB_DONE;
  if fn =? mbuf_default_done_fn then mbuf_default_done e pkt else
  if fn =? udp_mbuf_done_fn then udp_mbuf_done cpu e pkt else None.

(** ** The ring *)

(** A descriptor is two 64-bit words.  For ixgbe the second one is
    [cmd_type_len] and, in its high half, [olinfo_status], over which the card
    writes the status. *)
Record tx_desc := mk_tx_desc { td_qword0 : Z; td_qword1 : Z }.

Record tx_queue := mk_tx_queue {
  tq_ring : list tx_desc;
  tq_entries : list ptr;
  tq_hd : Z;
  tq_tl : Z;
  tq_len : Z;
}.
#[export] Instance eta_tx_queue : Settable tx_queue :=
  λ q, mk_tx_queue (tq_ring q) (tq_entries q) (tq_hd q) (tq_tl q) (tq_len q).

Definition tx_slot (q : tx_queue) (pos : Z) : nat := Z.to_nat (Z.land pos (tq_len q - 1)).

(** Storing to [ring[pos & (len - 1)]] and [ring_entries[pos & (len - 1)]]. *)
Definition set_desc (q : tx_queue) (pos : Z) (d : tx_desc) : option tx_queue :=
  if decide (tx_slot q pos < length (tq_ring q))%nat then Some (q <| tq_ring ::= <[tx_slot q pos := d]> |>) else None.
Definition set_entry (q : tx_queue) (pos : Z) (p : ptr) : option tx_queue :=
  if decide (tx_slot q pos < length (tq_entries q))%nat then Some (q <| tq_entries ::= <[tx_slot q pos := p]> |>) else None.

(** Has the card finished the descriptor? *)
Definition IXGBE_TXD_STAT_DD : Z := 0x1.
Definition ixgbe_tx_dd (d : tx_desc) : bool := flag_set (Z.shiftr (td_qword1 d) 32) IXGBE_TXD_STAT_DD.
Definition I40E_TXD_QW1_DTYPE_MASK : Z := 0xF.
Definition I40E_TX_DESC_DTYPE_DESC_DONE : Z := 0xF.
Definition i40e_tx_dd (d : tx_desc) : bool := Z.land (td_qword1 d) I40E_TXD_QW1_DTYPE_MASK =? I40E_TX_DESC_DTYPE_DESC_DONE.

Section reclaim.
Context {E : Type} (done : E → ptr → option E) (dd : tx_desc → bool).

(** The [while] loop at [idx], with [nb_desc] so far. *)
Fixpoint reclaim_loop (fuel : nat) (idx nb_desc : Z) (e : E) (q : tx_queue) : option (Z * E * tx_queue) :=
  match fuel with
  | O => None
  | S fuel' =>
      if u16 (tq_hd q + idx) =? tq_tl q then Some (nb_desc, e, q) else
      p ← tq_entries q !! tx_slot q (tq_hd q + idx);
      if p =? NULL then reclaim_loop fuel' (idx + 1) nb_desc e q else
      d ← tq_ring q !! tx_slot q (tq_hd q + idx);
      if negb (dd d) then Some (nb_desc, e, q) else
      e ← done e p;
      q ← set_entry q (tq_hd q + idx) NULL;
      reclaim_loop fuel' (idx + 1) (idx + 1) e q
  end.

(** The loop visits each slot between head and tail at most once. *)
Definition tx_reclaim (e : E) (q : tx_queue) : option (Z * E * tx_queue) :=
  '(nb_desc, e, q) ← reclaim_loop (S (Z.to_nat (u16 (tq_tl q - tq_hd q)))) 0 0 e q;
  let q := q <| tq_hd ::= λ h, u16 (h + nb_desc) |> in
  Some (u16 (tq_len q + tq_hd q - tq_tl q), e, q).

(** The check for space at the start of a transmission of [nr] descriptors:
    [false] is [-EAGAIN]. *)
Definition tx_space (nr : Z) (e : E) (q : tx_queue) : option (bool * E * tx_queue) :=
  if tq_len q <=? u16 (tq_tl q + nr - tq_hd q) then
    '(_, e, q) ← tx_reclaim e q;
    Some (negb (tq_len q <=? u16 (tq_tl q + nr - tq_hd q)), e, q)
  else Some (true, e, q).
End reclaim.

Definition ixgbe_tx_reclaim (cpu : nat) := tx_reclaim (mbuf_xmit_done cpu) ixgbe_tx_dd.
Definition i40e_tx_reclaim (cpu : nat) := tx_reclaim (mbuf_xmit_done cpu) i40e_tx_dd.

(** ** ixgbe *)

Definition PKT_TX_IP_CKSUM : Z := 0x1000.
Definition PKT_TX_TCP_CKSUM : Z := 0x2000.
Definition IXGBE_ADVTXD_DTYP_CTXT : Z := 0x00200000.
Definition IXGBE_ADVTXD_DTYP_DATA : Z := 0x00300000.
Definition IXGBE_ADVTXD_DCMD_EOP : Z := 0x01000000.
Definition IXGBE_ADVTXD_DCMD_IFCS : Z := 0x02000000.
Definition IXGBE_ADVTXD_DCMD_RS : Z := 0x08000000.
Definition IXGBE_ADVTXD_DCMD_DEXT : Z := 0x20000000.
Definition IXGBE_ADVTXD_POPTS_IXSM : Z := 0x100.
Definition IXGBE_ADVTXD_POPTS_TXSM : Z := 0x200.
Definition IXGBE_ADVTXD_CC : Z := 0x80.
Definition IXGBE_ADVTXD_TUCMD_IPV4 : Z := 0x400.
Definition IXGBE_ADVTXD_TUCMD_L4T_TCP : Z := 0x800.
Definition IXGBE_ADVTXD_PAYLEN_SHIFT : Z := 14.
Definition IXGBE_ADVTXD_IDX_SHIFT : Z := 4.
Definition IXGBE_ADVTXD_MACLEN_SHIFT : Z := 9.
Definition ETH_HDR_LEN : Z := 14.
Definition IP_HDR_LEN : Z := 20.

(** The words of a data descriptor; [type_len] and [olinfo] are 32 bits each. *)
Definition adv_desc (maddr type_len olinfo : Z) : tx_desc :=
  mk_tx_desc maddr (u32 type_len + 2 ^ 32 * u32 olinfo).

Definition type_len (len : Z) (last : bool) : Z :=
  let t := Z.lor (Z.lor (Z.lor IXGBE_ADVTXD_DTYP_DATA IXGBE_ADVTXD_DCMD_IFCS) IXGBE_ADVTXD_DCMD_DEXT) len in
  if last then Z.lor t (Z.lor IXGBE_ADVTXD_DCMD_EOP IXGBE_ADVTXD_DCMD_RS) else t.

Definition ixgbe_olinfo (ol_flags : Z) : Z :=
  if flag_set ol_flags PKT_TX_IP_CKSUM && flag_set ol_flags PKT_TX_TCP_CKSUM
  then Z.lor (Z.lor IXGBE_ADVTXD_POPTS_IXSM IXGBE_ADVTXD_POPTS_TXSM) IXGBE_ADVTXD_CC else 0.

(** The loop over the scatter-gather list, element [i] with [n] left. *)
Fixpoint ixgbe_xmit_iovs (e : tx_env) (pkt : ptr) (olinfo : Z) (i n : nat) (pay_len : Z) (q : tx_queue) :
    option (Z * tx_queue) :=
  match n with
  | O => Some (pay_len, q)
  | S n' =>
      iov ← iov_at e pkt i;
      q ← set_desc q (tq_tl q + Z.of_nat i + 1) (adv_desc (iov_maddr iov) (type_len (iov_len iov) (n' =? 0)%nat) olinfo);
      ixgbe_xmit_iovs e pkt olinfo (S i) n' (u32 (pay_len + iov_len iov)) q
  end.

(** The part of [ixgbe_tx_xmit_one] behind the check for space, with the values
    read before it. *)
Definition ixgbe_tx_write (e : tx_env) (q : tx_queue) (pkt : ptr) (nr_iov pay_len : Z) : option tx_queue :=
  ol_flags ← ld (te_mem e) pkt MB_OL_FLAGS;
  let olinfo := ixgbe_olinfo ol_flags in
  '(pay_len, q) ← ixgbe_xmit_iovs e pkt olinfo 0 (Z.to_nat nr_iov) pay_len q;
  q ← set_entry q (tq_tl q + nr_iov) pkt;
  maddr ← page_machaddr (te_pages e) (mbuf_mtod_off pkt 0);
  len ← ld (te_mem e) pkt MB_LEN;
  q ← set_desc q (tq_tl q) (adv_desc maddr (type_len len (nr_iov =? 0)) (Z.lor (Z.shiftl pay_len IXGBE_ADVTXD_PAYLEN_SHIFT) olinfo));
  Some (q <| tq_tl ::= λ t, u16 (t + nr_iov + 1) |>).

Definition ixgbe_tx_xmit_one (cpu : nat) (e : tx_env) (q : tx_queue) (pkt : ptr) : option (Z * tx_env * tx_queue) :=
  nr_iov ← ld (te_mem e) pkt MB_NR_IOV;
  len ← ld (te_mem e) pkt MB_LEN;
  '(ok, e, q) ← tx_space (mbuf_xmit_done cpu) ixgbe_tx_dd (nr_iov + 1) e q;
  if negb ok then Some (- EAGAIN, e, q) else
  q ← ixgbe_tx_write e q pkt nr_iov (u32 len);
  Some (0, e, q).

(** The context descriptor for checksum offloading. *)
Definition ixgbe_tx_xmit_ctx (cpu : nat) (e : tx_env) (q : tx_queue) (ol_flags ctx_idx : Z) : option (Z * tx_env * tx_queue) :=
  '(ok, e, q) ← tx_space (mbuf_xmit_done cpu) ixgbe_tx_dd 1 e q;
  if negb ok then Some (- EAGAIN, e, q) else
  let type_tucmd_mlhl := Z.lor IXGBE_ADVTXD_DTYP_CTXT IXGBE_ADVTXD_DCMD_DEXT in
  let type_tucmd_mlhl := if flag_set ol_flags PKT_TX_IP_CKSUM then Z.lor type_tucmd_mlhl IXGBE_ADVTXD_TUCMD_IPV4 else type_tucmd_mlhl in
  let type_tucmd_mlhl := if flag_set ol_flags PKT_TX_TCP_CKSUM then Z.lor type_tucmd_mlhl IXGBE_ADVTXD_TUCMD_L4T_TCP else type_tucmd_mlhl in
  let mss_l4len_idx := u32 (Z.shiftl ctx_idx IXGBE_ADVTXD_IDX_SHIFT) in
  let vlan_macip_lens := Z.lor (Z.shiftl ETH_HDR_LEN IXGBE_ADVTXD_MACLEN_SHIFT) IP_HDR_LEN in
  q ← set_desc q (tq_tl q) (mk_tx_desc vlan_macip_lens (type_tucmd_mlhl + 2 ^ 32 * mss_l4len_idx));
  q ← set_entry q (tq_tl q) NULL;
  Some (0, e, q <| tq_tl ::= λ t, u16 (t + 1) |>).

(** ** i40e *)

Definition I40E_TX_DESC_CMD_EOP : Z := 0x1.
Definition I40E_TX_DESC_CMD_RS : Z := 0x2.
Definition I40E_TX_DESC_CMD_ICRC : Z := 0x4.
Definition I40E_TX_DESC_CMD_IIPT_IPV4_CSUM : Z := 0x60.
Definition I40E_TX_DESC_CMD_L4T_EOFT_TCP : Z := 0x100.
Definition I40E_TD_CMD : Z := Z.lor I40E_TX_DESC_CMD_ICRC I40E_TX_DESC_CMD_EOP.
Definition SIZEOF_TCP_HDR : Z := 20.

Definition i40e_build_ctob (td_cmd td_offset size td_tag : Z) : Z :=
  Z.lor (Z.lor (Z.lor (u64 (Z.shiftl td_cmd 4)) (u64 (Z.shiftl td_offset 16))) (u64 (Z.shiftl size 34))) (u64 (Z.shiftl td_tag 48)).

(** [i40e_txd_enable_checksum] *)
Definition i40e_txd_enable_checksum (td_cmd td_offset : Z) : Z * Z :=
  (Z.lor (Z.lor td_cmd I40E_TX_DESC_CMD_L4T_EOFT_TCP) I40E_TX_DESC_CMD_IIPT_IPV4_CSUM,
   Z.lor (Z.lor (Z.lor td_offset (Z.shiftl (Z.shiftr SIZEOF_TCP_HDR 2) 14)) (Z.shiftl (Z.shiftr 20 2) 7)) (Z.shiftl (Z.shiftr ETH_HDR_LEN 1) 0)).

(** The part of [i40e_tx_xmit_one] behind the check for space; the address of the
    descriptor was taken before it. *)
Definition i40e_tx_write (e : tx_env) (q : tx_queue) (pos : Z) (pkt : ptr) (ol_flags : Z) : option tx_queue :=
  let td_cmd := Z.lor (Z.lor I40E_TD_CMD I40E_TX_DESC_CMD_RS) I40E_TX_DESC_CMD_ICRC in
  let '(td_cmd, td_offset) := if flag_set ol_flags PKT_TX_TCP_CKSUM then i40e_txd_enable_checksum td_cmd 0 else (td_cmd, 0) in
  q ← set_entry q (tq_tl q) pkt;
  maddr ← page_machaddr (te_pages e) (mbuf_mtod_off pkt 0);
  len ← ld (te_mem e) pkt MB_LEN;
  q ← set_desc q pos (mk_tx_desc maddr (i40e_build_ctob td_cmd td_offset (u32 len) 0));
  Some (q <| tq_tl ::= λ t, u16 (t + 1) |>).

Definition i40e_tx_xmit_one (cpu : nat) (e : tx_env) (q : tx_queue) (pkt : ptr) : option (Z * tx_env * tx_queue) :=
  let pos := tq_tl q in
  ol_flags ← ld (te_mem e) pkt MB_OL_FLAGS;
  '(ok, e, q) ← tx_space (mbuf_xmit_done cpu) i40e_tx_dd 1 e q;
  if negb ok then Some (- EAGAIN, e, q) else
  q ← i40e_tx_write e q pos pkt ol_flags;
  Some (0, e, q).

(** ** Sending a batch *)

(** The driver's [xmit]: the packets from [mbufs], until one does not fit. *)
Fixpoint xmit_loop (xmit_one : tx_env → tx_queue → ptr → option (Z * tx_env * tx_queue))
    (mbufs : list ptr) (nb_pkts : Z) (e : tx_env) (q : tx_queue) : option (Z * tx_env * tx_queue) :=
  match mbufs with
  | [] => Some (nb_pkts, e, q)
  | pkt :: mbufs =>
      '(ret, e, q) ← xmit_one e q pkt;
      if negb (ret =? 0) then Some (nb_pkts, e, q) else xmit_loop xmit_one mbufs (nb_pkts + 1) e q
  end.

Definition ixgbe_tx_xmit (cpu : nat) (mbufs : list ptr) := xmit_loop (ixgbe_tx_xmit_one cpu) mbufs 0.
Definition i40e_tx_xmit (cpu : nat) (mbufs : list ptr) := xmit_loop (i40e_tx_xmit_one cpu) mbufs 0.

(** [struct eth_tx_queue]: the free descriptors and the packets to send, at most
    [ETH_DEV_TX_QUEUE_SZ] of them. *)
Definition ETH_DEV_TX_QUEUE_SZ : Z := 4096.
Record eth_tx_queue := mk_eth_tx_queue { etx_cap : Z; etx_bufs : list ptr }.

Definition eth_send (e : tx_env) (t : eth_tx_queue) (pkt : ptr) : option (Z * eth_tx_queue) :=
  nr_iov ← ld (te_mem e) pkt MB_NR_IOV;
  let nr := 1 + nr_iov in
  if etx_cap t <? nr then Some (- EBUSY, t) else
  if Z.of_nat (length (etx_bufs t)) <? ETH_DEV_TX_QUEUE_SZ
  then Some (0, mk_eth_tx_queue (etx_cap t - nr) (etx_bufs t ++ [pkt])) else None.

Definition eth_send_one (e : tx_env) (t : eth_tx_queue) (pkt : ptr) (len : Z) : option (Z * tx_env * eth_tx_queue) :=
  m ← sto (te_mem e) pkt MB_LEN len;
  m ← sto m pkt MB_NR_IOV 0;
  let e := e <| te_mem := m |> in
  '(ret, t) ← eth_send e t pkt;
  Some (ret, e, t).

(** [eth_process_reclaim] and [eth_process_send] for one queue; the inner [None]
    is [panic]. *)
Definition eth_process_reclaim (d : driver) (cpu : nat) (e : tx_env) (q : tx_queue) (t : eth_tx_queue) :
    option (tx_env * tx_queue * eth_tx_queue) :=
  '(cap, e, q) ← match d with Ixgbe => ixgbe_tx_reclaim cpu e q | I40e => i40e_tx_reclaim cpu e q end;
  Some (e, q, mk_eth_tx_queue cap (etx_bufs t)).

Definition eth_process_send (d : driver) (cpu : nat) (e : tx_env) (q : tx_queue) (t : eth_tx_queue) :
    option (option (tx_env * tx_queue * eth_tx_queue)) :=
  '(nr, e, q) ← match d with Ixgbe => ixgbe_tx_xmit cpu (etx_bufs t) e q | I40e => i40e_tx_xmit cpu (etx_bufs t) e q end;
  if negb (nr =? Z.of_nat (length (etx_bufs t))) then Some None
  else Some (Some (e, q, mk_eth_tx_queue (etx_cap t) [])).

(** [ixgbe_reset_tx_queue] and [i40_reset_tx_queue]. *)
Fixpoint reset_entries (entries : list ptr) (i n : nat) : option (list ptr) :=
  match n with
  | O => Some entries
  | S n' => if decide (i < length entries)%nat then reset_entries (<[i := NULL]> entries) (S i) n' else None
  end.
Definition reset_tx_queue (q : tx_queue) : option tx_queue :=
  entries ← reset_entries (tq_entries q) 0 (Z.to_nat (tq_len q));
  Some (q <| tq_entries := entries |> <| tq_hd := 0 |> <| tq_tl := 0 |>).

(** [tx_queue_setup]; the two drivers differ in their limits and in the result of
    the reset they share.  The page is zeroed. *)
Definition SIZEOF_TX_DESC : Z := 16.
Definition tx_queue_setup (align max_desc min_desc dpdk_ret page lookup_ret nb_desc : Z) : option (Z * option tx_queue) :=
  if negb ((nb_desc * SIZEOF_TX_DESC) mod align =? 0) || (max_desc <? nb_desc) || (nb_desc <? min_desc)
  then Some (- EINVAL, None) else
  if negb (Z.land nb_desc (nb_desc - 1) =? 0) then Some (- EINVAL, None) else
  if dpdk_ret <? 0 then Some (dpdk_ret, None) else
  if page =? MAP_FAILED then Some (- ENOMEM, None) else
  if negb (lookup_ret =? 0) then Some (lookup_ret, None) else
  q ← reset_tx_queue
        (mk_tx_queue (replicate (Z.to_nat nb_desc) (mk_tx_desc 0 0)) (replicate (Z.to_nat nb_desc) NULL) 0 0 nb_desc);
  Some (0, Some q).

Definition I40E_RING_BASE_ALIGN : Z := 128.
Definition I40E_MAX_RING_DESC : Z := 4096.
Definition I40E_MIN_RING_DESC : Z := 64.
Definition ixgbe_tx_queue_setup := tx_queue_setup IXGBE_ALIGN IXGBE_MAX_RING_DESC IXGBE_MIN_RING_DESC.
Definition i40e_tx_queue_setup := tx_queue_setup I40E_RING_BASE_ALIGN I40E_MAX_RING_DESC I40E_MIN_RING_DESC.
Definition drv_tx_queue_setup (d : driver) := match d with Ixgbe => ixgbe_tx_queue_setup | I40e => i40e_tx_queue_setup end.

(** What [dev_start] adds to a new ring: ixgbe puts the context descriptor in it. *)
Definition dev_start_tx (d : driver) (cpu : nat) (e : tx_env) (q : tx_queue) : option (tx_env * tx_queue) :=
  match d with
  | Ixgbe => '(_, e, q) ← ixgbe_tx_xmit_ctx cpu e q (Z.lor PKT_TX_IP_CKSUM PKT_TX_TCP_CKSUM) 0; Some (e, q)
  | I40e => Some (e, q)
  end.

(** ** The ring as a queue of descriptors *)

(** [fl]: the descriptors between head and tail in order, each with the packet
    that its completion gives back (NULL for all but the last of a packet).  The
    entries outside are NULL. *)
Record tx_rep (q : tx_queue) (fl : list (tx_desc * ptr)) : Prop := {
  tx_pow : ∃ k, 0 ≤ k ≤ 15 ∧ tq_len q = 2 ^ k;
  tx_ring_len : Z.of_nat (length (tq_ring q)) = tq_len q;
  tx_entries_len : Z.of_nat (length (tq_entries q)) = tq_len q;
  tx_hd_range : 0 ≤ tq_hd q < 65536;
  tx_tl : tq_tl q = u16 (tq_hd q + Z.of_nat (length fl));
  tx_room : Z.of_nat (length fl) < tq_len q;
  tx_descs : ∀ j, (j < length fl)%nat → tq_ring q !! tx_slot q (tq_hd q + Z.of_nat j) = (fl !! j) ≫= λ x, Some x.1;
  tx_ents : ∀ j, Z.of_nat j < tq_len q → tq_entries q !! tx_slot q (tq_hd q + Z.of_nat j) = Some (default NULL (snd <$> fl !! j));
}.

Section slots.
Context (q : tx_queue) (fl : list (tx_desc * ptr)) (Hq : tx_rep q fl).

Lemma tx_len_pos : 0 < tq_len q ∧ (tq_len q | 65536).
Proof.
  destruct (tx_pow _ _ Hq) as (k & Hk & ->). split; [apply Z.pow_pos_nonneg; lia|].
  exists (2 ^ (16 - k)). rewrite <-Z.pow_add_r by lia. by replace (16 - k + k) with 16 by lia.
Qed.

Lemma tx_slot_mod pos : tx_slot q pos = Z.to_nat (pos mod tq_len q).
Proof.
  unfold tx_slot. destruct (tx_pow _ _ Hq) as (k & Hk & ->). by rewrite Z.sub_1_r, <-Z.ones_equiv, Z.land_ones by lia.
Qed.

Lemma tx_slot_bound pos : Z.of_nat (tx_slot q pos) < tq_len q.
Proof. rewrite tx_slot_mod. pose proof tx_len_pos as [H _]. pose proof (Z.mod_pos_bound pos _ H). lia. Qed.

Lemma tx_slot_u16 x y : tx_slot q (u16 x + y) = tx_slot q (x + y).
Proof.
  rewrite !tx_slot_mod. pose proof tx_len_pos as [H Hd]. unfold u16. f_equal.
  rewrite <-(Zplus_mod_idemp_l (x mod _)), Z.mod_mod_divide, Zplus_mod_idemp_l by done. done.
Qed.

Lemma tx_slot_inj b i j :
  Z.of_nat i < tq_len q → Z.of_nat j < tq_len q → tx_slot q (b + Z.of_nat i) = tx_slot q (b + Z.of_nat j) → i = j.
Proof.
  intros Hi Hj. rewrite !tx_slot_mod. pose proof tx_len_pos as [H _].
  pose proof (Z.mod_pos_bound (b + Z.of_nat i) _ H). pose proof (Z.mod_pos_bound (b + Z.of_nat j) _ H). intros E.
  assert ((b + Z.of_nat i) mod tq_len q = (b + Z.of_nat j) mod tq_len q) as E' by lia.
  pose proof (Z.div_mod (b + Z.of_nat i) (tq_len q) ltac:(lia)). pose proof (Z.div_mod (b + Z.of_nat j) (tq_len q) ltac:(lia)).
  set (u := (b + Z.of_nat i) / _) in *. set (v := (b + Z.of_nat j) / _) in *.
  assert (tq_len q * (u - v) = Z.of_nat i - Z.of_nat j) by lia.
  clear -H H0 H1 Hi Hj H4. assert (u = v); [|subst; nia]. destruct (Z.lt_trichotomy u v) as [?|[?|?]]; [|done|]; nia.
Qed.

(** The distance from head to a position, as the code computes it. *)
Lemma tx_distance n : 0 ≤ n → Z.of_nat (length fl) + n < 65536 →
  u16 (tq_tl q + n - tq_hd q) = Z.of_nat (length fl) + n.
Proof.
  intros Hn Hb. rewrite (tx_tl _ _ Hq). unfold u16. rewrite <-Z.add_sub_assoc, Zplus_mod_idemp_l.
  replace (tq_hd q + Z.of_nat (length fl) + (n - tq_hd q)) with (Z.of_nat (length fl) + n) by lia.
  rewrite Z.mod_small; unfold U16_MOD; lia.
Qed.

Lemma tx_at_tail j : (j ≤ length fl)%nat → u16 (tq_hd q + Z.of_nat j) = tq_tl q ↔ j = length fl.
Proof.
  intros Hj. rewrite (tx_tl _ _ Hq). split; [|by intros ->]. intros E.
  pose proof (tx_room _ _ Hq). destruct (tx_pow _ _ Hq) as (k & Hk & Hp).
  assert (tq_len q ≤ 2 ^ 15) by (rewrite Hp; apply Z.pow_le_mono_r; lia).
  pose proof (tx_hd_range _ _ Hq). unfold u16 in E. change (2 ^ 15) with 32768 in *.
  assert (∀ x, 0 ≤ x < 131072 → x mod U16_MOD = if x <? 65536 then x else x - 65536) as Hm.
  { intros x Hx. unfold U16_MOD. destruct (Z.ltb_spec x 65536); [apply Z.mod_small; lia|].
    symmetry. apply (Z.mod_unique_pos _ _ 1); lia. }
  rewrite !Hm in E by lia. destruct (Z.ltb_spec (tq_hd q + Z.of_nat j) 65536), (Z.ltb_spec (tq_hd q + Z.of_nat (length fl)) 65536); lia.
Qed.
End slots.

(** ** Reclaiming *)

Section reclaim_ok.
Context {E : Type} (done : E → ptr → option E) (dd : tx_desc → bool).

(** The packets given back, and the descriptors passed over: everything up to the
    last packet such that it and all packets before it are finished. *)
Fixpoint completed (fl : list (tx_desc * ptr)) : list ptr :=
  match fl with
  | [] => []
  | (d, p) :: fl => if p =? NULL then completed fl else if dd d then p :: completed fl else []
  end.
Fixpoint passed (fl : list (tx_desc * ptr)) : nat :=
  match fl with
  | [] => 0
  | (d, p) :: fl =>
      if p =? NULL then match passed fl with O => 0 | n => S n end else if dd d then S (passed fl) else 0
  end.

Fixpoint release_all (e : E) (ps : list ptr) : option E :=
  match ps with [] => Some e | p :: ps => e ← done e p; release_all e ps end.

Definition same_ring (q q' : tx_queue) : Prop :=
  tq_ring q' = tq_ring q ∧ tq_hd q' = tq_hd q ∧ tq_tl q' = tq_tl q ∧ tq_len q' = tq_len q.

Lemma set_entry_ok q fl j p :
  tx_rep q fl → Z.of_nat j < tq_len q →
  ∃ q', set_entry q (tq_hd q + Z.of_nat j) p = Some q' ∧ same_ring q q' ∧ length (tq_entries q') = length (tq_entries q) ∧
    ∀ i, Z.of_nat i < tq_len q → tq_entries q' !! tx_slot q (tq_hd q + Z.of_nat i) =
      if decide (i = j) then Some p else tq_entries q !! tx_slot q (tq_hd q + Z.of_nat i).
Proof.
  intros Hq Hj. unfold set_entry. pose proof (tx_slot_bound q fl Hq (tq_hd q + Z.of_nat j)).
  pose proof (tx_entries_len _ _ Hq). rewrite decide_True by lia. eexists. split; [done|].
  split; [done|]. rsimpl. split; [by rewrite length_insert|]. intros i Hi. case_decide as Hij.
  - subst i. rewrite list_lookup_insert_eq; [done|lia].
  - apply list_lookup_insert_ne. intros Es. apply Hij. symmetry. by eapply (tx_slot_inj q fl Hq).
Qed.

(** Clearing the entry of slot [length pre]. *)
Lemma clear_entry_ok q pre d p post :
  tx_rep q (pre ++ (d, p) :: post) →
  ∃ q', set_entry q (tq_hd q + Z.of_nat (length pre)) NULL = Some q' ∧ same_ring q q' ∧
    tx_rep q' (pre ++ (d, NULL) :: post).
Proof.
  intros Hq. pose proof (tx_room _ _ Hq) as Hr. rewrite length_app in Hr. simpl in Hr.
  destruct (set_entry_ok q _ (length pre) NULL Hq ltac:(lia)) as (q' & E' & Hs & Hl & He).
  exists q'. split; [done|]. split; [done|]. destruct Hs as (Er & Eh & Et & En). destruct Hq.
  assert (∀ x, tx_slot q' x = tx_slot q x) as Hsl by (intros; unfold tx_slot; by rewrite En).
  assert (∀ i : nat, (pre ++ (d, NULL) :: post) !! i = if decide (i = length pre) then Some (d, NULL) else (pre ++ (d, p) :: post) !! i) as Hpos.
  { intros i. case_decide as Hi; [subst i; by rewrite list_lookup_middle|].
    destruct (decide (i < length pre)%nat); [by rewrite !lookup_app_l by lia|].
    rewrite !lookup_app_r by lia. by destruct (i - length pre)%nat eqn:Ei; [lia|]. }
  rewrite length_app in *. simpl in *.
  constructor; rewrite ?Er, ?Eh, ?Et, ?En, ?Hl, ?length_app; try done.
  - intros j Hj. simpl in Hj. rewrite Hsl, tx_descs0 by done. rewrite Hpos. case_decide; [subst; by rewrite list_lookup_middle|done].
  - intros j Hj. rewrite Hsl, He, Hpos by done. case_decide; [done|]. by apply tx_ents0.
Qed.

Definition nulled (fl : list (tx_desc * ptr)) : list (tx_desc * ptr) := (λ x, (x.1, NULL)) <$> fl.

Lemma same_ring_trans q1 q2 q3 : same_ring q1 q2 → same_ring q2 q3 → same_ring q1 q3.
Proof. unfold same_ring. intuition congruence. Qed.

Lemma passed_le fl : (passed fl ≤ length fl)%nat.
Proof. induction fl as [|[d p] fl IH]; simpl; [done|]. destruct (p =? NULL), (dd d), (passed fl); lia. Qed.

Lemma nulled_id fl : Forall (λ x, x.2 = NULL) fl → nulled fl = fl.
Proof. induction 1 as [|[d p] fl Hp _ IH]; [done|]. simpl in *. unfold nulled in *. simpl. by rewrite IH, Hp. Qed.

Lemma reclaim_loop_ok fuel : ∀ pre post e q nb,
  tx_rep q (pre ++ post) → (length post < fuel)%nat →
  match release_all e (completed post) with
  | None => reclaim_loop done dd fuel (Z.of_nat (length pre)) nb e q = None
  | Some e' => ∃ q', reclaim_loop done dd fuel (Z.of_nat (length pre)) nb e q =
        Some (if (passed post =? 0)%nat then nb else Z.of_nat (length pre + passed post), e', q') ∧
      same_ring q q' ∧ tx_rep q' (pre ++ nulled (take (passed post) post) ++ drop (passed post) post)
  end.
Proof.
  induction fuel as [|fuel IH]; intros pre post e q nb Hq Hf; [lia|]. cbn [reclaim_loop].
  pose proof (tx_room _ _ Hq) as Hr. rewrite length_app in Hr.
  destruct post as [|[d p] post].
  { rewrite (proj2 (tx_at_tail q _ Hq (length pre) ltac:(rewrite length_app; lia))), Z.eqb_refl by (by rewrite app_nil_r).
    cbn. eexists. split; [done|]. by split. }
  rewrite (proj2 (Z.eqb_neq _ _)).
  2: { rewrite (tx_at_tail q _ Hq (length pre)); rewrite length_app; simpl; lia. }
  rewrite (tx_ents _ _ Hq (length pre)) by lia. rewrite list_lookup_middle by done.
  change (default NULL (snd <$> Some (d, p))) with p. cbn [mbind option_bind].
  cbn [completed passed]. simpl in Hf.
  destruct (Z.eqb_spec p NULL) as [->|Hp].
  - specialize (IH (pre ++ [(d, NULL)]) post e q nb). rewrite <-app_assoc in IH. specialize (IH Hq ltac:(lia)).
    rewrite length_app, Nat2Z.inj_add in IH. change (Z.of_nat (length [(d, NULL)])) with 1 in IH.
    destruct (release_all e (completed post)) as [e'|]; [|done]. destruct IH as (q' & -> & Hs & Hq').
    exists q'. destruct (passed post) as [|n] eqn:En.
    + split; [done|]. split; [done|]. cbn [take drop nulled fmap list_fmap app] in *. by rewrite <-app_assoc in Hq'.
    + split; [|split; [done|]]; [cbn [Nat.eqb]; do 3 f_equal; simpl; lia|].
      cbn [take drop nulled fmap list_fmap app fst] in *. by rewrite <-app_assoc in Hq'.
  - rewrite (tx_descs _ _ Hq (length pre)), list_lookup_middle by (done || rewrite length_app; simpl; lia).
    cbn [mbind option_bind fst]. destruct (dd d); cbn [negb release_all mbind option_bind].
    2: { exists q. split; [done|]. by split. }
    destruct (done e p) as [e1|]; cbn [mbind option_bind]; [|done].
    destruct (clear_entry_ok q pre d p post Hq) as (q1 & -> & Hs1 & Hq1). cbn [mbind option_bind].
    specialize (IH (pre ++ [(d, NULL)]) post e1 q1 (Z.of_nat (length pre) + 1)). rewrite <-app_assoc in IH. specialize (IH Hq1 ltac:(lia)).
    rewrite length_app, Nat2Z.inj_add in IH. change (Z.of_nat (length [(d, NULL)])) with 1 in IH.
    destruct (release_all e1 (completed post)) as [e'|]; [|done]. destruct IH as (q' & -> & Hs & Hq').
    exists q'. split; [|split; [by eapply same_ring_trans|]].
    + do 3 f_equal. destruct (passed post); simpl; lia.
    + cbn [take drop nulled fmap list_fmap app fst] in *. by rewrite <-app_assoc in Hq'.
Qed.

(** Moving the head over descriptors whose entries are NULL. *)
Lemma advance_head q pre post :
  tx_rep q (pre ++ post) → Forall (λ x, x.2 = NULL) pre → tx_rep (q <| tq_hd ::= λ h, u16 (h + Z.of_nat (length pre)) |>) post.
Proof.
  intros Hq Hnull. pose proof (tx_slot_u16 q _ Hq) as Hu. pose proof (tx_len_pos q _ Hq) as [Hpos Hd].
  pose proof (tx_slot_mod q _ Hq) as Hm. destruct Hq. rewrite length_app in *.
  set (q' := q <| tq_hd ::= _ |>).
  assert (∀ x, tx_slot q' x = tx_slot q x) as Hsl by done.
  assert (tq_hd q' = u16 (tq_hd q + Z.of_nat (length pre))) as Eh by done.
  constructor; try done; rewrite ?Eh.
  - apply u16_range.
  - change (tq_tl q') with (tq_tl q). rewrite tx_tl0. unfold u16. rewrite Zplus_mod_idemp_l. f_equal. lia.
  - change (tq_len q') with (tq_len q). lia.
  - intros j Hj. rewrite Hsl, Hu. change (tq_ring q') with (tq_ring q).
    specialize (tx_descs0 (length pre + j)%nat ltac:(lia)). rewrite Nat2Z.inj_add, Z.add_assoc in tx_descs0.
    rewrite tx_descs0, lookup_app_r by lia. do 2 f_equal. lia.
  - change (tq_len q') with (tq_len q). change (tq_entries q') with (tq_entries q). intros j Hj. rewrite Hsl, Hu.
    destruct (Z.lt_ge_cases (Z.of_nat (length pre + j)) (tq_len q)) as [Hlt|Hge].
    + specialize (tx_ents0 (length pre + j)%nat Hlt). rewrite Nat2Z.inj_add, Z.add_assoc in tx_ents0.
      rewrite tx_ents0, lookup_app_r by lia. do 3 f_equal. f_equal. lia.
    + specialize (tx_ents0 (length pre + j - Z.to_nat (tq_len q))%nat ltac:(lia)).
      rewrite Hm in *. replace ((tq_hd q + Z.of_nat (length pre) + Z.of_nat j) mod tq_len q)
        with ((tq_hd q + Z.of_nat (length pre + j - Z.to_nat (tq_len q))) mod tq_len q).
      * rewrite tx_ents0, lookup_app_l by lia. rewrite (lookup_ge_None_2 post j) by lia.
        destruct (pre !! _) as [x|] eqn:Ex; [|done]. rewrite Forall_lookup in Hnull. by rewrite <-(Hnull _ _ Ex).
      * replace (tq_hd q + Z.of_nat (length pre) + Z.of_nat j)
          with (tq_hd q + Z.of_nat (length pre + j - Z.to_nat (tq_len q)) + 1 * tq_len q) by lia.
        by rewrite Z.mod_add by lia.
Qed.

Lemma u16_complement len h t n : u16 (t - h) = n → n ≤ len < 65536 → u16 (len + h - t) = len - n.
Proof.
  intros <- Hn. pose proof (u16_range (t - h)). unfold u16 in *.
  replace (len + h - t) with (len - (t - h)) by lia. rewrite <-Zminus_mod_idemp_r. apply Z.mod_small. unfold U16_MOD in *. lia.
Qed.

Lemma tx_reclaim_ok e q fl :
  tx_rep q fl →
  match release_all e (completed fl) with
  | None => tx_reclaim done dd e q = None
  | Some e' => ∃ q', tx_reclaim done dd e q = Some (tq_len q - Z.of_nat (length fl - passed fl), e', q') ∧
      tq_len q' = tq_len q ∧ tq_tl q' = tq_tl q ∧ tx_rep q' (drop (passed fl) fl)
  end.
Proof.
  intros Hq. unfold tx_reclaim. pose proof (tx_room _ _ Hq) as Hr.
  destruct (tx_pow _ _ Hq) as (k & Hk & Hp). assert (tq_len q ≤ 32768).
  { change 32768 with (2 ^ 15). rewrite Hp. apply Z.pow_le_mono_r; lia. }
  pose proof (tx_distance q fl Hq 0 ltac:(lia) ltac:(lia)) as Hd. rewrite !Z.add_0_r in Hd. rewrite Hd, Nat2Z.id.
  pose proof (reclaim_loop_ok (S (length fl)) [] fl e q 0 Hq ltac:(lia)) as Hl.
  destruct (release_all e (completed fl)) as [e'|]; [|change 0 with (Z.of_nat (@length (tx_desc * ptr) [])) at 1; by rewrite Hl].
  destruct Hl as (q' & Hl & (Er & Eh & Et & En) & Hq'). change (Z.of_nat (length [])) with 0 in Hl. rewrite Hl.
  cbn [mbind option_bind app length] in *. pose proof (passed_le fl) as Hpl.
  assert (advanced : tx_rep (q' <| tq_hd ::= λ h, u16 (h + Z.of_nat (passed fl)) |>) (drop (passed fl) fl)).
  { pose proof (advance_head q' _ _ Hq') as Ha. unfold nulled in Ha at 2. rewrite length_fmap, length_take, Nat.min_l in Ha by done.
    apply Ha. unfold nulled. by apply Forall_fmap, Forall_true. }
  replace (if (passed fl =? 0)%nat then 0 else Z.of_nat (0 + passed fl)) with (Z.of_nat (passed fl))
    by (destruct (passed fl); done).
  eexists. split; [|split; [|split; [|exact advanced]]]; [|done..].
  do 3 f_equal. pose proof (tx_distance _ _ advanced 0 ltac:(lia)) as Hd'. rewrite length_drop in Hd'.
  rewrite <-En in *. apply u16_complement; [|rsimpl; lia..].
  rsimpl. rewrite !Z.add_0_r in Hd'. apply Hd'. lia.
Qed.


Lemma tx_space_ok nr e q fl :
  tx_rep q fl → 0 ≤ nr → tq_len q + nr < 65536 →
  if decide (Z.of_nat (length fl) + nr < tq_len q) then tx_space done dd nr e q = Some (true, e, q)
  else match release_all e (completed fl) with
  | None => tx_space done dd nr e q = None
  | Some e' => ∃ q', tx_space done dd nr e q =
        Some (bool_decide (Z.of_nat (length fl - passed fl) + nr < tq_len q), e', q') ∧
      tq_len q' = tq_len q ∧ tq_tl q' = tq_tl q ∧ tx_rep q' (drop (passed fl) fl)
  end.
Proof.
  intros Hq Hnr Hb. pose proof (tx_room _ _ Hq). unfold tx_space.
  rewrite (tx_distance q fl Hq) by lia. case_decide as Hd.
  { by rewrite (proj2 (Z.leb_gt _ _)) by lia. }
  rewrite (proj2 (Z.leb_le _ _)) by lia. pose proof (tx_reclaim_ok e q fl Hq) as Hr.
  destruct (release_all e (completed fl)) as [e'|]; [|by rewrite Hr].
  destruct Hr as (q' & -> & El & Et & Hq'). cbn [mbind option_bind]. exists q'. split; [|done].
  pose proof (tx_distance q' _ Hq' nr Hnr) as Ed. rewrite length_drop in Ed. rewrite Ed, El by lia. do 3 f_equal.
  case_bool_decide; [rewrite (proj2 (Z.leb_gt _ _))|rewrite (proj2 (Z.leb_le _ _))]; done || lia.
Qed.
End reclaim_ok.

(** ** Writing descriptors *)

Definition desc_at (q : tx_queue) (j : nat) : option tx_desc := tq_ring q !! tx_slot q (tq_hd q + Z.of_nat j).

(** [q'] is [q] with other descriptors behind the tail. *)
Definition same_queue (q q' : tx_queue) : Prop :=
  tq_entries q' = tq_entries q ∧ tq_hd q' = tq_hd q ∧ tq_tl q' = tq_tl q ∧ tq_len q' = tq_len q.

Lemma same_queue_trans q1 q2 q3 : same_queue q1 q2 → same_queue q2 q3 → same_queue q1 q3.
Proof. unfold same_queue. intuition congruence. Qed.

Lemma tl_slot q fl x : tx_rep q fl → tx_slot q (tq_tl q + x) = tx_slot q (tq_hd q + (Z.of_nat (length fl) + x)).
Proof. intros Hq. rewrite (tx_tl _ _ Hq), (tx_slot_u16 q fl Hq). f_equal. lia. Qed.

Lemma set_desc_ok q fl j d :
  tx_rep q fl → Z.of_nat (length fl + j) < tq_len q →
  ∃ q', set_desc q (tq_tl q + Z.of_nat j) d = Some q' ∧ tx_rep q' fl ∧ same_queue q q' ∧
    ∀ i, Z.of_nat i < tq_len q → desc_at q' i = if decide (i = length fl + j)%nat then Some d else desc_at q i.
Proof.
  intros Hq Hj. unfold set_desc. rewrite (tl_slot q fl _ Hq), <-Nat2Z.inj_add.
  pose proof (tx_slot_bound q fl Hq (tq_hd q + Z.of_nat (length fl + j))).
  pose proof (tx_ring_len _ _ Hq). rewrite decide_True by lia. eexists. split; [done|].
  set (q' := q <| tq_ring ::= _ |>).
  assert (∀ i, Z.of_nat i < tq_len q → desc_at q' i = if decide (i = length fl + j)%nat then Some d else desc_at q i) as Hi.
  { intros i Hi. unfold desc_at, q'. rsimpl. change (tx_slot (set _ _ _)) with (tx_slot q). case_decide as Hij.
    - subst i. rewrite list_lookup_insert_eq; [done|lia].
    - apply list_lookup_insert_ne. intros Es. apply Hij. symmetry. by eapply (tx_slot_inj q fl Hq). }
  split; [|done]. pose proof (tx_room _ _ Hq). destruct Hq. constructor; try done.
  - unfold q'. rsimpl. by rewrite length_insert.
  - intros i Hl. change (desc_at q' i = (fl !! i) ≫= λ x, Some x.1). rewrite Hi, decide_False by lia. by apply tx_descs0.
Qed.

(** Moving the tail over descriptors that are in place. *)
Lemma advance_tail q q' fl its :
  tx_rep q fl → Z.of_nat (length fl + length its) < tq_len q →
  same_ring q q' → length (tq_entries q') = length (tq_entries q) →
  (∀ j, (j < length its)%nat → desc_at q (length fl + j) = (its !! j) ≫= λ x, Some x.1) →
  (∀ j, Z.of_nat j < tq_len q →
     tq_entries q' !! tx_slot q (tq_hd q + Z.of_nat j) = Some (default NULL (snd <$> (fl ++ its) !! j))) →
  tx_rep (q' <| tq_tl ::= λ t, u16 (t + Z.of_nat (length its)) |>) (fl ++ its).
Proof.
  intros Hq Hlen (Er & Eh & Et & En) Hle Hd He. destruct Hq. set (q1 := q' <| tq_tl ::= _ |>).
  assert (∀ x, tx_slot q1 x = tx_slot q x) as Hsl by (intros; unfold tx_slot, q1; rsimpl; by rewrite En).
  assert (tq_tl q1 = u16 (tq_tl q' + Z.of_nat (length its))) as Et1 by done.
  constructor; change (tq_len q1) with (tq_len q'); change (tq_ring q1) with (tq_ring q'); change (tq_hd q1) with (tq_hd q');
    change (tq_entries q1) with (tq_entries q'); rewrite ?Er, ?Eh, ?En, ?length_app; try done.
  - by rewrite Hle.
  - rewrite Et1, Et, tx_tl0. unfold u16. rewrite Zplus_mod_idemp_l. f_equal. lia.
  - intros j Hj. rewrite Hsl. destruct (decide (j < length fl)%nat) as [Hlt|Hge].
    + rewrite lookup_app_l by done. by apply tx_descs0.
    + rewrite lookup_app_r by lia. rewrite <-Hd by lia. unfold desc_at. do 4 f_equal. lia.
  - intros j Hj. rewrite Hsl. by apply He.
Qed.

(** ** The descriptors of a packet *)

Fixpoint iov_descs (olinfo : Z) (iovs : list mbuf_iov) : list tx_desc :=
  match iovs with
  | [] => []
  | iov :: iovs => adv_desc (iov_maddr iov) (type_len (iov_len iov) (length iovs =? 0)%nat) olinfo :: iov_descs olinfo iovs
  end.
Definition payload (len : Z) (iovs : list mbuf_iov) : Z := foldl (λ n iov, u32 (n + iov_len iov)) (u32 len) iovs.

(** The packet's own data first, then its scatter-gather list; only the last
    descriptor ends the packet and asks for a report. *)
Definition ixgbe_descs (maddr len ol_flags : Z) (iovs : list mbuf_iov) : list tx_desc :=
  let olinfo := ixgbe_olinfo ol_flags in
  adv_desc maddr (type_len len (length iovs =? 0)%nat) (Z.lor (Z.shiftl (payload len iovs) IXGBE_ADVTXD_PAYLEN_SHIFT) olinfo)
    :: iov_descs olinfo iovs.

Definition i40e_desc (maddr len ol_flags : Z) : tx_desc :=
  let td_cmd := Z.lor (Z.lor I40E_TD_CMD I40E_TX_DESC_CMD_RS) I40E_TX_DESC_CMD_ICRC in
  let c := if flag_set ol_flags PKT_TX_TCP_CKSUM then i40e_txd_enable_checksum td_cmd 0 else (td_cmd, 0) in
  mk_tx_desc maddr (i40e_build_ctob c.1 c.2 (u32 len) 0).

(** The completion of the last descriptor gives the packet back. *)
Definition items (ds : list tx_desc) (pkt : ptr) : list (tx_desc * ptr) := zip ds (replicate (length ds - 1) NULL ++ [pkt]).

Definition pkt_descs (d : driver) (e : tx_env) (pkt : ptr) : option (list tx_desc) :=
  nr_iov ← ld (te_mem e) pkt MB_NR_IOV;
  len ← ld (te_mem e) pkt MB_LEN;
  ol_flags ← ld (te_mem e) pkt MB_OL_FLAGS;
  maddr ← page_machaddr (te_pages e) (mbuf_mtod_off pkt 0);
  match d with
  | Ixgbe => iovs ← mapM (iov_at e pkt) (seq 0 (Z.to_nat nr_iov)); Some (ixgbe_descs maddr len ol_flags iovs)
  | I40e => Some [i40e_desc maddr len ol_flags]
  end.

Lemma iov_descs_length olinfo iovs : length (iov_descs olinfo iovs) = length iovs.
Proof. induction iovs; simpl; auto. Qed.

Lemma items_length ds pkt : ds ≠ [] → length (items ds pkt) = length ds.
Proof. destruct ds; [done|]. intros _. unfold items. rewrite length_zip, length_app, length_replicate. cbn [length]. lia. Qed.

Lemma items_fst ds pkt j : ds ≠ [] → (items ds pkt !! j) ≫= (λ x, Some x.1) = ds !! j.
Proof.
  intros Hds. assert (fst <$> items ds pkt = ds) as E.
  { unfold items. apply fst_zip. rewrite length_app, length_replicate. destruct ds; [done|cbn [length]; lia]. }
  rewrite <-E at 2. rewrite list_lookup_fmap. by destruct (items ds pkt !! j).
Qed.

Lemma items_snd ds pkt j : ds ≠ [] → snd <$> items ds pkt !! j = (replicate (length ds - 1) NULL ++ [pkt]) !! j.
Proof.
  intros Hds. rewrite <-list_lookup_fmap. unfold items. rewrite snd_zip; [done|].
  rewrite length_app, length_replicate. destruct ds; [done|cbn [length]; lia].
Qed.

(** The entries after storing [pkt] at the last of [length ds] free slots. *)
Lemma entries_push q fl ds pkt :
  tx_rep q fl → ds ≠ [] → Z.of_nat (length fl + length ds) < tq_len q →
  (∀ j, (j < length ds)%nat → desc_at q (length fl + j) = ds !! j) →
  ∃ q', set_entry q (tq_tl q + Z.of_nat (length ds - 1)) pkt = Some q' ∧ same_ring q q' ∧
    tx_rep (q' <| tq_tl ::= λ t, u16 (t + Z.of_nat (length ds)) |>) (fl ++ items ds pkt).
Proof.
  intros Hq Hds Hlen Hd. assert (0 < length ds)%nat by (destruct ds; simpl; [done|lia]).
  destruct (set_entry_ok q fl (length fl + (length ds - 1)) pkt Hq ltac:(lia)) as (q' & Es & Hs & Hl & He).
  exists q'. split; [|split; [done|]].
  { rewrite <-Es. unfold set_entry. rewrite (tl_slot q fl _ Hq), <-Nat2Z.inj_add. done. }
  rewrite <-(items_length ds pkt Hds). eapply (advance_tail q); try done.
  - by rewrite items_length.
  - intros j Hj. rewrite items_length in Hj by done. by rewrite items_fst, Hd.
  - intros j Hj. rewrite He by done. case_decide as Hj'.
    + subst j. rewrite lookup_app_r, items_snd by (done || lia).
      rewrite lookup_app_r by (rewrite length_replicate; lia). rewrite length_replicate.
      by replace (length fl + (length ds - 1) - length fl - (length ds - 1))%nat with 0%nat by lia.
    + rewrite (tx_ents _ _ Hq) by done. f_equal. destruct (decide (j < length fl)%nat) as [Hlt|Hge]; [by rewrite lookup_app_l|].
      rewrite lookup_ge_None_2, lookup_app_r, items_snd by (done || lia).
      destruct (decide (j - length fl < length ds - 1)%nat).
      * rewrite lookup_app_l by (rewrite length_replicate; lia). by rewrite lookup_replicate_2 by lia.
      * rewrite lookup_ge_None_2; [done|]. rewrite length_app, length_replicate. cbn [length]. lia.
Qed.

Lemma ixgbe_xmit_iovs_ok e pkt olinfo fl iovs : ∀ i pay q,
  tx_rep q fl → mapM (iov_at e pkt) (seq i (length iovs)) = Some iovs →
  Z.of_nat (length fl + (i + length iovs) + 1) ≤ tq_len q - 1 →
  ∃ q', ixgbe_xmit_iovs e pkt olinfo i (length iovs) pay q = Some (foldl (λ n iov, u32 (n + iov_len iov)) pay iovs, q') ∧
    tx_rep q' fl ∧ same_queue q q' ∧
    (∀ k, (k ≤ i)%nat → desc_at q' (length fl + k) = desc_at q (length fl + k)) ∧
    (∀ k, (k < length iovs)%nat → desc_at q' (length fl + (i + 1 + k)) = iov_descs olinfo iovs !! k).
Proof.
  induction iovs as [|iov iovs IH]; intros i pay q Hq Hm Hlen; simpl in *.
  { exists q. split_and!; [done..|]. intros; lia. }
  apply bind_Some in Hm as (iov' & Ei & Hm). apply bind_Some in Hm as (iovs' & Em & [= -> ->]). rewrite Ei. cbn [mbind option_bind].
  replace (tq_tl q + Z.of_nat i + 1) with (tq_tl q + Z.of_nat (i + 1)) by lia.
  destruct (set_desc_ok q fl (i + 1) (adv_desc (iov_maddr iov) (type_len (iov_len iov) (length iovs =? 0)%nat) olinfo) Hq ltac:(lia))
    as (q1 & -> & Hq1 & Hs1 & Hd1). cbn [mbind option_bind].
  destruct (IH (S i) (u32 (pay + iov_len iov)) q1 Hq1 Em) as (q2 & -> & Hq2 & Hs2 & Hlow & Hhigh).
  { destruct Hs1 as (_ & _ & _ & ->). lia. }
  exists q2. split_and!; [done|done|by eapply same_queue_trans|..].
  - intros k Hk. rewrite Hlow, Hd1, decide_False by lia. done.
  - intros [|k] Hk.
    + rewrite Hlow, Hd1, decide_True by lia. done.
    + replace (i + 1 + S k)%nat with (S i + 1 + k)%nat by lia. by rewrite Hhigh by lia.
Qed.

Lemma set_entry_desc q a b p d :
  (q ← set_entry q a p; set_desc q b d) = q ← set_desc q b d; set_entry q a p.
Proof.
  unfold set_entry, set_desc, tx_slot. repeat (case_decide; cbn [mbind option_bind]; rsimpl); done || lia.
Qed.

(** Writing the first descriptor last does not matter. *)
Lemma push_packet q fl d ds pkt :
  tx_rep q fl → Z.of_nat (length fl + length (d :: ds)) < tq_len q →
  (∀ j, (j < length ds)%nat → desc_at q (length fl + (1 + j)) = ds !! j) →
  ∃ q1 q2, set_entry q (tq_tl q + Z.of_nat (length ds)) pkt = Some q1 ∧ tq_tl q1 = tq_tl q ∧
    set_desc q1 (tq_tl q) d = Some q2 ∧ tq_len q2 = tq_len q ∧
    tx_rep (q2 <| tq_tl ::= λ t, u16 (t + Z.of_nat (length (d :: ds))) |>) (fl ++ items (d :: ds) pkt).
Proof.
  intros Hq Hroom Hds. cbn [length] in Hroom.
  destruct (set_desc_ok q fl 0 d Hq ltac:(lia)) as (qd & Ed & Hqd & (Ee & Eh & Et & El) & Hd).
  rewrite Z.add_0_r in Ed. destruct (entries_push qd fl (d :: ds) pkt Hqd) as (q2 & E2 & (Er2 & Eh2 & Et2 & El2) & Hq2); [done|by rewrite El|..].
  { intros j Hj. cbn [length] in Hj. rewrite Hd by lia. destruct j; [by rewrite decide_True by lia|].
    rewrite decide_False by lia. by apply (Hds j); lia. }
  pose proof (set_entry_desc q (tq_tl q + Z.of_nat (length ds)) (tq_tl q) pkt d) as Esw.
  rewrite Ed in Esw. cbn [mbind option_bind length] in Esw, E2. rewrite Et, Nat.sub_0_r in E2 || (replace (S (length ds) - 1)%nat with (length ds) in E2 by lia; rewrite Et in E2).
  rewrite E2 in Esw. apply bind_Some in Esw as (q1 & E1 & E1'). exists q1, q2.
  split; [done|]. split; [|split; [done|split; [congruence|done]]].
  unfold set_entry in E1. case_decide; [|done]. by injection E1 as <-.
Qed.

(** ** Setting up a ring *)

Lemma reset_entries_ok n : ∀ entries i,
  (i + n)%nat = length entries → (∀ j, (j < i)%nat → entries !! j = Some NULL) →
  reset_entries entries i n = Some (replicate (length entries) NULL).
Proof.
  induction n as [|n IH]; intros entries i Hl Hz; cbn [reset_entries].
  - f_equal. apply list_eq. intros j. destruct (decide (j < length entries)%nat).
    + rewrite lookup_replicate_2, Hz by lia. done.
    + by rewrite !lookup_ge_None_2 by (rewrite ?length_replicate; lia).
  - rewrite decide_True by lia. rewrite IH; [by rewrite length_insert|rewrite length_insert; lia|].
    intros j Hj. destruct (decide (j = i)) as [->|]; [rewrite list_lookup_insert_eq; [done|lia]|].
    rewrite list_lookup_insert_ne by done. apply Hz. lia.
Qed.

Lemma new_ring_rep n k : 0 ≤ k ≤ 15 → n = 2 ^ k →
  tx_rep (mk_tx_queue (replicate (Z.to_nat n) (mk_tx_desc 0 0)) (replicate (Z.to_nat n) NULL) 0 0 n) [].
Proof.
  intros Hk Hn. assert (0 < n) by (subst; apply Z.pow_pos_nonneg; lia).
  constructor; cbn [tq_len tq_ring tq_entries tq_hd tq_tl length]; rewrite ?length_replicate; try lia.
  - eauto.
  - done.
  - intros j Hj. rewrite lookup_nil. apply lookup_replicate_2. unfold tx_slot. cbn [tq_len].
    rewrite Hn, Z.sub_1_r, <-Z.ones_equiv, Z.land_ones, <-Hn by lia.
    pose proof (Z.mod_pos_bound (0 + Z.of_nat j) n ltac:(lia)). lia.
Qed.

Lemma drv_tx_queue_setup_ok d dpdk_ret page lookup_ret nb_desc :
  0 ≤ nb_desc < 65536 →
  ∃ ret oq, drv_tx_queue_setup d dpdk_ret page lookup_ret nb_desc = Some (ret, oq) ∧
    match oq with
    | Some q => ret = 0 ∧ tq_len q = nb_desc ∧ 64 ≤ nb_desc ≤ 4096 ∧ tx_rep q []
    | None => ret ≠ 0
    end.
Proof.
  intros Hn. replace (drv_tx_queue_setup d) with (tx_queue_setup 128 4096 64) by (by destruct d).
  unfold tx_queue_setup.
  destruct (_ || _ || _) eqn:Hc; [by eexists _, _|]. apply orb_false_iff in Hc as [[_ H2]%orb_false_iff H3].
  apply Z.ltb_ge in H2, H3. destruct (Z.eqb_spec (Z.land nb_desc (nb_desc - 1)) 0) as [Hl|]; [|by eexists _, _].
  cbn [negb]. destruct (Z.ltb_spec dpdk_ret 0); [eexists _, _; split; [done|]; simpl; lia|].
  destruct (page =? MAP_FAILED); [by eexists _, _|]. destruct (Z.eqb_spec lookup_ret 0); [|by eexists _, _]. cbn [negb].
  pose proof (land_pred_pow2 nb_desc ltac:(lia) Hl) as Hp.
  unfold reset_tx_queue. cbn [tq_len tq_entries]. rewrite (reset_entries_ok _ _ 0) by (rewrite ?length_replicate; lia || done).
  cbn [mbind option_bind]. eexists _, _. split; [done|]. cbn [tq_len]. rewrite length_replicate.
  split; [done|]. split; [done|]. split; [lia|]. apply (new_ring_rep nb_desc (Z.log2 nb_desc)); [|done].
  split; [apply Z.log2_nonneg|]. apply Z.lt_succ_r, Z.log2_lt_pow2; [lia|]. change (2 ^ Z.succ 15) with 65536. lia.
Qed.
