(* ===== verification/NetOutput.v ===== *)
(** * Building packets (inc/ix/transmit.h, inc/ix/mbuf.h, dp/net/arp.c)

    The headers that [udp_send] and the ARP code write in front of or as a packet,
    and the scatter-gather elements that name its payload. *)

From S2P Require Import Prelude Stddef Heap Mempool Page Bytes Chksum Mbuf Dispatch NetInput EthQueue RxRing TxRing.
Local Open Scope Z_scope.

(** The part of [struct cfg_parameters] that is about the network; a MAC address
    is the number its six bytes are, lowest first. *)
Record net_cfg := mk_net_cfg {
  cfg_mac : Z;
  cfg_host_addr : Z;
  cfg_gateway_addr : Z;
  cfg_mask : Z;
}.

(** [struct ip_tuple] *)
Record ip_tuple := mk_ip_tuple { it_src_ip : Z; it_dst_ip : Z; it_src_port : Z; it_dst_port : Z }.

Abbreviation get48 := (le_get 6).
Abbreviation put48 := (le_put 6).

Definition ETHTYPE_ARP : Z := 0x0806.
Definition ETH_MTU : Z := 1500.
Definition ETH_ADDR_BROADCAST : Z := 0xFFFFFFFFFFFF.
Definition ETH_ADDR_GROUP : Z := 0x01.
Definition eth_addr_is_multicast (mac : Z) : bool := negb (Z.land (u8 mac) ETH_ADDR_GROUP =? 0).

(** Sizes of the headers: Ethernet 14, IP 20, UDP 8, ARP 8 and 20. *)
Definition ETH_SHOST_OFF : nat := 6.
Definition UDP_PKT_SIZE : Z := 14 + 20 + 8.
Definition UDP_MAX_LEN : Z := ETH_MTU - 20 - 8.
Definition ARP_PKT_SIZE : Z := 14 + 8 + 20.
Definition ARP_OFF : nat := 14.
Definition ARP_ETHIP_OFF : nat := 22.

(** ** Headers *)

(** Everything but [off] is set. *)
Definition ip_setup_header (d : bytes) (iphdr : nat) (proto saddr daddr l4len : Z) : option bytes :=
  vhl ← get8 d iphdr;
  d ← put8 d iphdr (Z.lor (Z.land vhl 0xF0) (SIZEOF_IP_HDR / 4));
  vhl ← get8 d iphdr;
  d ← put8 d iphdr (Z.lor (Z.land vhl 0x0F) (Z.shiftl 4 4));
  d ← put8 d (iphdr + 1) 0;
  d ← put16 d (iphdr + 2) (hton16 (u16 (SIZEOF_IP_HDR + l4len)));
  d ← put16 d (iphdr + 4) 0;
  d ← put8 d (iphdr + 8) 64;
  d ← put8 d (iphdr + 9) proto;
  d ← put16 d (iphdr + 10) 0;
  d ← put32 d (iphdr + 12) (hton32 saddr);
  put32 d (iphdr + 16) (hton32 daddr).

(** The headers of [udp_send] and [udp_output], after the destination MAC. *)
Definition udp_fill (C : net_cfg) (d : bytes) (id : ip_tuple) (full_len : Z) : option bytes :=
  d ← put48 d ETH_SHOST_OFF (cfg_mac C);
  d ← put16 d ETH_TYPE_OFF (hton16 ETHTYPE_IP);
  d ← ip_setup_header d IP_OFF IPPROTO_UDP (cfg_host_addr C) (it_dst_ip id) (u16 full_len);
  c ← chksum_internet d IP_OFF SIZEOF_IP_HDR;
  d ← put16 d (IP_OFF + 10) c;
  d ← put16 d 34 (hton16 (it_src_port id));
  d ← put16 d 36 (hton16 (it_dst_port id));
  d ← put16 d 38 (hton16 (u16 full_len));
  put16 d 40 0.

(** ** ARP packets *)

Definition ARP_HTYPE_ETHER : Z := 1.
Definition ARP_OP_REQUEST : Z := 1.
Definition ARP_OP_REPLY : Z := 2.

(** The packet of [arp_send_pkt]. *)
Definition arp_fill (C : net_cfg) (d : bytes) (op target_ip target_mac : Z) : option bytes :=
  d ← put48 d 0 target_mac;
  d ← put48 d ETH_SHOST_OFF (cfg_mac C);
  d ← put16 d ETH_TYPE_OFF (hton16 ETHTYPE_ARP);
  d ← put16 d ARP_OFF (hton16 ARP_HTYPE_ETHER);
  d ← put16 d (ARP_OFF + 2) (hton16 ETHTYPE_IP);
  d ← put8 d (ARP_OFF + 4) 6;
  d ← put8 d (ARP_OFF + 5) 4;
  d ← put16 d (ARP_OFF + 6) (hton16 op);
  d ← put48 d ARP_ETHIP_OFF (cfg_mac C);
  d ← put32 d (ARP_ETHIP_OFF + 6) (hton32 (cfg_host_addr C));
  d ← put48 d (ARP_ETHIP_OFF + 10) target_mac;
  put32 d (ARP_ETHIP_OFF + 16) (hton32 target_ip).

(** What [arp_send_response_reuse] makes of a request. *)
Definition arp_reply_fill (C : net_cfg) (d : bytes) : option bytes :=
  shost ← get48 d ETH_SHOST_OFF;
  d ← put48 d 0 shost;
  d ← put16 d (ARP_OFF + 6) (hton16 ARP_OP_REPLY);
  smac ← get48 d ARP_ETHIP_OFF;
  d ← put48 d (ARP_ETHIP_OFF + 10) smac;
  sip ← get32 d (ARP_ETHIP_OFF + 6);
  d ← put32 d (ARP_ETHIP_OFF + 16) sip;
  d ← put48 d ETH_SHOST_OFF (cfg_mac C);
  d ← put32 d (ARP_ETHIP_OFF + 6) (hton32 (cfg_host_addr C));
  put48 d ARP_ETHIP_OFF (cfg_mac C).

(** ** Scatter-gather elements *)

(** [mbuf_iov_create] for the element at offset [o] of the data of [pkt]. *)
Definition mbuf_iov_create (cpu : nat) (e : tx_env) (pkt : ptr) (o : nat) (base len : Z) : option (Z * tx_env) :=
  let n := Z.min len (PGSIZE_2MB - PGOFF_2MB base) in
  d ← put64 (mbuf_data (te_data e) pkt) o base;
  '(maddr, g) ← page_get cpu (te_pages e) base;
  d ← put64 d (o + 8) maddr;
  d ← put64 d (o + 16) n;
  Some (n, e <| te_data ::= <[pkt := d]> |> <| te_pages := g |>).

(** ** Fields after stores *)

Lemma put_field n d o v : (o + n ≤ length d)%nat → bytes_wf d →
  ∃ d', le_put n d o v = Some d' ∧ length d' = length d ∧ bytes_wf d'.
Proof.
  intros Ho Hwf. destruct (le_put_some n d o v Ho) as [d' E]. exists d'.
  split; [done|]. split; [by eapply le_put_length|by eapply le_put_wf].
Qed.

Lemma byte_at_put_ne n d o v d' i : le_put n d o v = Some d' → (i < o ∨ o + n ≤ i)%nat → byte_at d' i = byte_at d i.
Proof. intros E Hi. unfold byte_at. by rewrite (le_put_lookup _ _ _ _ _ _ E). Qed.

Lemma be16_put_ne n d o v d' i : le_put n d o v = Some d' → (i + 2 ≤ o ∨ o + n ≤ i)%nat → be16 d' i = be16 d i.
Proof. intros E Hi. unfold be16. by rewrite !(byte_at_put_ne _ _ _ _ _ _ E) by lia. Qed.

Lemma be32_put_ne n d o v d' i : le_put n d o v = Some d' → (i + 4 ≤ o ∨ o + n ≤ i)%nat → be32 d' i = be32 d i.
Proof. intros E Hi. unfold be32. by rewrite !(byte_at_put_ne _ _ _ _ _ _ E) by lia. Qed.

Lemma byte_at_put8 d o v d' : put8 d o v = Some d' → byte_at d' o = v mod 256.
Proof.
  intros E. pose proof (le_get_put_eq _ _ _ _ _ E) as G. rewrite get8_byte in G; [by injection G|].
  rewrite (le_put_length _ _ _ _ _ E). rewrite le_put_S in E. by case_decide.
Qed.

Lemma be16_put16 d o v d' : put16 d o (hton16 v) = Some d' → bytes_wf d → (o + 2 ≤ length d)%nat → 0 ≤ v < 65536 → be16 d' o = v.
Proof.
  intros E Hwf Hl Hv. destruct (bswap16_invol v Hv) as [Hr Hi]. fold (hton16 v) in *.
  destruct (get16_ntoh d' o) as (x & Gx & Ex & _); [by eapply le_put_wf|by rewrite (le_put_length _ _ _ _ _ E)|].
  rewrite (le_get_put_eq _ _ _ _ _ E) in Gx. change (256 ^ Z.of_nat 2) with 65536 in Gx. rewrite Z.mod_small in Gx by done. simplify_eq.
  rewrite <-Ex. exact Hi.
Qed.

Lemma be32_put32 d o v d' : put32 d o (hton32 v) = Some d' → bytes_wf d → (o + 4 ≤ length d)%nat → 0 ≤ v < 2 ^ 32 → be32 d' o = v.
Proof.
  intros E Hwf Hl Hv. destruct (bswap32_invol v Hv) as [Hr Hi]. fold (hton32 v) in *.
  destruct (get32_ntoh d' o) as (x & Gx & Ex & _); [by eapply le_put_wf|by rewrite (le_put_length _ _ _ _ _ E)|].
  rewrite (le_get_put_eq _ _ _ _ _ E) in Gx. change (256 ^ Z.of_nat 4) with (2 ^ 32) in Gx. rewrite Z.mod_small in Gx by done. simplify_eq.
  rewrite <-Ex. exact Hi.
Qed.

(** Fields of a buffer after a chain of stores: skip the stores that are elsewhere. *)
Ltac skip_puts :=
  repeat match goal with
  | E : le_put ?n ?d ?o ?v = Some ?d' |- context [byte_at ?d' ?i] => rewrite (byte_at_put_ne n d o v d' i E) by lia
  | E : le_put ?n ?d ?o ?v = Some ?d' |- context [be16 ?d' ?i] => rewrite (be16_put_ne n d o v d' i E) by lia
  | E : le_put ?n ?d ?o ?v = Some ?d' |- context [be32 ?d' ?i] => rewrite (be32_put_ne n d o v d' i E) by lia
  | E : le_put ?n ?d ?o ?v = Some ?d' |- context [le_get ?k ?d' ?i] => rewrite (le_get_put_ne n k d o i v d' E) by lia
  | E : le_put ?n ?d ?o ?v = Some ?d' |- context [?d' !! ?i] => rewrite (le_put_lookup n d o v d' i E) by lia
  end.

(** Run the next store. *)
Ltac run_put :=
  match goal with
  | |- context [le_put ?n ?d ?o ?v] =>
      let d' := fresh "d" in let E := fresh "E" in let L := fresh "L" in let W := fresh "W" in
      destruct (put_field n d o v) as (d' & E & L & W); [lia|assumption|]; rewrite E; cbn [mbind option_bind]
  end.

Lemma vhl_bits b : Z.lor (Z.land (Z.lor (Z.land b 0xF0) 5 mod 256) 0x0F) 64 mod 256 = 0x45.
Proof.
  change 256 with (2 ^ 8). rewrite <-!Z.land_ones by lia. rewrite !Z.land_lor_distr_l, <-!Z.land_assoc.
  change (Z.land 0xF0 (Z.land (Z.ones 8) 0x0F)) with 0. by rewrite Z.land_0_r.
Qed.

Lemma ip_setup_header_ok d proto saddr daddr l4len :
  bytes_wf d → (42 ≤ length d)%nat → 0 ≤ proto < 256 → 0 ≤ saddr < 2 ^ 32 → 0 ≤ daddr < 2 ^ 32 → 0 ≤ l4len < 65536 - 20 →
  ∃ d', ip_setup_header d 14 proto saddr daddr l4len = Some d' ∧ length d' = length d ∧ bytes_wf d' ∧
    byte_at d' 14 = 0x45 ∧ be16 d' 16 = 20 + l4len ∧ be16 d' 20 = be16 d 20 ∧ byte_at d' 23 = proto ∧ get16 d' 24 = Some 0 ∧
    be32 d' 26 = saddr ∧ be32 d' 30 = daddr ∧ ∀ i, (i < 14 ∨ 34 ≤ i)%nat → d' !! i = d !! i.
Proof.
  intros Hwf Hl Hp Hs Hd Hlen. unfold ip_setup_header. rewrite (get8_byte d 14) by lia. cbn [mbind option_bind].
  run_put. rewrite (get8_byte d0 14) by lia. cbn [mbind option_bind].
  do 9 run_put. eexists. split; [done|]. split; [congruence|]. split; [done|].
  pose proof (byte_at_range d 14 Hwf) as Hb.
  split_and!.
  - skip_puts. rewrite (byte_at_put8 _ _ _ _ E0), (byte_at_put8 _ _ _ _ E). change (SIZEOF_IP_HDR / 4) with 5. change (Z.shiftl 4 4) with 64. by rewrite vhl_bits.
  - skip_puts. unfold SIZEOF_IP_HDR in *. rewrite u16_small in * by lia. erewrite be16_put16; [done|exact E2|done|lia|lia].
  - by skip_puts.
  - skip_puts. erewrite byte_at_put8; [|eassumption]. by apply Z.mod_small.
  - skip_puts. by erewrite le_get_put_eq by eassumption.
  - skip_puts. erewrite be32_put32; [done|eassumption|done|lia|lia].
  - erewrite be32_put32; [done|eassumption|done|lia|lia].
  - intros i Hi. by skip_puts.
Qed.

(** ** The frames *)

Definition cfg_ok (C : net_cfg) : Prop := 0 ≤ cfg_mac C < 2 ^ 48 ∧ 0 ≤ cfg_host_addr C < 2 ^ 32.
Definition tuple_ok (id : ip_tuple) : Prop :=
  0 ≤ it_src_ip id < 2 ^ 32 ∧ 0 ≤ it_dst_ip id < 2 ^ 32 ∧ 0 ≤ it_src_port id < 65536 ∧ 0 ≤ it_dst_port id < 65536.

(** The headers of a datagram of [full_len] bytes, its UDP header included. *)
Record udp_headers (C : net_cfg) (id : ip_tuple) (full_len : Z) (d : bytes) : Prop := {
  uh_shost : get48 d 6 = Some (cfg_mac C);
  uh_type : be16 d 12 = ETHTYPE_IP;
  uh_vhl : byte_at d 14 = 0x45;
  uh_len : be16 d 16 = 20 + full_len;
  uh_proto : byte_at d 23 = IPPROTO_UDP;
  uh_src_ip : be32 d 26 = cfg_host_addr C;
  uh_dst_ip : be32 d 30 = it_dst_ip id;
  uh_chksum : chksum_internet d IP_OFF SIZEOF_IP_HDR = Some 0;
  uh_src_port : be16 d 34 = it_src_port id;
  uh_dst_port : be16 d 36 = it_dst_port id;
  uh_udp_len : be16 d 38 = full_len;
}.

Lemma put_region n d o v d' k len : le_put n d o v = Some d' → (k + len ≤ o)%nat → take len (drop k d') = take len (drop k d).
Proof.
  intros E Hk. apply list_eq. intros i. destruct (decide (i < len)%nat) as [Hi|Hi].
  - rewrite !lookup_take_lt, !lookup_drop by done. eapply le_put_lookup; [exact E|lia].
  - by rewrite !lookup_take_ge by lia.
Qed.

Lemma chksum_put_ne n d o v d' : le_put n d o v = Some d' → bytes_wf d → (34 ≤ o)%nat → (34 ≤ length d)%nat →
  chksum_internet d' 14 20 = chksum_internet d 14 20.
Proof.
  intros E Hwf Ho Hl. assert (bytes_wf d') as Hwf' by (by eapply le_put_wf).
  pose proof (le_put_length _ _ _ _ _ E) as L.
  rewrite (chksum_internet_ok d'), (chksum_internet_ok d) by (done || (change (Z.to_nat 20) with 20%nat; lia)).
  change (Z.to_nat 20) with 20%nat. by rewrite (put_region _ _ _ _ _ _ _ E) by lia.
Qed.

Lemma udp_fill_ok C d id full_len :
  cfg_ok C → tuple_ok id → bytes_wf d → (42 ≤ length d)%nat → 0 ≤ full_len < 65536 - 20 →
  ∃ d', udp_fill C d id full_len = Some d' ∧ length d' = length d ∧ bytes_wf d' ∧ udp_headers C id full_len d' ∧
    be16 d' 20 = be16 d 20 ∧ ∀ i, (i < 6 ∨ 42 ≤ i)%nat → d' !! i = d !! i.
Proof.
  intros [HC1 HC2] (_ & Hi1 & Hi2 & Hi3) Hwf Hl Hf. unfold udp_fill. change IP_OFF with 14%nat. change ETH_SHOST_OFF with 6%nat. change ETH_TYPE_OFF with 12%nat.
  rewrite !(u16_small full_len) by lia. do 2 run_put.
  destruct (ip_setup_header_ok d1 IPPROTO_UDP (cfg_host_addr C) (it_dst_ip id) full_len) as (d2 & -> & L2 & W2 & V & N & O & P & Z0 & S & D & K); try (done || lia).
  cbn [mbind option_bind]. change SIZEOF_IP_HDR with 20.
  assert (∃ c, chksum_internet d2 14 20 = Some c) as [c Ec].
  { rewrite chksum_internet_ok; [by eexists|done|lia|change (Z.to_nat 20) with 20%nat; lia]. }
  rewrite Ec. cbn [mbind option_bind]. change (14 + 10)%nat with 24%nat. do 5 run_put. eexists. split; [done|]. split; [congruence|]. split; [done|].
  assert (∀ i, (i < 14)%nat → byte_at d2 i = byte_at d1 i) as Kb by (intros i Hi; unfold byte_at; by rewrite K by lia).
  split; [split|split].
  - skip_puts. rewrite (le_get_ext 6 d1 d2 6) by (intros i Hi; apply K; lia). skip_puts. rewrite (le_get_put_eq _ _ _ _ _ E). f_equal. by apply Z.mod_small.
  - skip_puts. unfold be16. rewrite !Kb by lia. fold (be16 d1 12). by erewrite be16_put16 by (eassumption || done || lia).
  - by skip_puts.
  - by skip_puts.
  - by skip_puts.
  - by skip_puts.
  - by skip_puts.
  - change IP_OFF with 14%nat. change SIZEOF_IP_HDR with 20. erewrite (chksum_put_ne _ _ _ _ _ E5), (chksum_put_ne _ _ _ _ _ E4), (chksum_put_ne _ _ _ _ _ E3), (chksum_put_ne _ _ _ _ _ E2) by (done || lia).
    apply (chksum_verifies_ok d2 14 5 20 c d3); try done; change (Z.to_nat 20) with 20%nat; lia.
  - skip_puts. by erewrite be16_put16 by (eassumption || done || lia).
  - skip_puts. by erewrite be16_put16 by (eassumption || done || lia).
  - skip_puts. by erewrite be16_put16 by (eassumption || done || lia).
  - skip_puts. rewrite O. by skip_puts.
  - intros i Hi. skip_puts. rewrite K by lia. by skip_puts.
Qed.

(** A frame on the wire: the headers, then the payload. *)
Definition wire (d payload : bytes) : bytes := take 42 d ++ payload.

Lemma wire_lookup d p i : (42 ≤ length d)%nat → (i < 42)%nat → wire d p !! i = d !! i.
Proof. intros Hl Hi. unfold wire. rewrite lookup_app_l by (rewrite length_take; lia). by rewrite lookup_take_lt. Qed.

Lemma wire_byte d p i : (42 ≤ length d)%nat → (i < 42)%nat → byte_at (wire d p) i = byte_at d i.
Proof. intros. unfold byte_at. by rewrite wire_lookup. Qed.
Lemma wire_be16 d p i : (42 ≤ length d)%nat → (i < 41)%nat → be16 (wire d p) i = be16 d i.
Proof. intros. unfold be16. by rewrite !wire_byte by lia. Qed.

(** How a receiver sees the frame. *)
Lemma udp_headers_verdict C id d payload cfg :
  udp_headers C id (8 + Z.of_nat (length payload)) d → (42 ≤ length d)%nat →
  eth_verdict cfg (42 + Z.of_nat (length payload)) (wire d payload) =
    if be16 d 20 mod 0x4000 =? 0 then
      match list_find (λ p, it_dst_port id = p) (take (num_ports cfg) (cfg_ports cfg)) with
      | Some (i, _) => Deliver i
      | None => if it_dst_port id =? 6666 then Quit else Drop
      end
    else Drop.
Proof.
  intros [H1 H2 H3 H4 H5 H6 H7 H8 H9 H10 H11] Hl.
  assert (ip_hdrlen (wire d payload) = 20) as Eh by (unfold ip_hdrlen, IP_OFF; by rewrite wire_byte, H3 by lia).
  assert (udp_off (wire d payload) = 34%nat) as Eu by (unfold udp_off; by rewrite Eh).
  unfold eth_verdict, ip_udp_ok, udp_overrun. rewrite Eh, Eu. change IP_OFF with 14%nat. change ETH_TYPE_OFF with 12%nat. cbn [Nat.add].
  rewrite !wire_be16, !wire_byte by lia. rewrite H2, H3, H4, H5, H10, H11.
  change (ETHTYPE_IP =? ETHTYPE_IP) with true. change (0x45 / 16 =? 4) with true. change (20 <=? 20) with true. change (IPPROTO_UDP =? IPPROTO_UDP) with true.
  rewrite !(proj2 (Z.leb_le _ _)) by lia. rewrite (proj2 (Z.ltb_ge _ _)) by lia. cbn [andb].
  by destruct (be16 d 20 mod 0x4000 =? 0).
Qed.

(** ** ARP frames *)

Record arp_frame (d : bytes) (dhost shost op smac sip tmac tip : Z) : Prop := {
  af_dhost : get48 d 0 = Some dhost;
  af_shost : get48 d 6 = Some shost;
  af_type : be16 d 12 = ETHTYPE_ARP;
  af_htype : be16 d 14 = ARP_HTYPE_ETHER;
  af_ptype : be16 d 16 = ETHTYPE_IP;
  af_hlen : byte_at d 18 = 6;
  af_plen : byte_at d 19 = 4;
  af_op : be16 d 20 = op;
  af_smac : get48 d 22 = Some smac;
  af_sip : be32 d 28 = sip;
  af_tmac : get48 d 32 = Some tmac;
  af_tip : be32 d 38 = tip;
}.

Lemma get48_put48 d o v d' : put48 d o v = Some d' → 0 ≤ v < 2 ^ 48 → get48 d' o = Some v.
Proof. intros E Hv. rewrite (le_get_put_eq _ _ _ _ _ E). f_equal. by apply Z.mod_small. Qed.

Lemma arp_fill_ok C d op tip tmac :
  cfg_ok C → 0 ≤ op < 65536 → 0 ≤ tip < 2 ^ 32 → 0 ≤ tmac < 2 ^ 48 → bytes_wf d → (42 ≤ length d)%nat →
  ∃ d', arp_fill C d op tip tmac = Some d' ∧ length d' = length d ∧ bytes_wf d' ∧
    arp_frame d' tmac (cfg_mac C) op (cfg_mac C) (cfg_host_addr C) tmac tip.
Proof.
  intros [HC1 HC2] Hop Htip Htmac Hwf Hl. unfold arp_fill. change ETH_SHOST_OFF with 6%nat. change ETH_TYPE_OFF with 12%nat.
  change ARP_OFF with 14%nat. change ARP_ETHIP_OFF with 22%nat. cbn [Nat.add]. do 12 run_put.
  eexists. split; [done|]. split; [congruence|]. split; [done|]. split.
  1: skip_puts; by erewrite get48_put48 by eassumption.
  1: skip_puts; by erewrite get48_put48 by eassumption.
  1-3: skip_puts; by erewrite be16_put16 by (eassumption || done || lia).
  1-2: skip_puts; by erewrite byte_at_put8 by eassumption.
  1: skip_puts; by erewrite be16_put16 by (eassumption || done || lia).
  1: skip_puts; by erewrite get48_put48 by eassumption.
  1: skip_puts; by erewrite be32_put32 by (eassumption || done || lia).
  1: skip_puts; by erewrite get48_put48 by eassumption.
  by erewrite be32_put32 by (eassumption || done || lia).
Qed.

Lemma arp_reply_fill_ok C d dhost shost op smac sip tmac tip :
  cfg_ok C → bytes_wf d → (42 ≤ length d)%nat → arp_frame d dhost shost op smac sip tmac tip →
  ∃ d', arp_reply_fill C d = Some d' ∧ length d' = length d ∧ bytes_wf d' ∧
    arp_frame d' shost (cfg_mac C) ARP_OP_REPLY (cfg_mac C) (cfg_host_addr C) smac sip.
Proof.
  intros [HC1 HC2] Hwf Hl [F1 F2 F3 F4 F5 F6 F7 F8 F9 F10 F11 F12]. unfold arp_reply_fill. change ETH_SHOST_OFF with 6%nat.
  change ARP_OFF with 14%nat. change ARP_ETHIP_OFF with 22%nat. cbn [Nat.add].
  pose proof (le_get_range 6 d 6 shost Hwf F2) as R2. pose proof (le_get_range 6 d 22 smac Hwf F9) as R9. change (256 ^ Z.of_nat 6) with (2 ^ 48) in *.
  rewrite F2. cbn [mbind option_bind]. do 2 run_put.
  assert (get48 d1 22 = Some smac) as -> by (by skip_puts). cbn [mbind option_bind]. run_put.
  destruct (get32_ntoh d 28) as (v & Gv & Ev & Rv); [done|lia|]. rewrite F10 in Ev.
  assert (get32 d2 28 = Some v) as -> by (by skip_puts). cbn [mbind option_bind]. do 4 run_put.
  eexists. split; [done|]. split; [congruence|]. split; [done|]. split.
  1: skip_puts; by erewrite get48_put48 by eassumption.
  1: skip_puts; by erewrite get48_put48 by eassumption.
  1-5: by skip_puts.
  1: skip_puts; by erewrite be16_put16 by (eassumption || done || lia).
  1: by erewrite get48_put48 by eassumption.
  1: skip_puts; by erewrite be32_put32 by (eassumption || done || lia).
  1: skip_puts; by erewrite get48_put48 by eassumption.
  skip_puts. destruct (get32_ntoh d3 38) as (x & Gx & Ex & _); [done|lia|]. rewrite (le_get_put_eq _ _ _ _ _ E2) in Gx.
  change (256 ^ Z.of_nat 4) with (2 ^ 32) in Gx. rewrite Z.mod_small in Gx by done. simplify_eq. congruence.
Qed.
