(* ===== verification/Arp.v ===== *)
(** * Address resolution (dp/net/arp.c)

    A hash table from network addresses to entries, chained through [struct
    hlist_node]s inside the entries.  Each entry has a timer that resolves and
    refreshes it, and a list of packets that wait for it.  Entries and waiting
    packets come from memory pools. *)

From S2P Require Import Prelude Stddef Heap LinkedList Timer Hash Mempool Page Bytes Chksum Mbuf Dispatch NetInput EthQueue RxRing TxRing NetOutput.
Local Open Scope Z_scope.

(** ** Layout *)

Definition ENOENT : Z := 2.

Definition AE_ADDR : Z := 0.
Definition AE_MAC : Z := 4.
Definition AE_FLAGS : Z := 10.
Definition AE_RETRIES : Z := 11.
Definition AE_TIMER : Z := 16.
Definition AE_LINK : Z := 56.
Definition AE_PENDING : Z := 72.
Definition SIZEOF_ARP_ENTRY : Z := 80.

Definition PP_LINK : Z := 0.
Definition PP_DST_ADDR : Z := 16.
Definition PP_FG : Z := 24.
Definition PP_MBUF : Z := 32.
Definition PP_LEN : Z := 40.
Definition PP_CPU : Z := 44.
Definition PP_DISPATCHED : Z := 48.
Definition SIZEOF_PENDING_PKT : Z := 56.

Definition FG_DEV_IDX : Z := 20.

Definition ARP_FLAG_RESOLVING : Z := 0x1.
Definition ARP_FLAG_VALID : Z := 0x2.
Definition ARP_FLAG_STATIC : Z := 0x4.
Definition ONE_SECOND : Z := 1000000.
Definition ARP_REFRESH_TIMEOUT : Z := 10 * ONE_SECOND.
Definition ARP_RESOLVE_TIMEOUT : Z := 1 * ONE_SECOND.
Definition ARP_RETRY_TIMEOUT : Z := 1 * ONE_SECOND.
Definition ARP_MAX_ATTEMPTS : Z := 3.
Definition ARP_MAX_ENTRIES : Z := 65536.
Definition ARP_HASH_SEED : Z := 0xa36bdcbe.
Definition MAX_PENDING_PKTS : Z := 1024.

(** ** State *)

(** What the network stack of a core works on: the transmit state, the transmit
    queues of the devices, the two pools, the clock of the timers, the locks, and
    the functions handed to cores with [cpu_run_on_one], each with the waiting
    packet it is for. *)
Record netstack := mk_netstack {
  nk_tx : tx_env;
  nk_txqs : list eth_tx_queue;
  nk_arp : pool;
  nk_pend : pool;
  nk_now_us : Z;
  nk_timer_pos : Z;
  nk_arp_lock : bool;
  nk_pending_lock : bool;
  nk_send_lock : bool;
  nk_runs : list (Z * ptr);
}.
#[export] Instance eta_netstack : Settable netstack :=
  λ s, mk_netstack (nk_tx s) (nk_txqs s) (nk_arp s) (nk_pend s) (nk_now_us s) (nk_timer_pos s)
         (nk_arp_lock s) (nk_pending_lock s) (nk_send_lock s) (nk_runs s).

Definition nk_mem (s : netstack) : heap := te_mem (nk_tx s).
Definition nk_set_mem (m : heap) (s : netstack) : netstack := s <| nk_tx ::= λ e, e <| te_mem := m |> |>.

Definition nk_ld (p off : Z) : ST netstack Z := λ s, v ← ld (nk_mem s) p off; Some (v, s).
Definition nk_heap (f : heap → option heap) : ST netstack unit := λ s, m ← f (nk_mem s); Some (tt, nk_set_mem m s).
Definition nk_sto (p off v : Z) : ST netstack unit := nk_heap (λ m, sto m p off v).

(** A function of the timer wheel. *)
Definition nk_wheel (f : timerwheel → option timerwheel) : ST netstack unit :=
  λ s, w ← f (mk_timerwheel (nk_mem s) (nk_now_us s) (nk_timer_pos s)); Some (tt, nk_set_mem (tw_mem w) s).

(** The data of a packet. *)
Definition nk_data (pkt : ptr) (f : bytes → option bytes) : ST netstack unit :=
  λ s, d ← f (mbuf_data (te_data (nk_tx s)) pkt); Some (tt, s <| nk_tx ::= λ e, e <| te_data ::= <[pkt := d]> |> |>).

(** A spin lock that was never released is waited for without end. *)
Definition spin_lock (get : netstack → bool) (put : bool → netstack → netstack) : ST netstack unit :=
  λ s, if get s then None else Some (tt, put true s).
Definition spin_unlock (put : bool → netstack → netstack) : ST netstack unit := st_mod (put false).
Definition set_arp_lock (b : bool) (s : netstack) : netstack := s <| nk_arp_lock := b |>.
Definition set_pending_lock (b : bool) (s : netstack) : netstack := s <| nk_pending_lock := b |>.
Definition set_send_lock (b : bool) (s : netstack) : netstack := s <| nk_send_lock := b |>.

Definition nk_mbuf_alloc_local : ST netstack ptr :=
  λ s, '(x, m, P) ← mbuf_alloc (nk_mem s) (te_mbufs (nk_tx s));
       Some (x, s <| nk_tx ::= λ e, e <| te_mem := m |> <| te_mbufs := P |> |>).
Definition nk_mbuf_free (x : ptr) : ST netstack unit :=
  λ s, '(m, P) ← mbuf_free (nk_mem s) (te_mbufs (nk_tx s)) x;
       Some (tt, s <| nk_tx ::= λ e, e <| te_mem := m |> <| te_mbufs := P |> |>).
Definition nk_arp_alloc : ST netstack ptr :=
  λ s, '(x, P) ← mempool_alloc (nk_mem s) (nk_arp s); Some (x, s <| nk_arp := P |>).
Definition nk_arp_free (x : ptr) : ST netstack unit :=
  λ s, '(m, P) ← mempool_free (nk_mem s) (nk_arp s) x; Some (tt, nk_set_mem m s <| nk_arp := P |>).
Definition nk_pend_alloc : ST netstack ptr :=
  λ s, '(x, P) ← mempool_alloc (nk_mem s) (nk_pend s); Some (x, s <| nk_pend := P |>).
Definition nk_pend_free (x : ptr) : ST netstack unit :=
  λ s, '(m, P) ← mempool_free (nk_mem s) (nk_pend s) x; Some (tt, nk_set_mem m s <| nk_pend := P |>).

(** [eth_send] and [eth_send_one] on [percpu_get(eth_txqs)[i]]. *)
Definition nk_eth_send (i : nat) (pkt : ptr) : ST netstack Z :=
  λ s, t ← nk_txqs s !! i;
       '(ret, t) ← eth_send (nk_tx s) t pkt;
       Some (ret, s <| nk_txqs ::= <[i := t]> |>).
Definition nk_eth_send_one (i : nat) (pkt : ptr) (len : Z) : ST netstack Z :=
  λ s, t ← nk_txqs s !! i;
       '(ret, e, t) ← eth_send_one (nk_tx s) t pkt len;
       Some (ret, s <| nk_tx := e |> <| nk_txqs ::= <[i := t]> |>).

Section arp.
Context (C : net_cfg) (tw arp_tbl arp_timer_handler_fn : ptr) (cpu_count cpu_id : Z) (fuel : nat).

(** ** Finding and creating entries *)

Definition arp_ip_to_idx (addr : Z) : Z := Z.land (hash_crc32c_one ARP_HASH_SEED addr) (ARP_MAX_ENTRIES - 1).
Definition arp_bucket (addr : Z) : ptr := arp_tbl + 8 * arp_ip_to_idx addr.

(** The loop of [__arp_lookup]. *)
Fixpoint arp_find (fuel : nat) (m : heap) (pos : ptr) (addr : Z) : option ptr :=
  if pos =? NULL then Some NULL else
  match fuel with
  | O => None
  | S fuel' =>
      let e := pos - AE_LINK in
      a ← ld m e AE_ADDR;
      if a =? addr then Some e else
      next ← ld m pos LN_NEXT;
      arp_find fuel' m next addr
  end.
Definition arp_lookup_chain (h : ptr) (addr : Z) : ST netstack ptr :=
  λ s, pos ← ld (nk_mem s) h LN_NEXT; e ← arp_find fuel (nk_mem s) pos addr; Some (e, s).

Definition arp_lookup (addr : Z) (create_okay : bool) : ST netstack ptr :=
  let h := arp_bucket addr in
  e ← arp_lookup_chain h addr;
  if negb (e =? NULL) then mret e else
  if create_okay then
    spin_lock nk_arp_lock set_arp_lock;;
    e ← arp_lookup_chain h addr;
    if negb (e =? NULL) then spin_unlock set_arp_lock;; mret e else
    e ← nk_arp_alloc;
    if e =? NULL then mret NULL else
    nk_sto e AE_ADDR addr;;
    nk_sto e AE_FLAGS 0;;
    nk_sto e AE_RETRIES 0;;
    nk_heap (λ m, timer_init_entry m (e + AE_TIMER) arp_timer_handler_fn);;
    nk_heap (λ m, hlist_add_head m h (e + AE_LINK));;
    spin_unlock set_arp_lock;;
    mret e
  else mret NULL.

(** ** Packets *)

Definition arp_send_pkt (op target_ip target_mac : Z) : ST netstack Z :=
  pkt ← nk_mbuf_alloc_local;
  if pkt =? NULL then mret (- ENOMEM) else
  nk_data pkt (λ d, arp_fill C d op target_ip target_mac);;
  nk_sto pkt MB_OL_FLAGS 0;;
  ret ← nk_eth_send_one 0 pkt ARP_PKT_SIZE;
  if negb (ret =? 0) then nk_mbuf_free pkt;; mret (- EIO) else
  mret 0.

Definition arp_send_response_reuse (pkt : ptr) : ST netstack Z :=
  nk_data pkt (arp_reply_fill C);;
  nk_sto pkt MB_OL_FLAGS 0;;
  ret ← nk_eth_send_one 0 pkt ARP_PKT_SIZE;
  if negb (ret =? 0) then nk_mbuf_free pkt;; mret (- EIO) else
  mret 0.

(** ** Updating an entry *)

(** [cpu_run_on_one(send_pending_pkt, pkt, cpu)], whose result is not looked at;
    [malloc] of its list element is taken to succeed. *)
Definition cpu_run_on_one (pkt : ptr) (cpu : Z) : ST netstack unit :=
  if cpu_count <=? cpu then mret () else st_mod (λ s, s <| nk_runs ::= λ r, (cpu, pkt) :: r |>).

(** The loop over the waiting packets. *)
Fixpoint dispatch_pending (fuel : nat) (n : ptr) : ST netstack unit :=
  if n =? NULL then mret () else
  match fuel with
  | O => st_fail
  | S fuel' =>
      let pkt := n - PP_LINK in
      dispatched ← nk_ld pkt PP_DISPATCHED;
      (if dispatched =? 0 then
         cpu ← nk_ld pkt PP_CPU;
         cpu_run_on_one pkt cpu;;
         nk_sto pkt PP_DISPATCHED 1
       else mret ());;
      next ← nk_ld n LN_NEXT;
      dispatch_pending fuel' next
  end.

Definition arp_update_mac (now addr mac : Z) (create_okay : bool) : ST netstack Z :=
  e ← arp_lookup addr create_okay;
  if e =? NULL then mret (- ENOMEM) else
  flags ← nk_ld e AE_FLAGS;
  if negb (Z.land flags ARP_FLAG_STATIC =? 0) then mret 0 else
  nk_sto e AE_MAC mac;;
  nk_sto e AE_FLAGS ARP_FLAG_VALID;;
  nk_sto e AE_RETRIES 0;;
  nk_wheel (λ w, '(_, w) ← timer_mod tw now NULL w (e + AE_TIMER) ARP_REFRESH_TIMEOUT; Some w);;
  spin_lock nk_pending_lock set_pending_lock;;
  n ← nk_ld (e + AE_PENDING) LN_NEXT;
  dispatch_pending fuel n;;
  spin_unlock set_pending_lock;;
  mret 0.

(** ** Input *)

(** The part of the packet [arp_input] reads: sizes, header, addresses. *)
Definition arp_header_ok (plen : Z) (d : bytes) (hdr : nat) : option bool :=
  if negb (mbuf_enough_space plen (Z.of_nat hdr) 8) then Some false else
  htype ← get16 d hdr;
  ptype ← get16 d (hdr + 2);
  hlen ← get8 d (hdr + 4);
  protolen ← get8 d (hdr + 5);
  if negb (ntoh16 htype =? ARP_HTYPE_ETHER) || negb (ntoh16 ptype =? ETHTYPE_IP) || negb (hlen =? 6) || negb (protolen =? 4)
  then Some false else
  Some (mbuf_enough_space plen (Z.of_nat (hdr + 8)) 20).

Definition arp_input (now : Z) (pkt : ptr) (hdr : nat) : ST netstack unit :=
  plen ← nk_ld pkt MB_LEN;
  d ← (λ s, Some (mbuf_data (te_data (nk_tx s)) pkt, s));
  ok ← st_lift (arp_header_ok plen d hdr);
  if negb (ok : bool) then nk_mbuf_free pkt else
  op ← st_lift (get16 d (hdr + 6));
  sip ← st_lift (get32 d (hdr + 14));
  tip ← st_lift (get32 d (hdr + 24));
  smac ← st_lift (get48 d (hdr + 8));
  if eth_addr_is_multicast smac then nk_mbuf_free pkt else
  let am_target := cfg_host_addr C =? ntoh32 tip in
  _ ← arp_update_mac now (ntoh32 sip) smac am_target;
  if am_target && (ntoh16 op =? ARP_OP_REQUEST) then _ ← arp_send_response_reuse pkt; mret ()
  else nk_mbuf_free pkt.

(** ** Asking for an address *)

(** The result and, when it is 0, the MAC address. *)
Definition arp_lookup_mac (now addr : Z) : ST netstack (Z * Z) :=
  e ← arp_lookup addr true;
  if e =? NULL then mret (- ENOENT, 0) else
  flags ← nk_ld e AE_FLAGS;
  if Z.land flags ARP_FLAG_VALID =? 0 then
    spin_lock nk_send_lock set_send_lock;;
    pending ← (λ s, p ← timer_pending (nk_mem s) (e + AE_TIMER); Some (p, s));
    (if negb (pending : bool) then
       flags ← nk_ld e AE_FLAGS;
       nk_sto e AE_FLAGS (Z.lor flags ARP_FLAG_RESOLVING);;
       _ ← arp_send_pkt ARP_OP_REQUEST addr ETH_ADDR_BROADCAST;
       nk_wheel (λ w, '(_, w) ← timer_add tw now NULL w (e + AE_TIMER) ARP_RESOLVE_TIMEOUT; Some w)
     else mret ());;
    spin_unlock set_send_lock;;
    mret (- EAGAIN, 0)
  else
    mac ← nk_ld e AE_MAC;
    mret (0, mac).

Definition arp_insert (addr mac : Z) : ST netstack Z :=
  e ← arp_lookup addr false;
  e ← (if e =? NULL then
         e ← nk_arp_alloc;
         if e =? NULL then mret NULL else
         nk_sto e AE_ADDR addr;;
         nk_sto e AE_FLAGS (Z.lor ARP_FLAG_VALID ARP_FLAG_STATIC);;
         nk_sto e AE_RETRIES 0;;
         nk_heap (λ m, timer_init_entry m (e + AE_TIMER) NULL);;
         nk_heap (λ m, hlist_add_head m (arp_bucket addr) (e + AE_LINK));;
         mret e
       else mret e);
  if e =? NULL then mret (- ENOMEM) else
  nk_heap (λ m, timer_del m (e + AE_TIMER));;
  nk_sto e AE_MAC mac;;
  mret 0.

(** ** The timer of an entry *)

Definition drop_pending (n : ptr) (s : netstack) : option netstack :=
  let pkt := n - PP_LINK in
  mbuf ← ld (nk_mem s) pkt PP_MBUF;
  '(_, s) ← nk_mbuf_free mbuf s;
  '(_, s) ← nk_heap (λ m, hlist_del m (pkt + PP_LINK)) s;
  '(_, s) ← nk_pend_free pkt s;
  Some s.

Definition arp_timer_handler (now : Z) (t cur_fg : ptr) : ST netstack unit :=
  let e := t - AE_TIMER in
  if negb (cur_fg =? NULL) then st_fail else
  retries ← nk_ld e AE_RETRIES;
  nk_sto e AE_RETRIES (u8 (retries + 1));;
  retries ← nk_ld e AE_RETRIES;
  if ARP_MAX_ATTEMPTS <=? retries then
    spin_lock nk_pending_lock set_pending_lock;;
    (λ s, s ← hlist_for_each_safe nk_mem drop_pending fuel (e + AE_PENDING) s; Some (tt, s));;
    spin_unlock set_pending_lock;;
    nk_heap (λ m, hlist_del m (e + AE_LINK));;
    nk_arp_free e
  else
  flags ← nk_ld e AE_FLAGS;
  nk_sto e AE_FLAGS (Z.lor flags ARP_FLAG_RESOLVING);;
  flags ← nk_ld e AE_FLAGS;
  addr ← nk_ld e AE_ADDR;
  mac ← (if negb (Z.land flags ARP_FLAG_VALID =? 0) then nk_ld e AE_MAC else mret ETH_ADDR_BROADCAST);
  _ ← arp_send_pkt ARP_OP_REQUEST addr mac;
  nk_wheel (λ w, '(_, w) ← timer_add tw now NULL w t ARP_RETRY_TIMEOUT; Some w).

(** ** Packets that wait *)

Definition arp_add_pending_pkt (dst_addr fg mbuf len : Z) : ST netstack Z :=
  e ← arp_lookup dst_addr false;
  if e =? NULL then mret (- ENOENT) else
  spin_lock nk_pending_lock set_pending_lock;;
  pkt ← nk_pend_alloc;
  if pkt =? NULL then spin_unlock set_pending_lock;; mret (- ENOMEM) else
  nk_sto pkt PP_DST_ADDR dst_addr;;
  nk_sto pkt PP_FG fg;;
  nk_sto pkt PP_MBUF mbuf;;
  nk_sto pkt PP_LEN (s32 len);;
  nk_sto pkt PP_CPU cpu_id;;
  nk_sto pkt PP_DISPATCHED 0;;
  nk_heap (λ m, hlist_add_head m (e + AE_PENDING) (pkt + PP_LINK));;
  spin_unlock set_pending_lock;;
  mret 0.

(** [ip_send_one] of dp/net/ip.c *)
Definition ip_send_one (now cur_fg dst_addr pkt len : Z) : ST netstack Z :=
  nk_data pkt (λ d, d ← put48 d ETH_SHOST_OFF (cfg_mac C); put16 d ETH_TYPE_OFF (hton16 ETHTYPE_IP));;
  let dst_addr_ := if Z.land dst_addr (cfg_mask C) =? Z.land (cfg_host_addr C) (cfg_mask C) then dst_addr else cfg_gateway_addr C in
  r ← arp_lookup_mac now dst_addr_;
  if negb (r.1 =? 0) then _ ← arp_add_pending_pkt dst_addr_ cur_fg pkt len; mret 0 else
  nk_data pkt (λ d, put48 d 0 r.2);;
  dev ← nk_ld cur_fg FG_DEV_IDX;
  ret ← nk_eth_send_one (Z.to_nat dev) pkt len;
  if negb (ret =? 0) then mret (- EIO) else mret 0.

Definition send_pending_pkt (now : Z) (pkt : ptr) : ST netstack unit :=
  fg ← nk_ld pkt PP_FG;
  dst ← nk_ld pkt PP_DST_ADDR;
  mbuf ← nk_ld pkt PP_MBUF;
  len ← nk_ld pkt PP_LEN;
  ret ← ip_send_one now fg dst mbuf len;
  (if negb (ret =? 0) then mbuf ← nk_ld pkt PP_MBUF; nk_mbuf_free mbuf else mret ());;
  spin_lock nk_pending_lock set_pending_lock;;
  nk_heap (λ m, hlist_del m (pkt + PP_LINK));;
  nk_pend_free pkt;;
  spin_unlock set_pending_lock.
End arp.

(** [arp_init] *)
Definition arp_init (pa ma : Z → ptr) (m : heap) (pend arp : pool) : option (Z * heap * pool * pool) :=
  '(ret, m, ds) ← mempool_create_datastore pa ma m pend.1 MAX_PENDING_PKTS SIZEOF_PENDING_PKT 0 MEMPOOL_DEFAULT_CHUNKSIZE;
  let pend := (ds, pend.2) in
  if negb (ret =? 0) then Some (ret, m, pend, arp) else
  p ← mempool_create pend.1 pend.2 MEMPOOL_SANITY_GLOBAL 0;
  let pend := (pend.1, p) in
  '(ret, m, ds) ← mempool_create_datastore pa ma m arp.1 ARP_MAX_ENTRIES SIZEOF_ARP_ENTRY 0 MEMPOOL_DEFAULT_CHUNKSIZE;
  let arp := (ds, arp.2) in
  if negb (ret =? 0) then Some (ret, m, pend, arp) else
  p ← mempool_create arp.1 arp.2 MEMPOOL_SANITY_GLOBAL 0;
  Some (0, m, pend, (arp.1, p)).

(** ** A resolution *)

Lemma enough_space plen o k : 0 ≤ o + k ≤ plen → o + k < U64_MOD → mbuf_enough_space plen o k = true.
Proof. intros H1 H2. unfold mbuf_enough_space. rewrite u64_small by lia. apply Z.leb_le. lia. Qed.

Lemma arp_frame_accepted d dhost shost op smac sip tmac tip plen :
  bytes_wf d → (42 ≤ length d)%nat → 42 ≤ plen → arp_frame d dhost shost op smac sip tmac tip → arp_header_ok plen d 14 = Some true.
Proof.
  intros Hwf Hl Hp [F1 F2 F3 F4 F5 F6 F7 F8 F9 F10 F11 F12]. unfold arp_header_ok. rewrite enough_space by (unfold U64_MOD; lia). cbn [negb Nat.add].
  destruct (get16_ntoh d 14) as (v1 & -> & E1 & _); [done|lia|]. destruct (get16_ntoh d 16) as (v2 & -> & E2 & _); [done|lia|].
  rewrite !get8_byte by lia. cbn [mbind option_bind]. rewrite E1, E2, F4, F5, F6, F7. cbn. by rewrite enough_space by (unfold U64_MOD; lia).
Qed.


Definition ex_host (mac addr : Z) : net_cfg := mk_net_cfg mac addr 0x0A0000FE 0xFFFFFF00.

