(* ===== verification/ArpTable.v ===== *)
(** * The address table refines a finite map

    The chains of entries in the store, the pool of free entries and the armed
    timers together represent a map from network addresses to resolution states.
    Here no packet waits for an entry, which is the case for the UDP path. *)

From S2P Require Import Prelude Stddef Heap LinkedList Timer Hash Mempool Page Bytes Chksum Mbuf Dispatch NetInput EthQueue RxRing TxRing NetOutput Arp.
Local Open Scope Z_scope.

(** ** The abstract table *)

(** A resolution: its entry, and the fields that matter. *)
Record arp_rec := mk_arp_rec { ar_ptr : ptr; ar_mac : Z; ar_flags : Z; ar_retries : Z }.
Record arp_abs := mk_arp_abs { aa_tbl : gmap Z arp_rec; aa_armed : gmap Z Z; aa_free : list ptr }.
#[export] Instance eta_arp_rec : Settable arp_rec := λ r, mk_arp_rec (ar_ptr r) (ar_mac r) (ar_flags r) (ar_retries r).
#[export] Instance eta_arp_abs : Settable arp_abs := λ a, mk_arp_abs (aa_tbl a) (aa_armed a) (aa_free a).

Definition ar_timer (r : arp_rec) : ptr := ar_ptr r + AE_TIMER.
Definition ar_valid (r : arp_rec) : bool := negb (Z.land (ar_flags r) ARP_FLAG_VALID =? 0).
Definition ar_static (r : arp_rec) : bool := negb (Z.land (ar_flags r) ARP_FLAG_STATIC =? 0).

(** Read a field after stores to fields of the same object. *)
Ltac rd_fields := repeat (rewrite rd_insert_eq || rewrite rd_insert_ne by (right; solve_off)).

(** ** Placement in memory

    [n] entries of 80 bytes from [base], the heads of the table, the heads of the
    timer wheel, and the packet buffers [M] lie apart.  [idx] is the hash function. *)
Section table.
Context (tw arp_tbl base n : Z) (M : list ptr).
Context (idx : Z → Z) (idx_range : ∀ ip, 0 ≤ idx ip < ARP_MAX_ENTRIES).

Record arp_layout : Prop := {
  ly_pos : 0 < base ∧ 0 < tw ∧ 0 < arp_tbl;
  ly_wheel : base + 80 * n ≤ tw ∨ tw + 8 * NB ≤ base;
  ly_table : base + 80 * n ≤ arp_tbl ∨ arp_tbl + 8 * ARP_MAX_ENTRIES ≤ base;
  ly_heads : tw + 8 * NB ≤ arp_tbl ∨ arp_tbl + 8 * ARP_MAX_ENTRIES ≤ tw;
  ly_mbufs : ∀ x, x ∈ M → x ≠ NULL ∧ (x < base ∨ base + 80 * n ≤ x) ∧ (x < tw ∨ tw + 8 * NB ≤ x) ∧
               (x < arp_tbl ∨ arp_tbl + 8 * ARP_MAX_ENTRIES ≤ x);
}.

Definition el (e : ptr) : Prop := ∃ i, 0 ≤ i < n ∧ e = base + 80 * i.
Definition timers : list ptr := (λ i, base + 80 * i + AE_TIMER) <$> seqZ 0 n.
Definition links (l : list ptr) : list ptr := (λ e, e + AE_LINK) <$> l.

(** Where the table and its timers live. *)
Definition arp_area (x : ptr) : Prop :=
  base ≤ x < base + 80 * n ∨ tw ≤ x < tw + 8 * NB ∨ arp_tbl ≤ x < arp_tbl + 8 * ARP_MAX_ENTRIES.

Definition entry_rep (m : heap) (ip : Z) (r : arp_rec) : Prop :=
  rd m (ar_ptr r) AE_ADDR = ip ∧ rd m (ar_ptr r) AE_FLAGS = ar_flags r ∧ rd m (ar_ptr r) AE_RETRIES = ar_retries r ∧
  (ar_valid r = true → rd m (ar_ptr r) AE_MAC = ar_mac r) ∧ 0 ≤ ar_retries r < 256.

(** The chains [L] of entries, and the wheel [W] with their timers. *)
Record tbl_rep (m : heap) (P : pool) (now pos : Z) (a : arp_abs) (L W : Z → list ptr) : Prop := {
  tb_pool : pool_rep m P (aa_free a);
  tb_free : ∀ e, e ∈ aa_free a → el e ∧ ∀ i, 0 ≤ i < ARP_MAX_ENTRIES → e ∉ L i;
  tb_chain : ∀ i, 0 ≤ i < ARP_MAX_ENTRIES → hlist_rep m (arp_tbl + 8 * i) (links (L i));
  tb_in : ∀ i e, 0 ≤ i < ARP_MAX_ENTRIES → e ∈ L i →
            el e ∧ ∃ ip r, aa_tbl a !! ip = Some r ∧ ar_ptr r = e ∧ idx ip = i;
  tb_tbl : ∀ ip r, aa_tbl a !! ip = Some r → ar_ptr r ∈ L (idx ip) ∧ entry_rep m ip r;
  tb_timers : timers_rep tw timers (mk_timerwheel m now pos) (aa_armed a) W;
  tb_armed : ∀ t x, aa_armed a !! t = Some x → ∃ ip r, aa_tbl a !! ip = Some r ∧ t = ar_timer r;
  tb_pending : ∀ e, el e → rd m (e + AE_PENDING) LN_NEXT = NULL;
}.

(** ** Addresses *)

Lemma in_timers t : t ∈ timers ↔ el (t - AE_TIMER).
Proof.
  unfold timers, el. rewrite list_elem_of_fmap. split.
  - intros (i & -> & Hi%elem_of_seqZ). exists i. lia.
  - intros (i & Hi & E). exists i. rewrite elem_of_seqZ. lia.
Qed.

Lemma in_links e l : e + AE_LINK ∈ links l ↔ e ∈ l.
Proof. unfold links. rewrite list_elem_of_fmap. split; [intros (x & Hx & ?)|exists e; done]. by replace e with x by lia. Qed.

Lemma in_links_inv x l : x ∈ links l ↔ ∃ e, x = e + AE_LINK ∧ e ∈ l.
Proof. unfold links. by rewrite list_elem_of_fmap. Qed.

(** Objects of an entry are in the area and differ from one another. *)
Lemma el_area e o : el e → 0 ≤ o < 80 → arp_area (e + o).
Proof. intros (i & Hi & ->) Ho. left. lia. Qed.

Lemma el_apart e f o p : el e → el f → 0 ≤ o < 80 → 0 ≤ p < 80 → o ≠ p → e + o ≠ f + p.
Proof. intros (i & Hi & ->) (j & Hj & ->) Ho Hp Hop. lia. Qed.

Lemma el_pos e : arp_layout → el e → 0 < e.
Proof. intros [[H _] _ _ _ _] (i & Hi & ->). lia. Qed.

Lemma el_not_head e o : arp_layout → el e → 0 ≤ o < 80 →
  (∀ k, 0 ≤ k < NB → e + o ≠ tw + 8 * k) ∧ ∀ i, 0 ≤ i < ARP_MAX_ENTRIES → e + o ≠ arp_tbl + 8 * i.
Proof. intros [_ H1 H2 _ _] (j & Hj & ->) Ho. split; intros; lia. Qed.

Lemma mbuf_not_area x : arp_layout → x ∈ M → ¬ arp_area x.
Proof. intros [_ _ _ _ H] Hx Ha. destruct (H x Hx) as (_ & H1 & H2 & H3). unfold arp_area in Ha. lia. Qed.

(** ** Frames *)

Lemma chain_in_area m P now pos a L W i x : tbl_rep m P now pos a L W → 0 ≤ i < ARP_MAX_ENTRIES →
  x ∈ (arp_tbl + 8 * i) :: links (L i) → arp_area x.
Proof.
  intros Hr Hi [->|Hx]%elem_of_cons; [right; right; lia|]. apply in_links_inv in Hx as (e & -> & He).
  apply el_area; [by apply (tb_in _ _ _ _ _ _ _ Hr i)|done].
Qed.

Lemma tbl_rep_frame m m' P now pos a L W : tbl_rep m P now pos a L W →
  (∀ x o, arp_area x → rd m' x o = rd m x o) → tbl_rep m' P now pos a L W.
Proof.
  intros Hr Hm. pose proof Hr as [H1 H2 H3 H4 H5 H6 H7 H8]. split; [|done| |done| | |done|].
  - eapply sa_frame; [exact H1|..]; intros x Hx; apply Hm; replace x with (x + 0) by lia; (apply el_area; [by apply H2|lia]).
  - intros i Hi. eapply dlist_frame; [| |by apply H3].
    + intros x Hx. apply Hm. by eapply chain_in_area.
    + intros x Hx Hx0. apply Hm. eapply chain_in_area; [done|done|]. rewrite elem_of_app, list_elem_of_singleton in Hx.
      destruct Hx as [Hx|Hx]; [|done]. apply elem_of_cons. by right.
  - intros ip r Hip. destruct (H5 ip r Hip) as [Hin He]. split; [done|]. destruct (H4 _ _ (idx_range ip) Hin) as [Hel _].
    unfold entry_rep in *. rewrite !Hm; [done|..]; replace (ar_ptr r) with (ar_ptr r + 0) by lia; by apply el_area.
  - apply (timers_rep_frame tw timers _ _ _ m' H6). intros x o [Hx|(k & Hk & ->)] _.
    + apply Hm. rewrite in_timers in Hx. replace x with (x - AE_TIMER + AE_TIMER) by lia. by apply el_area.
    + apply Hm. right. left. lia.
  - intros e He. rewrite Hm; [by apply H8|by apply el_area].
Qed.

(** ** Finding an entry *)

Lemma arp_find_from m h addr l2 : ∀ l1 fuel, hlist_rep m h (links (l1 ++ l2)) → (∀ e, e ∈ l2 → e ≠ NULL) → (length l2 ≤ fuel)%nat →
  arp_find fuel m (default NULL (head (links l2))) addr =
    Some (match list_find (λ e, rd m e AE_ADDR = addr) l2 with Some (_, e) => e | None => NULL end).
Proof.
  induction l2 as [|e l2 IH]; intros l1 fuel Hd Hnn Hf; [by destruct fuel|].
  destruct fuel as [|fuel]; simpl in Hf; [lia|]. change (default NULL (head (links (e :: l2)))) with (e + AE_LINK). cbn [arp_find].
  assert (e ≠ NULL) as He by (apply Hnn, elem_of_cons; by left).
  assert (e + AE_LINK ≠ NULL) as Hl.
  { eapply dlist_nonnull; [exact Hd|right]. apply in_links, elem_of_app. right. apply elem_of_cons. by left. }
  rewrite (proj2 (Z.eqb_neq _ _) Hl). replace (e + AE_LINK - AE_LINK) with e by lia. rewrite (ld_some m e AE_ADDR) by done. cbn [mbind option_bind list_find].
  destruct (Z.eqb_spec (rd m e AE_ADDR) addr) as [Ha|Ha]; destruct (decide (rd m e AE_ADDR = addr)); try done.
  destruct (head_snoc_some (links l2) NULL) as (x & Hx & _).
  destruct (dlist_links m h (links l1 ++ [e + AE_LINK]) (links l2) NULL (e + AE_LINK) x) as (_ & _ & Hnx & _).
  { unfold links in *. rewrite fmap_app, fmap_cons in Hd. by rewrite <-app_assoc. }
  { by rewrite app_comm_cons, last_snoc. }
  { done. }
  rewrite (ld_some m (e + AE_LINK)), Hnx by done. cbn [mbind option_bind]. assert (x = default NULL (head (links l2))) as -> by (by destruct (links l2); injection Hx as <-).
  rewrite (IH (l1 ++ [e]) fuel); [|by rewrite <-app_assoc|intros y Hy; apply Hnn, elem_of_cons; by right|lia].
  by destruct (list_find (λ e, rd m e AE_ADDR = addr) l2) as [[j y]|].
Qed.

Lemma arp_find_ok m P now pos a L W ip fuel : arp_layout → tbl_rep m P now pos a L W → (Z.to_nat n ≤ fuel)%nat →
  (x ← ld m (arp_tbl + 8 * idx ip) LN_NEXT; arp_find fuel m x ip) = Some (default NULL (ar_ptr <$> aa_tbl a !! ip)).
Proof.
  intros Hly Hr Hf. pose proof (idx_range ip) as Hi. set (i := idx ip) in *. 
  pose proof (tb_chain _ _ _ _ _ _ _ Hr i Hi) as Hc. rewrite (hlist_head_ok _ _ _ Hc). cbn [mbind option_bind].
  rewrite (arp_find_from m (arp_tbl + 8 * i) ip (L i) []); [|done|..].
  - f_equal. destruct (list_find _ (L i)) as [[j e]|] eqn:E.
    + apply list_find_Some in E as (Hj & Hip & _). apply list_elem_of_lookup_2 in Hj. destruct (tb_in _ _ _ _ _ _ _ Hr i e Hi Hj) as (_ & ip' & r & Hr' & <- & _).
      destruct (tb_tbl _ _ _ _ _ _ _ Hr ip' r Hr') as [_ (Ha & _)]. rewrite Hip in Ha. subst ip'. by rewrite Hr'.
    + destruct (aa_tbl a !! ip) as [r|] eqn:Er; [|done]. destruct (tb_tbl _ _ _ _ _ _ _ Hr ip r Er) as [Hin (Ha & _)].
      apply list_find_None in E. rewrite Forall_forall in E. by apply E in Hin.
  - intros e He. destruct (tb_in _ _ _ _ _ _ _ Hr i e Hi He) as [Hel _]. pose proof (el_pos e Hly Hel). lia.
  - assert (length (L i) ≤ length (seqZ 0 n))%nat as Hle; [|rewrite length_seqZ in Hle; lia].
    rewrite <-(length_fmap (λ j, base + 80 * j) (seqZ 0 n)). apply submseteq_length, NoDup_submseteq.
    + pose proof (dl_nodup _ _ _ _ Hc) as [_ Hnd]%NoDup_cons. by apply (NoDup_fmap_1 (λ e, e + AE_LINK)).
    + intros e He. destruct (tb_in _ _ _ _ _ _ _ Hr i e Hi He) as [(j & Hj & ->) _]. apply list_elem_of_fmap. exists j. by rewrite elem_of_seqZ.
Qed.

(** ** Changing an entry *)

Lemma tbl_set m m' P now pos a L W ip r r' : arp_layout →
  tbl_rep m P now pos a L W → aa_tbl a !! ip = Some r → ar_ptr r' = ar_ptr r →
  (∀ x o, x ≠ ar_ptr r → rd m' x o = rd m x o) → entry_rep m' ip r' →
  tbl_rep m' P now pos (a <| aa_tbl ::= <[ip := r']> |>) L W.
Proof.
  intros Hly Hr Er Ep Hm He. pose proof Hr as [H1 H2 H3 H4 H5 H6 H7 H8]. destruct (H5 ip r Er) as [Hin _].
  destruct (H4 _ _ (idx_range ip) Hin) as [Hel _]. set (e := ar_ptr r) in *.
  assert (∀ f o, el f → 0 < o < 80 → f + o ≠ e) as Hne.
  { intros f o Hf Ho. replace e with (e + 0) by lia. by apply el_apart; try lia. }
  destruct (el_not_head e 0 Hly Hel ltac:(lia)) as [Hh1 Hh2]. rewrite Z.add_0_r in Hh1, Hh2.
  split; rsimpl.
  - eapply sa_frame; [exact H1|..]; intros x Hx; apply Hm; intros ->; by destruct (H2 e Hx) as [_ Hno]; apply (Hno _ (idx_range ip)).
  - done.
  - intros i Hi. eapply dlist_frame; [| |by apply H3].
    + intros x [->|Hx]%elem_of_cons; apply Hm; [by intros Heq; apply (Hh2 i)|]. apply in_links_inv in Hx as (f & -> & Hf). apply Hne; [by apply (H4 i)|done].
    + intros x Hx Hx0. apply Hm. rewrite elem_of_app, list_elem_of_singleton in Hx. destruct Hx as [Hx|Hx]; [|done].
      apply in_links_inv in Hx as (f & -> & Hf). apply Hne; [by apply (H4 i)|done].
  - intros i f Hi Hf. destruct (H4 i f Hi Hf) as (Hfel & ip' & r1 & Hr1 & Hp & Hidx). split; [done|]. destruct (decide (ip' = ip)) as [->|Hip].
    + assert (r1 = r) as -> by congruence. exists ip, r'. rewrite lookup_insert_eq. by rewrite Ep.
    + exists ip', r1. by rewrite lookup_insert_ne.
  - intros ip' r1 [[<- <-]|[Hip Hr1]]%lookup_insert_Some; [by rewrite Ep|]. destruct (H5 ip' r1 Hr1) as [Hin1 He1]. split; [done|].
    assert (ar_ptr r1 ≠ e) as Hp1.
    { intros E. destruct He1 as (Ha & _). destruct (H5 ip r Er) as [_ (Ha' & _)]. fold e in Ha'. rewrite E in Ha. congruence. }
    unfold entry_rep in *. by rewrite !Hm.
  - apply (timers_rep_frame tw timers _ _ _ m' H6). intros x o [Hx|(k & Hk & ->)] _; apply Hm.
    + rewrite in_timers in Hx. replace x with (x - AE_TIMER + AE_TIMER) by lia. by apply Hne.
    + intros Heq. by apply (Hh1 k).
  - intros t x Ht. destruct (H7 t x Ht) as (ip' & r1 & Hr1 & ->). destruct (decide (ip' = ip)) as [->|Hip].
    + exists ip, r'. rewrite lookup_insert_eq. split; [done|]. unfold ar_timer. simplify_eq. by rewrite Ep.
    + exists ip', r1. by rewrite lookup_insert_ne.
  - intros f Hf. rewrite Hm; [by apply H8|]. by apply Hne.
Qed.

(** ** Changing the timers *)

Lemma tbl_timers m m' P now pos a L W T' W' : arp_layout →
  tbl_rep m P now pos a L W → timers_rep tw timers (mk_timerwheel m' now pos) T' W' → timers_frame tw timers m m' →
  (∀ t x, T' !! t = Some x → ∃ ip r, aa_tbl a !! ip = Some r ∧ t = ar_timer r) →
  tbl_rep m' P now pos (a <| aa_armed := T' |>) L W'.
Proof.
  intros Hly Hr Ht Hm HT. pose proof Hr as [H1 H2 H3 H4 H5 H6 H7 H8].
  assert (∀ f o o', el f → 0 ≤ o < 80 → o ≠ AE_TIMER → rd m' (f + o) o' = rd m (f + o) o') as Hel.
  { intros f o o' Hf Ho Hoo. apply Hm; [|by apply el_not_head]. rewrite in_timers. intros Hx.
    by apply (el_apart f (f + o - AE_TIMER) o AE_TIMER Hf Hx); try (done || lia). }
  assert (∀ f o', el f → rd m' f o' = rd m f o') as Hel0 by (intros f o' Hf; replace f with (f + 0) by lia; by apply Hel).
  split; rsimpl; [|done| |done| |done|done|].
  - eapply sa_frame; [exact H1|..]; intros x Hx; apply Hel0; by apply H2.
  - intros i Hi. eapply dlist_frame; [| |by apply H3].
    + intros x [->|Hx]%elem_of_cons.
      * apply Hm; [rewrite in_timers; intros Hx; destruct (el_not_head _ AE_TIMER Hly Hx) as [_ Hh]; [done|]; apply (Hh i Hi); lia|].
        intros k Hk. destruct Hly as [_ _ _ Hd _]. lia.
      * apply in_links_inv in Hx as (f & -> & Hf). apply Hel; [by apply (H4 i)|done|done].
    + intros x Hx Hx0. rewrite elem_of_app, list_elem_of_singleton in Hx. destruct Hx as [Hx|Hx]; [|done].
      apply in_links_inv in Hx as (f & -> & Hf). apply Hel; [by apply (H4 i)|done|done].
  - intros ip r Hip. destruct (H5 ip r Hip) as [Hin He]. split; [done|]. destruct (H4 _ _ (idx_range ip) Hin) as [Hf _].
    unfold entry_rep in *. by rewrite !Hel0.
  - intros f Hf. rewrite Hel; [by apply H8|done|done|done].
Qed.

(** ** New entries *)

Lemma free_unarmed m P now pos a L W e : tbl_rep m P now pos a L W → e ∈ aa_free a → aa_armed a !! (e + AE_TIMER) = None.
Proof.
  intros Hr He. destruct (aa_armed a !! (e + AE_TIMER)) as [x|] eqn:E; [|done]. destruct (tb_armed _ _ _ _ _ _ _ Hr _ _ E) as (ip & r & Hip & Ht).
  destruct (tb_tbl _ _ _ _ _ _ _ Hr ip r Hip) as [Hin _]. destruct (tb_free _ _ _ _ _ _ _ Hr e He) as [_ Hno]. unfold ar_timer in Ht.
  replace (ar_ptr r) with e in Hin by lia. by destruct (Hno _ (idx_range ip)).
Qed.

(** Distinct objects of the area, by arithmetic. *)
Ltac apart :=
  repeat match goal with
  | H : el _ |- _ => destruct H as (? & ? & ?)
  | H : arp_layout |- _ => destruct H as [[? [? ?]] ? ? ? _]
  end;
  unfold NB, ARP_MAX_ENTRIES, AE_TIMER, AE_LINK, AE_PENDING in *; lia.

(** An update of entry [e] and chain [j] that leaves everything else alone: what
    the chains, the timers and the entries become. *)
Lemma tbl_change m m' P now pos a L W j e : arp_layout →
  tbl_rep m P now pos a L W → 0 ≤ j < ARP_MAX_ENTRIES → el e → (∀ i, 0 ≤ i < ARP_MAX_ENTRIES → i ≠ j → e ∉ L i) →
  (∀ x o, x ≠ e → x ∉ aa_free a → x ≠ e + AE_TIMER ∨ o ≠ TM_HANDLER → x ≠ arp_tbl + 8 * j → x ≠ e + AE_LINK → x ∉ links (L j) → rd m' x o = rd m x o) →
  (∀ i, 0 ≤ i < ARP_MAX_ENTRIES → i ≠ j → hlist_rep m' (arp_tbl + 8 * i) (links (L i))) ∧
  timers_rep tw timers (mk_timerwheel m' now pos) (aa_armed a) W ∧
  (∀ f, el f → rd m' (f + AE_PENDING) LN_NEXT = NULL) ∧
  (∀ f o, el f → f ≠ e → f ∉ aa_free a → rd m' f o = rd m f o).
Proof.
  intros Hly Hr Hj Hel Hej Hm. pose proof Hr as [H1 H2 H3 H4 H5 H6 H7 H8].
  assert (∀ x, x ∈ links (L j) → el (x - AE_LINK)) as Hlk.
  { intros x (g & -> & Hg)%in_links_inv. replace (g + AE_LINK - AE_LINK) with g by lia. by apply (H4 j). }
  assert (∀ x, x ∈ aa_free a → el x) as Hfr by (intros x Hx; by apply H2).
  split; [|split; [|split]].
  - intros i Hi Hij.
    assert (∀ x o, x ∈ (arp_tbl + 8 * i) :: links (L i) → rd m' x o = rd m x o) as Hx.
    { intros x o [->|Hx]%elem_of_cons.
      - apply Hm; [apart|intros Hx%Hfr; apart|left; apart|apart|apart|intros Hx%Hlk; apart].
      - apply in_links_inv in Hx as (f & -> & Hfi). pose proof (H4 i f Hi Hfi) as (Hfel & ip1 & r1 & Hr1 & Hp1 & <-).
        apply Hm; [apart|intros Hx%Hfr; apart|left; apart|apart| |].
        + intros Hx. apply (Hej (idx ip1) Hi Hij). by replace e with f by lia.
        + intros Hx%(proj1 (in_links _ _)). destruct (H4 j f Hj Hx) as (_ & ip2 & r2 & Hr2 & Hp2 & <-).
          destruct (H5 ip1 r1 Hr1) as [_ (Ha1 & _)]. destruct (H5 ip2 r2 Hr2) as [_ (Ha2 & _)]. rewrite Hp1 in Ha1. rewrite Hp2 in Ha2. congruence. }
    eapply dlist_frame; [| |by apply H3]; intros x Hx'; [by apply Hx|]. intros Hx0. apply Hx. rewrite elem_of_app, list_elem_of_singleton in Hx'.
    destruct Hx' as [Hx'|Hx']; [|done]. apply elem_of_cons. by right.
  - apply (timers_rep_frame tw timers _ _ _ m' H6). intros x o [Hx%in_timers|(k & Hk & ->)] Ho.
    + apply Hm; [apart|intros Hx'%Hfr; apart|by right|apart|apart|intros Hx'%Hlk; apart].
    + apply Hm; [apart|intros Hx'%Hfr; apart|by right|apart|apart|intros Hx'%Hlk; apart].
  - intros f Hf. rewrite Hm; [by apply H8|apart|intros Hx'%Hfr; apart|left; apart|apart|apart|intros Hx'%Hlk; apart].
  - intros f o Hf Hfe Hff. apply Hm; [done|done|left; apart|apart|apart|intros Hx'%Hlk; apart].
Qed.

(** The stores of a new entry and its link. *)
Lemma tbl_new_mem m P now pos a L W e ip fl hd : arp_layout →
  tbl_rep m P now pos a L W → e ∈ aa_free a →
  let j := idx ip in let m0 := <[(e, AE_RETRIES) := 0]> (<[(e, AE_FLAGS) := fl]> (<[(e, AE_ADDR) := ip]> m)) in
  ∃ m1 m2, timer_init_entry m0 (e + AE_TIMER) hd = Some m1 ∧ hlist_add_head m1 (arp_tbl + 8 * j) (e + AE_LINK) = Some m2 ∧
    hlist_rep m2 (arp_tbl + 8 * j) (links (e :: L j)) ∧ (∀ o, rd m2 e o = rd m0 e o) ∧
    (∀ x o, x ≠ e → x ≠ e + AE_TIMER ∨ o ≠ TM_HANDLER → x ≠ arp_tbl + 8 * j → x ≠ e + AE_LINK → x ∉ links (L j) → rd m2 x o = rd m x o).
Proof.
  intros Hly Hr Hef j m0. pose proof Hr as [H1 H2 H3 H4 H5 H6 H7 H8]. pose proof (idx_range ip) as Hj. fold j in Hj. destruct (H2 e Hef) as [Hel HeL].
  pose proof (el_pos e Hly Hel) as He0. assert (e + AE_TIMER ≠ NULL) as Ht0 by (unfold AE_TIMER; lia).
  assert (∀ x, x ∈ links (L j) → el (x - AE_LINK)) as Hlk.
  { intros x (g & -> & Hg)%in_links_inv. replace (g + AE_LINK - AE_LINK) with g by lia. by apply (H4 j). }
  unfold timer_init_entry. rewrite sto_some by done. cbn [mbind option_bind]. rewrite sto_some by done.
  set (m1 := <[(e + AE_TIMER, TM_HANDLER) := hd]> _). exists m1.
  assert (∀ x o, x ≠ e → x ≠ e + AE_TIMER ∨ o ≠ TM_HANDLER → rd m1 x o = rd m x o) as Hm1.
  { intros x o Hx Ho. unfold m1, m0. rewrite rd_insert_ne by (destruct Ho; [left|right]; congruence).
    rewrite rd_insert. case_decide as Heq; [|rewrite !rd_insert_ne by (left; congruence); done]. injection Heq as <- <-.
    symmetry. apply (tr_idle _ _ _ _ _ H6); [|by eapply free_unarmed]. apply in_timers. by replace (e + AE_TIMER - AE_TIMER) with e by lia. }
  assert (hlist_rep m1 (arp_tbl + 8 * j) (links (L j))) as Hc1.
  { eapply (hlist_rep_frame [e; e + AE_TIMER]); [by apply H3|..].
    - intros x o Hx. rewrite !elem_of_cons in Hx. apply Hm1; [tauto|left; tauto].
    - intros x [->|Hx]%elem_of_cons; rewrite elem_of_cons, list_elem_of_singleton; [apart|]. apply Hlk in Hx. apart. }
  destruct (hlist_add_head_ok m1 (arp_tbl + 8 * j) (links (L j)) (e + AE_LINK)) as (m2 & E2 & Hc2 & Hs2); [done| |unfold AE_LINK; lia|].
  { rewrite elem_of_cons. intros [Hx|Hx]; [apart|]. apply (proj1 (in_links _ _)) in Hx. by apply (HeL j). }
  assert (∀ x o, x ≠ arp_tbl + 8 * j → x ≠ e + AE_LINK → x ∉ links (L j) → rd m2 x o = rd m1 x o) as Hm2.
  { intros x o Hx1 Hx2 Hx3. apply Hs2. rewrite !elem_of_cons. tauto. }
  exists m2. split; [done|]. split; [exact E2|]. split; [exact Hc2|]. split.
  - intros o. rewrite Hm2; [|apart|unfold AE_LINK; lia|intros Hx%Hlk; apart]. unfold m1. by rewrite !(rd_insert_ne _ (e + AE_TIMER)) by (left; unfold AE_TIMER; lia).
  - intros x o Hx Ho Hx1 Hx2 Hx3. by rewrite Hm2, Hm1.
Qed.

Lemma tbl_new m P P' now pos a L W e F ip mac fl hd : arp_layout →
  tbl_rep m P now pos a L W → aa_free a = e :: F → pool_rep m P' F → aa_tbl a !! ip = None →
  (ar_valid (mk_arp_rec e mac fl 0) = true → rd m e AE_MAC = mac) →
  ∃ m1 m2, timer_init_entry (<[(e, AE_RETRIES) := 0]> (<[(e, AE_FLAGS) := fl]> (<[(e, AE_ADDR) := ip]> m))) (e + AE_TIMER) hd = Some m1 ∧
    hlist_add_head m1 (arp_tbl + 8 * idx ip) (e + AE_LINK) = Some m2 ∧
    tbl_rep m2 P' now pos (a <| aa_tbl ::= <[ip := mk_arp_rec e mac fl 0]> |> <| aa_free := F |>)
      (upd L (idx ip) (e :: L (idx ip))) W ∧
    (∀ x o, ¬ arp_area x → rd m2 x o = rd m x o) ∧ e ≠ NULL.
Proof.
  intros Hly Hr EF HP Hip Hmac. pose proof Hr as [H1 H2 H3 H4 H5 H6 H7 H8]. set (j := idx ip). pose proof (idx_range ip) as Hj. fold j in Hj.
  assert (e ∈ aa_free a) as Hef by (rewrite EF; apply elem_of_cons; by left). destruct (H2 e Hef) as [Hel HeL]. pose proof (el_pos e Hly Hel) as He0.
  pose proof (sa_nodup _ _ _ H1) as Hnd. rewrite EF in Hnd. apply NoDup_cons in Hnd as [HeF HndF].
  assert (∀ x, x ∈ links (L j) → el (x - AE_LINK)) as Hlk.
  { intros x (g & -> & Hg)%in_links_inv. replace (g + AE_LINK - AE_LINK) with g by lia. by apply (H4 j). }
  destruct (tbl_new_mem m P now pos a L W e ip fl hd Hly Hr Hef) as (m1 & m2 & E1 & E2 & Hc2 & Hm2e & Hm2). fold j in E2, Hc2, Hm2.
  exists m1, m2. split; [exact E1|]. split; [exact E2|].
  destruct (tbl_change m m2 P now pos a L W j e) as (Kc & Kt & Kp & Ke); try done.
  { intros i Hi _. by apply HeL. }
  { intros x o Hx Hxf Ho Hx1 Hx2 Hx3. by apply Hm2. }
  split; [|split; [|lia]].
  - split; rsimpl; [|..|].
    + eapply sa_frame; [exact HP|..]; intros x Hx; (assert (el x) as Hxel by (apply H2; rewrite EF; apply elem_of_cons; by right));
        (apply Hm2; [by intros ->|left; apart|apart|apart|intros Hx'%Hlk; apart]).
    + intros f Hf. destruct (H2 f) as [Hfel Hfno]; [rewrite EF; apply elem_of_cons; by right|]. split; [done|]. intros i Hi. unfold upd. case_decide as Hij; [|by apply Hfno].
      subst i. rewrite elem_of_cons. intros [->|Hx]; [done|]. by apply (Hfno j).
    + intros i Hi. unfold upd. case_decide as Hij; [subst i; exact Hc2|by apply Kc].
    + intros i f Hi Hf. unfold upd in Hf. case_decide as Hij; [subst i; apply elem_of_cons in Hf as [->|Hf]|].
      * split; [done|]. exists ip, (mk_arp_rec e mac fl 0). by rewrite lookup_insert_eq.
      * destruct (H4 j f Hi Hf) as (Hfel & ip' & r & Hr' & Hp & Hidx). split; [done|]. exists ip', r. rewrite lookup_insert_ne by congruence. done.
      * destruct (H4 i f Hi Hf) as (Hfel & ip' & r & Hr' & Hp & Hidx). split; [done|]. exists ip', r. rewrite lookup_insert_ne by congruence. done.
    + intros ip' r [[<- <-]|[Hne Hr']]%lookup_insert_Some.
      * unfold upd. rewrite decide_True by done. split; [apply elem_of_cons; by left|]. unfold entry_rep. cbn [ar_ptr ar_flags ar_retries ar_mac].
        rewrite !Hm2e. split_and!; [..|intros Hv|done|done]; rd_fields; [done..|by apply Hmac].
      * destruct (H5 ip' r Hr') as [Hin He]. split; [unfold upd; case_decide as Hij; [rewrite <-Hij; apply elem_of_cons; by right|done]|].
        destruct (H4 _ _ (idx_range ip') Hin) as [Hpel _]. unfold entry_rep in *.
        assert (ar_ptr r ∉ aa_free a) as Hpf by (intros Hx; by destruct (H2 _ Hx) as [_ Hno]; apply (Hno _ (idx_range ip'))).
        rewrite !Ke by (done || by intros Heq; rewrite Heq in Hpf). done.
    + done.
    + intros t x Ht. destruct (H7 t x Ht) as (ip' & r & Hr' & ->). exists ip', r. rewrite lookup_insert_ne by congruence. done.
    + done.
  - intros x o Hx. apply Hm2.
    + intros ->. apply Hx. replace e with (e + 0) by lia. by apply el_area.
    + left. intros ->. apply Hx. by apply el_area.
    + intros ->. apply Hx. right. right. lia.
    + intros ->. apply Hx. by apply el_area.
    + intros Hx'%Hlk. apply Hx. replace x with (x - AE_LINK + AE_LINK) by lia. by apply el_area.
Qed.

(** ** Entries that go *)

Lemma tbl_unique m P now pos a L W ip ip' r r' : tbl_rep m P now pos a L W →
  aa_tbl a !! ip = Some r → aa_tbl a !! ip' = Some r' → ar_ptr r = ar_ptr r' → ip = ip'.
Proof.
  intros Hr H1 H2 E. destruct (tb_tbl _ _ _ _ _ _ _ Hr ip r H1) as [_ (A1 & _)].
  destruct (tb_tbl _ _ _ _ _ _ _ Hr ip' r' H2) as [_ (A2 & _)]. rewrite E in A1. congruence.
Qed.

Lemma tbl_del m P now pos a L W ip r : arp_layout →
  tbl_rep m P now pos a L W → aa_tbl a !! ip = Some r → aa_armed a !! ar_timer r = None →
  ∃ m1 m2 P' L', hlist_del m (ar_ptr r + AE_LINK) = Some m1 ∧ mempool_free m1 P (ar_ptr r) = Some (m2, P') ∧
    tbl_rep m2 P' now pos (a <| aa_tbl ::= delete ip |> <| aa_free ::= λ F, ar_ptr r :: F |>) L' W ∧
    (∀ x o, ¬ arp_area x → rd m2 x o = rd m x o).
Proof.
  intros Hly Hr Er Hun. pose proof Hr as [H1 H2 H3 H4 H5 H6 H7 H8]. destruct (H5 ip r Er) as [Hin Her]. set (e := ar_ptr r) in *.
  set (j := idx ip) in *. pose proof (idx_range ip) as Hj. fold j in Hj. destruct (H4 j e Hj Hin) as [Hel _].
  apply list_elem_of_split in Hin as (l1 & l2 & EL). pose proof (H3 j Hj) as Hc. rewrite EL in Hc. unfold links in Hc. rewrite fmap_app, fmap_cons in Hc.
  destruct (hlist_del_ok m (arp_tbl + 8 * j) _ _ (e + AE_LINK) Hc) as (m1 & E1 & Hc1 & Hs1). rewrite <-fmap_app in Hc1, Hs1. fold (links (l1 ++ l2)) in Hc1, Hs1.
  assert (∀ f, f ∈ L j → f = e ∨ f ∈ l1 ++ l2) as Hsp by (intros f; rewrite EL, !elem_of_app, elem_of_cons; tauto).
  assert (∀ f, f ∈ l1 ++ l2 → f ∈ L j) as Hsp' by (intros f; rewrite EL, !elem_of_app, elem_of_cons; tauto).
  assert (e ∉ l1 ++ l2) as Hnd.
  { pose proof (dl_nodup _ _ _ _ (H3 j Hj)) as [_ Hnd]%NoDup_cons. apply (NoDup_fmap_1 (λ e, e + AE_LINK)) in Hnd. rewrite EL, <-Permutation_middle in Hnd.
    by apply NoDup_cons in Hnd as [? _]. }
  assert (∀ x, x ∈ links (l1 ++ l2) → el (x - AE_LINK)) as Hlk.
  { intros x (g & -> & Hg)%in_links_inv. replace (g + AE_LINK - AE_LINK) with g by lia. apply (H4 j); auto. }
  assert (∀ x, x ∈ aa_free a → el x) as Hfr by (intros x Hx; by apply H2).
  assert (e ∉ aa_free a) as Hef by (intros Hx; destruct (H2 e Hx) as [_ Hno]; apply (Hno j Hj); rewrite EL; apply elem_of_app; right; apply elem_of_cons; by left).
  assert (∀ x o, el x → rd m1 x o = rd m x o) as Hm1.
  { intros x o Hx. apply Hs1. rewrite elem_of_cons. intros [Hx'|Hx'%Hlk]; apart. }
  destruct (pool_free m1 P (aa_free a) e) as (m2 & P' & E2 & HP2 & Hs2); [|pose proof (el_pos e Hly Hel); lia|done|].
  { eapply sa_frame; [exact H1|..]; intros x Hx; by apply Hm1, Hfr. }
  assert (∀ x o, x ≠ e → x ∉ aa_free a → rd m2 x o = rd m1 x o) as Hm2 by (intros x o Hx Hxf; apply Hs2; rewrite elem_of_cons; tauto).
  assert (∀ i, 0 ≤ i < ARP_MAX_ENTRIES → i ≠ j → e ∉ L i) as Hej.
  { intros i Hi Hij Hx. destruct (H4 i e Hi Hx) as (_ & ip' & r' & Hr' & Hp & Hidx). apply Hij. rewrite <-Hidx. unfold j. f_equal.
    by eapply (tbl_unique m P now pos a L W ip' ip r' r). }
  destruct (tbl_change m m2 P now pos a L W j e) as (Kc & Kt & Kp & Ke); try done.
  { intros x o Hx Hxf _ Hx1 Hx2 Hx3. rewrite Hm2 by done. apply Hs1. rewrite elem_of_cons. intros [|Hx']; [done|]. apply Hx3.
    apply in_links_inv in Hx' as (g & -> & Hg). apply in_links. by apply Hsp'. }
  exists m1, m2, P', (upd L j (l1 ++ l2)). split; [done|]. split; [done|]. split.
  - split; rsimpl; [done|..|done].
    + intros f [->|Hf]%elem_of_cons; [split; [done|]|destruct (H2 f Hf) as [Hfel Hfno]; split; [done|]]; intros i Hi; unfold upd; case_decide as Hij; subst; auto.
      intros Hx. by apply (Hfno j), Hsp'.
    + intros i Hi. unfold upd. case_decide as Hij; [subst i|by apply Kc]. eapply (hlist_rep_frame (e :: aa_free a)); [exact Hc1|done|].
      intros x [->|Hx%Hlk]%elem_of_cons; rewrite elem_of_cons; intros [Hx'|Hx'%Hfr]; apart.
    + intros i f Hi Hf. assert (f ∈ L i) as HfL by (unfold upd in Hf; case_decide as Hij; [subst i; by apply Hsp'|done]).
      destruct (H4 i f Hi HfL) as (Hfel & ip' & r' & Hr' & Hp & Hidx). split; [done|]. exists ip', r'. rewrite lookup_delete_ne; [done|].
      intros <-. rewrite Er in Hr'. simplify_eq. unfold upd in Hf. case_decide; by destruct Hnd.
    + intros ip' r' [Hne Hr']%lookup_delete_Some. destruct (H5 ip' r' Hr') as [Hin' He'].
      assert (ar_ptr r' ≠ e) as Hpe by (intros E; apply Hne; by eapply (tbl_unique m P now pos a L W ip ip' r r')).
      split; [unfold upd; case_decide as Hij; [rewrite Hij in Hin'; by destruct (Hsp _ Hin')|done]|].
      destruct (H4 _ _ (idx_range ip') Hin') as [Hpel _]. unfold entry_rep in *.
      assert (ar_ptr r' ∉ aa_free a) as Hpf by (intros Hx; by destruct (H2 _ Hx) as [_ Hno]; apply (Hno _ (idx_range ip'))).
      by rewrite !Ke.
    + done.
    + intros t x Ht. destruct (H7 t x Ht) as (ip' & r' & Hr' & ->). exists ip', r'. rewrite lookup_delete_ne; [done|].
      intros <-. rewrite Er in Hr'. by simplify_eq.
  - intros x o Hx. rewrite Hm2; [apply Hs1|..].
    + rewrite elem_of_cons. intros [->|Hx'%Hlk]; apply Hx; [right; right; lia|]. replace x with (x - AE_LINK + AE_LINK) by lia. by apply el_area.
    + intros ->. apply Hx. replace e with (e + 0) by lia. by apply el_area.
    + intros Hx'%Hfr. apply Hx. replace x with (x + 0) by lia. by apply el_area.
Qed.
End table.

(** ** The network stack of a core *)

Lemma arp_idx_range ip : 0 ≤ arp_ip_to_idx ip < ARP_MAX_ENTRIES.
Proof.
  unfold arp_ip_to_idx. generalize (hash_crc32c_one ARP_HASH_SEED ip). intros h.
  change (ARP_MAX_ENTRIES - 1) with (Z.ones 16). rewrite Z.land_ones by lia. by apply Z.mod_pos_bound.
Qed.

Lemma nk_mem_set m s : nk_mem (nk_set_mem m s) = m.
Proof. done. Qed.
Lemma nk_set_set m m' s : nk_set_mem m (nk_set_mem m' s) = nk_set_mem m s.
Proof. done. Qed.
Lemma nk_sto_run p o v s : p ≠ NULL → nk_sto p o v s = Some (tt, nk_set_mem (<[(p, o) := v]> (nk_mem s)) s).
Proof. intros Hp. unfold nk_sto, nk_heap. by rewrite sto_some. Qed.
Lemma nk_ld_run p o s : p ≠ NULL → nk_ld p o s = Some (rd (nk_mem s) p o, s).
Proof. intros Hp. unfold nk_ld. by rewrite ld_some. Qed.
Lemma nk_heap_run f m s : f (nk_mem s) = Some m → nk_heap f s = Some (tt, nk_set_mem m s).
Proof. intros E. unfold nk_heap. by rewrite E. Qed.

Lemma nk_txqs_id s i t : nk_txqs s !! i = Some t → s <| nk_txqs ::= <[i := t]> |> = s.
Proof. intros H. destruct s. unfold set. cbn in *. by rewrite list_insert_id. Qed.

Section stack.
Context (C : net_cfg) (tw arp_tbl arp_timer_handler_fn base n cpu_count : Z) (fuel : nat) (M : list ptr).
Context (Hly : arp_layout tw arp_tbl base n M) (HC : cfg_ok C) (Hfuel : (Z.to_nat n ≤ fuel)%nat) (HM : NoDup M).

Definition txq_ok (t : eth_tx_queue) : Prop := 0 ≤ etx_cap t ∧ etx_cap t + Z.of_nat (length (etx_bufs t)) ≤ ETH_DEV_TX_QUEUE_SZ.

(** The free packet buffers [F] and the first transmit queue [t] hold the buffers [M]. *)
Record mb_rep (e : tx_env) (q : list eth_tx_queue) (F : list ptr) (t : eth_tx_queue) : Prop := {
  mb_pool : pool_rep (te_mem e) (te_mbufs e) F;
  mb_all : F ++ etx_bufs t ≡ₚ M;
  mb_q : q !! 0%nat = Some t;
  mb_qok : txq_ok t;
  mb_wf : packets_wf (te_data e);
}.

Definition sent (e : tx_env) (F : list ptr) (t t' : eth_tx_queue) (op ip mac : Z) (e' : tx_env) : Prop :=
  match F with
  | [] => t' = t
  | p :: _ =>
      if etx_cap t <? 1 then t' = t else
      t' = mk_eth_tx_queue (etx_cap t - 1) (etx_bufs t ++ [p]) ∧
      arp_fill C (mbuf_data (te_data e) p) op ip mac = Some (mbuf_data (te_data e') p)
  end.

Lemma arp_send_pkt_ok op ip mac s F t :
  mb_rep (nk_tx s) (nk_txqs s) F t → 0 ≤ op < 65536 → 0 ≤ ip < 2 ^ 32 → 0 ≤ mac < 2 ^ 48 →
  ∃ ret e' q' F' t', arp_send_pkt C op ip mac s = Some (ret, s <| nk_tx := e' |> <| nk_txqs := q' |>) ∧
    mb_rep e' q' F' t' ∧ same_outside M (nk_mem s) (te_mem e') ∧ sent (nk_tx s) F t t' op ip mac e'.
Proof.
  intros [Hp Ha Hq Hok Hwf] Hop Hip Hmac. unfold arp_send_pkt. destruct F as [|p F].
  { assert (nk_mbuf_alloc_local s = Some (NULL, s)) as E.
    { unfold nk_mbuf_alloc_local, nk_mem. rewrite (mbuf_alloc_empty _ _ Hp). cbn [mbind option_bind]. by destruct s as [[]]. }
    st_run E. cbn. exists (- ENOMEM), (nk_tx s), (nk_txqs s), [], t. split; [by destruct s|]. split; [done|]. split; [apply same_outside_refl|done]. }
  destruct (mbuf_alloc_ok _ _ _ _ Hp) as (m1 & P1 & E1 & Hp1 & Hp0 & HpF & _ & Hs1).
  assert (∀ x, x ∈ p :: F → x ∈ M) as HFM by (intros x Hx; rewrite <-Ha; apply elem_of_app; by left).
  assert (p ∈ M) as HpM by (apply HFM, elem_of_cons; by left).
  destruct (mbuf_data_wf _ p Hwf) as [Hdwf Hdl].
  destruct (arp_fill_ok C (mbuf_data (te_data (nk_tx s)) p) op ip mac) as (d & Ed & Ld & Wd & _); try done; [rewrite Hdl; vm_compute; lia|].
  set (e1 := (nk_tx s) <| te_mem := m1 |> <| te_mbufs := P1 |> <| te_data ::= <[p := d]> |>).
  set (m4 := <[(p, MB_NR_IOV) := 0]> (<[(p, MB_LEN) := ARP_PKT_SIZE]> (<[(p, MB_OL_FLAGS) := 0]> m1))).
  assert (same_outside [p] (nk_mem s) m4) as Hs4.
  { eapply same_outside_trans; [exact Hs1|]. do 2 (eapply same_outside_trans; [|apply same_outside_insert; by apply list_elem_of_singleton]).
    apply same_outside_insert; by apply list_elem_of_singleton. }
  assert (packets_wf (te_data e1)) as Hwf1.
  { unfold e1. rsimpl. intros x y [[<- <-]|[_ Hy]]%lookup_insert_Some; [split; [done|congruence]|by apply (Hwf x)]. }
  assert (pool_rep m4 P1 F) as Hp4.
  { eapply (pool_rep_frame [p]); [exact Hp1|..].
    - do 2 (eapply same_outside_trans; [|apply same_outside_insert; by apply list_elem_of_singleton]). apply same_outside_insert; by apply list_elem_of_singleton.
    - intros x Hx ->%list_elem_of_singleton. done. }
  assert (nk_mbuf_alloc_local s = Some (p, s <| nk_tx := (nk_tx s) <| te_mem := m1 |> <| te_mbufs := P1 |> |>)) as Ea.
  { unfold nk_mbuf_alloc_local, nk_mem. by rewrite E1. }
  st_run Ea. rewrite (proj2 (Z.eqb_neq _ _) Hp0).
  assert (nk_data p (λ d, arp_fill C d op ip mac) (s <| nk_tx := (nk_tx s) <| te_mem := m1 |> <| te_mbufs := P1 |> |>) = Some (tt, s <| nk_tx := e1 |>)) as E2.
  { unfold nk_data. rsimpl. by rewrite Ed. }
  st_run E2. st_run (nk_sto_run p MB_OL_FLAGS 0 (s <| nk_tx := e1 |>) Hp0).
  set (s3 := nk_set_mem _ _). destruct Hok as [Hc Hlen].
  assert (nk_eth_send_one 0 p ARP_PKT_SIZE s3 = if etx_cap t <? 1 then Some (- EBUSY, s <| nk_tx := e1 <| te_mem := m4 |> |>)
    else Some (0, s <| nk_tx := e1 <| te_mem := m4 |> |> <| nk_txqs ::= <[0%nat := mk_eth_tx_queue (etx_cap t - 1) (etx_bufs t ++ [p])]> |>)) as E4.
  { unfold nk_eth_send_one. change (nk_txqs s3) with (nk_txqs s). rewrite Hq. cbn [mbind option_bind]. unfold eth_send_one.
    rewrite !sto_some by done. cbn [mbind option_bind]. rewrite sto_some by done. cbn [mbind option_bind]. unfold eth_send. rsimpl.
    rewrite ld_some, rd_insert_eq by done. cbn [mbind option_bind]. destruct (Z.ltb_spec (etx_cap t) 1) as [Hlt|Hge].
    - change (etx_cap t <? 1 + 0) with (etx_cap t <? 1). rewrite (proj2 (Z.ltb_lt _ _) Hlt). cbn [mbind option_bind]. by rewrite nk_txqs_id.
    - change (etx_cap t <? 1 + 0) with (etx_cap t <? 1). rewrite (proj2 (Z.ltb_ge _ _) Hge). rewrite (proj2 (Z.ltb_lt _ _)) by lia. done. }
  destruct (etx_cap t <? 1) eqn:Ecap; st_run E4.
  - change (- EBUSY =? 0) with false. cbn [negb].
    destruct (pool_free m4 P1 F p Hp4 Hp0 HpF) as (m5 & P5 & E5 & Hp5 & Hs5).
    assert (nk_mbuf_free p (s <| nk_tx := e1 <| te_mem := m4 |> |>) = Some (tt, s <| nk_tx := e1 <| te_mem := m5 |> <| te_mbufs := P5 |> |>)) as Ef.
    { unfold nk_mbuf_free, mbuf_free, nk_mem, e1. rsimpl. by rewrite E5. }
    st_run Ef. exists (- EIO), (e1 <| te_mem := m5 |> <| te_mbufs := P5 |>), (nk_txqs s), (p :: F), t.
    split; [by destruct s|]. split; [by split; rsimpl|]. split; [|cbn [sent]; by rewrite Ecap].
    rsimpl. eapply same_outside_trans; [eapply same_outside_weaken; [exact Hs4|]|eapply same_outside_weaken; [exact Hs5|done]].
    by intros x ->%list_elem_of_singleton.
  - cbn [negb Z.eqb]. exists 0. eexists (e1 <| te_mem := m4 |>), _, F, (mk_eth_tx_queue (etx_cap t - 1) (etx_bufs t ++ [p])).
    split; [done|]. apply Z.ltb_ge in Ecap as Hcap. split; [split; rsimpl|split].
    + done.
    + rewrite <-Ha. solve_Permutation.
    + apply list_lookup_insert_eq. by eapply lookup_lt_Some.
    + split; rsimpl; [lia|]. rewrite length_app. simpl. lia.
    + done.
    + rsimpl. eapply same_outside_weaken; [exact Hs4|]. by intros x ->%list_elem_of_singleton.
    + cbn [sent]. rewrite Ecap. split; [done|]. rewrite Ed. unfold e1. rsimpl. unfold mbuf_data at 1. by rewrite lookup_insert_eq.
Qed.

Abbreviation area := (arp_area tw arp_tbl base n).
Abbreviation tbl := (tbl_rep tw arp_tbl base n arp_ip_to_idx).

Definition stack_rep (s : netstack) (a : arp_abs) : Prop :=
  (∃ L W, tbl (nk_mem s) (nk_arp s) (nk_now_us s) (nk_timer_pos s) a L W) ∧ ∃ F t, mb_rep (nk_tx s) (nk_txqs s) F t.

Definition unlocked (s : netstack) : Prop := nk_arp_lock s = false ∧ nk_pending_lock s = false ∧ nk_send_lock s = false.
Definition same_ctl (s s' : netstack) : Prop :=
  nk_now_us s' = nk_now_us s ∧ nk_timer_pos s' = nk_timer_pos s ∧
  nk_arp_lock s' = nk_arp_lock s ∧ nk_pending_lock s' = nk_pending_lock s ∧ nk_send_lock s' = nk_send_lock s.

Lemma same_ctl_unlocked s s' : same_ctl s s' → unlocked s → unlocked s'.
Proof. intros (_ & _ & H1 & H2 & H3) (K1 & K2 & K3). unfold unlocked. by rewrite H1, H2, H3. Qed.
Lemma same_ctl_trans s1 s2 s3 : same_ctl s1 s2 → same_ctl s2 s3 → same_ctl s1 s3.
Proof. intros (H1 & H2 & H3 & H4 & H5) (K1 & K2 & K3 & K4 & K5). split_and!; congruence. Qed.

Lemma mb_frame e q F t m' : mb_rep e q F t → (∀ x o, ¬ area x → rd m' x o = rd (te_mem e) x o) → mb_rep (e <| te_mem := m' |>) q F t.
Proof.
  intros [H1 H2 H3 H4 H5] Hm. split; rsimpl; try done.
  eapply sa_frame; [exact H1|..]; intros x Hx; apply Hm, (mbuf_not_area tw arp_tbl base n M x Hly); rewrite <-H2; apply elem_of_app; by left.
Qed.

(** A change of the table's memory. *)
Lemma stack_set s a a' m' P' L' W' :
  stack_rep s a → tbl m' P' (nk_now_us s) (nk_timer_pos s) a' L' W' → (∀ x o, ¬ area x → rd m' x o = rd (nk_mem s) x o) →
  stack_rep ((nk_set_mem m' s) <| nk_arp := P' |>) a'.
Proof.
  intros (_ & F & t & Hb) Ht Hm. split; [by exists L', W'|]. exists F, t. by apply (mb_frame (nk_tx s)).
Qed.

(** ** Lookups *)

Lemma lookup_chain_ok s a ip : stack_rep s a →
  arp_lookup_chain fuel (arp_bucket arp_tbl ip) ip s = Some (default NULL (ar_ptr <$> aa_tbl a !! ip), s).
Proof.
  intros ((L & W & Ht) & _). unfold arp_lookup_chain.
  pose proof (arp_find_ok tw arp_tbl base n M arp_ip_to_idx arp_idx_range _ _ _ _ _ _ _ ip fuel Hly Ht Hfuel) as E. unfold arp_bucket.
  destruct (ld (nk_mem s) (arp_tbl + 8 * arp_ip_to_idx ip) LN_NEXT) as [x|]; [|done]. cbn [mbind option_bind] in *. by rewrite E.
Qed.

Lemma rec_el s a ip r : stack_rep s a → aa_tbl a !! ip = Some r → el base n (ar_ptr r) ∧ 0 < ar_ptr r.
Proof.
  intros ((L & W & Ht) & _) Hr. destruct (tb_tbl _ _ _ _ _ _ _ _ _ _ _ _ Ht ip r Hr) as [Hin _].
  destruct (tb_in _ _ _ _ _ _ _ _ _ _ _ _ Ht _ _ (arp_idx_range ip) Hin) as [Hel _]. split; [done|]. by eapply el_pos.
Qed.

Abbreviation arp_lookup' := (arp_lookup arp_tbl arp_timer_handler_fn fuel).

Lemma arp_lookup_found s a ip r c : stack_rep s a → aa_tbl a !! ip = Some r → arp_lookup' ip c s = Some (ar_ptr r, s).
Proof.
  intros Hs Hr. unfold arp_lookup. st_run (lookup_chain_ok s a ip Hs). rewrite Hr. cbn [fmap option_fmap option_map default id].
  destruct (rec_el s a ip r Hs Hr) as [_ Hp]. by rewrite (proj2 (Z.eqb_neq (ar_ptr r) NULL)) by lia.
Qed.

Lemma arp_lookup_absent s a ip : stack_rep s a → aa_tbl a !! ip = None → arp_lookup' ip false s = Some (NULL, s).
Proof. intros Hs Hr. unfold arp_lookup. st_run (lookup_chain_ok s a ip Hs). by rewrite Hr. Qed.

(** Without a free entry the lock stays taken. *)
Lemma arp_lookup_full s a ip : stack_rep s a → unlocked s → aa_tbl a !! ip = None → aa_free a = [] →
  arp_lookup' ip true s = Some (NULL, s <| nk_arp_lock := true |>).
Proof.
  intros Hs [Hl1 _] Hr Hf. pose proof Hs as ((L & W & Ht) & _). unfold arp_lookup. st_run (lookup_chain_ok s a ip Hs). rewrite Hr. cbn.
  assert (spin_lock nk_arp_lock set_arp_lock s = Some (tt, set_arp_lock true s)) as E1 by (unfold spin_lock; by rewrite Hl1).
  st_run E1. assert (arp_lookup_chain fuel (arp_bucket arp_tbl ip) ip (set_arp_lock true s) = Some (NULL, set_arp_lock true s)) as E2.
  { pose proof (lookup_chain_ok s a ip Hs) as E. rewrite Hr in E. unfold arp_lookup_chain in *. change (nk_mem (set_arp_lock true s)) with (nk_mem s).
    destruct (ld (nk_mem s) _ _) as [x|]; [|done]. cbn [mbind option_bind] in *. destruct (arp_find _ _ _ _) as [y|]; [|done]. cbn in *. by simplify_eq. }
  st_run E2. cbn. assert (nk_arp_alloc (set_arp_lock true s) = Some (NULL, set_arp_lock true s)) as E3.
  { unfold nk_arp_alloc. change (nk_mem (set_arp_lock true s)) with (nk_mem s). change (nk_arp (set_arp_lock true s)) with (nk_arp s).
    pose proof (tb_pool _ _ _ _ _ _ _ _ _ _ _ _ Ht) as Hp. rewrite Hf in Hp. rewrite (sa_alloc_empty _ _ Hp). cbn. by destruct s. }
  by st_run E3.
Qed.

Definition aa_new (ip : Z) (r : arp_rec) (F : list ptr) (a : arp_abs) : arp_abs := a <| aa_tbl ::= <[ip := r]> |> <| aa_free := F |>.

(** Storing the fields of a new entry. *)
Lemma arp_create_ok s P P' now pos a L W ip e F mac fl hd :
  tbl (nk_mem s) P now pos a L W → aa_tbl a !! ip = None → aa_free a = e :: F → pool_rep (nk_mem s) P' F →
  (ar_valid (mk_arp_rec e mac fl 0) = true → rd (nk_mem s) e AE_MAC = mac) →
  ∃ m' L', (∀ B (k : ST netstack B), (nk_sto e AE_ADDR ip;; nk_sto e AE_FLAGS fl;; nk_sto e AE_RETRIES 0;;
      nk_heap (λ m, timer_init_entry m (e + AE_TIMER) hd);; nk_heap (λ m, hlist_add_head m (arp_bucket arp_tbl ip) (e + AE_LINK));; k) s =
      k (nk_set_mem m' s)) ∧
    tbl m' P' now pos (aa_new ip (mk_arp_rec e mac fl 0) F a) L' W ∧ (∀ x o, ¬ area x → rd m' x o = rd (nk_mem s) x o) ∧ e ≠ NULL.
Proof.
  intros Ht Hr Hf HP Hmac.
  destruct (tbl_new tw arp_tbl base n M arp_ip_to_idx arp_idx_range _ _ P' _ _ a L W e F ip mac fl hd Hly Ht Hf HP Hr Hmac) as (m1 & m2 & E1 & E2 & Ht2 & Hm2 & He0).
  exists m2. eexists. split; [|split; [exact Ht2|done]]. intros B k.
  st_run (nk_sto_run e AE_ADDR ip s He0). set (s1 := nk_set_mem _ _).
  st_run (nk_sto_run e AE_FLAGS fl s1 He0). set (s2 := nk_set_mem _ s1). st_run (nk_sto_run e AE_RETRIES 0 s2 He0). set (s3 := nk_set_mem _ s2).
  st_run (nk_heap_run (λ m, timer_init_entry m (e + AE_TIMER) hd) m1 s3 E1). by st_run (nk_heap_run (λ m, hlist_add_head m (arp_bucket arp_tbl ip) (e + AE_LINK)) m2 (nk_set_mem m1 s3) E2).
Qed.

Lemma nk_arp_alloc_ok s e F : pool_rep (nk_mem s) (nk_arp s) (e :: F) →
  ∃ P', nk_arp_alloc s = Some (e, s <| nk_arp := P' |>) ∧ pool_rep (nk_mem s) P' F ∧ e ≠ NULL.
Proof. intros Hp. destruct (sa_alloc_pop _ _ _ _ Hp) as (P' & E & HP & He). exists P'. unfold nk_arp_alloc. by rewrite E. Qed.

Lemma arp_lookup_new s a ip e F : stack_rep s a → unlocked s → aa_tbl a !! ip = None → aa_free a = e :: F →
  ∃ s', arp_lookup' ip true s = Some (e, s') ∧ stack_rep s' (aa_new ip (mk_arp_rec e 0 0 0) F a) ∧ same_ctl s s'.
Proof.
  intros Hs [Hl1 Hl2] Hr Hf. pose proof Hs as ((L & W & Ht) & _). unfold arp_lookup. st_run (lookup_chain_ok s a ip Hs). rewrite Hr. cbn [negb Z.eqb default fmap option_fmap option_map].
  assert (spin_lock nk_arp_lock set_arp_lock s = Some (tt, set_arp_lock true s)) as E1 by (unfold spin_lock; by rewrite Hl1).
  st_run E1. assert (arp_lookup_chain fuel (arp_bucket arp_tbl ip) ip (set_arp_lock true s) = Some (NULL, set_arp_lock true s)) as E2.
  { pose proof (lookup_chain_ok s a ip Hs) as E. rewrite Hr in E. unfold arp_lookup_chain in *. change (nk_mem (set_arp_lock true s)) with (nk_mem s).
    destruct (ld (nk_mem s) _ _) as [x|]; [|done]. cbn [mbind option_bind] in *. destruct (arp_find _ _ _ _) as [y|]; [|done]. cbn in *. by simplify_eq. }
  st_run E2. cbn [negb Z.eqb]. pose proof (tb_pool _ _ _ _ _ _ _ _ _ _ _ _ Ht) as Hp. rewrite Hf in Hp.
  destruct (nk_arp_alloc_ok (set_arp_lock true s) e F Hp) as (P' & E3 & HP & He0). st_run E3. rewrite (proj2 (Z.eqb_neq _ _) He0).
  set (s1 := (set_arp_lock true s) <| nk_arp := P' |>). change (nk_mem s) with (nk_mem s1) in Ht. change (nk_mem (set_arp_lock true s)) with (nk_mem s1) in HP.
  destruct (arp_create_ok s1 _ P' _ _ a L W ip e F 0 0 arp_timer_handler_fn Ht Hr Hf HP) as (m' & L' & E4 & Ht4 & Hm4 & _); [done|].
  rewrite E4. eexists. split; [done|]. split; [exact (stack_set s a _ m' P' L' W Hs Ht4 Hm4)|]. by split_and!.
Qed.

(** ** Steps on a represented stack *)

Lemma stack_set_mem s a a' m' L' W' :
  stack_rep s a → tbl m' (nk_arp s) (nk_now_us s) (nk_timer_pos s) a' L' W' → (∀ x o, ¬ area x → rd m' x o = rd (nk_mem s) x o) →
  stack_rep (nk_set_mem m' s) a'.
Proof. intros Hs Ht Hm. exact (stack_set s a a' m' (nk_arp s) L' W' Hs Ht Hm). Qed.

Lemma stack_store s a ip r r' m' : stack_rep s a → aa_tbl a !! ip = Some r → ar_ptr r' = ar_ptr r →
  (∀ x o, x ≠ ar_ptr r → rd m' x o = rd (nk_mem s) x o) → entry_rep m' ip r' →
  stack_rep (nk_set_mem m' s) (a <| aa_tbl ::= <[ip := r']> |>).
Proof.
  intros Hs Hr Hp Hm He. pose proof Hs as ((L & W & Ht) & _). destruct (rec_el s a ip r Hs Hr) as [Hel _]. eapply stack_set_mem; [done| |].
  - by eapply (tbl_set tw arp_tbl base n M arp_ip_to_idx arp_idx_range (nk_mem s) m' _ _ _ a L W ip r r').
  - intros x o Hx. apply Hm. intros ->. apply Hx. replace (ar_ptr r) with (ar_ptr r + 0) by lia. by apply el_area.
Qed.

Lemma stack_entry s a ip r : stack_rep s a → aa_tbl a !! ip = Some r → entry_rep (nk_mem s) ip r.
Proof. intros ((L & W & Ht) & _) Hr. by apply (tb_tbl _ _ _ _ _ _ _ _ _ _ _ _ Ht). Qed.

Lemma rec_timer s a ip r : stack_rep s a → aa_tbl a !! ip = Some r → ar_timer r ∈ timers base n.
Proof.
  intros Hs Hr. destruct (rec_el s a ip r Hs Hr) as [Hel _]. apply in_timers. unfold ar_timer. by replace (ar_ptr r + AE_TIMER - AE_TIMER) with (ar_ptr r) by lia.
Qed.

Lemma area_timers_frame m m' : timers_frame tw (timers base n) m m' → ∀ x o, ¬ area x → rd m' x o = rd m x o.
Proof.
  intros Hf x o Hx. apply Hf.
  - intros Ht%in_timers. apply Hx. replace x with (x - AE_TIMER + AE_TIMER) by lia. by apply el_area.
  - intros k Hk ->. apply Hx. right. left. lia.
Qed.

(** Timer calls on the timer of an entry. *)
Lemma stack_timers s a ip r m' T' W' : stack_rep s a → aa_tbl a !! ip = Some r →
  timers_rep tw (timers base n) (mk_timerwheel m' (nk_now_us s) (nk_timer_pos s)) T' W' → timers_frame tw (timers base n) (nk_mem s) m' →
  (∀ t x, T' !! t = Some x → t = ar_timer r ∨ aa_armed a !! t = Some x) →
  stack_rep (nk_set_mem m' s) (a <| aa_armed := T' |>).
Proof.
  intros Hs Hr Ht' Hf HT. pose proof Hs as ((L & W & Ht) & _). eapply stack_set_mem; [done| |by apply area_timers_frame].
  eapply tbl_timers; [exact arp_idx_range|exact Hly|exact Ht|exact Ht'|exact Hf|]. intros t x Hx. destruct (HT t x Hx) as [->|Ho]; [by exists ip, r|].
  by apply (tb_armed _ _ _ _ _ _ _ _ _ _ _ _ Ht t x).
Qed.

Lemma stack_timer_add s a ip r now us : stack_rep s a → aa_tbl a !! ip = Some r → aa_armed a !! ar_timer r = None → delay_ok (nk_now_us s) now us →
  ∃ m', nk_wheel (λ w, '(_, w) ← timer_add tw now NULL w (ar_timer r) us; Some w) s = Some (tt, nk_set_mem m' s) ∧
    stack_rep (nk_set_mem m' s) (a <| aa_armed ::= <[ar_timer r := now + us]> |>).
Proof.
  intros Hs Hr Hn Hd. pose proof Hs as ((L & W & Ht) & _).
  destruct (timer_add_ok tw NULL (timers base n) _ _ _ now (ar_timer r) us (tb_timers _ _ _ _ _ _ _ _ _ _ _ _ Ht)) as (m' & W' & E & Ht' & Hf); [by eapply rec_timer|done|done|].
  exists m'. split; [unfold nk_wheel; by rewrite E|]. eapply stack_timers; [done|done|exact Ht'|exact Hf|].
  intros t x [[<- _]|[_ Hx]]%lookup_insert_Some; [by left|by right].
Qed.

Lemma stack_timer_mod s a ip r now us : stack_rep s a → aa_tbl a !! ip = Some r → delay_ok (nk_now_us s) now us →
  ∃ m', nk_wheel (λ w, '(_, w) ← timer_mod tw now NULL w (ar_timer r) us; Some w) s = Some (tt, nk_set_mem m' s) ∧
    stack_rep (nk_set_mem m' s) (a <| aa_armed ::= <[ar_timer r := now + us]> |>).
Proof.
  intros Hs Hr Hd. pose proof Hs as ((L & W & Ht) & _).
  destruct (timer_mod_ok tw NULL (timers base n) _ _ _ now (ar_timer r) us (tb_timers _ _ _ _ _ _ _ _ _ _ _ _ Ht)) as (m' & W' & E & Ht' & Hf); [by eapply rec_timer|done|].
  exists m'. split; [unfold nk_wheel; by rewrite E|]. eapply stack_timers; [done|done|exact Ht'|exact Hf|].
  intros t x [[<- _]|[_ Hx]]%lookup_insert_Some; [by left|by right].
Qed.

Lemma stack_timer_del s a ip r : stack_rep s a → aa_tbl a !! ip = Some r →
  ∃ m', nk_heap (λ m, timer_del m (ar_timer r)) s = Some (tt, nk_set_mem m' s) ∧
    stack_rep (nk_set_mem m' s) (a <| aa_armed ::= delete (ar_timer r) |>).
Proof.
  intros Hs Hr. pose proof Hs as ((L & W & Ht) & _).
  destruct (disarm_ok tw (timers base n) _ _ _ (ar_timer r) (tb_timers _ _ _ _ _ _ _ _ _ _ _ _ Ht)) as (m' & W' & E & Ht' & Hf); [by eapply rec_timer|].
  exists m'. split; [unfold nk_heap; cbn [tw_mem] in E; by rewrite E|]. eapply stack_timers; [done|done|exact Ht'|exact Hf|].
  intros t x [_ Hx]%lookup_delete_Some. by right.
Qed.

Lemma stack_pending s a ip r : stack_rep s a → aa_tbl a !! ip = Some r →
  timer_pending (nk_mem s) (ar_timer r) = Some (bool_decide (is_Some (aa_armed a !! ar_timer r))).
Proof.
  intros Hs Hr. pose proof Hs as ((L & W & Ht) & _).
  apply (timers_rep_pending tw (timers base n) _ _ _ _ (tb_timers _ _ _ _ _ _ _ _ _ _ _ _ Ht)). by eapply rec_timer.
Qed.

(** A request goes out when there is a buffer and room; the table is not touched. *)
Lemma stack_send s a op ip mac : stack_rep s a → 0 ≤ op < 65536 → 0 ≤ ip < 2 ^ 32 → 0 ≤ mac < 2 ^ 48 →
  ∃ ret s', arp_send_pkt C op ip mac s = Some (ret, s') ∧ stack_rep s' a ∧ same_ctl s s'.
Proof.
  intros ((L & W & Ht) & F & t & Hb) Hop Hip Hmac. destruct (arp_send_pkt_ok op ip mac s F t Hb Hop Hip Hmac) as (ret & e' & q' & F' & t' & E & Hb' & Hm & _).
  exists ret. eexists. split; [exact E|]. split; [|done]. split; [|by exists F', t']. exists L, W.
  eapply (tbl_rep_frame tw arp_tbl base n arp_ip_to_idx arp_idx_range (nk_mem s)); [exact Ht|]. intros x o Hx. apply Hm. intros HxM.
  by apply (mbuf_not_area tw arp_tbl base n M x Hly HxM).
Qed.

(** ** What the operations mean *)

(** The entry for an address, made when there is none. *)
Definition arp_get (ip : Z) (a : arp_abs) : option (arp_rec * arp_abs) :=
  match aa_tbl a !! ip with
  | Some r => Some (r, a)
  | None => match aa_free a with [] => None | e :: F => let r := mk_arp_rec e 0 0 0 in Some (r, aa_new ip r F a) end
  end.

Definition resolving (r : arp_rec) : arp_rec := r <| ar_flags ::= λ f, Z.lor f ARP_FLAG_RESOLVING |>.

Definition spec_lookup_mac (now ip : Z) (a : arp_abs) : (Z * Z) * arp_abs :=
  match arp_get ip a with
  | None => ((- ENOENT, 0), a)
  | Some (r, a) =>
      if ar_valid r then ((0, ar_mac r), a) else
      ((- EAGAIN, 0),
       if bool_decide (is_Some (aa_armed a !! ar_timer r)) then a
       else a <| aa_tbl ::= <[ip := resolving r]> |> <| aa_armed ::= <[ar_timer r := now + ARP_RESOLVE_TIMEOUT]> |>)
  end.

Definition spec_update_mac (now ip mac : Z) (create : bool) (a : arp_abs) : Z * arp_abs :=
  match (if create then arp_get ip a else (λ r, (r, a)) <$> aa_tbl a !! ip) with
  | None => (- ENOMEM, a)
  | Some (r, a) =>
      if ar_static r then (0, a) else
      (0, a <| aa_tbl ::= <[ip := mk_arp_rec (ar_ptr r) mac ARP_FLAG_VALID 0]> |>
            <| aa_armed ::= <[ar_timer r := now + ARP_REFRESH_TIMEOUT]> |>)
  end.

Definition spec_insert (ip mac : Z) (a : arp_abs) : Z * arp_abs :=
  match aa_tbl a !! ip with
  | Some r => (0, a <| aa_armed ::= delete (ar_timer r) |> <| aa_tbl ::= <[ip := r <| ar_mac := mac |>]> |>)
  | None =>
      match aa_free a with
      | [] => (- ENOMEM, a)
      | e :: F => (0, aa_new ip (mk_arp_rec e mac (Z.lor ARP_FLAG_VALID ARP_FLAG_STATIC) 0) F a)
      end
  end.

Definition spec_timer (now ip : Z) (a : arp_abs) : arp_abs :=
  match aa_tbl a !! ip with
  | None => a
  | Some r =>
      let r := r <| ar_retries ::= λ n, u8 (n + 1) |> in
      if ARP_MAX_ATTEMPTS <=? ar_retries r
      then a <| aa_tbl ::= delete ip |> <| aa_free ::= λ F, ar_ptr r :: F |>
      else a <| aa_tbl ::= <[ip := resolving r]> |>
             <| aa_armed ::= <[ar_timer r := now + ARP_RETRY_TIMEOUT]> |>
  end.

Lemma valid_resolving r : ar_valid (resolving r) = ar_valid r.
Proof.
  unfold ar_valid, resolving. rsimpl. rewrite Z.land_lor_distr_l. change (Z.land ARP_FLAG_RESOLVING ARP_FLAG_VALID) with 0. by rewrite Z.lor_0_r.
Qed.

(** ** The operations implement it *)

Lemma arp_get_ok s a ip r a' : stack_rep s a → unlocked s → arp_get ip a = Some (r, a') →
  ∃ s', arp_lookup' ip true s = Some (ar_ptr r, s') ∧ stack_rep s' a' ∧ aa_tbl a' !! ip = Some r ∧ same_ctl s s'.
Proof.
  intros Hs Hu. unfold arp_get. destruct (aa_tbl a !! ip) as [r0|] eqn:Er.
  - intros [= <- <-]. exists s. split; [by apply (arp_lookup_found s a ip r0 true)|done].
  - destruct (aa_free a) as [|e F] eqn:Ef; [done|]. intros [= <- <-].
    destruct (arp_lookup_new s a ip e F Hs Hu Er Ef) as (s' & E & Hs' & Hc). exists s'. split; [exact E|]. split; [done|]. split; [|done]. unfold aa_new. rsimpl. by rewrite lookup_insert_eq.
Qed.

(** Asking: a request is sent, the timer is set. *)
Lemma arp_ask_ok s a ip r mac now us : stack_rep s a → aa_tbl a !! ip = Some r → aa_armed a !! ar_timer r = None → 0 ≤ ip < 2 ^ 32 →
  0 ≤ mac < 2 ^ 48 → delay_ok (nk_now_us s) now us →
  ∃ s', (_ ← arp_send_pkt C ARP_OP_REQUEST ip mac;
      nk_wheel (λ w, '(_, w) ← timer_add tw now NULL w (ar_timer r) us; Some w)) s = Some (tt, s') ∧
    stack_rep s' (a <| aa_armed ::= <[ar_timer r := now + us]> |>) ∧ same_ctl s s'.
Proof.
  intros Hs Hr Hun Hip Hmac Hd. destruct (stack_send s a ARP_OP_REQUEST ip mac Hs) as (ret & s1 & E1 & Hs1 & Hc1); [done|done|done|].
  st_run E1. destruct (stack_timer_add s1 a ip r now us Hs1 Hr Hun) as (m' & E2 & Hs2); [by destruct Hc1 as [-> _]|].
  rewrite E2. eexists. split; [done|]. split; [done|]. exact Hc1.
Qed.

(** Marking an entry. *)
Lemma stack_mark s a ip r : stack_rep s a → aa_tbl a !! ip = Some r →
  nk_sto (ar_ptr r) AE_FLAGS (Z.lor (ar_flags r) ARP_FLAG_RESOLVING) s =
    Some (tt, nk_set_mem (<[(ar_ptr r, AE_FLAGS) := Z.lor (ar_flags r) ARP_FLAG_RESOLVING]> (nk_mem s)) s) ∧
  stack_rep (nk_set_mem (<[(ar_ptr r, AE_FLAGS) := Z.lor (ar_flags r) ARP_FLAG_RESOLVING]> (nk_mem s)) s) (a <| aa_tbl ::= <[ip := resolving r]> |>).
Proof.
  intros Hs Hr. destruct (rec_el s a ip r Hs Hr) as [_ Hp]. split; [apply nk_sto_run; lia|]. pose proof (stack_entry s a ip r Hs Hr) as (Ha & Hfl & Hre & Hma & Hrr).
  apply (stack_store s a ip r); [done|done|done|intros x o Hx; apply rd_insert_ne; left; congruence|].
  unfold entry_rep. rewrite valid_resolving. unfold resolving. rsimpl. split_and!; [..|intros Hv|lia|lia]; rd_fields; auto.
Qed.

Lemma arp_lookup_mac_ok s a now ip : stack_rep s a → unlocked s → arp_get ip a ≠ None → 0 ≤ ip < 2 ^ 32 → delay_ok (nk_now_us s) now ARP_RESOLVE_TIMEOUT →
  ∃ s', arp_lookup_mac C tw arp_tbl arp_timer_handler_fn fuel now ip s = Some ((spec_lookup_mac now ip a).1, s') ∧
    stack_rep s' (spec_lookup_mac now ip a).2 ∧ same_ctl s s'.
Proof.
  intros Hs Hu Hg Hip Hd. unfold spec_lookup_mac. destruct (arp_get ip a) as [[r a1]|] eqn:Eg; [|done].
  destruct (arp_get_ok s a ip r a1 Hs Hu Eg) as (s1 & E1 & Hs1 & Hr & Hc1). unfold arp_lookup_mac. st_run E1.
  destruct (rec_el s1 a1 ip r Hs1 Hr) as [Hel Hp0]. rewrite (proj2 (Z.eqb_neq (ar_ptr r) NULL)) by lia. assert (ar_ptr r ≠ NULL) as Hp by lia.
  st_run (nk_ld_run (ar_ptr r) AE_FLAGS s1 Hp). pose proof (stack_entry s1 a1 ip r Hs1 Hr) as (Ha & Hfl & Hre & Hma & Hrr). rewrite Hfl.
  destruct (ar_valid r) eqn:Ev; unfold ar_valid in Ev.
  { apply negb_true_iff in Ev. rewrite Ev. st_run (nk_ld_run (ar_ptr r) AE_MAC s1 Hp). rewrite Hma by done. by exists s1. }
  apply negb_false_iff in Ev. rewrite Ev. destruct (same_ctl_unlocked _ _ Hc1 Hu) as (Hl1 & Hl2 & Hl3).
  assert (spin_lock nk_send_lock set_send_lock s1 = Some (tt, set_send_lock true s1)) as E2 by (unfold spin_lock; by rewrite Hl3).
  st_run E2. set (s2 := set_send_lock true s1).
  rewrite (st_run _ _ s2 (bool_decide (is_Some (aa_armed a1 !! ar_timer r))) s2).
  2: { change (nk_mem s2) with (nk_mem s1). fold (ar_timer r). by rewrite (stack_pending s1 a1 ip r Hs1 Hr). }
  cbv beta. destruct (bool_decide (is_Some (aa_armed a1 !! ar_timer r))) eqn:Ebd; cbn [negb].
  { eexists. split; [done|]. split; [exact Hs1|]. destruct Hc1 as (K1 & K2 & K3 & K4 & K5). unfold s2. split_and!; try done. rsimpl. congruence. }
  assert (aa_armed a1 !! ar_timer r = None) as Hun by (apply bool_decide_eq_false in Ebd; by apply eq_None_not_Some).
  assert (stack_rep s2 a1) as Hs2 by exact Hs1.
  rewrite st_bind_assoc. st_run (nk_ld_run (ar_ptr r) AE_FLAGS s2 Hp). change (nk_mem s2) with (nk_mem s1). rewrite Hfl.
  destruct (stack_mark s2 a1 ip r Hs2 Hr) as [E3 Hs3]. rewrite st_bind_assoc. st_run E3. set (s3 := nk_set_mem _ s2) in *.
  destruct (arp_ask_ok s3 _ ip (resolving r) ETH_ADDR_BROADCAST now ARP_RESOLVE_TIMEOUT Hs3) as (s4 & E4 & Hs4 & Hc4); [|done|done|done| |].
  { rsimpl. by rewrite lookup_insert_eq. }
  { unfold s3, s2. destruct Hc1 as [K1 _]. rsimpl. by rewrite K1. }
  st_run E4. eexists. split; [done|]. split; [exact Hs4|].
  destruct Hc1 as (K1 & K2 & K3 & K4 & K5), Hc4 as (J1 & J2 & J3 & J4 & J5). split_and!; rsimpl; congruence.
Qed.

(** A learnt address. *)
Lemma arp_learn_ok s a ip r mac now : stack_rep s a → unlocked s → aa_tbl a !! ip = Some r → delay_ok (nk_now_us s) now ARP_REFRESH_TIMEOUT →
  ∃ s', (nk_sto (ar_ptr r) AE_MAC mac;; nk_sto (ar_ptr r) AE_FLAGS ARP_FLAG_VALID;; nk_sto (ar_ptr r) AE_RETRIES 0;;
      nk_wheel (λ w, '(_, w) ← timer_mod tw now NULL w (ar_ptr r + AE_TIMER) ARP_REFRESH_TIMEOUT; Some w);;
      spin_lock nk_pending_lock set_pending_lock;;
      n ← nk_ld (ar_ptr r + AE_PENDING) LN_NEXT; dispatch_pending cpu_count fuel n;; spin_unlock set_pending_lock;; mret 0) s = Some (0, s') ∧
    stack_rep s' (a <| aa_tbl ::= <[ip := mk_arp_rec (ar_ptr r) mac ARP_FLAG_VALID 0]> |> <| aa_armed ::= <[ar_timer r := now + ARP_REFRESH_TIMEOUT]> |>) ∧
    same_ctl s s'.
Proof.
  intros Hs Hu Hr Hd. destruct (rec_el s a ip r Hs Hr) as [Hel Hp0]. assert (ar_ptr r ≠ NULL) as Hp by lia.
  st_run (nk_sto_run (ar_ptr r) AE_MAC mac s Hp). set (s1 := nk_set_mem _ s). st_run (nk_sto_run (ar_ptr r) AE_FLAGS ARP_FLAG_VALID s1 Hp). set (s2 := nk_set_mem _ s1).
  st_run (nk_sto_run (ar_ptr r) AE_RETRIES 0 s2 Hp). set (r' := mk_arp_rec (ar_ptr r) mac ARP_FLAG_VALID 0). set (s3 := nk_set_mem _ s2).
  assert (stack_rep s3 (a <| aa_tbl ::= <[ip := r']> |>)) as Hs3.
  { apply (stack_store s a ip r r' (nk_mem s3)); [done|done|done| |].
    - intros x o Hx. unfold s3, s2, s1. rewrite !nk_mem_set. rewrite !rd_insert_ne by (left; congruence). done.
    - pose proof (stack_entry s a ip r Hs Hr) as (Ha & _). unfold entry_rep, s3, s2, s1, r'. cbn [ar_ptr ar_flags ar_retries ar_mac]. rewrite !nk_mem_set.
      split_and!; [..|intros _|lia|done]; rd_fields; done. }
  assert (aa_tbl (a <| aa_tbl ::= <[ip := r']> |>) !! ip = Some r') as Hr' by (rsimpl; apply lookup_insert_eq).
  destruct (stack_timer_mod s3 _ ip r' now ARP_REFRESH_TIMEOUT Hs3 Hr') as (m' & E4 & Hs4); [done|]. st_run E4. set (s4 := nk_set_mem m' s3) in *.
  destruct Hu as (Hl1 & Hl2 & Hl3). assert (spin_lock nk_pending_lock set_pending_lock s4 = Some (tt, set_pending_lock true s4)) as E5.
  { unfold spin_lock. change (nk_pending_lock s4) with (nk_pending_lock s). by rewrite Hl2. }
  st_run E5. assert (rd (nk_mem s4) (ar_ptr r + AE_PENDING) LN_NEXT = NULL) as Hpend.
  { destruct Hs4 as ((L & W & Ht) & _). by apply (tb_pending _ _ _ _ _ _ _ _ _ _ _ _ Ht). }
  st_run (nk_ld_run (ar_ptr r + AE_PENDING) LN_NEXT (set_pending_lock true s4) ltac:(unfold AE_PENDING; lia)).
  change (nk_mem (set_pending_lock true s4)) with (nk_mem s4). rewrite Hpend.
  rewrite (st_run _ _ _ tt (set_pending_lock true s4)) by (by destruct fuel). cbv beta.
  eexists. split; [done|]. split; [exact Hs4|]. by split_and!.
Qed.

Lemma arp_update_mac_ok s a now ip mac c : stack_rep s a → unlocked s → (c = true → arp_get ip a ≠ None) → delay_ok (nk_now_us s) now ARP_REFRESH_TIMEOUT →
  ∃ s', arp_update_mac tw arp_tbl arp_timer_handler_fn cpu_count fuel now ip mac c s = Some ((spec_update_mac now ip mac c a).1, s') ∧
    stack_rep s' (spec_update_mac now ip mac c a).2 ∧ same_ctl s s'.
Proof.
  intros Hs Hu Hg Hd. unfold spec_update_mac, arp_update_mac.
  destruct (if c then arp_get ip a else (λ r, (r, a)) <$> aa_tbl a !! ip) as [[r a1]|] eqn:Eg.
  2: { destruct c; [by destruct (Hg eq_refl)|]. destruct (aa_tbl a !! ip) eqn:Er; [done|].
       st_run (arp_lookup_absent s a ip Hs Er). by exists s. }
  assert (∃ s1, arp_lookup' ip c s = Some (ar_ptr r, s1) ∧ stack_rep s1 a1 ∧ aa_tbl a1 !! ip = Some r ∧ same_ctl s s1) as (s1 & E1 & Hs1 & Hr & Hc1).
  { destruct c; [by apply (arp_get_ok s a)|]. destruct (aa_tbl a !! ip) as [r0|] eqn:Er; [|done]. cbn in Eg. simplify_eq.
    exists s. split; [by apply (arp_lookup_found s a1)|done]. }
  st_run E1. destruct (rec_el s1 a1 ip r Hs1 Hr) as [Hel Hp0]. rewrite (proj2 (Z.eqb_neq (ar_ptr r) NULL)) by lia.
  st_run (nk_ld_run (ar_ptr r) AE_FLAGS s1 ltac:(lia)). pose proof (stack_entry s1 a1 ip r Hs1 Hr) as (_ & Hfl & _). rewrite Hfl. fold (ar_static r).
  destruct (ar_static r); [by exists s1|].
  destruct (arp_learn_ok s1 a1 ip r mac now Hs1) as (s2 & E2 & Hs2 & Hc2); [by eapply same_ctl_unlocked|done|by destruct Hc1 as [-> _]|].
  rewrite E2. exists s2. split; [done|]. split; [done|]. by eapply same_ctl_trans.
Qed.

Lemma arp_insert_ok s a ip mac : stack_rep s a → unlocked s →
  ∃ s', arp_insert arp_tbl arp_timer_handler_fn fuel ip mac s = Some ((spec_insert ip mac a).1, s') ∧ stack_rep s' (spec_insert ip mac a).2 ∧ same_ctl s s'.
Proof.
  intros Hs Hu. unfold spec_insert, arp_insert.
  assert (∀ s1 a1 r, stack_rep s1 a1 → aa_tbl a1 !! ip = Some r → same_ctl s s1 →
    ∃ s', (nk_heap (λ m, timer_del m (ar_ptr r + AE_TIMER));; nk_sto (ar_ptr r) AE_MAC mac;; mret 0) s1 = Some (0, s') ∧
      stack_rep s' (a1 <| aa_armed ::= delete (ar_timer r) |> <| aa_tbl ::= <[ip := r <| ar_mac := mac |>]> |>) ∧ same_ctl s s') as Hfin.
  { intros s1 a1 r Hs1 Hr Hc. destruct (stack_timer_del s1 a1 ip r Hs1 Hr) as (m' & E & Hs2). st_run E. set (s2 := nk_set_mem m' s1) in *.
    destruct (rec_el s1 a1 ip r Hs1 Hr) as [_ Hp0]. st_run (nk_sto_run (ar_ptr r) AE_MAC mac s2 ltac:(lia)). eexists. split; [done|]. split; [|exact Hc].
    apply (stack_store s2 _ ip r); [exact Hs2|done|done|intros x o Hx; apply rd_insert_ne; left; congruence|].
    destruct (stack_entry s2 _ ip r Hs2) as (Ha & Hfl & Hre & Hma & Hrr); [done|]. unfold entry_rep. rsimpl. split_and!; [..|intros _|lia|lia]; rd_fields; done. }
  destruct (aa_tbl a !! ip) as [r|] eqn:Er.
  { st_run (arp_lookup_found s a ip r false Hs Er). destruct (rec_el s a ip r Hs Er) as [_ Hp0]. rewrite (proj2 (Z.eqb_neq (ar_ptr r) NULL)) by lia.
    rewrite (st_run _ _ s (ar_ptr r) s) by done. cbv beta. rewrite (proj2 (Z.eqb_neq (ar_ptr r) NULL)) by lia. by apply Hfin. }
  st_run (arp_lookup_absent s a ip Hs Er). cbn [Z.eqb]. pose proof Hs as ((L & W & Ht) & _). pose proof (tb_pool _ _ _ _ _ _ _ _ _ _ _ _ Ht) as Hp.
  destruct (aa_free a) as [|e F] eqn:Ef.
  { assert (nk_arp_alloc s = Some (NULL, s)) as E by (unfold nk_arp_alloc; rewrite (sa_alloc_empty _ _ Hp); by destruct s).
    rewrite st_bind_assoc. st_run E. by exists s. }
  destruct (nk_arp_alloc_ok s e F Hp) as (P' & E & HP & He0).
  set (fl := Z.lor ARP_FLAG_VALID ARP_FLAG_STATIC). set (s1 := s <| nk_arp := P' |>). change (nk_mem s) with (nk_mem s1) in Ht, HP.
  destruct (arp_create_ok s1 _ P' _ _ a L W ip e F (rd (nk_mem s1) e AE_MAC) fl NULL Ht Er Ef HP) as (m' & L' & E4 & Ht4 & Hm4 & _); [done|].
  rewrite (st_run _ _ s e (nk_set_mem m' s1)) by (st_run E; rewrite (proj2 (Z.eqb_neq _ _) He0); exact (E4 Z (mret e))).
  cbv beta. rewrite (proj2 (Z.eqb_neq _ _) He0).
  set (r := mk_arp_rec e (rd (nk_mem s1) e AE_MAC) fl 0) in *. pose proof (stack_set s a _ m' P' L' W Hs Ht4 Hm4) as Hs2.
  destruct (Hfin (nk_set_mem m' s1) (aa_new ip r F a) r Hs2) as (s3 & E3 & Hs3 & Hc3); [unfold aa_new; rsimpl; apply lookup_insert_eq|by split_and!|].
  exists s3. split; [exact E3|]. split; [|done].
  assert (aa_armed a !! ar_timer r = None) as Hun.
  { apply (free_unarmed _ _ _ _ _ arp_idx_range _ _ _ _ _ _ _ e Ht). rewrite Ef. apply elem_of_cons. by left. }
  unfold aa_new in *. rsimpl. revert Hs3. destruct a as [T A F0]. unfold set. cbn in *. by rewrite insert_insert_eq, delete_id.
Qed.

Lemma nk_arp_free_run s m P' e : mempool_free (nk_mem s) (nk_arp s) e = Some (m, P') → nk_arp_free e s = Some (tt, (nk_set_mem m s) <| nk_arp := P' |>).
Proof. intros E. unfold nk_arp_free. by rewrite E. Qed.

(** The last attempt failed: the entry goes. *)
Lemma arp_expire_ok s a ip r : stack_rep s a → unlocked s → aa_tbl a !! ip = Some r → aa_armed a !! ar_timer r = None →
  ∃ s', (spin_lock nk_pending_lock set_pending_lock;;
      (λ s, s ← hlist_for_each_safe nk_mem drop_pending fuel (ar_ptr r + AE_PENDING) s; Some (tt, s));;
      spin_unlock set_pending_lock;; nk_heap (λ m, hlist_del m (ar_ptr r + AE_LINK));; nk_arp_free (ar_ptr r)) s = Some (tt, s') ∧
    stack_rep s' (a <| aa_tbl ::= delete ip |> <| aa_free ::= λ F, ar_ptr r :: F |>) ∧ same_ctl s s'.
Proof.
  intros Hs Hu Hr Hun. pose proof Hs as ((L & W & Ht) & _). destruct (rec_el s a ip r Hs Hr) as [Hel Hp0]. destruct Hu as (Hl1 & Hl2 & Hl3).
  assert (spin_lock nk_pending_lock set_pending_lock s = Some (tt, set_pending_lock true s)) as E1 by (unfold spin_lock; by rewrite Hl2).
  st_run E1. rewrite (st_run _ _ _ tt (set_pending_lock true s)).
  2: { unfold hlist_for_each_safe. change (nk_mem (set_pending_lock true s)) with (nk_mem s). rewrite ld_some by (unfold AE_PENDING; lia).
       rewrite (tb_pending _ _ _ _ _ _ _ _ _ _ _ _ Ht _ Hel). by destruct fuel. }
  cbv beta. rewrite (st_run _ _ _ tt (set_pending_lock false (set_pending_lock true s))) by done. cbv beta. set (s1 := set_pending_lock false _).
  destruct (tbl_del tw arp_tbl base n M arp_ip_to_idx arp_idx_range _ _ _ _ a L W ip r Hly Ht Hr Hun) as (m1 & m2 & P' & L' & E2 & E3 & Ht' & Hm).
  st_run (nk_heap_run (λ m, hlist_del m (ar_ptr r + AE_LINK)) m1 s1 E2). rewrite (nk_arp_free_run (nk_set_mem m1 s1) m2 P' (ar_ptr r) E3).
  eexists. split; [done|]. split; [exact (stack_set s a _ m2 P' L' W Hs Ht' Hm)|]. by split_and!.
Qed.

(** Addresses and MAC addresses in range. *)
Definition aa_ok (a : arp_abs) : Prop := ∀ ip r, aa_tbl a !! ip = Some r → 0 ≤ ip < 2 ^ 32 ∧ (ar_valid r = true → 0 ≤ ar_mac r < 2 ^ 48).

Lemma arp_timer_handler_ok s a now ip r : stack_rep s a → unlocked s → aa_ok a → aa_tbl a !! ip = Some r → aa_armed a !! ar_timer r = None →
  delay_ok (nk_now_us s) now ARP_RETRY_TIMEOUT →
  ∃ s', arp_timer_handler C tw fuel now (ar_timer r) NULL s = Some (tt, s') ∧ stack_rep s' (spec_timer now ip a) ∧ same_ctl s s'.
Proof.
  intros Hs Hu Hok Hr Hun Hd. unfold spec_timer, arp_timer_handler. rewrite Hr. destruct (rec_el s a ip r Hs Hr) as [Hel Hp0].
  replace (ar_timer r - AE_TIMER) with (ar_ptr r) by (unfold ar_timer; lia). cbn [negb Z.eqb]. assert (ar_ptr r ≠ NULL) as Hp by lia.
  st_run (nk_ld_run (ar_ptr r) AE_RETRIES s Hp). pose proof (stack_entry s a ip r Hs Hr) as (Ha & Hfl & Hre & Hma & Hrr). rewrite Hre.
  st_run (nk_sto_run (ar_ptr r) AE_RETRIES (u8 (ar_retries r + 1)) s Hp). set (s1 := nk_set_mem _ s).
  st_run (nk_ld_run (ar_ptr r) AE_RETRIES s1 Hp). unfold s1 at 1. rewrite nk_mem_set, rd_insert_eq.
  set (r1 := r <| ar_retries ::= λ n, u8 (n + 1) |>). change (ar_retries r1) with (u8 (ar_retries r + 1)).
  assert (stack_rep s1 (a <| aa_tbl ::= <[ip := r1]> |>)) as Hs1.
  { apply (stack_store s a ip r r1); [done|done|done|intros x o Hx; apply rd_insert_ne; left; congruence|].
    unfold entry_rep, r1. rsimpl. pose proof (u8_range (ar_retries r + 1)). split_and!; [..|intros Hv|lia|lia]; rd_fields; auto. }
  assert (aa_tbl (a <| aa_tbl ::= <[ip := r1]> |>) !! ip = Some r1) as Hr1 by (rsimpl; apply lookup_insert_eq).
  destruct (ARP_MAX_ATTEMPTS <=? u8 (ar_retries r + 1)).
  { destruct (arp_expire_ok s1 _ ip r1 Hs1) as (s2 & E2 & Hs2 & Hc2); [done|done|done|]. exists s2. split; [exact E2|]. split; [|exact Hc2].
    revert Hs2. destruct a. unfold set, aa_tbl. cbn. by rewrite delete_insert_eq. }
  st_run (nk_ld_run (ar_ptr r) AE_FLAGS s1 Hp). destruct (stack_entry s1 _ ip r1 Hs1 Hr1) as (_ & Hfl1 & _). change (ar_ptr r1) with (ar_ptr r) in Hfl1. rewrite Hfl1.
  destruct (stack_mark s1 _ ip r1 Hs1 Hr1) as [E2 Hs2]. change (ar_ptr r1) with (ar_ptr r) in E2, Hs2. st_run E2. set (s2 := nk_set_mem _ s1) in *. set (r2 := resolving r1) in *.
  set (a2 := _ <| aa_tbl ::= <[ip := r2]> |>) in Hs2. assert (aa_tbl a2 !! ip = Some r2) as Hr2 by (unfold a2; rsimpl; apply lookup_insert_eq).
  destruct (stack_entry s2 a2 ip r2 Hs2 Hr2) as (Ha2 & Hfl2 & _ & Hma2 & _). change (ar_ptr r2) with (ar_ptr r) in Ha2, Hfl2, Hma2.
  st_run (nk_ld_run (ar_ptr r) AE_FLAGS s2 Hp). rewrite Hfl2. st_run (nk_ld_run (ar_ptr r) AE_ADDR s2 Hp). rewrite Ha2. destruct (Hok ip r Hr) as [Hip Hmac].
  fold (ar_valid r2). assert (∃ mac, 0 ≤ mac < 2 ^ 48 ∧ (if ar_valid r2 then nk_ld (ar_ptr r) AE_MAC else mret ETH_ADDR_BROADCAST) s2 = Some (mac, s2)) as (mac & Hm & E3).
  { destruct (ar_valid r2) eqn:Ev; [|by exists ETH_ADDR_BROADCAST]. exists (ar_mac r). rewrite (nk_ld_run _ _ _ Hp), Hma2 by done. split; [|done].
    apply Hmac. unfold r2 in Ev. by rewrite valid_resolving in Ev. }
  st_run E3. destruct (arp_ask_ok s2 a2 ip r2 mac now ARP_RETRY_TIMEOUT Hs2 Hr2) as (s3 & E4 & Hs3 & Hc3); [done|done|done|done|].
  exists s3. split; [exact E4|]. split; [|exact Hc3]. revert Hs3. unfold a2. destruct a. unfold set, aa_tbl, aa_armed. cbn. by rewrite insert_insert_eq.
Qed.

(** ** Sequences of operations *)

Inductive arp_op :=
  | ALookup (now ip : Z)
  | AUpdate (now ip mac : Z) (create : bool)
  | AInsert (ip mac : Z)
  | ATimer (now ip : Z) (t : ptr).

Definition arp_step (op : arp_op) : ST netstack (Z * Z) :=
  match op with
  | ALookup now ip => arp_lookup_mac C tw arp_tbl arp_timer_handler_fn fuel now ip
  | AUpdate now ip mac c => r ← arp_update_mac tw arp_tbl arp_timer_handler_fn cpu_count fuel now ip mac c; mret (r, 0)
  | AInsert ip mac => r ← arp_insert arp_tbl arp_timer_handler_fn fuel ip mac; mret (r, 0)
  | ATimer now ip t => arp_timer_handler C tw fuel now t NULL;; mret (0, 0)
  end.
Fixpoint arp_steps (ops : list arp_op) : ST netstack (list (Z * Z)) :=
  match ops with [] => mret [] | op :: ops => r ← arp_step op; rs ← arp_steps ops; mret (r :: rs) end.

Definition spec_step (op : arp_op) (a : arp_abs) : (Z * Z) * arp_abs :=
  match op with
  | ALookup now ip => spec_lookup_mac now ip a
  | AUpdate now ip mac c => let r := spec_update_mac now ip mac c a in ((r.1, 0), r.2)
  | AInsert ip mac => let r := spec_insert ip mac a in ((r.1, 0), r.2)
  | ATimer now ip t => ((0, 0), spec_timer now ip a)
  end.
Fixpoint spec_steps (ops : list arp_op) (a : arp_abs) : list (Z * Z) * arp_abs :=
  match ops with
  | [] => ([], a)
  | op :: ops => let r := spec_step op a in let rs := spec_steps ops r.2 in (r.1 :: rs.1, rs.2)
  end.

(** There is a free entry where one is to be made, times and addresses are in
    range, and the handler runs for an entry whose timer is no longer armed. *)
Definition arp_op_ok (now_us : Z) (op : arp_op) (a : arp_abs) : Prop :=
  match op with
  | ALookup now ip => arp_get ip a ≠ None ∧ 0 ≤ ip < 2 ^ 32 ∧ delay_ok now_us now ARP_RESOLVE_TIMEOUT
  | AUpdate now ip mac c => (c = true → arp_get ip a ≠ None) ∧ 0 ≤ ip < 2 ^ 32 ∧ 0 ≤ mac < 2 ^ 48 ∧ delay_ok now_us now ARP_REFRESH_TIMEOUT
  | AInsert ip mac => 0 ≤ ip < 2 ^ 32 ∧ 0 ≤ mac < 2 ^ 48
  | ATimer now ip t => (∃ r, aa_tbl a !! ip = Some r ∧ t = ar_timer r ∧ aa_armed a !! t = None) ∧ delay_ok now_us now ARP_RETRY_TIMEOUT
  end.
Fixpoint arp_ops_ok (now_us : Z) (ops : list arp_op) (a : arp_abs) : Prop :=
  match ops with [] => True | op :: ops => arp_op_ok now_us op a ∧ arp_ops_ok now_us ops (spec_step op a).2 end.

Lemma aa_ok_insert a ip r : aa_ok a → 0 ≤ ip < 2 ^ 32 → (ar_valid r = true → 0 ≤ ar_mac r < 2 ^ 48) →
  ∀ T F, aa_ok (mk_arp_abs (<[ip := r]> (aa_tbl a)) T F).
Proof. intros Ha Hip Hm T F i x Hx. cbn [aa_tbl] in Hx. apply lookup_insert_Some in Hx as [[<- <-]|[_ Hx]]; [done|by apply Ha]. Qed.

Lemma arp_get_aa_ok a ip r a' : aa_ok a → 0 ≤ ip < 2 ^ 32 → arp_get ip a = Some (r, a') → aa_ok a' ∧ aa_tbl a' !! ip = Some r.
Proof.
  intros Ha Hip. unfold arp_get. destruct (aa_tbl a !! ip) eqn:E; [by intros [= <- <-]|]. destruct (aa_free a) as [|e F]; [done|]. intros [= <- <-].
  split; [by apply (aa_ok_insert a)|]. unfold aa_new. rsimpl. apply lookup_insert_eq.
Qed.

Lemma spec_step_ok op a now_us : aa_ok a → arp_op_ok now_us op a → aa_ok (spec_step op a).2.
Proof.
  intros Ha Hop. destruct op as [now ip|now ip mac c|ip mac|now ip t]; cbn [spec_step arp_op_ok snd] in *.
  - destruct Hop as (_ & Hip & _). unfold spec_lookup_mac. destruct (arp_get ip a) as [[r a1]|] eqn:E; [|done]. destruct (arp_get_aa_ok a ip r a1 Ha Hip E) as [Ha1 Hr].
    destruct (ar_valid r) eqn:Ev; [done|]. cbn [snd]. case_bool_decide; [done|]. apply (aa_ok_insert a1); [done|done|]. by rewrite valid_resolving, Ev.
  - destruct Hop as (_ & Hip & Hmac & _). unfold spec_update_mac. destruct (if c then _ else _) as [[r a1]|] eqn:E; [|done].
    assert (aa_ok a1) as Ha1.
    { destruct c; [by eapply arp_get_aa_ok|]. destruct (aa_tbl a !! ip); [|done]. cbn in E. by simplify_eq. }
    destruct (ar_static r); [done|]. by apply (aa_ok_insert a1).
  - destruct Hop as [Hip Hmac]. unfold spec_insert. destruct (aa_tbl a !! ip) as [r|] eqn:E; [by apply (aa_ok_insert a)|].
    destruct (aa_free a); [done|]. by apply (aa_ok_insert a).
  - destruct Hop as ((r & Hr & _) & _). unfold spec_timer. rewrite Hr. destruct (Ha ip r Hr) as [Hip Hm]. case_match.
    + intros i x Hx. rsimpl. apply lookup_delete_Some in Hx as [_ Hx]. by apply Ha.
    + apply (aa_ok_insert a); [done|done|]. by rewrite valid_resolving.
Qed.

Lemma arp_step_ok op s a : stack_rep s a → unlocked s → aa_ok a → arp_op_ok (nk_now_us s) op a →
  ∃ s', arp_step op s = Some ((spec_step op a).1, s') ∧ stack_rep s' (spec_step op a).2 ∧ same_ctl s s'.
Proof.
  intros Hs Hu Ha Hop. destruct op as [now ip|now ip mac c|ip mac|now ip t]; cbn [arp_step spec_step arp_op_ok fst snd] in *.
  - destruct Hop as (Hg & Hip & Hd). by apply arp_lookup_mac_ok.
  - destruct Hop as (Hg & Hip & Hmac & Hd). destruct (arp_update_mac_ok s a now ip mac c Hs Hu Hg Hd) as (s' & E & H). st_run E. by exists s'.
  - destruct (arp_insert_ok s a ip mac Hs Hu) as (s' & E & H). st_run E. by exists s'.
  - destruct Hop as ((r & Hr & -> & Hun) & Hd). destruct (arp_timer_handler_ok s a now ip r Hs Hu Ha Hr Hun Hd) as (s' & E & H). st_run E. by exists s'.
Qed.

Lemma arp_steps_ok ops s a :
  stack_rep s a → unlocked s → aa_ok a → arp_ops_ok (nk_now_us s) ops a →
  ∃ s', arp_steps ops s = Some ((spec_steps ops a).1, s') ∧ stack_rep s' (spec_steps ops a).2 ∧ unlocked s'.
Proof.
  revert s a. induction ops as [|op ops IH]; intros s a Hs Hu Ha Hok; cbn [arp_steps spec_steps arp_ops_ok] in *; [by exists s|].
  destruct Hok as [Hop Hok]. destruct (arp_step_ok op s a Hs Hu Ha Hop) as (s1 & E1 & Hs1 & Hc1). st_run E1.
  destruct (IH s1 (spec_step op a).2 Hs1) as (s2 & E2 & Hs2 & Hu2); [by eapply same_ctl_unlocked|by eapply spec_step_ok|by destruct Hc1 as [-> _]|].
  st_run E2. by exists s2.
Qed.


End stack.

(** ** Example *)

(** Two entries, two packet buffers. *)
Definition ex_arp_heap : heap := <[(4096, HDR_NEXT) := 4160]> (<[(1000000, HDR_NEXT) := 1000080]> ∅).
Definition ex_arp_pool : pool :=
  (mk_mempool_datastore MEMPOOL_MAGIC 1000000 1000000 1 2 80 1 2 1 1 0 0 0, mk_mempool 0 0 80 MEMPOOL_MAGIC 1000000 0 0 2 1 2 0 0).
Definition ex_stack : netstack :=
  mk_netstack (mk_tx_env ex_arp_heap ex_pool ex_pool pages_zero ∅) [mk_eth_tx_queue 16 []] ex_arp_pool ex_pool 1000 1008 false false false [].
Definition ex_arp_abs : arp_abs := mk_arp_abs ∅ ∅ [1000000; 1000080].

Lemma ex_arp_layout : arp_layout 2000000 3000000 1000000 2 [4096; 4160].
Proof.
  split; [done|unfold NB; lia|unfold ARP_MAX_ENTRIES; lia|unfold NB, ARP_MAX_ENTRIES; lia|].
  intros x Hx. rewrite elem_of_cons, list_elem_of_singleton in Hx. unfold NB, ARP_MAX_ENTRIES. lia.
Qed.

Lemma ex_pools_rep : pool_rep ex_arp_heap ex_arp_pool [1000000; 1000080] ∧ pool_rep ex_arp_heap ex_pool [4096; 4160].
Proof.
  split; [exists [], [], [[1000000; 1000080]]|exists [], [], [[4096; 4160]]]; (split; [|done]); split; try done; simpl; apply (bool_decide_unpack _); by vm_compute.
Qed.

Lemma hlist_rep_empty m h : h ≠ NULL → rd m h LN_NEXT = NULL → hlist_rep m h [].
Proof.
  intros Hh E. split.
  - apply NoDup_singleton.
  - rewrite list_elem_of_singleton. congruence.
  - apply not_elem_of_nil.
  - constructor; [|done]. split; [done|done].
Qed.

(** A zeroed table with all entries in the pool represents the empty map. *)
Lemma stack_rep_empty tw arp_tbl base n M s A F t :
  arp_layout tw arp_tbl base n M → pool_rep (nk_mem s) (nk_arp s) A → (∀ e, e ∈ A → el base n e) →
  (∀ x o, arp_area tw arp_tbl base n x → x ∉ A → rd (nk_mem s) x o = 0) → mb_rep M (nk_tx s) (nk_txqs s) F t →
  0 ≤ nk_now_us s ∧ nk_now_us s + 2 * MIN_DELAY_US < U64_MOD → stack_rep tw arp_tbl base n M s (mk_arp_abs ∅ ∅ A).
Proof.
  intros Hly HA HAel Hz Hb Hnow. split; [|by exists F, t]. pose proof Hly as [(H1 & H2 & H3) Hw Hta Hh _].
  assert (∀ x, ¬ el base n x → x ∉ A) as HnA by (intros x Hx Hin; by apply Hx, HAel).
  assert (∀ e o, el base n e → 0 < o < 80 → e + o ∉ A) as HnA2.
  { intros e o (i & Hi & ->) Ho. apply HnA. intros (j & Hj & E). lia. }
  exists (λ _, []), (λ _, []). split; cbn [aa_free aa_tbl aa_armed].
  - exact HA.
  - intros e He. split; [by apply HAel|]. intros; apply not_elem_of_nil.
  - intros i Hi. apply hlist_rep_empty; [lia|]. apply Hz; [right; right; lia|]. apply HnA. intros (j & Hj & E). unfold ARP_MAX_ENTRIES in *. lia.
  - by intros i e _ He%elem_of_nil.
  - done.
  - split; cbn [tw_mem tw_now_us]; [split| |exact Hnow|done| |].
    + intros k Hk. apply hlist_rep_empty; [lia|]. apply Hz; [right; left; lia|]. apply HnA. intros (j & Hj & E). lia.
    + by intros j k x _ _ Hx%elem_of_nil.
    + intros; apply not_elem_of_nil.
    + intros u Hu%in_timers. destruct Hu as (i & Hi & Ei). unfold AE_TIMER in *. split; [lia|]. intros k Hk. lia.
    + intros u k Hk. split; [by intros Hx%elem_of_nil|]. by intros (e & He & _).
    + intros u Hu%in_timers _. replace u with (u - AE_TIMER + AE_TIMER) by lia. apply Hz; [by apply el_area|by apply HnA2].
  - done.
  - intros e He. apply Hz; [by apply el_area|by apply HnA2].
Qed.

Lemma ex_stack_rep : stack_rep 2000000 3000000 1000000 2 [4096; 4160] ex_stack ex_arp_abs.
Proof.
  destruct ex_pools_rep as [Hp1 Hp2]. eapply (stack_rep_empty _ _ _ _ _ _ _ [4096; 4160] (mk_eth_tx_queue 16 [])); [exact ex_arp_layout|exact Hp1|..].
  - intros e He. rewrite elem_of_cons, list_elem_of_singleton in He. destruct He as [->| ->]; [exists 0|exists 1]; lia.
  - intros x o Hx Hn. rewrite elem_of_cons, list_elem_of_singleton in Hn. unfold arp_area, NB, ARP_MAX_ENTRIES in Hx. unfold ex_stack, nk_mem, ex_arp_heap. cbn [nk_tx te_mem].
    by rewrite !rd_insert_ne by (left; lia).
  - split; [exact Hp2|done|done|done|done].
  - done.
Qed.

Definition ex_arp_ops : list arp_op :=
  [ALookup 1000 0x0A000002; AUpdate 1010 0x0A000002 0x021122334455 false; ALookup 1020 0x0A000002; AInsert 0x0A000003 0x026677889900; ALookup 1030 0x0A000003].


