(* ===== verification/Transmit.v ===== *)
(** * Transmission end to end (dp/core/ethqueue.c over the drivers' rings)

    The packets between [eth_send] and their completion, together with the
    responses they carry, the pools both come from and the pages they refer to:
    every packet that is accepted leaves in order and is given back once. *)

From S2P Require Import Prelude Stddef Heap Mempool Page Bytes Mbuf Dispatch NetInput EthQueue RxRing TxRing.
Local Open Scope Z_scope.

(** ** Packets and what they hold *)

Definition page_ok (a : ptr) : bool := (0 <=? PAGE_NUM a) && (PAGE_NUM a <? NUM_PAGES).

#[local] Arguments page_ok : simpl never.
#[local] Arguments page_machaddr : simpl never.
#[local] Arguments iov_at : simpl never.

(** A packet that can be sent and completed. *)
Record pkt_ok (e : tx_env) (p : ptr) : Prop := {
  pk_null : p ≠ NULL;
  pk_nr : 0 ≤ rd (te_mem e) p MB_NR_IOV;
  pk_iovs : ∃ iovs, mapM (iov_at e p) (seq 0 (Z.to_nat (rd (te_mem e) p MB_NR_IOV))) = Some iovs ∧
    Forall (λ v, page_ok (iov_base v) = true) iovs;
  pk_mach : is_Some (page_machaddr (te_pages e) (mbuf_mtod_off p 0));
  pk_done : rd (te_mem e) p MB_DONE = mbuf_default_done_fn ∨
    rd (te_mem e) p MB_DONE = udp_mbuf_done_fn ∧ rd (te_mem e) p MB_DONE_DATA ≠ NULL;
}.

(** The response the completion of [p] gives back. *)
Definition resp_of (e : tx_env) (p : ptr) : list ptr :=
  if rd (te_mem e) p MB_DONE =? udp_mbuf_done_fn then [rd (te_mem e) p MB_DONE_DATA] else [].
Definition resps (e : tx_env) (ps : list ptr) : list ptr := concat (resp_of e <$> ps).

(** [e'] differs from [e] in the objects [X] and in reference counts. *)
Record env_frame (X : list ptr) (e e' : tx_env) : Prop := {
  ef_mem : same_outside X (te_mem e) (te_mem e');
  ef_data : te_data e' = te_data e;
  ef_mach : ∀ a, page_machaddr (te_pages e') a = page_machaddr (te_pages e) a;
}.

Lemma env_frame_trans X e1 e2 e3 : env_frame X e1 e2 → env_frame X e2 e3 → env_frame X e1 e3.
Proof.
  intros [H1 H2 H3] [K1 K2 K3]. split; [by eapply same_outside_trans|congruence|]. intros a. by rewrite K3, H3.
Qed.

Lemma env_frame_weaken X Y e e' : env_frame X e e' → (∀ x, x ∈ X → x ∈ Y) → env_frame Y e e'.
Proof. intros [H1 H2 H3] Hs. split; [by eapply same_outside_weaken|done..]. Qed.

Section frame.
Context (X : list ptr) (e e' : tx_env) (p : ptr) (HF : env_frame X e e') (Hp : p ∉ X).

Lemma frame_ld o : ld (te_mem e') p o = ld (te_mem e) p o.
Proof. unfold ld. by rewrite (ef_mem _ _ _ HF). Qed.

Lemma frame_iov_at i : iov_at e' p i = iov_at e p i.
Proof. unfold iov_at. by rewrite frame_ld, (ef_data _ _ _ HF). Qed.

Lemma frame_iovs l : mapM (iov_at e' p) l = mapM (iov_at e p) l.
Proof. induction l as [|i l IH]; [done|]. simpl. by rewrite frame_iov_at, IH. Qed.

Lemma frame_pkt_descs d : pkt_descs d e' p = pkt_descs d e p.
Proof.
  unfold pkt_descs. rewrite !frame_ld, (ef_mach _ _ _ HF). destruct d; [|done].
  repeat (apply option_bind_ext; [|done]; intros ?). by rewrite frame_iovs.
Qed.

Lemma frame_resp_of : resp_of e' p = resp_of e p.
Proof. unfold resp_of. by rewrite !(ef_mem _ _ _ HF). Qed.

Lemma frame_pkt_ok : pkt_ok e p → pkt_ok e' p.
Proof.
  intros [H1 H2 H3 H4 H5]. split; rewrite ?(ef_mem _ _ _ HF), ?(ef_mach _ _ _ HF), ?frame_iovs by done; done.
Qed.
End frame.

Lemma frame_resps X e e' ps : env_frame X e e' → (∀ p, p ∈ ps → p ∉ X) → resps e' ps = resps e ps.
Proof.
  intros HF Hd. unfold resps. f_equal. apply list_fmap_ext. intros i p Hi.
  eapply frame_resp_of; [done|]. apply Hd. by eapply list_elem_of_lookup_2.
Qed.

(** ** Completion *)

Lemma page_put_some cpu g a : page_ok a = true →
  ∃ b g', page_put cpu g a = Some (b, g') ∧ ∀ x, page_machaddr g' x = page_machaddr g x.
Proof.
  unfold page_ok. intros Ha.
  assert (∀ ent, pe_maddr ent = pe_maddr (page_ent_at g (PAGE_NUM a)) →
    ∀ x, page_machaddr (set_ent g (PAGE_NUM a) ent) x = page_machaddr g x) as Hset.
  { intros ent He x. unfold page_machaddr, addr_to_page_ent. destruct ((0 <=? PAGE_NUM x) && _); [|done].
    cbn [mbind option_bind]. destruct (decide (PAGE_NUM a = PAGE_NUM x)) as [E|]; [by rewrite <-E, set_ent_same, He|by rewrite set_ent_other]. }
  unfold page_put, page_put_slow, addr_to_page_ent. rewrite Ha. cbn [mbind option_bind].
  destruct (negb _); [|by eexists _, _].
  destruct (atomic_dec_and_test _) as [no_refs cnt]. destruct (_ || _); eexists _, _; (split; [done|]); by apply Hset.
Qed.

Lemma free_iovs_ok cpu p n : ∀ i e iovs,
  mapM (iov_at e p) (seq i n) = Some iovs → Forall (λ v, page_ok (iov_base v) = true) iovs →
  ∃ g', free_iovs cpu e p i n = Some (e <| te_pages := g' |>) ∧ ∀ x, page_machaddr g' x = page_machaddr (te_pages e) x.
Proof.
  induction n as [|n IH]; intros i e iovs Hm Hf; cbn [free_iovs seq mapM] in *.
  { exists (te_pages e). split; [by destruct e|done]. }
  apply bind_Some in Hm as (v & Ev & Hm). apply bind_Some in Hm as (vs & Evs & [= <-]). inversion Hf as [|? ? Hv Hvs]; subst.
  rewrite Ev. cbn [mbind option_bind]. unfold mbuf_iov_free.
  destruct (page_put_some cpu (te_pages e) (iov_base v) Hv) as (b & g1 & -> & Hg1). cbn [mbind option_bind].
  destruct (IH (S i) (e <| te_pages := g1 |>) vs) as (g2 & -> & Hg2); [|done|].
  { rewrite <-Evs. apply (frame_iovs []); [|set_solver]. by split. }
  exists g2. split; [by destruct e|]. intros x. rewrite Hg2. rsimpl. apply Hg1.
Qed.

(** The live packets [live], in order, and the free lists [Fm] and [Fr]. *)
Record tx_res (e : tx_env) (live Fm Fr : list ptr) : Prop := {
  tr_mbufs : pool_rep (te_mem e) (te_mbufs e) Fm;
  tr_resp : pool_rep (te_mem e) (te_resp e) Fr;
  tr_nodup : NoDup (live ++ Fm);
  tr_resps : NoDup (resps e live ++ Fr);
  tr_disj : ∀ x, x ∈ live ++ Fm → x ∉ resps e live ++ Fr;
  tr_ok : Forall (pkt_ok e) live;
}.

Lemma resps_app e ps qs : resps e (ps ++ qs) = resps e ps ++ resps e qs.
Proof. unfold resps. by rewrite fmap_app, concat_app. Qed.

Lemma release_ok cpu e p live Fm Fr :
  tx_res e (p :: live) Fm Fr →
  ∃ e', mbuf_xmit_done cpu e p = Some e' ∧ tx_res e' live (p :: Fm) (resp_of e p ++ Fr) ∧
    env_frame (p :: resp_of e p ++ Fm ++ Fr) e e'.
Proof.
  intros [Hm Hr Hn Hrn Hd Hok]. inversion Hok as [|? ? Hp Hlive]; subst. destruct Hp as [Hnull Hnr (iovs & Hi & Hpg) _ Hdone].
  change (resps e (p :: live)) with (resp_of e p ++ resps e live) in *. simpl in Hn. apply NoDup_cons in Hn as [HpF Hn].
  assert (∃ e', mbuf_xmit_done cpu e p = Some e' ∧ pool_rep (te_mem e') (te_mbufs e') (p :: Fm) ∧
    pool_rep (te_mem e') (te_resp e') (resp_of e p ++ Fr) ∧ env_frame (p :: resp_of e p ++ Fm ++ Fr) e e') as (e' & Ex & Hm' & Hr' & HF).
  { unfold mbuf_xmit_done, resp_of in *. rewrite (ld_some _ p) by done. cbn [mbind option_bind].
    destruct Hdone as [Ed|[Ed Hresp]]; rewrite Ed in *.
    - change (mbuf_default_done_fn =? mbuf_default_done_fn) with true. change (mbuf_default_done_fn =? udp_mbuf_done_fn) with false in *.
      unfold mbuf_default_done, mbuf_free. cbn [app] in *.
      destruct (pool_free (te_mem e) (te_mbufs e) Fm p) as (m' & P' & -> & HF' & Hs); [done..|in_app|].
      cbn [mbind option_bind]. eexists. split; [done|]. rsimpl. split; [done|]. split.
      + eapply pool_rep_frame; [done..|]. intros x Hx Hx'. apply (Hd x); in_app || set_solver.
      + split; rsimpl; [|done..]. eapply same_outside_weaken; [done|]. set_solver.
    - change (udp_mbuf_done_fn =? mbuf_default_done_fn) with false. change (udp_mbuf_done_fn =? udp_mbuf_done_fn) with true in *.
      unfold udp_mbuf_done. rewrite (ld_some _ p) by done. cbn [mbind option_bind].
      destruct (free_iovs_ok cpu p _ 0 e iovs Hi Hpg) as (g' & -> & Hg). cbn [mbind option_bind]. rsimpl.
      rewrite (ld_some _ p MB_DONE_DATA) by done. cbn [mbind option_bind]. set (r := rd (te_mem e) p MB_DONE_DATA) in *.
      apply NoDup_cons in Hrn as [HrF Hrn].
      destruct (pool_free (te_mem e) (te_resp e) Fr r) as (m1 & R' & -> & HR' & Hs1); [done..|in_app|].
      cbn [mbind option_bind].
      assert (pool_rep m1 (te_mbufs e) Fm) as Hm1.
      { eapply pool_rep_frame; [done..|]. intros x Hx Hx'. apply (Hd x); set_solver. }
      unfold mbuf_free. destruct (pool_free m1 (te_mbufs e) Fm p) as (m2 & P' & -> & HF' & Hs2); [done..|in_app|].
      cbn [mbind option_bind]. eexists. split; [done|]. rsimpl. split; [done|]. split.
      + eapply pool_rep_frame; [done..|]. intros x Hx Hx'. apply (Hd x); set_solver.
      + split; rsimpl; [|done..]. eapply same_outside_trans; (eapply same_outside_weaken; [done|]); set_solver. }
  exists e'. split; [done|]. split; [|done].
  assert (∀ x, x ∈ live → x ∉ p :: resp_of e p ++ Fm ++ Fr) as Hout.
  { intros x Hx. apply NoDup_app in Hn as (_ & Hn & _). specialize (Hn x Hx). specialize (Hd x). set_solver. }
  assert (resps e' live = resps e live) as Er by (by eapply frame_resps).
  split; [done|done|..]; rewrite ?Er.
  - rewrite NoDup_app in *. rewrite NoDup_cons. set_solver.
  - by rewrite app_assoc, (Permutation_app_comm (resps e live)), <-app_assoc in *.
  - intros x Hx. specialize (Hd x). set_solver.
  - apply Forall_forall. intros x Hx. eapply frame_pkt_ok; [done|by apply Hout|]. by eapply Forall_forall.
Qed.

(** [e'] reads the packets [live] as [e] does. *)
Definition keeps (live : list ptr) (e e' : tx_env) : Prop :=
  ∀ p, p ∈ live → resp_of e' p = resp_of e p ∧ (∀ o, ld (te_mem e') p o = ld (te_mem e) p o) ∧
    (∀ i, iov_at e' p i = iov_at e p i) ∧ ∀ d, pkt_descs d e' p = pkt_descs d e p.

Lemma keeps_refl live e : keeps live e e.
Proof. by intros p _. Qed.

Lemma keeps_trans live e1 e2 e3 : keeps live e1 e2 → keeps live e2 e3 → keeps live e1 e3.
Proof.
  intros H1 H2 p Hp. destruct (H1 p Hp) as (A1 & B1 & C1 & D1), (H2 p Hp) as (A2 & B2 & C2 & D2).
  split; [congruence|]. split_and!; intros x; by rewrite ?B2, ?B1, ?C2, ?C1, ?D2, ?D1.
Qed.

Lemma keeps_weaken live live' e e' : keeps live e e' → (∀ p, p ∈ live' → p ∈ live) → keeps live' e e'.
Proof. intros H Hs p Hp. by apply H, Hs. Qed.

Lemma frame_keeps X live e e' : env_frame X e e' → (∀ p, p ∈ live → p ∉ X) → keeps live e e'.
Proof.
  intros HF Hd p Hp. specialize (Hd p Hp). split_and!; intros.
  - by eapply frame_resp_of.
  - by eapply frame_ld.
  - by eapply frame_iov_at.
  - by eapply frame_pkt_descs.
Qed.

Lemma keeps_resps live e e' : keeps live e e' → resps e' live = resps e live.
Proof.
  intros H. unfold resps. f_equal. apply list_fmap_ext. intros i p Hi. by apply H, (list_elem_of_lookup_2 _ i).
Qed.

Lemma release_all_ok cpu ps : ∀ e live Fm Fr,
  tx_res e (ps ++ live) Fm Fr →
  ∃ e', release_all (mbuf_xmit_done cpu) e ps = Some e' ∧
    tx_res e' live (rev ps ++ Fm) (rev (resps e ps) ++ Fr) ∧ keeps live e e'.
Proof.
  induction ps as [|p ps IH]; intros e live Fm Fr H; simpl.
  { exists e. split; [done|]. split; [done|]. apply keeps_refl. }
  pose proof H as [Hm Hr Hn _ Hd _]. destruct (release_ok cpu e p (ps ++ live) Fm Fr H) as (e1 & -> & H1 & HF). cbn [mbind option_bind].
  assert (keeps (ps ++ live) e e1) as Hk.
  { eapply frame_keeps; [done|]. intros x Hx. specialize (Hd x). simpl in Hn. apply NoDup_cons in Hn as [Hp Hn].
    apply NoDup_app in Hn as (_ & Hn & _). specialize (Hn x Hx). change (resps e (p :: ps ++ live)) with (resp_of e p ++ resps e (ps ++ live)) in Hd.
    set_solver. }
  destruct (IH e1 live _ _ H1) as (e2 & -> & H2 & Hk2). exists e2. split; [done|]. split.
  - rewrite (keeps_resps ps e e1) in H2 by (eapply keeps_weaken; [done|]; set_solver).
    change (resps e (p :: ps)) with (resp_of e p ++ resps e ps). rewrite rev_app_distr, <-!app_assoc. cbn [app] in *.
    replace (rev (resp_of e p)) with (resp_of e p) by (unfold resp_of; by destruct (_ =? _)). done.
  - eapply keeps_trans; [|done]. eapply keeps_weaken; [done|]. set_solver.
Qed.

(** ** The packets of a ring *)
Fixpoint pkts (fl : list (tx_desc * ptr)) : list ptr :=
  match fl with [] => [] | (_, p) :: fl => if p =? NULL then pkts fl else p :: pkts fl end.

Lemma pkts_app fl fl' : pkts (fl ++ fl') = pkts fl ++ pkts fl'.
Proof. induction fl as [|[d p] fl IH]; simpl; [done|]. destruct (p =? NULL); simpl; by rewrite IH. Qed.

Lemma completed_nil dd fl : passed dd fl = 0%nat → completed dd fl = [].
Proof.
  induction fl as [|[d p] fl IH]; simpl; [done|]. destruct (p =? NULL); [|by destruct (dd d)].
  destruct (passed dd fl); [auto|done].
Qed.

Lemma pkts_completed dd fl : pkts fl = completed dd fl ++ pkts (drop (passed dd fl) fl).
Proof.
  induction fl as [|[d p] fl IH]; simpl; [done|]. destruct (p =? NULL) eqn:Hp.
  - destruct (passed dd fl) eqn:E; [|done]. rewrite (completed_nil dd fl E). simpl. by rewrite Hp.
  - destruct (dd d); simpl; [by rewrite IH|by rewrite Hp].
Qed.

Lemma pkts_items ds p : p ≠ NULL → ds ≠ [] → pkts (items ds p) = [p].
Proof.
  intros Hp. unfold items. induction ds as [|d ds IH]; [done|]. intros _. destruct ds as [|d' ds].
  - simpl. by rewrite (proj2 (Z.eqb_neq _ _) Hp).
  - specialize (IH ltac:(done)). cbn [length] in *. replace (S (S (length ds)) - 1)%nat with (S (S (length ds) - 1)) by lia.
    cbn [replicate app zip_with pkts]. by rewrite Z.eqb_refl.
Qed.

(** ** Writing the descriptors of a packet *)

Definition drv_dd (d : driver) := match d with Ixgbe => ixgbe_tx_dd | I40e => i40e_tx_dd end.
Definition drv_xmit_one (d : driver) (cpu : nat) := match d with Ixgbe => ixgbe_tx_xmit_one cpu | I40e => i40e_tx_xmit_one cpu end.

(** The descriptors the driver needs for a packet. *)
Definition desc_count (d : driver) (e : tx_env) (p : ptr) : nat :=
  match d with Ixgbe => S (Z.to_nat (rd (te_mem e) p MB_NR_IOV)) | I40e => 1 end.

Lemma pkt_descs_some d e p : pkt_ok e p → ∃ ds, pkt_descs d e p = Some ds ∧ length ds = desc_count d e p ∧ ds ≠ [].
Proof.
  intros [Hn Hnr (iovs & Hi & _) (a & Ha) _]. unfold pkt_descs. rewrite !ld_some by done. cbn [mbind option_bind]. rewrite Ha.
  cbn [mbind option_bind]. destruct d; [|by eexists]. rewrite Hi. cbn [mbind option_bind]. eexists. split; [done|].
  apply mapM_Some, Forall2_length in Hi. rewrite length_seq in Hi. unfold ixgbe_descs. cbn [length]. rewrite iov_descs_length.
  split; [|done]. unfold desc_count. by rewrite Hi.
Qed.

Lemma tail_ext q f g : f (tq_tl q) = g (tq_tl q) → q <| tq_tl ::= f |> = q <| tq_tl ::= g |>.
Proof. intros H. unfold set. simpl. by rewrite H. Qed.

(** Once there is room, the descriptors go behind those in flight. *)
Lemma ixgbe_tx_write_ok e q fl p ds :
  tx_rep q fl → pkt_ok e p → pkt_descs Ixgbe e p = Some ds → Z.of_nat (length fl + length ds) < tq_len q →
  ∃ q', ixgbe_tx_write e q p (rd (te_mem e) p MB_NR_IOV) (u32 (rd (te_mem e) p MB_LEN)) = Some q' ∧
    tq_len q' = tq_len q ∧ tx_rep q' (fl ++ items ds p).
Proof.
  intros Hq [Hn Hnr (iovs & Hi & _) (a & Ha) _] Hds Hroom. set (nr := rd (te_mem e) p MB_NR_IOV) in *.
  unfold pkt_descs in Hds. rewrite !ld_some, Ha in Hds by done. cbn [mbind option_bind] in Hds. fold nr in Hds. rewrite Hi in Hds. injection Hds as <-.
  pose proof Hi as Hlen. apply mapM_Some, Forall2_length in Hlen. rewrite length_seq in Hlen.
  unfold ixgbe_tx_write. rewrite !ld_some by done. cbn [mbind option_bind]. set (ol := rd (te_mem e) p MB_OL_FLAGS) in *.
  unfold ixgbe_descs in *. cbn [length] in Hroom. rewrite iov_descs_length in Hroom. rewrite Hlen in Hi |- *.
  destruct (ixgbe_xmit_iovs_ok e p (ixgbe_olinfo ol) fl iovs 0 (u32 (rd (te_mem e) p MB_LEN)) q Hq Hi ltac:(lia))
    as (q1 & -> & Hq1 & (Ee & Eh & Et & El) & _ & Hd). cbn [mbind option_bind].
  replace (nr =? 0) with (length iovs =? 0)%nat by (destruct (Nat.eqb_spec (length iovs) 0), (Z.eqb_spec nr 0); lia || done).
  destruct (push_packet q1 fl (adv_desc a (type_len (rd (te_mem e) p MB_LEN) (length iovs =? 0)%nat)
    (Z.lor (Z.shiftl (payload (rd (te_mem e) p MB_LEN) iovs) IXGBE_ADVTXD_PAYLEN_SHIFT) (ixgbe_olinfo ol)))
    (iov_descs (ixgbe_olinfo ol) iovs) p) as (q2 & q3 & E2 & Et2 & E3 & El3 & Hq3); [done|..].
  { cbn [length]. rewrite iov_descs_length, El. lia. }
  { intros j Hj. rewrite iov_descs_length in Hj. by rewrite <-(Hd j Hj). }
  rewrite iov_descs_length in E2. replace nr with (Z.of_nat (length iovs)) by lia. rewrite E2. cbn [mbind option_bind].
  rewrite Ha. cbn [mbind option_bind]. rewrite Et2. unfold payload in E3, Hq3 |- *. rewrite E3. cbn [mbind option_bind].
  eexists. split; [done|]. split; [rsimpl; congruence|]. erewrite tail_ext; [exact Hq3|].
  cbn [length]. rewrite iov_descs_length. f_equal. lia.
Qed.

Lemma i40e_tx_write_ok e q fl p ds :
  tx_rep q fl → pkt_ok e p → pkt_descs I40e e p = Some ds → Z.of_nat (length fl + length ds) < tq_len q →
  ∃ q', i40e_tx_write e q (tq_tl q) p (rd (te_mem e) p MB_OL_FLAGS) = Some q' ∧
    tq_len q' = tq_len q ∧ tx_rep q' (fl ++ items ds p).
Proof.
  intros Hq [Hn _ _ (a & Ha) _] Hds Hroom.
  unfold pkt_descs in Hds. rewrite !ld_some, Ha in Hds by done. injection Hds as <-. set (ol := rd (te_mem e) p MB_OL_FLAGS) in *.
  destruct (push_packet q fl (i40e_desc a (rd (te_mem e) p MB_LEN) ol) [] p) as (q2 & q3 & E2 & Et2 & E3 & El3 & Hq3); [done|done|by intros j Hj%Nat.nlt_0_r|].
  change (Z.of_nat (length [])) with 0 in E2. rewrite Z.add_0_r in E2. change (Z.of_nat (length [_])) with 1 in Hq3.
  unfold i40e_tx_write, i40e_desc in *. rewrite E2, Ha. destruct (if flag_set ol _ then _ else _) as [td_cmd td_offset].
  rewrite !ld_some by done. cbn [mbind option_bind fst snd] in *. rewrite E3. cbn [mbind option_bind]. by eexists.
Qed.

(** A descriptor the driver has just written is not finished. *)
Lemma adv_desc_dd maddr tl ol : Z.even ol = true → ixgbe_tx_dd (adv_desc maddr tl ol) = false.
Proof.
  intros He. unfold ixgbe_tx_dd, adv_desc, IXGBE_TXD_STAT_DD. cbn [td_qword1]. rewrite flag_set_1, Z.shiftr_div_pow2 by lia.
  change U32_MOD with (2 ^ 32) in *. rewrite Z.mul_comm, Z.div_add by lia. rewrite Z.div_small by (apply u32_range).
  by rewrite Z.add_0_l, odd_u32, <-Z.negb_even, He.
Qed.

Lemma olinfo_even ol : Z.even (ixgbe_olinfo ol) = true.
Proof. unfold ixgbe_olinfo. by destruct (_ && _). Qed.

Lemma iov_descs_dd ol iovs : Z.even ol = true → Forall (λ x, ixgbe_tx_dd x = false) (iov_descs ol iovs).
Proof. intros He. induction iovs; simpl; constructor; [by apply adv_desc_dd|done]. Qed.

Lemma i40e_desc_dd maddr len ol : i40e_tx_dd (i40e_desc maddr len ol) = false.
Proof.
  unfold i40e_tx_dd, i40e_desc, i40e_build_ctob. cbn [td_qword1].
  apply Z.eqb_neq. intros E.
  apply (f_equal (λ x, Z.testbit x 0)) in E. rewrite Z.land_spec, !Z.lor_spec in E.
  unfold u64 in E. change U64_MOD with (2 ^ 64) in E. rewrite !Z.mod_pow2_bits_low, !Z.shiftl_spec_low in E by lia. done.
Qed.

Lemma fresh_not_done d e p ds : pkt_descs d e p = Some ds → Forall (λ x, drv_dd d x = false) ds.
Proof.
  unfold pkt_descs. intros (nr & _ & (len & _ & (ol & _ & (a & _ & H)%bind_Some)%bind_Some)%bind_Some)%bind_Some.
  destruct d; cbn [drv_dd].
  - apply bind_Some in H as (iovs & _ & [= <-]). constructor; [|apply iov_descs_dd, olinfo_even]. apply adv_desc_dd.
    rewrite <-Z.negb_odd, <-Z.bit0_odd, Z.lor_spec, Z.shiftl_spec_low, Z.bit0_odd, <-Z.negb_even, olinfo_even by done. done.
  - injection H as <-. constructor; [apply i40e_desc_dd|done].
Qed.

Lemma completed_app dd fl its :
  completed dd fl = [] → Forall (λ x, dd x.1 = false) its → completed dd (fl ++ its) = [].
Proof.
  intros Hc Hi. assert (completed dd its = []) as Hi'.
  { induction Hi as [|[x p] its Hx _ IH]; simpl in *; [done|]. rewrite Hx. by destruct (p =? NULL). }
  induction fl as [|[x p] fl IH]; simpl in *; [done|]. destruct (p =? NULL); [auto|]. by destruct (dd x).
Qed.

Lemma items_fresh d e p ds : pkt_descs d e p = Some ds → Forall (λ x, drv_dd d x.1 = false) (items ds p).
Proof.
  intros E%fresh_not_done. unfold items. generalize (replicate (length ds - 1) NULL ++ [p]).
  induction E; intros [|? ?]; constructor; auto.
Qed.

Lemma completed_passed dd fl : completed dd fl = [] → passed dd fl = 0%nat.
Proof.
  induction fl as [|[x p] fl IH]; simpl; [done|]. destruct (p =? NULL); [intros H; by rewrite (IH H)|]. by destruct (dd x).
Qed.

(** Both drivers check for space and then write. *)
Definition drv_write (d : driver) (e0 e : tx_env) (q : tx_queue) (pos : Z) (p : ptr) : option tx_queue :=
  match d with
  | Ixgbe => ixgbe_tx_write e q p (rd (te_mem e0) p MB_NR_IOV) (u32 (rd (te_mem e0) p MB_LEN))
  | I40e => i40e_tx_write e q pos p (rd (te_mem e0) p MB_OL_FLAGS)
  end.

Lemma drv_xmit_one_eq d cpu e q p : pkt_ok e p →
  drv_xmit_one d cpu e q p =
    '(ok, e', q') ← tx_space (mbuf_xmit_done cpu) (drv_dd d) (Z.of_nat (desc_count d e p)) e q;
    if negb ok then Some (- EAGAIN, e', q') else q' ← drv_write d e e' q' (tq_tl q) p; Some (0, e', q').
Proof.
  intros Hp. pose proof (pk_null _ _ Hp). pose proof (pk_nr _ _ Hp). destruct d; cbn [drv_xmit_one drv_dd drv_write desc_count].
  - unfold ixgbe_tx_xmit_one. rewrite !ld_some by done. cbn [mbind option_bind].
    by replace (Z.of_nat (S (Z.to_nat (rd (te_mem e) p MB_NR_IOV)))) with (rd (te_mem e) p MB_NR_IOV + 1) by lia.
  - unfold i40e_tx_xmit_one. by rewrite !ld_some by done.
Qed.

Lemma drv_write_ok d e0 e q fl p ds :
  tx_rep q fl → pkt_ok e p → pkt_descs d e p = Some ds → Z.of_nat (length fl + length ds) < tq_len q →
  (∀ o, rd (te_mem e) p o = rd (te_mem e0) p o) →
  ∃ q', drv_write d e0 e q (tq_tl q) p = Some q' ∧ tq_len q' = tq_len q ∧ tx_rep q' (fl ++ items ds p).
Proof.
  intros Hq Hp Hds Hroom Hrd. destruct d; cbn [drv_write]; rewrite <-!Hrd;
    [by apply ixgbe_tx_write_ok|by apply i40e_tx_write_ok].
Qed.

(** The check for space, with the packets it gives back. *)
Lemma drv_space_ok d cpu e q fl rest Fm Fr n :
  tx_rep q fl → tx_res e (pkts fl ++ rest) Fm Fr → 0 ≤ n → tq_len q + n < 65536 →
  ∃ ok e' q' fl0 rel, tx_space (mbuf_xmit_done cpu) (drv_dd d) n e q = Some (ok, e', q') ∧
    tq_len q' = tq_len q ∧ tq_tl q' = tq_tl q ∧ pkts fl = rel ++ pkts fl0 ∧ tx_rep q' fl0 ∧
    tx_res e' (pkts fl0 ++ rest) (rev rel ++ Fm) (rev (resps e rel) ++ Fr) ∧ keeps (pkts fl0 ++ rest) e e' ∧
    ok = bool_decide (Z.of_nat (length fl0) + n < tq_len q) ∧
    (Z.of_nat (length fl) + n < tq_len q ∨ completed (drv_dd d) fl = [] → fl0 = fl ∧ rel = []).
Proof.
  intros Hq Hres Hn Hb. pose proof (tx_space_ok (mbuf_xmit_done cpu) (drv_dd d) n e q fl Hq Hn Hb) as Hs. case_decide as Hroom.
  { exists true, e, q, fl, []. split_and!; try done. by rewrite bool_decide_true. }
  pose proof (pkts_completed (drv_dd d) fl) as Hpk. set (fl0 := drop _ fl) in *. set (rel := completed _ fl) in *.
  rewrite Hpk, <-app_assoc in Hres. destruct (release_all_ok cpu rel e _ Fm Fr Hres) as (e' & Er & Hres' & Hk).
  rewrite Er in Hs. destruct Hs as (q' & Es & El & Et & Hq').
  exists (bool_decide (Z.of_nat (length fl0) + n < tq_len q)), e', q', fl0, rel.
  split_and!; try done; [rewrite Es; unfold fl0; by rewrite length_drop|].
  intros [Hr|Hc]; [lia|]. unfold fl0. by rewrite (completed_passed _ _ Hc), Hc.
Qed.

Lemma drv_xmit_one_ok d cpu e q fl p rest Fm Fr :
  tx_rep q fl → tx_res e (pkts fl ++ p :: rest) Fm Fr → tq_len q + Z.of_nat (desc_count d e p) < 65536 →
  ∃ ret e' q' fl0 rel ds, drv_xmit_one d cpu e q p = Some (ret, e', q') ∧ tq_len q' = tq_len q ∧
    pkts fl = rel ++ pkts fl0 ∧
    tx_res e' (pkts fl0 ++ p :: rest) (rev rel ++ Fm) (rev (resps e rel) ++ Fr) ∧ keeps (pkts fl0 ++ p :: rest) e e' ∧
    pkt_descs d e p = Some ds ∧ ds ≠ [] ∧ length ds = desc_count d e p ∧
    (ret = 0 ∧ tx_rep q' (fl0 ++ items ds p) ∨ ret ≠ 0 ∧ tx_rep q' fl0 ∧ tq_len q ≤ Z.of_nat (length fl0 + length ds)) ∧
    (Z.of_nat (length fl + length ds) < tq_len q → ret = 0 ∧ fl0 = fl ∧ rel = []) ∧
    (completed (drv_dd d) fl = [] → fl0 = fl ∧ rel = []).
Proof.
  intros Hq Hres Hb.
  assert (pkt_ok e p) as Hp by (eapply Forall_forall; [apply (tr_ok _ _ _ _ Hres)|]; set_solver).
  destruct (pkt_descs_some d e p Hp) as (ds & Hds & Hlen & Hne). rewrite <-Hlen in Hb.
  destruct (drv_space_ok d cpu e q fl (p :: rest) Fm Fr (Z.of_nat (length ds)) Hq Hres ltac:(lia) Hb)
    as (ok & e' & q' & fl0 & rel & Es & El & Et & Hpk & Hq' & Hres' & Hk & Hok & Hid).
  assert (p ∈ pkts fl0 ++ p :: rest) as Hin by set_solver. pose proof (pk_null _ _ Hp) as Hn.
  assert (pkt_ok e' p) as Hp' by (eapply Forall_forall; [apply (tr_ok _ _ _ _ Hres')|]; done).
  destruct (Hk p Hin) as (_ & Hld & _ & Hds'). specialize (Hds' d). rewrite Hds in Hds'.
  assert (∀ o, rd (te_mem e') p o = rd (te_mem e) p o) as Hrd.
  { intros o. specialize (Hld o). rewrite !ld_some in Hld by done. by injection Hld. }
  rewrite (drv_xmit_one_eq d cpu e q p Hp), <-Hlen, Es. cbn [mbind option_bind].
  destruct ok; symmetry in Hok; cbn [negb]; [apply bool_decide_eq_true in Hok|apply bool_decide_eq_false in Hok].
  - destruct (drv_write_ok d e e' q' fl0 p ds) as (q2 & E2 & El2 & Hq2); [done..|lia|done|].
    rewrite <-Et, E2. cbn [mbind option_bind]. exists 0, e', q2, fl0, rel, ds.
    split_and!; try done; [congruence|by left|..].
    + intros Hroom. split; [done|]. apply Hid. lia.
    + intros Hc. apply Hid. by right.
  - exists (- EAGAIN), e', q', fl0, rel, ds. split_and!; try done.
    + right. split; [done|]. split; [done|]. lia.
    + intros Hroom. exfalso. destruct (Hid ltac:(lia)) as [-> _]. lia.
    + intros Hc. apply Hid. by right.
Qed.

(** ** Sending a batch *)

Definition all_items (d : driver) (e : tx_env) (ps : list ptr) : list (tx_desc * ptr) :=
  concat ((λ p, items (default [] (pkt_descs d e p)) p) <$> ps).

Lemma keeps_all_items d e e' ps : keeps ps e e' → all_items d e' ps = all_items d e ps.
Proof.
  intros H. unfold all_items. f_equal. apply list_fmap_ext. intros i p Hi.
  destruct (H p (list_elem_of_lookup_2 _ i _ Hi)) as (_ & _ & _ & Hd). by rewrite Hd.
Qed.

Lemma keeps_desc_count d e e' live p : keeps live e e' → p ∈ live → p ≠ NULL → desc_count d e' p = desc_count d e p.
Proof.
  intros H Hp Hn. destruct (H p Hp) as (_ & Hl & _). specialize (Hl MB_NR_IOV). rewrite !ld_some in Hl by done.
  injection Hl as Hl. unfold desc_count. by rewrite Hl.
Qed.

Lemma resps_perm_sub e ps qs : (∀ p, p ∈ ps → p ∈ qs) → ∀ e', keeps qs e e' → resps e' ps = resps e ps.
Proof. intros Hs e' H. apply keeps_resps. by eapply keeps_weaken. Qed.

Lemma xmit_loop_ok d cpu bufs : ∀ nb e q fl Fm Fr,
  tx_rep q fl → tx_res e (pkts fl ++ bufs) Fm Fr → (∀ p, p ∈ bufs → tq_len q + Z.of_nat (desc_count d e p) < 65536) →
  ∃ n e' q' fl' rel, xmit_loop (drv_xmit_one d cpu) bufs nb e q = Some (nb + Z.of_nat n, e', q') ∧
    (n ≤ length bufs)%nat ∧ tq_len q' = tq_len q ∧ tx_rep q' fl' ∧ pkts fl ++ take n bufs = rel ++ pkts fl' ∧
    tx_res e' (pkts fl' ++ drop n bufs) (rev rel ++ Fm) (rev (resps e rel) ++ Fr) ∧ keeps (pkts fl' ++ drop n bufs) e e' ∧
    (∀ p, bufs !! n = Some p → tq_len q ≤ Z.of_nat (length fl' + desc_count d e p)) ∧
    (Z.of_nat (length fl + length (all_items d e bufs)) < tq_len q →
       n = length bufs ∧ rel = [] ∧ fl' = fl ++ all_items d e bufs) ∧
    (completed (drv_dd d) fl = [] → rel = [] ∧ fl' = fl ++ all_items d e (take n bufs)).
Proof.
  induction bufs as [|p bufs IH]; intros nb e q fl Fm Fr Hq Hres Hb; cbn [xmit_loop].
  { exists 0%nat, e, q, fl, []. rewrite Z.add_0_r, !app_nil_r in *. cbn [take drop app rev resps]. split_and!; done. }
  destruct (drv_xmit_one_ok d cpu e q fl p bufs Fm Fr Hq Hres) as
    (ret & e1 & q1 & fl0 & rel & ds & -> & El & Hpk & Hres1 & Hk1 & Hds & Hne & Hlen & Hcase & Hid & Hnone); [apply Hb; set_solver|].
  assert (pkt_ok e p) as Hp by (eapply Forall_forall; [apply (tr_ok _ _ _ _ Hres)|]; set_solver).
  pose proof (pk_null _ _ Hp) as Hn. cbn [mbind option_bind].
  assert (all_items d e (p :: bufs) = items ds p ++ all_items d e bufs) as Eall.
  { unfold all_items. cbn [fmap list_fmap concat]. by rewrite Hds. }
  rewrite Eall, length_app, (items_length ds p Hne).
  destruct Hcase as [[-> Hq1]|(Hret & Hq1 & Hfull)]; cbn [negb Z.eqb].
  - destruct (IH (nb + 1) e1 q1 (fl0 ++ items ds p) (rev rel ++ Fm) (rev (resps e rel) ++ Fr)) as
      (n & e2 & q2 & fl2 & rel2 & -> & Hle & El2 & Hq2 & Hpk2 & Hres2 & Hk2 & Hfull & Hid2 & Hnone2); [done|..].
    { by rewrite pkts_app, pkts_items, <-app_assoc by done. }
    { intros x Hx. rewrite El, (keeps_desc_count d e e1 (pkts fl0 ++ p :: bufs)); [apply Hb; set_solver|done|set_solver|].
      eapply pk_null, Forall_forall; [apply (tr_ok _ _ _ _ Hres)|]. set_solver. }
    rewrite pkts_app, pkts_items, <-app_assoc in Hpk2 by done. cbn [app] in Hpk2.
    assert (∀ x, x ∈ rel2 ++ pkts fl2 ++ drop n bufs → x ∈ pkts fl0 ++ p :: bufs) as Hsub.
    { intros x Hx. rewrite app_assoc, <-Hpk2, <-app_assoc in Hx. cbn [app] in Hx. rewrite take_drop in Hx. done. }
    exists (S n), e2, q2, fl2, (rel ++ rel2). cbn [take drop length].
    rewrite (keeps_resps rel2 e e1) in Hres2 by (eapply keeps_weaken; [done|]; intros; apply Hsub; in_app).
    rewrite resps_app, !rev_app_distr, <-!app_assoc, Hpk, <-!app_assoc, Hpk2.
    split_and!; try done; [do 3 f_equal; lia|lia|congruence|..].
    + eapply keeps_trans; [eapply keeps_weaken; [exact Hk1|]|exact Hk2]. intros; apply Hsub; in_app.
    + intros x Hx. cbn [lookup list_lookup] in Hx. rewrite <-El. rewrite <-(keeps_desc_count d e e1 (pkts fl0 ++ p :: bufs)).
      * by apply Hfull.
      * done.
      * apply list_elem_of_lookup_2 in Hx. set_solver.
      * eapply pk_null, Forall_forall; [apply (tr_ok _ _ _ _ Hres)|]. apply list_elem_of_lookup_2 in Hx. set_solver.
    + intros Hroom. destruct Hid as (_ & -> & ->); [lia|].
      rewrite (keeps_all_items d e e1) in Hid2 by (eapply keeps_weaken; [done|]; set_solver).
      rewrite length_app, items_length, El in Hid2 by done. destruct Hid2 as (-> & -> & ->); [lia|]. by rewrite <-app_assoc.
    + intros Hc. destruct (Hnone Hc) as [-> ->].
      destruct Hnone2 as [-> ->]; [by apply completed_app, (items_fresh d e)|]. split; [done|]. rewrite <-app_assoc. f_equal.
      unfold all_items at 2. cbn [fmap list_fmap concat]. rewrite Hds. change (default [] (Some ds)) with ds. f_equal.
      apply keeps_all_items. eapply keeps_weaken; [done|]. intros x Hx. apply elem_of_app. right. apply elem_of_cons. right.
      apply elem_of_take in Hx as (i & Hx & _). by eapply list_elem_of_lookup_2.
  - rewrite (proj2 (Z.eqb_neq _ _) Hret). cbn [negb]. exists 0%nat, e1, q1, fl0, rel. rewrite Z.add_0_r, app_nil_r. cbn [take drop].
    split_and!; try done; [lia|..].
    + intros x [= <-]. by rewrite <-Hlen.
    + intros Hroom. destruct (Hid ltac:(lia)) as (-> & _). done.
    + intros Hc. destruct (Hnone Hc) as [-> ->]. by rewrite app_nil_r.
Qed.

(** ** The worker's side *)

(** [eth_process_reclaim(); eth_process_send();] of [do_work]. *)
Definition transmit (d : driver) (cpu : nat) (e : tx_env) (q : tx_queue) (t : eth_tx_queue) :
    option (option (tx_env * tx_queue * eth_tx_queue)) :=
  '(e, q, t) ← eth_process_reclaim d cpu e q t;
  eth_process_send d cpu e q t.

Lemma process_reclaim_ok d cpu e q t fl rest Fm Fr :
  tx_rep q fl → tx_res e (pkts fl ++ rest) Fm Fr →
  let rel := completed (drv_dd d) fl in
  let fl0 := drop (passed (drv_dd d) fl) fl in
  ∃ e' q', eth_process_reclaim d cpu e q t = Some (e', q', mk_eth_tx_queue (tq_len q - Z.of_nat (length fl0)) (etx_bufs t)) ∧
    tq_len q' = tq_len q ∧ tx_rep q' fl0 ∧ pkts fl = rel ++ pkts fl0 ∧
    tx_res e' (pkts fl0 ++ rest) (rev rel ++ Fm) (rev (resps e rel) ++ Fr) ∧ keeps (pkts fl0 ++ rest) e e'.
Proof.
  intros Hq Hres rel fl0. pose proof (pkts_completed (drv_dd d) fl) as Hpk. fold rel fl0 in Hpk.
  rewrite Hpk, <-app_assoc in Hres. destruct (release_all_ok cpu rel e _ Fm Fr Hres) as (e' & Er & Hres' & Hk).
  pose proof (tx_reclaim_ok (mbuf_xmit_done cpu) (drv_dd d) e q fl Hq) as Hs. fold rel fl0 in Hs. rewrite Er in Hs.
  destruct Hs as (q' & Es & El & _ & Hq'). exists e', q'. split_and!; try done.
  unfold eth_process_reclaim. destruct d; cbn [drv_dd] in Es; unfold ixgbe_tx_reclaim, i40e_tx_reclaim; rewrite Es; cbn [mbind option_bind];
    unfold fl0; by rewrite length_drop.
Qed.

Lemma process_send_ok d cpu e q t fl Fm Fr :
  tx_rep q fl → tx_res e (pkts fl ++ etx_bufs t) Fm Fr →
  (∀ p, p ∈ etx_bufs t → tq_len q + Z.of_nat (desc_count d e p) < 65536) →
  (∃ e' q' fl' rel, eth_process_send d cpu e q t = Some (Some (e', q', mk_eth_tx_queue (etx_cap t) [])) ∧
     tq_len q' = tq_len q ∧ tx_rep q' fl' ∧ pkts fl ++ etx_bufs t = rel ++ pkts fl' ∧
     tx_res e' (pkts fl') (rev rel ++ Fm) (rev (resps e rel) ++ Fr) ∧ keeps (pkts fl') e e' ∧
     (Z.of_nat (length fl + length (all_items d e (etx_bufs t))) < tq_len q → rel = [] ∧ fl' = fl ++ all_items d e (etx_bufs t))) ∨
  eth_process_send d cpu e q t = Some None ∧ tq_len q ≤ Z.of_nat (length fl + length (all_items d e (etx_bufs t))).
Proof.
  intros Hq Hres Hb.
  destruct (xmit_loop_ok d cpu (etx_bufs t) 0 e q fl Fm Fr Hq Hres Hb)
    as (n & e' & q' & fl' & rel & E & Hle & El & Hq' & Hpk & Hres' & Hk & _ & Hid & _). rewrite Z.add_0_l in E.
  assert (eth_process_send d cpu e q t = if negb (Z.of_nat n =? Z.of_nat (length (etx_bufs t))) then Some None
    else Some (Some (e', q', mk_eth_tx_queue (etx_cap t) []))) as Ep.
  { unfold eth_process_send. destruct d; unfold ixgbe_tx_xmit, i40e_tx_xmit; cbn [drv_xmit_one] in E; by rewrite E. }
  rewrite Ep. destruct (Z.eqb_spec (Z.of_nat n) (Z.of_nat (length (etx_bufs t)))) as [En|En]; cbn [negb].
  - left. apply Nat2Z.inj in En. subst n. rewrite take_ge, drop_ge, ?app_nil_r in * by done.
    exists e', q', fl', rel. split_and!; try done. intros Hroom. by destruct (Hid Hroom) as (_ & -> & ->).
  - right. split; [done|]. destruct (Z.lt_ge_cases (Z.of_nat (length fl + length (all_items d e (etx_bufs t)))) (tq_len q)); [|lia].
    destruct Hid as (-> & _); [done|]. lia.
Qed.

(** ** A device with its queue, over time *)

(** The descriptors between head and tail. *)
Definition flight (q : tx_queue) : list (tx_desc * ptr) :=
  (λ j, (default (mk_tx_desc 0 0) (desc_at q j), default NULL (tq_entries q !! tx_slot q (tq_hd q + Z.of_nat j))))
    <$> seq 0 (Z.to_nat (u16 (tq_tl q - tq_hd q))).

Lemma flight_rep q fl : tx_rep q fl → flight q = fl.
Proof.
  intros Hq. unfold flight. pose proof (tx_room _ _ Hq) as Hr. destruct (tx_pow _ _ Hq) as (k & Hk & Hp).
  assert (tq_len q ≤ 2 ^ 15) by (rewrite Hp; apply Z.pow_le_mono_r; lia). change (2 ^ 15) with 32768 in *.
  pose proof (tx_distance q fl Hq 0 ltac:(lia) ltac:(lia)) as Ed. rewrite !Z.add_0_r in Ed. rewrite Ed, Nat2Z.id.
  apply list_eq. intros j. rewrite list_lookup_fmap. destruct (decide (j < length fl)%nat) as [Hj|Hj].
  - rewrite lookup_seq_lt by done. cbn [fmap option_fmap option_map Nat.add]. unfold desc_at.
    rewrite (tx_descs _ _ Hq), (tx_ents _ _ Hq) by lia.
    destruct (lookup_lt_is_Some_2 fl j Hj) as [[x y] ->]. done.
  - by rewrite !lookup_ge_None_2 by (rewrite ?length_seq; lia).
Qed.

(** A sending queue; [xs_sent] records the packets [eth_send] has accepted. *)
Record tx_sys := mk_tx_sys { xs_env : tx_env; xs_q : tx_queue; xs_t : eth_tx_queue; xs_sent : list ptr }.
#[export] Instance eta_tx_sys : Settable tx_sys := λ s, mk_tx_sys (xs_env s) (xs_q s) (xs_t s) (xs_sent s).

Definition xs_live (s : tx_sys) : list ptr := pkts (flight (xs_q s)) ++ etx_bufs (xs_t s).

(** A step: the worker sends a packet it owns or makes one round of its loop, the
    card writes descriptors back, or other code runs, which leaves the packets
    that are on their way alone. *)
Inductive tx_step (d : driver) (cpu : nat) : tx_sys → tx_sys → Prop :=
  | xs_send s p t' Fm Fr :
      tx_res (xs_env s) (xs_live s ++ [p]) Fm Fr →
      eth_send (xs_env s) (xs_t s) p = Some (0, t') →
      tx_step d cpu s (s <| xs_t := t' |> <| xs_sent ::= λ l, l ++ [p] |>)
  | xs_round s e' q' t' :
      transmit d cpu (xs_env s) (xs_q s) (xs_t s) = Some (Some (e', q', t')) →
      tx_step d cpu s (mk_tx_sys e' q' t' (xs_sent s))
  | xs_card s ring' :
      length ring' = length (tq_ring (xs_q s)) →
      tx_step d cpu s (s <| xs_q := (xs_q s) <| tq_ring := ring' |> |>)
  | xs_other s e' Fm Fr :
      tx_res e' (xs_live s) Fm Fr → keeps (xs_live s) (xs_env s) e' →
      tx_step d cpu s (s <| xs_env := e' |>).

(** A ring of the size [eth_dev_get_tx_queue] asks for, after [dev_start]. *)
Inductive tx_start (d : driver) (cpu : nat) : tx_sys → Prop :=
  | tx_start_intro dpdk_ret page lookup_ret e q e' q' Fm Fr :
      drv_tx_queue_setup d dpdk_ret page lookup_ret ETH_DEV_TX_QUEUE_SZ = Some (0, Some q) →
      dev_start_tx d cpu e q = Some (e', q') →
      tx_res e [] Fm Fr →
      tx_start d cpu (mk_tx_sys e' q' (mk_eth_tx_queue 0 []) []).

Definition tx_reachable (d : driver) (cpu : nat) (s : tx_sys) : Prop := ∃ s0, tx_start d cpu s0 ∧ rtc (tx_step d cpu) s0 s.

Record tx_inv (d : driver) (s : tx_sys) (fl : list (tx_desc * ptr)) (rel Fm Fr : list ptr) : Prop := {
  ti_rep : tx_rep (xs_q s) fl;
  ti_res : tx_res (xs_env s) (pkts fl ++ etx_bufs (xs_t s)) Fm Fr;
  ti_sent : xs_sent s = rel ++ pkts fl ++ etx_bufs (xs_t s);
  ti_len : tq_len (xs_q s) = ETH_DEV_TX_QUEUE_SZ;
  ti_cap : etx_cap (xs_t s) + Z.of_nat (length (etx_bufs (xs_t s))) ≤ ETH_DEV_TX_QUEUE_SZ;
  ti_need : ∀ p, p ∈ etx_bufs (xs_t s) → Z.of_nat (desc_count d (xs_env s) p) ≤ ETH_DEV_TX_QUEUE_SZ;
}.

(** The card may write anything into the ring. *)
Lemma card_rep q fl ring' :
  tx_rep q fl → length ring' = length (tq_ring q) →
  ∃ fl', tx_rep (q <| tq_ring := ring' |>) fl' ∧ snd <$> fl' = snd <$> fl.
Proof.
  intros Hq Hl. set (q' := q <| tq_ring := ring' |>).
  exists (zip_with (λ j p, (default (mk_tx_desc 0 0) (desc_at q' j), p)) (seq 0 (length fl)) (snd <$> fl)).
  set (fl' := zip_with _ _ _).
  assert (length fl' = length fl) as Hlen by (unfold fl'; rewrite length_zip_with, length_seq, length_fmap; lia).
  assert (∀ j x, fl !! j = Some x → fl' !! j = Some (default (mk_tx_desc 0 0) (desc_at q' j), x.2)) as Hj.
  { intros j x Hx. unfold fl'. rewrite lookup_zip_with, lookup_seq_lt by (by eapply lookup_lt_Some).
    by rewrite list_lookup_fmap, Hx. }
  assert (∀ j, (length fl ≤ j)%nat → fl' !! j = None) as Hj' by (intros; apply lookup_ge_None_2; lia).
  split.
  - pose proof (tx_slot_bound q fl Hq) as Hb. pose proof (tx_ents _ _ Hq) as He. destruct Hq. constructor; rewrite ?Hlen; try done.
    + unfold q'. rsimpl. by rewrite Hl.
    + intros j Hlt. destruct (lookup_lt_is_Some_2 fl j Hlt) as [x Hx]. rewrite (Hj _ _ Hx). cbn [mbind option_bind fst].
      change (desc_at q' j = Some (default (mk_tx_desc 0 0) (desc_at q' j))). unfold desc_at, q'. rsimpl.
      destruct (lookup_lt_is_Some_2 ring' (tx_slot q (tq_hd q + Z.of_nat j))) as [y Hy].
      { specialize (Hb (tq_hd q + Z.of_nat j)). lia. }
      unfold tx_slot in *. rsimpl. by rewrite Hy.
    + intros j Hlt. change (tq_entries q !! tx_slot q (tq_hd q + Z.of_nat j) = Some (default NULL (snd <$> fl' !! j))).
      rewrite He by done. destruct (fl !! j) as [x|] eqn:Hx; [by rewrite (Hj _ _ Hx)|].
      by rewrite Hj' by (by apply lookup_ge_None).
  - apply list_eq. intros j. rewrite !list_lookup_fmap. destruct (fl !! j) as [x|] eqn:Hx; [by rewrite (Hj _ _ Hx)|].
    by rewrite Hj' by (by apply lookup_ge_None).
Qed.

Lemma pkts_snd fl fl' : snd <$> fl' = snd <$> fl → pkts fl' = pkts fl.
Proof.
  revert fl'. induction fl as [|[d p] fl IH]; intros [|[d' p'] fl'] H; try done.
  injection H as -> H. simpl. by rewrite (IH fl' H).
Qed.

Section invariant.
Context (d : driver) (cpu : nat).

Lemma transmit_ok s fl rel Fm Fr :
  tx_inv d s fl rel Fm Fr →
  (∃ e' q' t' fl' new, transmit d cpu (xs_env s) (xs_q s) (xs_t s) = Some (Some (e', q', t')) ∧
     tx_inv d (mk_tx_sys e' q' t' (xs_sent s)) fl' (rel ++ new) (rev new ++ Fm) (rev (resps (xs_env s) new) ++ Fr) ∧
     etx_bufs t' = []) ∨
  transmit d cpu (xs_env s) (xs_q s) (xs_t s) = Some None.
Proof.
  intros [Hq Hres Hsent Hlen Hcap Hneed].
  destruct (process_reclaim_ok d cpu _ _ (xs_t s) fl _ Fm Fr Hq Hres) as (e1 & q1 & E1 & El1 & Hq1 & Hpk1 & Hres1 & Hk1).
  set (rel1 := completed _ fl) in *. set (fl1 := drop _ fl) in *. unfold transmit. rewrite E1. cbn [mbind option_bind].
  pose proof (process_send_ok d cpu e1 q1 (mk_eth_tx_queue (tq_len (xs_q s) - Z.of_nat (length fl1)) (etx_bufs (xs_t s)))
    fl1 _ _ Hq1 Hres1) as Hsend. cbn [etx_bufs etx_cap] in Hsend.
  destruct Hsend as [(e2 & q2 & fl2 & rel2 & -> & El2 & Hq2 & Hpk2 & Hres2 & Hk2 & _)|[-> _]]; [|left|by right].
  { intros p Hp. rewrite (keeps_desc_count d _ e1 _ p Hk1); [specialize (Hneed p Hp); unfold ETH_DEV_TX_QUEUE_SZ in *; lia|set_solver|].
    eapply pk_null, Forall_forall; [apply (tr_ok _ _ _ _ Hres)|]. set_solver. }
  exists e2, q2. eexists _, fl2, (rel1 ++ rel2). split; [done|]. split; [|done].
  rewrite (keeps_resps rel2 (xs_env s) e1) in Hres2.
  2: { eapply keeps_weaken; [exact Hk1|]. intros x Hx. rewrite Hpk2. set_solver. }
  split; cbn [xs_q xs_env xs_t xs_sent etx_bufs etx_cap length]; try done.
  - rewrite resps_app, !rev_app_distr, <-!app_assoc, app_nil_r. done.
  - rewrite Hsent, Hpk1, <-!app_assoc, Hpk2, app_nil_r. done.
  - congruence.
  - lia.
  - intros p Hp. by apply elem_of_nil in Hp.
Qed.

Lemma eth_send_ok s fl rel Fm Fr p :
  tx_inv d s fl rel Fm Fr → p ≠ NULL → 0 ≤ rd (te_mem (xs_env s)) p MB_NR_IOV →
  eth_send (xs_env s) (xs_t s) p =
    let nr := 1 + rd (te_mem (xs_env s)) p MB_NR_IOV in
    Some (if etx_cap (xs_t s) <? nr then (- EBUSY, xs_t s)
          else (0, mk_eth_tx_queue (etx_cap (xs_t s) - nr) (etx_bufs (xs_t s) ++ [p]))).
Proof.
  intros [_ _ _ _ Hcap _] Hp Hnr. unfold eth_send. rewrite ld_some by done. cbn [mbind option_bind].
  destruct (Z.ltb_spec (etx_cap (xs_t s)) (1 + rd (te_mem (xs_env s)) p MB_NR_IOV)); [done|].
  rewrite (proj2 (Z.ltb_lt _ _)) by lia. done.
Qed.

Lemma tx_step_inv s s' fl rel Fm Fr :
  tx_inv d s fl rel Fm Fr → tx_step d cpu s s' → ∃ fl' rel' Fm' Fr', tx_inv d s' fl' rel' Fm' Fr'.
Proof.
  intros Hi Hstep. pose proof Hi as [Hq Hres Hsent Hlen Hcap Hneed].
  assert (xs_live s = pkts fl ++ etx_bufs (xs_t s)) as Elive by (unfold xs_live; by rewrite (flight_rep _ _ Hq)).
  destruct Hstep as [s p t' Fm' Fr' Hres' Hs|s e' q' t' Ht|s ring' Hl|s e' Fm' Fr' Hres' Hk]; rewrite ?Elive in *.
  - assert (pkt_ok (xs_env s) p) as Hp by (eapply Forall_forall; [apply (tr_ok _ _ _ _ Hres')|]; set_solver).
    pose proof (pk_null _ _ Hp) as Hn. pose proof (pk_nr _ _ Hp) as Hnr.
    rewrite (eth_send_ok s fl rel Fm Fr p Hi Hn Hnr) in Hs. cbn zeta in Hs.
    destruct (Z.ltb_spec (etx_cap (xs_t s)) (1 + rd (te_mem (xs_env s)) p MB_NR_IOV)) as [|Hc]; [done|]. injection Hs as <-.
    exists fl, rel, Fm', Fr'. split; rsimpl; try done.
    + by rewrite app_assoc.
    + by rewrite Hsent, <-!app_assoc.
    + rewrite length_app. simpl. lia.
    + intros x [Hx|Hx%list_elem_of_singleton]%elem_of_app; [by apply Hneed|subst x].
      unfold desc_count, ETH_DEV_TX_QUEUE_SZ in *. destruct d; lia.
  - destruct (transmit_ok s fl rel Fm Fr Hi) as [(e1 & q1 & t1 & fl1 & new & E1 & Hi1 & _)|E1]; rewrite E1 in Ht; [|done].
    injection Ht as <- <- <-. eauto.
  - destruct (card_rep _ fl ring' Hq Hl) as (fl' & Hq' & Es). exists fl', rel, Fm, Fr.
    split; rsimpl; rewrite ?(pkts_snd fl fl' Es); done.
  - exists fl, rel, Fm', Fr'. split; rsimpl; try done. intros p Hp.
    rewrite (keeps_desc_count d _ _ _ p Hk); [by apply Hneed|set_solver|].
    eapply pk_null, Forall_forall; [apply (tr_ok _ _ _ _ Hres)|]. set_solver.
Qed.
End invariant.

Lemma dev_start_tx_ok d cpu e q :
  tx_rep q [] → 2 ≤ tq_len q ≤ ETH_DEV_TX_QUEUE_SZ →
  ∃ q' fl, dev_start_tx d cpu e q = Some (e, q') ∧ tq_len q' = tq_len q ∧ tx_rep q' fl ∧ pkts fl = [].
Proof.
  intros Hq Hlen. destruct d; cbn [dev_start_tx]; [|by exists q, []]. unfold ETH_DEV_TX_QUEUE_SZ in Hlen.
  unfold ixgbe_tx_xmit_ctx. pose proof (tx_space_ok (mbuf_xmit_done cpu) ixgbe_tx_dd 1 e q [] Hq ltac:(lia) ltac:(lia)) as Hs.
  rewrite decide_True in Hs by (simpl; lia). rewrite Hs. cbn [mbind option_bind negb].
  set (c := mk_tx_desc _ _). destruct (set_desc_ok q [] 0 c Hq ltac:(simpl; lia)) as (qd & Ed & Hqd & (_ & _ & _ & El) & Hd).
  rewrite Z.add_0_r in Ed. rewrite Ed. cbn [mbind option_bind].
  destruct (entries_push qd [] [c] NULL Hqd) as (q2 & E2 & (_ & _ & _ & El2) & Hq2); [done|simpl in *; lia|..].
  { intros [|j] Hj; [|simpl in Hj; lia]. by rewrite Hd by (simpl; lia). }
  cbn [length Nat.sub] in E2. change (Z.of_nat 0) with 0 in E2. rewrite Z.add_0_r in E2. rewrite E2. cbn [mbind option_bind].
  eexists _, _. split; [done|]. split; [rsimpl; congruence|]. split; [exact Hq2|done].
Qed.

Lemma tx_reachable_inv d cpu s : tx_reachable d cpu s → ∃ fl rel Fm Fr, tx_inv d s fl rel Fm Fr.
Proof.
  intros (s0 & Hstart & Hrtc). assert (∃ fl rel Fm Fr, tx_inv d s0 fl rel Fm Fr) as H0.
  { destruct Hstart as [dr pa lo e q e' q' Fm Fr Eq Es Hres].
    destruct (drv_tx_queue_setup_ok d dr pa lo ETH_DEV_TX_QUEUE_SZ ltac:(unfold ETH_DEV_TX_QUEUE_SZ; lia)) as (ret & oq & Eq' & Hq).
    rewrite Eq in Eq'. injection Eq' as <- <-. destruct Hq as (_ & El & _ & Hq).
    destruct (dev_start_tx_ok d cpu e q Hq) as (q2 & fl & E2 & El2 & Hq2 & Hpk); [unfold ETH_DEV_TX_QUEUE_SZ in *; lia|].
    rewrite Es in E2. injection E2 as <- <-. exists fl, [], Fm, Fr.
    split; cbn [xs_q xs_env xs_t xs_sent etx_bufs etx_cap length]; rewrite ?Hpk; try done.
    - congruence.
    - intros p Hp. by apply elem_of_nil in Hp. }
  clear Hstart. induction Hrtc as [s|s s1 s2 Hstep _ IH]; [done|]. apply IH. destruct H0 as (fl & rel & Fm & Fr & Hi).
  by eapply tx_step_inv.
Qed.

(** ** Theorems *)

(** C5: At every moment of every execution of a sending queue (worker rounds, new
    packets, card write-backs and other code in any order), the packets accepted
    by [eth_send] are, in order, those already completed, those in the ring and
    those queued, none of the latter two twice or free.  Neither a round nor
    sending faults: a round moves all queued packets to the ring and appends the
    completed ones, in order, to the free list together with their responses, or
    it ends in the driver's [panic]; sending is refused exactly for lack of
    descriptors and never writes outside the queue's array. *)
Theorem transmit_in_order_once d cpu s :
  tx_reachable d cpu s →
  ∃ done_ Fm Fr, xs_sent s = done_ ++ xs_live s ∧ tx_res (xs_env s) (xs_live s) Fm Fr ∧
    ((∃ e' q' t' new, transmit d cpu (xs_env s) (xs_q s) (xs_t s) = Some (Some (e', q', t')) ∧
       etx_bufs t' = [] ∧ xs_live s = new ++ pkts (flight q') ∧
       tx_res e' (pkts (flight q')) (rev new ++ Fm) (rev (resps (xs_env s) new) ++ Fr)) ∨
     transmit d cpu (xs_env s) (xs_q s) (xs_t s) = Some None) ∧
    ∀ p, pkt_ok (xs_env s) p →
      let nr := 1 + rd (te_mem (xs_env s)) p MB_NR_IOV in
      eth_send (xs_env s) (xs_t s) p =
        Some (if etx_cap (xs_t s) <? nr then (- EBUSY, xs_t s)
              else (0, mk_eth_tx_queue (etx_cap (xs_t s) - nr) (etx_bufs (xs_t s) ++ [p]))).
Proof.
  intros Hr. destruct (tx_reachable_inv d cpu s Hr) as (fl & rel & Fm & Fr & Hi). pose proof Hi as [Hq Hres Hsent _ _ _].
  unfold xs_live in *. rewrite (flight_rep _ _ Hq). exists rel, Fm, Fr. split; [done|]. split; [done|]. split.
  - destruct (transmit_ok d cpu s fl rel Fm Fr Hi) as [(e' & q' & t' & fl' & new & E & Hi' & Eb)|E]; [left|by right].
    destruct Hi' as [Hq' Hres' Hsent' _ _ _]. cbn [xs_q xs_env xs_t xs_sent] in *. exists e', q', t', new.
    rewrite (flight_rep _ _ Hq'). rewrite Eb, app_nil_r in *. split; [done|]. split; [done|]. split; [|done].
    rewrite Hsent, <-app_assoc in Hsent'. by apply app_inv_head in Hsent'.
  - intros p Hp. eapply eth_send_ok; [done|apply Hp..].
Qed.

(** A ring after start-up; a round, a packet without a scatter-gather list, and a
    round that transmits it. *)
Definition ex_tx_pkt : ptr := MEM_PHYS_BASE_ADDR + 0x1000.
Definition ex_tx_pool : pool :=
  (mk_mempool_datastore MEMPOOL_MAGIC 0 4096 1 2 64 1 2 1 0 0 0 0, mk_mempool 0 0 64 MEMPOOL_MAGIC 4096 0 0 2 1 2 0 0).
Definition ex_tx_env : tx_env :=
  mk_tx_env (<[(ex_tx_pkt, MB_DONE) := mbuf_default_done_fn]> (<[(ex_tx_pkt, MB_LEN) := 60]> ∅))
    ex_tx_pool ex_tx_pool pages_zero ∅.
Definition ex_round (s : tx_sys) : tx_sys :=
  match transmit Ixgbe 0 (xs_env s) (xs_q s) (xs_t s) with
  | Some (Some (e, q, t)) => mk_tx_sys e q t (xs_sent s)
  | _ => s
  end.
Definition ex_send (s : tx_sys) (p : ptr) : tx_sys :=
  match eth_send (xs_env s) (xs_t s) p with
  | Some (_, t) => s <| xs_t := t |> <| xs_sent ::= λ l, l ++ [p] |>
  | None => s
  end.
Definition ex_tx_queue : tx_queue := mk_tx_queue (replicate 4096 (mk_tx_desc 0 0)) (replicate 4096 NULL) 0 0 4096.
Definition ex_tx0 : tx_sys :=
  mk_tx_sys ex_tx_env (default ex_tx_queue (snd <$> dev_start_tx Ixgbe 0 ex_tx_env ex_tx_queue)) (mk_eth_tx_queue 0 []) [].
Definition ex_tx1 : tx_sys := ex_round ex_tx0.
Definition ex_tx2 : tx_sys := ex_send ex_tx1 ex_tx_pkt.
Definition ex_tx3 : tx_sys := ex_round ex_tx2.

Lemma ex_tx_pool_rep m : pool_rep m ex_tx_pool [].
Proof. exists [], [], []. split; [|done]. split; try done. apply NoDup_nil_2. Qed.

Lemma ex_tx_res : tx_res ex_tx_env [] [] [].
Proof. split; try apply ex_tx_pool_rep; try apply NoDup_nil_2; try done. intros x Hx. by apply elem_of_nil in Hx. Qed.

Lemma ex_tx_res_pkt : tx_res ex_tx_env [ex_tx_pkt] [] [].
Proof.
  split; try apply ex_tx_pool_rep.
  - apply NoDup_singleton.
  - apply NoDup_nil_2.
  - intros x _ Hx. by apply elem_of_nil in Hx.
  - apply Forall_singleton. split.
    + done.
    + by vm_compute.
    + exists []. split; [by vm_compute|done].
    + eexists. by vm_compute.
    + left. by vm_compute.
Qed.

Lemma ex_tx_setup : drv_tx_queue_setup Ixgbe 0 0x200000 0 ETH_DEV_TX_QUEUE_SZ = Some (0, Some ex_tx_queue).
Proof. vm_compute. reflexivity. Qed.

Lemma transmit_in_order_once_witness : ∃ done_, xs_sent ex_tx3 = done_ ++ [ex_tx_pkt].
Proof.
  destruct (transmit_in_order_once Ixgbe 0 ex_tx3) as (done_ & _ & _ & H & _).
  - exists ex_tx0. split.
    { eapply tx_start_intro; [apply ex_tx_setup| |apply ex_tx_res]. by vm_compute. }
    apply (rtc_l _ _ ex_tx1); [|apply (rtc_l _ _ ex_tx2); [|apply rtc_once]].
    + assert (transmit Ixgbe 0 (xs_env ex_tx0) (xs_q ex_tx0) (xs_t ex_tx0) = Some (Some (xs_env ex_tx1, xs_q ex_tx1, xs_t ex_tx1)))
        as E by (by vm_compute). exact (xs_round _ _ _ _ _ _ E).
    + refine (xs_send _ _ ex_tx1 ex_tx_pkt (xs_t ex_tx2) [] [] _ _).
      * assert (xs_live ex_tx1 = []) as -> by (by vm_compute).
        assert (xs_env ex_tx1 = ex_tx_env) as -> by (by vm_compute). apply ex_tx_res_pkt.
      * by vm_compute.
    + assert (transmit Ixgbe 0 (xs_env ex_tx2) (xs_q ex_tx2) (xs_t ex_tx2) = Some (Some (xs_env ex_tx3, xs_q ex_tx3, xs_t ex_tx3)))
        as E by (by vm_compute). exact (xs_round _ _ _ _ _ _ E).
  - exists done_. assert (xs_live ex_tx3 = [ex_tx_pkt]) as E by (by vm_compute). by rewrite <-E.
Defined.

(** ** The descriptor [eth_send] promises too much *)

Lemma desc_count_le d e ps x : Forall (pkt_ok e) ps → x ∈ ps → (desc_count d e x ≤ length (all_items d e ps))%nat.
Proof.
  intros Hok Hx. apply list_elem_of_split in Hx as (l1 & l2 & ->). rewrite Forall_app, Forall_cons in Hok. destruct Hok as (_ & Hx & _).
  destruct (pkt_descs_some d e x Hx) as (ds & Hds & Hl & Hne). unfold all_items.
  rewrite fmap_app, concat_app, length_app. cbn [fmap list_fmap concat]. rewrite Hds, length_app.
  change (default [] (Some ds)) with ds. rewrite (items_length _ _ Hne). lia.
Qed.

(** Sending a list of packets, all accepted. *)
Fixpoint eth_sends (e : tx_env) (t : eth_tx_queue) (ps : list ptr) : option eth_tx_queue :=
  match ps with
  | [] => Some t
  | p :: ps => '(ret, t) ← eth_send e t p; if ret =? 0 then eth_sends e t ps else None
  end.

Lemma eth_sends_ok e ps : ∀ t,
  Forall (pkt_ok e) ps → Z.of_nat (length (all_items Ixgbe e ps)) ≤ etx_cap t →
  etx_cap t + Z.of_nat (length (etx_bufs t)) ≤ ETH_DEV_TX_QUEUE_SZ →
  ∃ cap, eth_sends e t ps = Some (mk_eth_tx_queue cap (etx_bufs t ++ ps)).
Proof.
  induction ps as [|p ps IH]; intros t Hok Hcap Hb; cbn [eth_sends].
  { exists (etx_cap t). rewrite app_nil_r. by destruct t. }
  inversion Hok as [|? ? Hp Hps]; subst. pose proof (pk_null _ _ Hp). pose proof (pk_nr _ _ Hp).
  destruct (pkt_descs_some Ixgbe e p Hp) as (ds & Hds & Hl & Hne).
  assert (length (all_items Ixgbe e (p :: ps)) = S (Z.to_nat (rd (te_mem e) p MB_NR_IOV)) + length (all_items Ixgbe e ps))%nat as El.
  { unfold all_items. cbn [fmap list_fmap concat]. rewrite Hds, length_app, (items_length _ _ Hne). by rewrite Hl. }
  rewrite El in Hcap. unfold eth_send. rewrite ld_some by done. cbn [mbind option_bind].
  rewrite (proj2 (Z.ltb_ge _ _)) by lia. rewrite (proj2 (Z.ltb_lt _ _)) by lia. cbn [mbind option_bind Z.eqb].
  destruct (IH (mk_eth_tx_queue (etx_cap t - (1 + rd (te_mem e) p MB_NR_IOV)) (etx_bufs t ++ [p]))) as (cap & ->);
    [done|cbn [etx_cap]; lia|cbn [etx_cap etx_bufs]; rewrite length_app; simpl; lia|].
  exists cap. cbn [etx_bufs]. by rewrite <-app_assoc.
Qed.


(** Two packets and a ring of two descriptors. *)
Definition ex_tx_pkt2 : ptr := ex_tx_pkt + 0x1000.
Definition ex_tx_env2 : tx_env := ex_tx_env <| te_mem ::= <[(ex_tx_pkt2, MB_DONE) := mbuf_default_done_fn]> |>.
Definition ex_tx_queue2 : tx_queue := mk_tx_queue (replicate 2 (mk_tx_desc 0 0)) (replicate 2 NULL) 0 0 2.

Lemma ex_tx_res2 : tx_res ex_tx_env2 [ex_tx_pkt; ex_tx_pkt2] [] [].
Proof.
  split; try apply ex_tx_pool_rep.
  - apply (bool_decide_unpack _). by vm_compute.
  - apply NoDup_nil_2.
  - intros x _ Hx. by apply elem_of_nil in Hx.
  - apply Forall_cons. split; [|apply Forall_singleton]; (split;
      [done|by vm_compute|exists []; split; [by vm_compute|done]|eexists; by vm_compute|left; by vm_compute]).
Qed.


(** ** What the card is told *)

(** Address, length and end-of-packet mark of a descriptor. *)
Definition txd_view (d : driver) (x : tx_desc) : Z * Z * bool :=
  match d with
  | Ixgbe => (td_qword0 x, Z.land (td_qword1 x) 0xFFFF, Z.testbit (td_qword1 x) 24)
  | I40e => (td_qword0 x, Z.land (Z.shiftr (td_qword1 x) 34) 0x3FFF, Z.testbit (td_qword1 x) 4)
  end.

Fixpoint mark_last (l : list (Z * Z)) : list (Z * Z * bool) :=
  match l with [] => [] | (a, n) :: l => (a, n, (length l =? 0)%nat) :: mark_last l end.

Lemma txd_view_adv maddr len last ol : 0 ≤ len < 2 ^ 16 → txd_view Ixgbe (adv_desc maddr (type_len len last) ol) = (maddr, len, last).
Proof.
  intros Hl. unfold txd_view, adv_desc. cbn [td_qword0 td_qword1]. set (t := type_len len last).
  assert (∀ i, 0 ≤ i < 32 → Z.testbit (u32 t + 2 ^ 32 * u32 ol) i = Z.testbit t i) as Hbit.
  { intros i Hi. rewrite <-(Z.mod_pow2_bits_low (u32 t + 2 ^ 32 * u32 ol) 32 i) by lia.
    rewrite (Z.mul_comm (2 ^ 32)), Z.mod_add by lia.
    unfold u32. change U32_MOD with (2 ^ 32). rewrite Z.mod_mod by lia. apply Z.mod_pow2_bits_low. lia. }
  assert (∀ i, 16 ≤ i → Z.testbit len i = false) as Hhigh by (intros i Hi; apply (testbit_high 16); lia).
  f_equal; [f_equal|].
  - apply Z.bits_inj'. intros i Hi. rewrite Z.land_spec. change 0xFFFF with (Z.ones 16). rewrite Z.testbit_ones_nonneg by lia.
    destruct (Z.ltb_spec i 16); [|by rewrite andb_false_r, Hhigh]. rewrite andb_true_r, Hbit by lia. unfold t, type_len.
    assert (∀ c k, 20 ≤ k → Z.testbit (c * 2 ^ k) i = false) as Hlow by (intros; apply Z.mul_pow2_bits_low; lia).
    pose proof (Hlow 3 20 ltac:(lia)) as H1. pose proof (Hlow 1 25 ltac:(lia)) as H2. pose proof (Hlow 1 29 ltac:(lia)) as H3.
    pose proof (Hlow 1 24 ltac:(lia)) as H4. pose proof (Hlow 1 27 ltac:(lia)) as H5.
    change (3 * 2 ^ 20) with IXGBE_ADVTXD_DTYP_DATA in H1. change (1 * 2 ^ 25) with IXGBE_ADVTXD_DCMD_IFCS in H2.
    change (1 * 2 ^ 29) with IXGBE_ADVTXD_DCMD_DEXT in H3. change (1 * 2 ^ 24) with IXGBE_ADVTXD_DCMD_EOP in H4.
    change (1 * 2 ^ 27) with IXGBE_ADVTXD_DCMD_RS in H5.
    destruct last; rewrite !Z.lor_spec, H1, H2, H3, ?H4, ?H5; [by rewrite orb_false_r|done].
  - rewrite Hbit by lia. unfold t, type_len. destruct last; rewrite !Z.lor_spec, (Hhigh 24) by lia; done.
Qed.

Lemma txd_view_i40e maddr len ol : 0 ≤ len < 2 ^ 14 → txd_view I40e (i40e_desc maddr len ol) = (maddr, len, true).
Proof.
  intros Hl. unfold txd_view, i40e_desc. cbn [td_qword0 td_qword1].
  set (c := if flag_set ol PKT_TX_TCP_CKSUM then _ else _).
  assert (0 ≤ c.1 < 2 ^ 12 ∧ 0 ≤ c.2 < 2 ^ 18 ∧ Z.testbit c.1 0 = true) as (H1 & H2 & H3)
    by (unfold c; destruct (flag_set _ _); by vm_compute).
  clearbody c. unfold i40e_build_ctob. rewrite u32_small by (unfold U32_MOD; lia). rewrite Z.shiftl_0_l.
  assert (∀ x k w, 0 ≤ x < 2 ^ w → 0 ≤ k → 0 ≤ w → k + w ≤ 64 → u64 (Z.shiftl x k) = Z.shiftl x k) as Hs.
  { intros x k w Hx Hk Hw Hb. apply u64_small. rewrite Z.shiftl_mul_pow2 by lia. change U64_MOD with (2 ^ 64).
    assert (2 ^ k * 2 ^ w ≤ 2 ^ 64) by (rewrite <-Z.pow_add_r by lia; apply Z.pow_le_mono_r; lia).
    assert (0 < 2 ^ k) by (apply Z.pow_pos_nonneg; lia). nia. }
  rewrite (Hs c.1 4 12), (Hs c.2 16 18), (Hs len 34 14) by lia. change (u64 0) with 0. rewrite Z.lor_0_r.
  f_equal; [f_equal|].
  - rewrite !Z.shiftr_lor, (Z.shiftr_shiftl_l len), (Z.shiftr_shiftl_r c.1), (Z.shiftr_shiftl_r c.2) by lia.
    rewrite Z.sub_diag, Z.shiftl_0_r, !Z.shiftr_div_pow2 by lia. rewrite (Z.div_small c.1), (Z.div_small c.2) by lia.
    change (Z.lor (Z.lor 0 0) len) with len. change 0x3FFF with (Z.ones 14). rewrite Z.land_ones by lia. by apply Z.mod_small.
  - rewrite !Z.lor_spec, Z.shiftl_spec by lia. change (4 - 4) with 0. by rewrite H3.
Qed.

Lemma mark_last_ixgbe ol iovs :
  Forall (λ v, 0 ≤ iov_len v < 2 ^ 16) iovs →
  txd_view Ixgbe <$> iov_descs ol iovs = mark_last ((λ v, (iov_maddr v, iov_len v)) <$> iovs).
Proof.
  induction 1 as [|v iovs Hv _ IH]; [done|]. cbn [iov_descs fmap list_fmap mark_last]. rewrite txd_view_adv by done.
  rewrite length_fmap. f_equal. exact IH.
Qed.

(** The pieces of a packet: its own data, then its scatter-gather list. *)
Definition pkt_pieces (e : tx_env) (p : ptr) (maddr : Z) (iovs : list mbuf_iov) : list (Z * Z) :=
  (maddr, rd (te_mem e) p MB_LEN) :: ((λ v, (iov_maddr v, iov_len v)) <$> iovs).

(** C24: When there is room, the driver appends the descriptors of a packet behind
    those in flight and nothing else.  For ixgbe they name every piece of the
    packet, in order, with its length, and exactly the last ends the packet.  For
    i40e only the first piece is named, as a whole packet: the pieces of a
    scatter-gather list are never transmitted. *)
Theorem xmit_one_descriptors d cpu e q fl p rest Fm Fr maddr iovs :
  tx_rep q fl → tx_res e (pkts fl ++ p :: rest) Fm Fr → tq_len q ≤ ETH_DEV_TX_QUEUE_SZ →
  Z.of_nat (length fl + desc_count d e p) < tq_len q →
  page_machaddr (te_pages e) (mbuf_mtod_off p 0) = Some maddr →
  mapM (iov_at e p) (seq 0 (Z.to_nat (rd (te_mem e) p MB_NR_IOV))) = Some iovs →
  0 ≤ rd (te_mem e) p MB_LEN < 2 ^ 14 → Forall (λ v, 0 ≤ iov_len v < 2 ^ 16) iovs →
  ∃ e' q' its, drv_xmit_one d cpu e q p = Some (0, e', q') ∧ flight q' = fl ++ its ∧ pkts its = [p] ∧
    txd_view d <$> its.*1 =
      mark_last (match d with Ixgbe => pkt_pieces e p maddr iovs | I40e => take 1 (pkt_pieces e p maddr iovs) end).
Proof.
  intros Hq Hres Hlen Hroom Ha Hi Hl Hf. pose proof (tr_ok _ _ _ _ Hres) as Hok. rewrite Forall_app, Forall_cons in Hok.
  destruct Hok as (_ & Hp & _). pose proof (pk_null _ _ Hp) as Hn. unfold ETH_DEV_TX_QUEUE_SZ in Hlen.
  destruct (drv_xmit_one_ok d cpu e q fl p rest Fm Fr Hq Hres) as
    (ret & e' & q' & fl0 & rel & ds & E & _ & _ & _ & _ & Hds & Hne & Hc & Hcase & Hid & _); [lia|].
  destruct (Hid ltac:(lia)) as (-> & -> & ->). destruct Hcase as [[_ Hq']|[? _]]; [|done].
  exists e', q', (items ds p). split; [done|]. split; [by apply flight_rep|]. split; [by apply pkts_items|].
  assert ((items ds p).*1 = ds) as -> by (unfold items; apply fst_zip; rewrite length_app, length_replicate; destruct ds; [done|cbn [length]; lia]).
  unfold pkt_descs in Hds. rewrite !ld_some, Ha in Hds by done. cbn [mbind option_bind] in Hds. destruct d.
  - rewrite Hi in Hds. injection Hds as <-. unfold ixgbe_descs, pkt_pieces. cbn [fmap list_fmap mark_last].
    rewrite txd_view_adv, length_fmap by lia. f_equal. by apply mark_last_ixgbe.
  - injection Hds as <-. unfold pkt_pieces. cbn [fmap list_fmap mark_last take length Nat.eqb]. by rewrite txd_view_i40e.
Qed.

(** A packet with one piece of 100 bytes in its list. *)
Definition ex_tx_env3 : tx_env :=
  ex_tx_env <| te_mem ::= λ m, <[(ex_tx_pkt, MB_IOVS) := mbuf_mtod_off ex_tx_pkt 48]> (<[(ex_tx_pkt, MB_NR_IOV) := 1]> m) |>
    <| te_data := {[ex_tx_pkt := replicate 48 0 ++ [0; 0; 0; 0; 0x40; 0; 0; 0] ++ [0; 16; 0; 0; 0; 0; 0; 0] ++
        [100; 0; 0; 0; 0; 0; 0; 0] ++ replicate 1976 0]} |>.

Lemma ex_tx_res3 : tx_res ex_tx_env3 [ex_tx_pkt] [] [].
Proof.
  split; try apply ex_tx_pool_rep.
  - apply NoDup_singleton.
  - apply NoDup_nil_2.
  - intros x _ Hx. by apply elem_of_nil in Hx.
  - apply Forall_singleton. split.
    + done.
    + by vm_compute.
    + exists [mk_mbuf_iov MEM_PHYS_BASE_ADDR 0x1000 100]. split; [by vm_compute|]. apply Forall_singleton. by vm_compute.
    + eexists. by vm_compute.
    + left. by vm_compute.
Qed.

Lemma xmit_one_descriptors_witness :
  ∃ e' q' its, drv_xmit_one I40e 0 ex_tx_env3 ex_tx_queue2 ex_tx_pkt = Some (0, e', q') ∧ flight q' = its ∧ pkts its = [ex_tx_pkt] ∧
    txd_view I40e <$> its.*1 = [(0x1040, 60, true)].
Proof.
  apply (xmit_one_descriptors I40e 0 ex_tx_env3 ex_tx_queue2 [] ex_tx_pkt [] [] [] 0x1040
           [mk_mbuf_iov MEM_PHYS_BASE_ADDR 0x1000 100]).
  - apply (new_ring_rep 2 1); [lia|done].
  - apply ex_tx_res3.
  - done.
  - done.
  - by vm_compute.
  - by vm_compute.
  - by vm_compute.
  - apply Forall_singleton. by vm_compute.
Defined.
