(* ===== verification/Worker.v ===== *)
(** * The worker core (dp/core/worker.c)

    A worker takes the request in its mailbox, parses a new packet or resumes a
    preempted context, runs it until it finishes or is preempted, and answers
    through the response mailbox.  The run of the request's own code between the
    two context switches is an argument: whether it finished. *)

From S2P Require Import Prelude Stddef Heap Mempool Bytes Mbuf Dispatch NetInput Context Dispatcher.
Local Open Scope Z_scope.

(** The size of [struct response]. *)
Definition SIZEOF_RESPONSE : Z := 48.

(** ** State *)

(** The thread-local variables. *)
Record worker_local := mk_worker_local {
  l_cont : ptr;
  l_finished : bool;
  l_tls_networker_cy : Z;
  l_tls_dispatcher_cy : Z;
}.

(** What a worker accesses: the shared state, the data of the packets, and its
    own variables. *)
Record worker_st := mk_worker_st {
  x_world : world;
  x_data : packets;
  x_local : worker_local;
}.

#[export] Instance eta_worker_local : Settable worker_local :=
  λ l, mk_worker_local (l_cont l) (l_finished l) (l_tls_networker_cy l) (l_tls_dispatcher_cy l).
#[export] Instance eta_worker_st : Settable worker_st :=
  λ s, mk_worker_st (x_world s) (x_data s) (x_local s).

(** ** Parsing *)

(** The source and destination addresses are at 12 and 16 in [struct ip_hdr];
    the fields of [struct ip_tuple] are at 0, 4, 8 and 10. *)
Definition MBUF_DONE_MARK : Z := 0xDEADBEEF.

(** The parsed request: addresses of the payload and of the tuple, time stamp. *)
Record parsed := mk_parsed { p_data : ptr; p_id : ptr; p_recv_cycles : Z }.

(** [parse_packet]: [None] inside is the case [*data_ptr = NULL]. *)
Definition parse_packet (m : heap) (d : bytes) (pkt : ptr) : option (option parsed * heap * bytes) :=
  vhl ← get8 d IP_OFF;
  let hdrlen := Z.land vhl 15 * 4 in
  let udp := (IP_OFF + Z.to_nat hdrlen)%nat in
  let data_ptr := mbuf_mtod_off pkt (Z.of_nat (udp + UDP_HDR_LEN)) in
  len ← get16 d (udp + 4);
  let len := ntoh16 len in
  plen ← ld m pkt MB_LEN;
  if negb (mbuf_enough_space plen (Z.of_nat udp) len) then Some (None, m, d) else
  src ← get32 d (IP_OFF + 12);
  d ← put32 d 0 (ntoh32 src);
  dst ← get32 d (IP_OFF + 16);
  d ← put32 d 4 (ntoh32 dst);
  sport ← get16 d udp;
  d ← put16 d 8 (ntoh16 sport);
  dport ← get16 d (udp + 2);
  d ← put16 d 10 (ntoh16 dport);
  recv_cycles ← ld m pkt MB_TIMESTAMP;
  m ← sto m pkt MB_DONE MBUF_DONE_MARK;
  Some (Some (mk_parsed data_ptr (mbuf_mtod_off pkt 0) recv_cycles), m, d).

(** The halves in which a 64-bit value is passed to [makecontext], and how
    [generic_work] joins them. *)
Definition msw (x : Z) : Z := u32 (Z.shiftr (Z.land x 0xFFFFFFFF00000000) 32).
Definition lsw (x : Z) : Z := u32 (Z.land x 0x00000000FFFFFFFF).
Definition join_words (hi lo : Z) : Z := Z.lor (u64 (Z.shiftl hi 32)) lo.

(** ** Handlers *)

Definition lift_world {A} (c : ST world A) : ST worker_st A :=
  λ s, '(a, w) ← c (x_world s); Some (a, s <| x_world := w |>).

Definition set_local (f : worker_local → worker_local) : ST worker_st unit :=
  st_mod (λ s, s <| x_local ::= f |>).

(** [set_context_link] on the store of the shared state. *)
Definition do_set_context_link (c link : ptr) : ST worker_st unit :=
  λ s, m ← set_context_link (w_mem (x_world s)) c link;
       Some (tt, s <| x_world ::= λ w, w <| w_mem := m |> |>).

Definition do_parse_packet (pkt : ptr) : ST worker_st (option parsed) :=
  λ s, '(r, m, d) ← parse_packet (w_mem (x_world s)) (mbuf_data (x_data s) pkt) pkt;
       Some (r, s <| x_world ::= λ w, w <| w_mem := m |> |> <| x_data ::= <[pkt := d]> |>).

Definition mem_ld (p off : Z) : ST worker_st Z :=
  λ s, v ← ld (w_mem (x_world s)) p off; Some (v, s).

(** [init_worker], for the worker with index [i]; it also reclaims sent packets
    and installs the interrupt handler. *)
Definition init_worker (i : nat) : ST worker_st unit :=
  lift_world (set_resp i (λ r, r <| wr_flag := PROCESSED |>)).

(** [uctx_main] is the address of the worker's main context; [fin] tells whether
    the request runs to its end before control comes back. *)
Definition handle_new_packet (uctx_main : ptr) (i : nat) (fin : bool) : ST worker_st unit :=
  req ← lift_world (arr_get w_req i);
  let pkt := dr_mbuf req in
  r ← do_parse_packet pkt;
  ncy ← mem_ld pkt MB_NETWORKER_CY;
  set_local (λ l, l <| l_tls_networker_cy := ncy |>
                    <| l_tls_dispatcher_cy := dr_dispatcher_cy req |>);;
  match r with
  | Some _ =>
      set_local (λ l, l <| l_cont := dr_rnbl req |>);;
      do_set_context_link (dr_rnbl req) uctx_main;;
      set_local (λ l, l <| l_finished := false |>);;
      set_local (λ l, l <| l_finished := fin |>)
  | None => set_local (λ l, l <| l_finished := true |>)
  end.

Definition handle_context (uctx_main : ptr) (i : nat) (fin : bool) : ST worker_st unit :=
  req ← lift_world (arr_get w_req i);
  let pkt := dr_mbuf req in
  ncy ← (if pkt =? NULL then mret 0 else mem_ld pkt MB_NETWORKER_CY);
  set_local (λ l, l <| l_tls_networker_cy := ncy |>
                    <| l_tls_dispatcher_cy := dr_dispatcher_cy req |>
                    <| l_finished := false |>
                    <| l_cont := dr_rnbl req |>);;
  do_set_context_link (dr_rnbl req) uctx_main;;
  set_local (λ l, l <| l_finished := fin |>).

(** [handle_request] after its waiting loop ended. *)
Definition handle_request (uctx_main : ptr) (i : nat) (fin : bool) : ST worker_st unit :=
  lift_world (set_req i (λ r, r <| dr_flag := WAITING |>));;
  req ← lift_world (arr_get w_req i);
  if dr_category req =? PACKET then handle_new_packet uctx_main i fin
  else handle_context uctx_main i fin.

(** The response a worker with variables [l] gives to request [req]. *)
Definition answer (req : dispatcher_request) (l : worker_local) (r : worker_response) : worker_response :=
  r <| wr_timestamp := dr_timestamp req |>
    <| wr_type := dr_type req |>
    <| wr_mbuf := dr_mbuf req |>
    <| wr_rnbl := l_cont l |>
    <| wr_category := CONTEXT |>
    <| wr_flag := if l_finished l then FINISHED else PREEMPTED |>.

Definition finish_request (i : nat) : ST worker_st unit :=
  req ← lift_world (arr_get w_req i);
  s ← st_get;
  lift_world (set_resp i (answer req (x_local s))).

(** One turn of [do_work] once a request has arrived. *)
Definition worker_turn (uctx_main : ptr) (i : nat) (fin : bool) : ST worker_st unit :=
  handle_request uctx_main i fin;;
  finish_request i.

(** ** Correctness of parsing *)

(** The UDP datagram ends inside the frame. *)
Definition parsable (m : heap) (d : bytes) (pkt : ptr) : Prop :=
  Z.of_nat (udp_off d) + be16 d (udp_off d + 4) ≤ rd m pkt MB_LEN.

Lemma be16_ext d d' o : (∀ i, (o ≤ i)%nat → d' !! i = d !! i) → be16 d' o = be16 d o.
Proof. intros H. unfold be16, byte_at. by rewrite !H by lia. Qed.

Lemma udp_off_ext d d' : (∀ i, (IP_OFF ≤ i)%nat → d' !! i = d !! i) → udp_off d' = udp_off d.
Proof. intros H. unfold udp_off, ip_hdrlen, byte_at. by rewrite H. Qed.

(** Only the bytes from the IP header on matter. *)
Lemma parsable_ext m m' d d' pkt :
  parsable m d pkt → rd m' pkt MB_LEN = rd m pkt MB_LEN → (∀ i, (IP_OFF ≤ i)%nat → d' !! i = d !! i) →
  parsable m' d' pkt.
Proof.
  intros H Hm Hd. unfold parsable. pose proof (udp_off_range d) as Hr.
  rewrite Hm, (udp_off_ext d d' Hd), (be16_ext d d'); [done|]. intros i Hi. apply Hd. unfold IP_OFF. lia.
Qed.

Lemma delivered_parsable cfg m d pkt i :
  eth_verdict cfg (rd m pkt MB_LEN) d = Deliver i → parsable m d pkt ∧ (i < num_ports cfg)%nat.
Proof.
  unfold eth_verdict. destruct (ip_udp_ok _ _); [simpl|done]. unfold udp_overrun.
  destruct (Z.ltb_spec (rd m pkt MB_LEN) (Z.of_nat (udp_off d) + be16 d (udp_off d + 4))); [done|].
  destruct (list_find _ _) as [[k p]|] eqn:E; [|by destruct (_ =? _)]. intros [= <-]. split; [done|].
  apply list_find_Some in E as (E & _). apply lookup_lt_Some in E. rewrite length_take in E. lia.
Qed.

(** Store a field in the first 12 bytes: what lies behind stays. *)
Lemma put_head n d o v :
  (o + n ≤ 12)%nat → (12 ≤ length d)%nat → bytes_wf d →
  ∃ d', le_put n d o v = Some d' ∧ length d' = length d ∧ bytes_wf d' ∧ (∀ i, (12 ≤ i)%nat → d' !! i = d !! i) ∧
    (∀ k o', (o' + k ≤ o ∨ o + n ≤ o')%nat → le_get k d' o' = le_get k d o') ∧ le_get n d' o = Some (v mod 256 ^ Z.of_nat n).
Proof.
  intros Ho Hl Hwf. destruct (le_put_some n d o v) as [d' E]; [lia|]. exists d'. split_and!; [done|by eapply le_put_length|by eapply le_put_wf| | |].
  - intros i Hi. eapply le_put_lookup; [done|lia].
  - intros k o' H. by eapply le_get_put_ne.
  - by eapply le_get_put_eq.
Qed.

Lemma be32_range b o : bytes_wf b → 0 ≤ be32 b o < 2 ^ 32.
Proof.
  intros Hwf. unfold be32. pose proof (byte_at_range b o Hwf). pose proof (byte_at_range b (o + 1) Hwf).
  pose proof (byte_at_range b (o + 2) Hwf). pose proof (byte_at_range b (o + 3) Hwf). lia.
Qed.

Lemma parse_packet_ok m d pkt :
  bytes_wf d → (128 ≤ length d)%nat → pkt ≠ NULL → parsable m d pkt →
  ∃ d', parse_packet m d pkt =
      Some (Some (mk_parsed (mbuf_mtod_off pkt (Z.of_nat (udp_off d + UDP_HDR_LEN))) (mbuf_mtod_off pkt 0) (rd m pkt MB_TIMESTAMP)),
            <[(pkt, MB_DONE) := MBUF_DONE_MARK]> m, d') ∧
    length d' = length d ∧ bytes_wf d' ∧ (∀ i, (12 ≤ i)%nat → d' !! i = d !! i) ∧
    get32 d' 0 = Some (be32 d (IP_OFF + 12)) ∧ get32 d' 4 = Some (be32 d (IP_OFF + 16)) ∧
    get16 d' 8 = Some (be16 d (udp_off d)) ∧ get16 d' 10 = Some (be16 d (udp_off d + 2)).
Proof.
  intros Hwf Hl Hp Hparse. unfold parse_packet. pose proof (udp_off_range d) as Hr.
  rewrite (get8_byte d IP_OFF) by (unfold IP_OFF; lia). cbn [mbind option_bind].
  change 15 with (Z.ones 4). rewrite Z.land_ones by lia. change (2 ^ 4) with 16.
  replace (byte_at d IP_OFF mod 16 * 4) with (ip_hdrlen d) by (unfold ip_hdrlen; lia). fold (udp_off d).
  destruct (get16_ntoh d (udp_off d + 4)) as (v & -> & Ev & _); [done|lia|]. cbn [mbind option_bind]. rewrite Ev.
  rewrite (ld_some m pkt MB_LEN) by done. cbn [mbind option_bind]. pose proof (be16_range d (udp_off d + 4) Hwf).
  rewrite space_leb, (proj2 (Z.leb_le _ _)) by (done || lia). cbn [negb].
  destruct (get32_ntoh d (IP_OFF + 12)) as (src & -> & Es & _); [done|unfold IP_OFF; lia|]. cbn [mbind option_bind]. rewrite Es.
  destruct (put_head 4 d 0 (be32 d (IP_OFF + 12))) as (d1 & -> & L1 & W1 & K1 & G1 & E1); [lia|lia|done|]. cbn [mbind option_bind].
  rewrite (G1 4 (IP_OFF + 16))%nat by (unfold IP_OFF; lia).
  destruct (get32_ntoh d (IP_OFF + 16)) as (dst & -> & Ed & _); [done|unfold IP_OFF; lia|]. cbn [mbind option_bind]. rewrite Ed.
  destruct (put_head 4 d1 4 (be32 d (IP_OFF + 16))) as (d2 & -> & L2 & W2 & K2 & G2 & E2); [lia|lia|done|]. cbn [mbind option_bind].
  rewrite G2, G1 by lia.
  destruct (get16_ntoh d (udp_off d)) as (sp & -> & Esp & _); [done|lia|]. cbn [mbind option_bind]. rewrite Esp.
  destruct (put_head 2 d2 8 (be16 d (udp_off d))) as (d3 & -> & L3 & W3 & K3 & G3 & E3); [lia|lia|done|]. cbn [mbind option_bind].
  rewrite G3, G2, G1 by lia.
  destruct (get16_ntoh d (udp_off d + 2)) as (dp & -> & Edp & _); [done|lia|]. cbn [mbind option_bind]. rewrite Edp.
  destruct (put_head 2 d3 10 (be16 d (udp_off d + 2))) as (d4 & -> & L4 & W4 & K4 & G4 & E4); [lia|lia|done|]. cbn [mbind option_bind].
  heap_step_head. pose proof (be32_range d (IP_OFF + 12) Hwf). pose proof (be32_range d (IP_OFF + 16) Hwf).
  pose proof (be16_range d (udp_off d) Hwf). pose proof (be16_range d (udp_off d + 2) Hwf).
  exists d4. split_and!; [done|congruence|done|intros i Hi; by rewrite K4, K3, K2, K1|..].
  - rewrite G4, G3, G2, E1 by lia. f_equal. by apply Z.mod_small.
  - rewrite G4, G3, E2 by lia. f_equal. by apply Z.mod_small.
  - rewrite G4, E3 by lia. f_equal. by apply Z.mod_small.
  - rewrite E4. f_equal. by apply Z.mod_small.
Qed.

(** C29: A worker can parse every frame the networker delivers.  It finds the
    payload behind the UDP header, builds the addresses and ports of the request
    in host byte order in place of the Ethernet header, and leaves the IP header
    and everything behind it as it was. *)
Theorem parse_packet_delivered cfg m d pkt i :
  bytes_wf d → (128 ≤ length d)%nat → pkt ≠ NULL → eth_verdict cfg (rd m pkt MB_LEN) d = Deliver i →
  ∃ d', parse_packet m d pkt =
      Some (Some (mk_parsed (mbuf_mtod_off pkt (Z.of_nat (udp_off d + UDP_HDR_LEN))) (mbuf_mtod_off pkt 0) (rd m pkt MB_TIMESTAMP)),
            <[(pkt, MB_DONE) := MBUF_DONE_MARK]> m, d') ∧
    length d' = length d ∧ (∀ i, (12 ≤ i)%nat → d' !! i = d !! i) ∧
    get32 d' 0 = Some (be32 d (IP_OFF + 12)) ∧ get32 d' 4 = Some (be32 d (IP_OFF + 16)) ∧
    get16 d' 8 = Some (be16 d (udp_off d)) ∧ get16 d' 10 = Some (be16 d (udp_off d + 2)).
Proof.
  intros Hwf Hl Hp Hv. destruct (delivered_parsable cfg m d pkt i Hv) as [Hparse _].
  destruct (parse_packet_ok m d pkt Hwf Hl Hp Hparse) as (d' & ? & ? & _ & ?). by exists d'.
Qed.

Lemma parse_packet_delivered_witness :
  ∃ d' p, parse_packet ex_pkt_heap (ex_frame 24) 8192 = Some (Some p, <[(8192, MB_DONE) := MBUF_DONE_MARK]> ex_pkt_heap, d') ∧
    p_data p = 8192 + 64 + 42 ∧ get32 d' 0 = Some 0x0a000002 ∧ get16 d' 10 = Some 5001.
Proof.
  destruct (parse_packet_delivered ex_net_cfg ex_pkt_heap (ex_frame 24) 8192 1 (ex_frame_wf 24 ltac:(lia)) ltac:(vm_compute; lia)
    ltac:(done) ltac:(vm_compute; reflexivity)) as (d' & E & _ & _ & E1 & _ & _ & E2).
  eexists d', _. split; [exact E|]. split_and!; [by vm_compute|exact E1|exact E2].
Defined.

(** ** The halves of a 64-bit argument *)

Lemma words_join x : 0 ≤ x < U64_MOD → join_words (msw x) (lsw x) = x.
Proof.
  intros Hx. unfold join_words, msw, lsw.
  change 0xFFFFFFFF00000000 with (Z.shiftl (Z.ones 32) 32). change 0x00000000FFFFFFFF with (Z.ones 32).
  apply Z.bits_inj'. intros n Hn. rewrite Z.lor_spec. unfold u64, u32.
  change U64_MOD with (2 ^ 64) in *. change U32_MOD with (2 ^ 32).
  destruct (decide (n < 32)).
  - rewrite Z.mod_pow2_bits_low, Z.shiftl_spec_low by lia. rewrite Z.mod_pow2_bits_low, Z.land_spec, Z.testbit_ones_nonneg by lia.
    rewrite (proj2 (Z.ltb_lt _ _)) by lia. by rewrite andb_true_r.
  - rewrite (Z.mod_pow2_bits_high _ 32 n), orb_false_r by lia. destruct (decide (n < 64)).
    + rewrite Z.mod_pow2_bits_low, Z.shiftl_spec, Z.mod_pow2_bits_low, Z.shiftr_spec, Z.land_spec, Z.shiftl_spec, Z.testbit_ones_nonneg by lia.
      replace (n - 32 + 32) with n by lia. rewrite (proj2 (Z.ltb_lt _ _)) by lia. by rewrite andb_true_r.
    + rewrite Z.mod_pow2_bits_high by lia. symmetry. apply Z.bits_above_log2; [lia|].
      destruct (decide (x = 0)) as [->|]; [simpl; lia|]. apply Z.log2_lt_pow2; [lia|].
      apply Z.lt_le_trans with (2 ^ 64); [lia|]. apply Z.pow_le_mono_r; lia.
Qed.

(** the 64-bit values that [handle_new_packet] splits into two 32-bit
    arguments of [makecontext] reach [generic_work] unchanged. *)
Theorem words_roundtrip x : 0 ≤ x < U64_MOD → join_words (msw x) (lsw x) = x.
Proof. apply words_join. Qed.

Lemma words_roundtrip_witness : join_words (msw 0x4000123456789abc) (lsw 0x4000123456789abc) = 0x4000123456789abc.
Proof. apply words_roundtrip. unfold U64_MOD. lia. Defined.
