(* ===== verification/Reply.v ===== *)
(** * Answering a request (dp/core/worker.c, inc/ix/transmit.h, dp/net/udp.c)

    [generic_work] runs a request, fills a response from the response pool and
    sends it with [udp_send] to where the request came from.  Addresses inside
    the data of a packet are given together with the packet. *)

From Stdlib Require Import SpecFloat.
From S2P Require Import Prelude Stddef Heap LinkedList Timer Hash Float Mempool Page Bytes Chksum Mbuf Dispatch NetInput EthQueue RxRing TxRing NetOutput Arp ArpTable Transmit Worker.
Local Open Scope Z_scope.

(** ** Definitions *)

Definition RET_NOBUFS : Z := 2.
Definition RET_INVAL : Z := 3.
Definition RET_AGAIN : Z := 4.

(** [align_up(UDP_PKT_SIZE, sizeof(uint64_t))] *)
Definition UDP_IOVS_OFF : nat := 48.

Definition nk_resp_alloc : ST netstack ptr :=
  λ s, '(x, P) ← mempool_alloc (nk_mem s) (te_resp (nk_tx s)); Some (x, s <| nk_tx ::= λ e, e <| te_resp := P |> |>).
Definition nk_iov_create (cpu : nat) (pkt : ptr) (o : nat) (base len : Z) : ST netstack Z :=
  λ s, '(n, e) ← mbuf_iov_create cpu (nk_tx s) pkt o base len; Some (n, s <| nk_tx := e |>).
Definition nk_page_get (cpu : nat) (a : ptr) : ST netstack Z :=
  λ s, '(v, g) ← page_get cpu (te_pages (nk_tx s)) a; Some (v, s <| nk_tx ::= λ e, e <| te_pages := g |> |>).

Section udp.
Context (C : net_cfg) (tw arp_tbl arp_timer_handler_fn : ptr) (fuel cpu : nat) (eth_dev_count : Z).
Abbreviation arp_lookup_mac' := (arp_lookup_mac C tw arp_tbl arp_timer_handler_fn fuel).

(** [udp_output] of dp/net/udp.c *)
Definition udp_output (now : Z) (pkt : ptr) (id : ip_tuple) (len : Z) : ST netstack Z :=
  let full_len := len + 8 in
  r ← arp_lookup_mac' now (it_dst_ip id);
  if negb (r.1 =? 0) then mret (- RET_AGAIN) else
  nk_data pkt (λ d, d ← put48 d 0 r.2; udp_fill C d id full_len);;
  nk_sto pkt MB_OL_FLAGS 0;;
  nk_sto pkt MB_LEN UDP_PKT_SIZE;;
  if 1 <? eth_dev_count then st_fail else
  ret ← nk_eth_send 0 pkt;
  if negb (ret =? 0) then mret ret else mret 0.

Definition udp_send (now data len : Z) (id : ip_tuple) (cookie : Z) : ST netstack Z :=
  if UDP_MAX_LEN <? len then mret (- RET_INVAL) else
  pkt ← nk_mbuf_alloc_local;
  if pkt =? NULL then mret (- RET_NOBUFS) else
  nk_sto pkt MB_IOVS (mbuf_mtod_off pkt (Z.of_nat UDP_IOVS_OFF));;
  len1 ← nk_iov_create cpu pkt UDP_IOVS_OFF data len;
  nk_sto pkt MB_NR_IOV 1;;
  (if negb (len =? len1) then
     let base := u64 (data + len1) in
     nk_data pkt (λ d, put64 d (UDP_IOVS_OFF + 24) base);;
     maddr ← nk_page_get cpu base;
     nk_data pkt (λ d, put64 d (UDP_IOVS_OFF + 32) maddr);;
     nk_data pkt (λ d, put64 d (UDP_IOVS_OFF + 40) (u64 (len - len1)));;
     nk_sto pkt MB_NR_IOV 2
   else mret ());;
  nk_sto pkt MB_DONE udp_mbuf_done_fn;;
  nk_sto pkt MB_DONE_DATA cookie;;
  let full_len := len1 + 8 in
  r ← arp_lookup_mac' now (it_dst_ip id);
  if negb (r.1 =? 0) then nk_mbuf_free pkt;; mret (- RET_AGAIN) else
  nk_data pkt (λ d, d ← put48 d 0 r.2; udp_fill C d id full_len);;
  nk_sto pkt MB_OL_FLAGS 0;;
  nk_sto pkt MB_LEN UDP_PKT_SIZE;;
  if 1 <? eth_dev_count then st_fail else
  ret ← nk_eth_send 0 pkt;
  if negb (ret =? 0) then nk_mbuf_free pkt;; mret ret else mret 0.

(** ** The application *)

(** [struct request] is [runNs] at 0 and [genNs] at 8. *)
Definition RP_RUN_NS : Z := 0.
Definition RP_GEN_NS : Z := 8.
Definition RP_NETWORKER_RECV_NS : Z := 16.
Definition RP_SERVER_SEND_NS : Z := 24.
Definition RP_NETWORKER_CY : Z := 32.
Definition RP_DISPATCHER_CY : Z := 40.

(** The [do] loop; its result is the number of turns. *)
Fixpoint work_loop (fuel : nat) (i runNs : Z) : option Z :=
  match fuel with
  | O => None
  | S fuel' =>
      let i := u64 (i + 1) in
      if SFltb (f64_mul (f64_of_Z i) f64_0_9) (f64_of_Z runNs) then work_loop fuel' i runNs else Some i
  end.

(** A field of [k] bytes at an address in the data of [pkt]. *)
Definition nk_field (pkt : ptr) (k : nat) (addr : Z) : ST netstack Z :=
  λ s, let o := addr - mbuf_mtod_off pkt 0 in
       if o <? 0 then None else v ← le_get k (mbuf_data (te_data (nk_tx s)) pkt) (Z.to_nat o); Some (v, s).

(** [pkt] is the packet [data] and [id] point into.  The result is the new value of
    [total_responses_sent]; in all cases [finished] is set and control goes back to
    the worker. *)
Definition generic_work (wfuel : nat) (now tsc tls_networker_cy tls_dispatcher_cy total : Z) (pkt : ptr)
    (msw_ lsw_ msw_id lsw_id msw_ts lsw_ts : Z) : ST netstack Z :=
  let id := join_words msw_id lsw_id in
  let data := join_words msw_ lsw_ in
  let networker_recv_cycles := join_words msw_ts lsw_ts in
  runNs ← nk_field pkt 8 data;
  _ ← st_lift (work_loop wfuel 0 runNs);
  resp ← nk_resp_alloc;
  if resp =? NULL then mret total else
  genNs ← nk_field pkt 8 (data + 8);
  nk_sto resp RP_GEN_NS genNs;;
  runNs ← nk_field pkt 8 data;
  nk_sto resp RP_RUN_NS runNs;;
  nk_sto resp RP_NETWORKER_RECV_NS networker_recv_cycles;;
  nk_sto resp RP_NETWORKER_CY tls_networker_cy;;
  nk_sto resp RP_DISPATCHER_CY tls_dispatcher_cy;;
  nk_sto resp RP_SERVER_SEND_NS tsc;;
  dst_ip ← nk_field pkt 4 (id + 4);
  src_ip ← nk_field pkt 4 id;
  dst_port ← nk_field pkt 2 (id + 10);
  src_port ← nk_field pkt 2 (id + 8);
  let new_id := mk_ip_tuple dst_ip src_ip dst_port src_port in
  ret ← udp_send now resp SIZEOF_RESPONSE new_id resp;
  mret (if ret =? 0 then u64 (total + 1) else total).

(** The 48 bytes of a response. *)
Definition response_bytes (m : heap) (resp : ptr) : bytes :=
  concat ((λ o, (λ i, rd m resp o / 256 ^ Z.of_nat i mod 256) <$> seq 0 8) <$>
    [RP_RUN_NS; RP_GEN_NS; RP_NETWORKER_RECV_NS; RP_SERVER_SEND_NS; RP_NETWORKER_CY; RP_DISPATCHER_CY]).

(** ** The loop ends *)

Lemma work_loop_reaches runNs j : 0 < j < 2 ^ 64 → SFltb (f64_mul (f64_of_Z j) f64_0_9) (f64_of_Z runNs) = false →
  ∀ n i fuel, 0 ≤ i → i + 1 + Z.of_nat n = j → (n < fuel)%nat → ∃ k, work_loop fuel i runNs = Some k ∧ i < k ≤ j.
Proof.
  intros Hj Hs n. induction n as [|n IH]; intros i f Hi Hn Hf; (destruct f as [|f]; [lia|]); cbn [work_loop]; rewrite u64_small by (unfold U64_MOD; lia).
  - replace (i + 1) with j by lia. rewrite Hs. exists j. split; [done|lia].
  - destruct (SFltb (f64_mul (f64_of_Z (i + 1)) _) _); [|exists (i + 1); split; [done|lia]]. destruct (IH (i + 1) f) as (k & E & Hk); [lia..|]. exists k. split; [done|lia].
Qed.

Lemma work_loop_ends runNs f : 0 ≤ runNs < 2 ^ 60 → 8 * runNs < Z.of_nat f → ∃ k, work_loop f 0 runNs = Some k ∧ 0 < k ≤ 8 * runNs + 1.
Proof.
  intros Hr Hf. destruct (decide (runNs = 0)) as [->|Hr0].
  { destruct (work_loop_reaches 0 1 ltac:(lia) ltac:(by vm_compute) 0%nat 0 f) as (k & E & Hk); [lia..|]. exists k. split; [done|lia]. }
  set (j := 2 ^ (Z.log2 runNs + 3)). pose proof (Z.log2_nonneg runNs) as Hl0. destruct (Z.log2_spec runNs ltac:(lia)) as [Hl1 Hl2].
  assert (j = 8 * 2 ^ Z.log2 runNs) as Ej by (unfold j; rewrite Z.pow_add_r by lia; lia).
  assert (0 < 2 ^ Z.log2 runNs) by (apply Z.pow_pos_nonneg; lia).
  destruct (work_loop_reaches runNs j ltac:(lia)) with (n := Z.to_nat (j - 1)) (i := 0) (fuel := f) as (k & E & Hk); [|lia..|].
  - apply mul_0_9_large; [lia|lia|]. intros _. unfold j. rewrite Z.log2_pow2 by lia. lia.
  - exists k. split; [done|lia].
Qed.

(** ** The end of [udp_send] is [udp_output] *)

Lemma udp_send_tail now pkt id len1 s :
  (r ← arp_lookup_mac' now (it_dst_ip id);
   if negb (r.1 =? 0) then nk_mbuf_free pkt;; mret (- RET_AGAIN) else
   nk_data pkt (λ d, d ← put48 d 0 r.2; udp_fill C d id (len1 + 8));;
   nk_sto pkt MB_OL_FLAGS 0;;
   nk_sto pkt MB_LEN UDP_PKT_SIZE;;
   if 1 <? eth_dev_count then st_fail else
   ret ← nk_eth_send 0 pkt;
   if negb (ret =? 0) then nk_mbuf_free pkt;; mret ret else mret 0) s =
  (ret ← udp_output now pkt id len1; if negb (ret =? 0) then nk_mbuf_free pkt;; mret ret else mret 0) s.
Proof.
  unfold udp_output. cbv zeta. rewrite st_bind_assoc. unfold mbind, st_bind. destruct (arp_lookup_mac' now (it_dst_ip id) s) as [[[r mac] s1]|]; [|done].
  cbn [fst snd]. destruct (r =? 0); cbn [negb]; [|done]. unfold mbind, st_bind.
  destruct (nk_data _ _ s1) as [[[] s2]|]; [|done]. destruct (nk_sto pkt MB_OL_FLAGS 0 s2) as [[[] s3]|]; [|done].
  destruct (nk_sto pkt MB_LEN UDP_PKT_SIZE s3) as [[[] s4]|]; [|done]. destruct (1 <? eth_dev_count); [done|].
  destruct (nk_eth_send 0 pkt s4) as [[ret s5]|]; [|done]. destruct (ret =? 0) eqn:E; cbn [negb]; [done|]. unfold mret, st_ret. by rewrite E.
Qed.
End udp.

(** ** Scatter-gather elements *)

Lemma mbuf_iov_create_ok cpu e p o base len :
  packets_wf (te_data e) → (o + 24 ≤ 2048)%nat → MEM_PHYS_BASE_ADDR ≤ base < MEM_USER_START → 0 ≤ len → PGOFF_2MB base + len ≤ PGSIZE_2MB →
  ∃ g d maddr, mbuf_iov_create cpu e p o base len = Some (len, e <| te_data ::= <[p := d]> |> <| te_pages := g |>) ∧
    bytes_wf d ∧ length d = 2048%nat ∧ get64 d o = Some base ∧ get64 d (o + 8) = Some maddr ∧ get64 d (o + 16) = Some len ∧
    ∀ i, (i < o ∨ o + 24 ≤ i)%nat → d !! i = mbuf_data (te_data e) p !! i.
Proof.
  intros Hwf Ho Hb Hl Hoff. destruct (mbuf_data_wf _ p Hwf) as [W L]. change (Z.to_nat MBUF_DATA_LEN) with 2048%nat in L.
  unfold mbuf_iov_create. rewrite Z.min_l by lia. run_put.
  assert (∃ maddr g, page_get cpu (te_pages e) base = Some (maddr, g) ∧ 0 ≤ maddr < 2 ^ 64) as (maddr & g & -> & Hma).
  { unfold page_get. rewrite addr_to_page_ent_ok by done. eexists _, _. split; [done|]. apply u64_range. }
  cbn [mbind option_bind]. do 2 run_put. exists g. eexists _, maddr. split; [done|]. split; [done|]. split; [congruence|].
  assert (PGSIZE_2MB < 2 ^ 64) by done. assert (MEM_USER_START < 2 ^ 64) by done.
  assert (0 ≤ PGOFF_2MB base) by (unfold PGOFF_2MB; apply Z.land_nonneg; by right). assert (0 ≤ MEM_PHYS_BASE_ADDR) by done.
  split_and!.
  - skip_puts. rewrite (le_get_put_eq _ _ _ _ _ E). f_equal. apply Z.mod_small. change (256 ^ Z.of_nat 8) with (2 ^ 64). lia.
  - skip_puts. rewrite (le_get_put_eq _ _ _ _ _ E0). f_equal. apply Z.mod_small. change (256 ^ Z.of_nat 8) with (2 ^ 64). lia.
  - rewrite (le_get_put_eq _ _ _ _ _ E1). f_equal. apply Z.mod_small. change (256 ^ Z.of_nat 8) with (2 ^ 64). lia.
  - intros i Hi. by skip_puts.
Qed.

Section reply.
Context (C : net_cfg) (tw arp_tbl arp_timer_handler_fn base n : Z) (fuel cpu : nat) (eth_dev_count : Z) (M : list ptr).
Context (Hly : arp_layout tw arp_tbl base n M) (HC : cfg_ok C) (Hfuel : (Z.to_nat n ≤ fuel)%nat) (Hdev : eth_dev_count ≤ 1).

Abbreviation area := (arp_area tw arp_tbl base n).
Abbreviation tbl := (tbl_rep tw arp_tbl base n arp_ip_to_idx).

(** A resolved address is found without a change. *)
Lemma lookup_mac_valid s a L W now ip r :
  tbl (nk_mem s) (nk_arp s) (nk_now_us s) (nk_timer_pos s) a L W → aa_tbl a !! ip = Some r → ar_valid r = true →
  arp_lookup_mac C tw arp_tbl arp_timer_handler_fn fuel now ip s = Some ((0, ar_mac r), s).
Proof.
  intros Ht Hr Hv. destruct (tb_tbl _ _ _ _ _ _ _ _ _ _ _ _ Ht ip r Hr) as [Hin (_ & Hfl & _ & Hma & _)].
  destruct (tb_in _ _ _ _ _ _ _ _ _ _ _ _ Ht _ _ (arp_idx_range ip) Hin) as [Hel _]. pose proof (el_pos _ _ _ _ _ _ Hly Hel) as Hp0.
  assert (arp_lookup arp_tbl arp_timer_handler_fn fuel ip true s = Some (ar_ptr r, s)) as E.
  { unfold arp_lookup, arp_lookup_chain, mbind at 1, st_bind at 1.
    pose proof (arp_find_ok tw arp_tbl base n M arp_ip_to_idx arp_idx_range _ _ _ _ _ _ _ ip fuel Hly Ht Hfuel) as E. unfold arp_bucket.
    destruct (ld (nk_mem s) (arp_tbl + 8 * arp_ip_to_idx ip) LN_NEXT) as [x|]; [|done]. cbn [mbind option_bind] in *. rewrite E, Hr.
    cbn [fmap option_fmap option_map default id mbind option_bind]. by rewrite (proj2 (Z.eqb_neq (ar_ptr r) NULL)) by lia. }
  unfold arp_lookup_mac. st_run E. rewrite (proj2 (Z.eqb_neq (ar_ptr r) NULL)) by lia. assert (ar_ptr r ≠ NULL) as Hp by lia.
  st_run (nk_ld_run (ar_ptr r) AE_FLAGS s Hp). rewrite Hfl. unfold ar_valid in Hv. apply negb_true_iff in Hv as Hv'. rewrite Hv'.
  st_run (nk_ld_run (ar_ptr r) AE_MAC s Hp). by rewrite (Hma Hv).
Qed.

Lemma udp_output_ok s a L W r now p id len t :
  tbl (nk_mem s) (nk_arp s) (nk_now_us s) (nk_timer_pos s) a L W → aa_tbl a !! it_dst_ip id = Some r → ar_valid r = true → 0 ≤ ar_mac r < 2 ^ 48 →
  packets_wf (te_data (nk_tx s)) → p ≠ NULL → tuple_ok id → 0 ≤ len ≤ UDP_MAX_LEN → nk_txqs s !! 0%nat = Some t → txq_ok t →
  let nr := rd (nk_mem s) p MB_NR_IOV in 0 ≤ nr → 1 + nr ≤ etx_cap t →
  ∃ d, udp_output C tw arp_tbl arp_timer_handler_fn fuel eth_dev_count now p id len s =
      Some (0, nk_set_mem (<[(p, MB_LEN) := UDP_PKT_SIZE]> (<[(p, MB_OL_FLAGS) := 0]> (nk_mem s)))
        (s <| nk_tx ::= λ e, e <| te_data ::= <[p := d]> |> |> <| nk_txqs ::= <[0%nat := mk_eth_tx_queue (etx_cap t - (1 + nr)) (etx_bufs t ++ [p])]> |>)) ∧
    bytes_wf d ∧ length d = 2048%nat ∧ udp_headers C id (8 + len) d ∧ get48 d 0 = Some (ar_mac r) ∧
    be16 d 20 = be16 (mbuf_data (te_data (nk_tx s)) p) 20 ∧ ∀ i, (42 ≤ i)%nat → d !! i = mbuf_data (te_data (nk_tx s)) p !! i.
Proof.
  intros Ht Hr Hv Hm Hwf Hp Hid Hlen Hq [Hc0 Hc1] nr Hnr Hcap. destruct (mbuf_data_wf _ p Hwf) as [W0 L0]. change (Z.to_nat MBUF_DATA_LEN) with 2048%nat in L0.
  unfold udp_output. cbv zeta. st_run (lookup_mac_valid s a L W now _ r Ht Hr Hv). cbn [fst snd]. change (0 =? 0) with true. cbn [negb].
  destruct (put_field 6 (mbuf_data (te_data (nk_tx s)) p) 0 (ar_mac r)) as (d1 & E1 & L1 & W1); [lia|done|].
  destruct (udp_fill_ok C d1 id (len + 8)) as (d & E2 & L2 & W2 & Hh & Ho & Hk); [done|done|done|lia|unfold UDP_MAX_LEN, ETH_MTU in Hlen; lia|].
  exists d. set (s1 := s <| nk_tx ::= λ e, e <| te_data ::= <[p := d]> |> |>).
  assert (nk_data p (λ d, d ← put48 d 0 (ar_mac r); udp_fill C d id (len + 8)) s = Some (tt, s1)) as Ed.
  { unfold nk_data. rewrite E1. cbn [mbind option_bind]. by rewrite E2. }
  st_run Ed. st_run (nk_sto_run p MB_OL_FLAGS 0 s1 Hp). set (s2 := nk_set_mem _ s1). st_run (nk_sto_run p MB_LEN UDP_PKT_SIZE s2 Hp). set (s3 := nk_set_mem _ s2).
  rewrite (proj2 (Z.ltb_ge _ _)) by lia.
  set (t' := mk_eth_tx_queue (etx_cap t - (1 + nr)) (etx_bufs t ++ [p])).
  assert (nk_eth_send 0 p s3 = Some (0, s3 <| nk_txqs ::= <[0%nat := t']> |>)) as Es.
  { unfold nk_eth_send. change (nk_txqs s3) with (nk_txqs s). rewrite Hq. cbn [mbind option_bind]. unfold eth_send. rewrite ld_some by done. cbn [mbind option_bind].
    assert (rd (te_mem (nk_tx s3)) p MB_NR_IOV = nr) as ->.
    { unfold nr, nk_mem, s3, s2, s1, nk_set_mem, nk_mem. rsimpl. by rewrite !rd_insert_ne by (right; solve_off). }
    rewrite (proj2 (Z.ltb_ge _ _)) by lia. rewrite (proj2 (Z.ltb_lt _ _)) by lia. done. }
  st_run Es. change (0 =? 0) with true. cbn [negb]. split; [done|]. rewrite (Z.add_comm 8). split_and!; try done; [congruence| | |].
  - rewrite (le_get_ext 6 d1 d 0) by (intros i Hi; apply Hk; lia). by apply (get48_put48 _ _ _ _ E1).
  - rewrite Ho. apply (be16_put_ne _ _ _ _ _ _ E1). lia.
  - intros i Hi. rewrite Hk by lia. apply (le_put_lookup _ _ _ _ _ _ E1). lia.
Qed.

(** What [udp_send] of [len] bytes at [data] has done to get from [s] to [s']:
    packet [p] was taken from the pool and put on queue [t]. *)
Record udp_sent (s : netstack) (p : ptr) (F : list ptr) (t : eth_tx_queue) (id : ip_tuple) (mac data len cookie : Z) (s' : netstack) : Prop := {
  us_pool : pool_rep (nk_mem s') (te_mbufs (nk_tx s')) F;
  us_resp : te_resp (nk_tx s') = te_resp (nk_tx s);
  us_mem : same_outside [p] (nk_mem s) (nk_mem s');
  us_data : ∀ x, x ≠ p → te_data (nk_tx s') !! x = te_data (nk_tx s) !! x;
  us_wf : packets_wf (te_data (nk_tx s'));
  us_queue : nk_txqs s' = <[0%nat := mk_eth_tx_queue (etx_cap t - 2) (etx_bufs t ++ [p])]> (nk_txqs s);
  us_hdrs : udp_headers C id (8 + len) (mbuf_data (te_data (nk_tx s')) p);
  us_dhost : get48 (mbuf_data (te_data (nk_tx s')) p) 0 = Some mac;
  us_off : be16 (mbuf_data (te_data (nk_tx s')) p) 20 = be16 (mbuf_data (te_data (nk_tx s)) p) 20;
  us_len : rd (nk_mem s') p MB_LEN = UDP_PKT_SIZE;
  us_nr : rd (nk_mem s') p MB_NR_IOV = 1;
  us_iov : ∃ maddr, iov_at (nk_tx s') p 0 = Some (mk_mbuf_iov data maddr len);
  us_done : rd (nk_mem s') p MB_DONE = udp_mbuf_done_fn ∧ rd (nk_mem s') p MB_DONE_DATA = cookie;
  us_ctl : same_ctl s s' ∧ nk_arp s' = nk_arp s;
}.

(** Packet buffers and responses lie in the memory for pages. *)
Definition in_pages (x len : Z) : Prop := MEM_PHYS_BASE_ADDR ≤ x ∧ x + len ≤ MEM_USER_START.

Lemma iovs_offset p : in_pages p MBUF_LEN → mbuf_mtod_off p 48 - mbuf_mtod_off p 0 = 48.
Proof.
  intros [H1 H2]. unfold mbuf_mtod_off. assert (0 ≤ MEM_PHYS_BASE_ADDR) by done. assert (MEM_USER_START < U64_MOD) by done.
  unfold MBUF_LEN, MBUF_HEADER_LEN, MBUF_DATA_LEN in *. rewrite !u64_small by lia. lia.
Qed.

(** The packet before its headers are written. *)
Record udp_prepared (s : netstack) (p : ptr) (F : list ptr) (data len cookie : Z) (s' : netstack) : Prop := {
  up_pool : pool_rep (nk_mem s') (te_mbufs (nk_tx s')) F;
  up_resp : te_resp (nk_tx s') = te_resp (nk_tx s);
  up_mem : same_outside [p] (nk_mem s) (nk_mem s');
  up_data : ∀ x, x ≠ p → te_data (nk_tx s') !! x = te_data (nk_tx s) !! x;
  up_wf : packets_wf (te_data (nk_tx s'));
  up_queue : nk_txqs s' = nk_txqs s;
  up_bytes : ∀ i, (i < UDP_IOVS_OFF)%nat → mbuf_data (te_data (nk_tx s')) p !! i = mbuf_data (te_data (nk_tx s)) p !! i;
  up_nr : rd (nk_mem s') p MB_NR_IOV = 1;
  up_iovs : rd (nk_mem s') p MB_IOVS = mbuf_mtod_off p 48;
  up_iov : ∃ maddr, let d := mbuf_data (te_data (nk_tx s')) p in get64 d 48 = Some data ∧ get64 d 56 = Some maddr ∧ get64 d 64 = Some len;
  up_done : rd (nk_mem s') p MB_DONE = udp_mbuf_done_fn ∧ rd (nk_mem s') p MB_DONE_DATA = cookie;
  up_ctl : same_ctl s s' ∧ nk_arp s' = nk_arp s;
}.

Lemma udp_prepare_ok s now p F id data len cookie :
  pool_rep (nk_mem s) (te_mbufs (nk_tx s)) (p :: F) → packets_wf (te_data (nk_tx s)) → 0 < len ≤ UDP_MAX_LEN →
  in_pages data len → PGOFF_2MB data + len ≤ PGSIZE_2MB →
  ∃ s', udp_send C tw arp_tbl arp_timer_handler_fn fuel cpu eth_dev_count now data len id cookie s =
      (ret ← udp_output C tw arp_tbl arp_timer_handler_fn fuel eth_dev_count now p id len; if negb (ret =? 0) then nk_mbuf_free p;; mret ret else mret 0) s' ∧
    udp_prepared s p F data len cookie s' ∧ p ≠ NULL.
Proof.
  intros Hpool Hwf Hlen [Hd1 Hd2] Hoff. destruct (mbuf_alloc_ok _ _ _ _ Hpool) as (m1 & P1 & E1 & Hp1 & Hp0 & HpF & _ & Hs1).
  unfold udp_send. rewrite (proj2 (Z.ltb_ge UDP_MAX_LEN len)) by lia.
  set (s1 := s <| nk_tx ::= λ e, e <| te_mem := m1 |> <| te_mbufs := P1 |> |>).
  assert (nk_mbuf_alloc_local s = Some (p, s1)) as Ea by (unfold nk_mbuf_alloc_local; by rewrite E1).
  st_run Ea. rewrite (proj2 (Z.eqb_neq _ _) Hp0). st_run (nk_sto_run p MB_IOVS (mbuf_mtod_off p (Z.of_nat UDP_IOVS_OFF)) s1 Hp0). set (s2 := nk_set_mem _ s1).
  destruct (mbuf_iov_create_ok cpu (nk_tx s2) p UDP_IOVS_OFF data len) as (g & d3 & maddr & E3 & W3 & L3 & G1 & G2 & G3 & K3); [exact Hwf|unfold UDP_IOVS_OFF; lia|lia..|].
  set (s3 := s2 <| nk_tx := (nk_tx s2) <| te_data ::= <[p := d3]> |> <| te_pages := g |> |>).
  assert (nk_iov_create cpu p UDP_IOVS_OFF data len s2 = Some (len, s3)) as Ei by (unfold nk_iov_create; by rewrite E3).
  st_run Ei. st_run (nk_sto_run p MB_NR_IOV 1 s3 Hp0). set (s4 := nk_set_mem _ s3). rewrite Z.eqb_refl. cbn [negb].
  rewrite (st_run _ _ s4 tt s4) by done. cbv beta. st_run (nk_sto_run p MB_DONE udp_mbuf_done_fn s4 Hp0). set (s5 := nk_set_mem _ s4).
  st_run (nk_sto_run p MB_DONE_DATA cookie s5 Hp0). set (s6 := nk_set_mem _ s5). cbv zeta. rewrite udp_send_tail. exists s6. split; [done|]. split; [|done].
  assert (mbuf_data (te_data (nk_tx s6)) p = d3) as Ed6 by (unfold s6, s5, s4, s3, nk_set_mem; rsimpl; unfold mbuf_data; by rewrite lookup_insert_eq).
  assert (same_outside [p] m1 (nk_mem s6)) as Hs6.
  { unfold s6, s5, s4. rewrite !nk_mem_set.
    repeat (eapply same_outside_trans; [|apply same_outside_insert; by apply list_elem_of_singleton]). apply same_outside_refl. }
  split; try done.
  - eapply (pool_rep_frame [p]); [exact Hp1|exact Hs6|by intros x Hx ->%list_elem_of_singleton].
  - by eapply same_outside_trans.
  - intros x Hx. unfold s6, s5, s4, s3, nk_set_mem. rsimpl. by rewrite lookup_insert_ne.
  - unfold s6, s5, s4, s3, nk_set_mem. rsimpl. intros x y [[<- <-]|[_ Hy]]%lookup_insert_Some; [by split|by apply (Hwf x)].
  - intros i Hi. rewrite Ed6, K3 by lia. done.
  - unfold s6, s5, s4. rewrite !nk_mem_set. by rd_fields.
  - unfold s6, s5, s4. rewrite !nk_mem_set. rd_fields. change (nk_mem s3) with (nk_mem s2). unfold s2. by rewrite nk_mem_set, rd_insert_eq.
  - exists maddr. by rewrite Ed6.
  - unfold s6, s5. rewrite !nk_mem_set. split; rd_fields; done.
Qed.

Lemma udp_send_ok s a L W r now p F t id data len cookie :
  tbl (nk_mem s) (nk_arp s) (nk_now_us s) (nk_timer_pos s) a L W → mb_rep M (nk_tx s) (nk_txqs s) (p :: F) t → in_pages p MBUF_LEN →
  aa_tbl a !! it_dst_ip id = Some r → ar_valid r = true → 0 ≤ ar_mac r < 2 ^ 48 → tuple_ok id → 0 < len ≤ UDP_MAX_LEN →
  in_pages data len → PGOFF_2MB data + len ≤ PGSIZE_2MB → 2 ≤ etx_cap t →
  ∃ s', udp_send C tw arp_tbl arp_timer_handler_fn fuel cpu eth_dev_count now data len id cookie s = Some (0, s') ∧
    udp_sent s p F t id (ar_mac r) data len cookie s'.
Proof.
  intros Ht [Hpool Ha Hq Hok Hwf] Hpp Hr Hv Hm Hid Hlen Hd Hoff Hcap.
  assert (p ∈ M) as HpM by (rewrite <-Ha; apply elem_of_cons; by left).
  pose proof (sa_nodup _ _ _ Hpool) as [HpF _]%NoDup_cons.
  destruct (udp_prepare_ok s now p F id data len cookie Hpool Hwf Hlen Hd Hoff) as (s6 & E6 & [U1 U2 U3 U4 U5 U6 U7 U8 U9 (maddr & G1 & G2 & G3) U11 [U12 U13]] & Hp0).
  assert (tbl (nk_mem s6) (nk_arp s6) (nk_now_us s6) (nk_timer_pos s6) a L W) as Ht6.
  { destruct U12 as (-> & -> & _). rewrite U13. eapply (tbl_rep_frame tw arp_tbl base n arp_ip_to_idx arp_idx_range (nk_mem s)); [exact Ht|].
    intros x o Hx. apply U3. intros ->%list_elem_of_singleton. by apply (mbuf_not_area tw arp_tbl base n M p Hly HpM). }
  rewrite <-U6 in Hq.
  destruct (udp_output_ok s6 a L W r now p id len t Ht6 Hr Hv Hm U5 Hp0 Hid ltac:(lia) Hq Hok) as (d & Eo & Wd & Ld & Hh & Hmac & Ho & Kd); [lia|lia|].
  rewrite E6. st_run Eo. change (0 =? 0) with true. cbn [negb]. eexists. split; [done|]. set (s7 := nk_set_mem _ _).
  assert (mbuf_data (te_data (nk_tx s7)) p = d) as Ed7 by (unfold s7, nk_set_mem; rsimpl; unfold mbuf_data; by rewrite lookup_insert_eq).
  assert (same_outside [p] (nk_mem s6) (nk_mem s7)) as Hs7.
  { unfold s7. rewrite nk_mem_set. eapply same_outside_trans; apply same_outside_insert; by apply list_elem_of_singleton. }
  split; try (rewrite Ed7; done).
  - eapply (pool_rep_frame [p]); [exact U1|exact Hs7|by intros x Hx ->%list_elem_of_singleton].
  - exact U2.
  - by eapply same_outside_trans.
  - intros x Hx. unfold s7, nk_set_mem. rsimpl. by rewrite lookup_insert_ne, U4.
  - unfold s7, nk_set_mem. rsimpl. intros x y [[<- <-]|[_ Hy]]%lookup_insert_Some; [by split|by apply (U5 x)].
  - unfold s7, nk_set_mem. rsimpl. by rewrite U8, U6.
  - rewrite Ed7, Ho. unfold be16, byte_at. by rewrite !U7 by (unfold UDP_IOVS_OFF; lia).
  - unfold s7. by rewrite nk_mem_set, rd_insert_eq.
  - unfold s7. rewrite nk_mem_set. by rd_fields.
  - exists maddr. unfold iov_at. rewrite Ed7, ld_some by done. change (te_mem (nk_tx s7)) with (nk_mem s7). unfold s7 at 1. rewrite nk_mem_set. rd_fields. rewrite U9.
    cbn [mbind option_bind]. rewrite (iovs_offset p Hpp). change (48 + SIZEOF_MBUF_IOV * Z.of_nat 0) with 48. change (48 <? 0) with false. change (Z.to_nat 48) with 48%nat.
    rewrite !(le_get_ext 8 (mbuf_data (te_data (nk_tx s6)) p) d) by (intros i Hi; apply Kd; lia). cbn [Nat.add]. by rewrite G1, G2, G3.
  - unfold s7. rewrite !nk_mem_set. rd_fields. done.
  - split; [exact U12|exact U13].
Qed.

(** ** The request and the response *)

Lemma mtod_off_small p o : in_pages p MBUF_LEN → 0 ≤ o ≤ MBUF_DATA_LEN → mbuf_mtod_off p o = p + MBUF_HEADER_LEN + o ∧ 0 ≤ mbuf_mtod_off p o < U64_MOD.
Proof.
  intros [H1 H2] Ho. unfold mbuf_mtod_off. assert (0 ≤ MEM_PHYS_BASE_ADDR) by done. assert (MEM_USER_START < U64_MOD) by done.
  unfold MBUF_LEN, MBUF_HEADER_LEN, MBUF_DATA_LEN in *. rewrite u64_small by lia. lia.
Qed.

Lemma nk_field_run pkt k addr o v s : in_pages pkt MBUF_LEN → addr = pkt + MBUF_HEADER_LEN + Z.of_nat o →
  le_get k (mbuf_data (te_data (nk_tx s)) pkt) o = Some v → nk_field pkt k addr s = Some (v, s).
Proof.
  intros Hp -> E. unfold nk_field. destruct (mtod_off_small pkt 0 Hp) as [-> _]; [done|].
  replace (pkt + MBUF_HEADER_LEN + Z.of_nat o - (pkt + MBUF_HEADER_LEN + 0)) with (Z.of_nat o) by lia.
  rewrite (proj2 (Z.ltb_ge _ _)) by lia. by rewrite Nat2Z.id, E.
Qed.

(** The fields of a response, in the order of the structure. *)
Definition response_rep (m : heap) (resp runNs genNs recv send ncy dcy : Z) : Prop :=
  rd m resp RP_RUN_NS = runNs ∧ rd m resp RP_GEN_NS = genNs ∧ rd m resp RP_NETWORKER_RECV_NS = recv ∧
  rd m resp RP_SERVER_SEND_NS = send ∧ rd m resp RP_NETWORKER_CY = ncy ∧ rd m resp RP_DISPATCHER_CY = dcy.

(** What [generic_work] does before [udp_send]. *)
Lemma generic_work_run wfuel now tsc ncy dcy total pkt o recv s runNs genNs src dst sport dport resp FR :
  in_pages pkt MBUF_LEN → (o ≤ 2048)%nat → 0 ≤ recv < U64_MOD →
  let d := mbuf_data (te_data (nk_tx s)) pkt in
  get64 d o = Some runNs → get64 d (o + 8) = Some genNs → get32 d 0 = Some src → get32 d 4 = Some dst → get16 d 8 = Some sport → get16 d 10 = Some dport →
  0 ≤ runNs < 2 ^ 60 → 8 * runNs < Z.of_nat wfuel → pool_rep (nk_mem s) (te_resp (nk_tx s)) (resp :: FR) →
  let data := mbuf_mtod_off pkt (Z.of_nat o) in let id := mbuf_mtod_off pkt 0 in
  ∃ m P, generic_work C tw arp_tbl arp_timer_handler_fn fuel cpu eth_dev_count wfuel now tsc ncy dcy total pkt
      (msw data) (lsw data) (msw id) (lsw id) (msw recv) (lsw recv) s =
      (ret ← udp_send C tw arp_tbl arp_timer_handler_fn fuel cpu eth_dev_count now resp SIZEOF_RESPONSE (mk_ip_tuple dst src dport sport) resp;
       mret (if ret =? 0 then u64 (total + 1) else total)) (nk_set_mem m (s <| nk_tx ::= λ e, e <| te_resp := P |> |>)) ∧
    pool_rep m P FR ∧ same_outside [resp] (nk_mem s) m ∧ response_rep m resp runNs genNs recv tsc ncy dcy ∧ resp ≠ NULL.
Proof.
  intros Hpp Ho Hrecv d G1 G2 G3 G4 G5 G6 Hrun Hwf Hpool data id.
  destruct (mtod_off_small pkt (Z.of_nat o) Hpp) as [Ed Hd]; [unfold MBUF_DATA_LEN; lia|]. destruct (mtod_off_small pkt 0 Hpp) as [Ei Hi]; [done|]. fold data in Ed, Hd. fold id in Ei, Hi.
  unfold generic_work. rewrite !words_join by done. cbv zeta.
  st_run (nk_field_run pkt 8 data o runNs s Hpp Ed G1). destruct (work_loop_ends runNs wfuel Hrun Hwf) as (k & Ek & _).
  rewrite (st_run _ _ s k s) by (unfold st_lift; by rewrite Ek). cbv beta.
  destruct (sa_alloc_pop _ _ _ _ Hpool) as (P & EP & HP & Hr0). pose proof (sa_nodup _ _ _ Hpool) as [HrF _]%NoDup_cons.
  set (s1 := s <| nk_tx ::= λ e, e <| te_resp := P |> |>).
  assert (nk_resp_alloc s = Some (resp, s1)) as Ea by (unfold nk_resp_alloc; by rewrite EP).
  st_run Ea. rewrite (proj2 (Z.eqb_neq _ _) Hr0). st_run (nk_field_run pkt 8 (data + 8) (o + 8) genNs s1 Hpp ltac:(lia) G2).
  st_run (nk_sto_run resp RP_GEN_NS genNs s1 Hr0). set (s2 := nk_set_mem _ s1). st_run (nk_field_run pkt 8 data o runNs s2 Hpp Ed G1).
  st_run (nk_sto_run resp RP_RUN_NS runNs s2 Hr0). set (s3 := nk_set_mem _ s2). st_run (nk_sto_run resp RP_NETWORKER_RECV_NS recv s3 Hr0). set (s4 := nk_set_mem _ s3).
  st_run (nk_sto_run resp RP_NETWORKER_CY ncy s4 Hr0). set (s5 := nk_set_mem _ s4). st_run (nk_sto_run resp RP_DISPATCHER_CY dcy s5 Hr0). set (s6 := nk_set_mem _ s5).
  st_run (nk_sto_run resp RP_SERVER_SEND_NS tsc s6 Hr0). set (s7 := nk_set_mem _ s6).
  st_run (nk_field_run pkt 4 (id + 4) 4 dst s7 Hpp ltac:(lia) G4). st_run (nk_field_run pkt 4 id 0 src s7 Hpp ltac:(lia) G3).
  st_run (nk_field_run pkt 2 (id + 10) 10 dport s7 Hpp ltac:(lia) G6). st_run (nk_field_run pkt 2 (id + 8) 8 sport s7 Hpp ltac:(lia) G5).
  assert (same_outside [resp] (nk_mem s) (nk_mem s7)) as Hs7.
  { unfold s7, s6, s5, s4, s3, s2. rewrite !nk_mem_set.
    repeat (eapply same_outside_trans; [|apply same_outside_insert; by apply list_elem_of_singleton]). apply same_outside_refl. }
  exists (nk_mem s7), P. split; [done|]. split; [|split; [done|split; [|done]]].
  - eapply (pool_rep_frame [resp]); [exact HP|exact Hs7|by intros x Hx ->%list_elem_of_singleton].
  - unfold response_rep, s7, s6, s5, s4, s3, s2. rewrite !nk_mem_set. split_and!; rd_fields; done.
Qed.

(** A sent packet is one the transmit queue can send and complete. *)
Lemma in_pages_ok x len : in_pages x len → 0 < len → page_ok x = true.
Proof.
  intros [H1 H2] Hl. pose proof (PAGE_NUM_range x) as Hr. unfold page_ok. rewrite (proj2 (Z.leb_le _ _)), (proj2 (Z.ltb_lt _ _)) by lia. done.
Qed.

Lemma udp_sent_pkt_ok s p F t id mac data len cookie s' :
  udp_sent s p F t id mac data len cookie s' → p ≠ NULL → in_pages p MBUF_LEN → in_pages data len → 0 < len → cookie ≠ NULL →
  pkt_ok (nk_tx s') p ∧ resp_of (nk_tx s') p = [cookie].
Proof.
  intros [_ _ _ _ _ _ _ _ _ _ Hn (maddr & Hi) [Hd1 Hd2] _] Hp Hpp Hd Hl Hc. unfold nk_mem in *. split.
  - split; [done|lia| | |right; split; congruence].
    + exists [mk_mbuf_iov data maddr len]. rewrite Hn. change (seq 0 (Z.to_nat 1)) with [0%nat]. cbn [mapM]. rewrite Hi. split; [done|].
      apply Forall_singleton. by apply (in_pages_ok data len).
    + destruct (mtod_off_small p 0 Hpp) as [Ep _]; [done|]. rewrite Ep. unfold page_machaddr. destruct Hpp as [H1 H2]. rewrite addr_to_page_ent_ok; [by eexists|].
      unfold MBUF_LEN, MBUF_HEADER_LEN, MBUF_DATA_LEN in *. lia.
  - unfold resp_of. rewrite Hd1, Hd2. done.
Qed.

(** The state after [parse_packet]. *)
Definition nk_parsed (pkt : ptr) (m : heap) (d : bytes) (s : netstack) : netstack :=
  s <| nk_tx ::= λ e, e <| te_mem := m |> <| te_data ::= <[pkt := d]> |> |>.

(** A core that has a request in [pkt], a free packet buffer [p], a free response
    [resp] and room in its queue [t]. *)
Record can_serve (s : netstack) (a : arp_abs) (pkt p : ptr) (F : list ptr) (t : eth_tx_queue) (resp : ptr) (FR : list ptr) : Prop := {
  cs_tbl : ∃ L W, tbl (nk_mem s) (nk_arp s) (nk_now_us s) (nk_timer_pos s) a L W;
  cs_mb : mb_rep M (nk_tx s) (nk_txqs s) (p :: F) t;
  cs_resp : pool_rep (nk_mem s) (te_resp (nk_tx s)) (resp :: FR);
  cs_room : 2 ≤ etx_cap t;
  cs_pages : in_pages pkt MBUF_LEN ∧ in_pages p MBUF_LEN ∧ in_pages resp SIZEOF_RESPONSE ∧ PGOFF_2MB resp + SIZEOF_RESPONSE ≤ PGSIZE_2MB;
  cs_pkt : pkt ∉ M ∧ ¬ area pkt ∧ pkt ∉ resp :: FR;
  cs_apart : ∀ x, x ∈ resp :: FR → x ∉ M ∧ ¬ area x;
  cs_recv : 0 ≤ rd (nk_mem s) pkt MB_TIMESTAMP < U64_MOD;
}.

(** The frames that use the packet and the response leave the rest alone. *)
Lemma serve_frame s a pkt p F t resp FR m1 d1 m P :
  can_serve s a pkt p F t resp FR → same_outside [pkt] (nk_mem s) m1 → same_outside [resp] m1 m → pool_rep m P FR → bytes_wf d1 → length d1 = 2048%nat →
  let s2 := nk_set_mem m ((nk_parsed pkt m1 d1 s) <| nk_tx ::= λ e, e <| te_resp := P |> |>) in
  (∃ L W, tbl (nk_mem s2) (nk_arp s2) (nk_now_us s2) (nk_timer_pos s2) a L W) ∧ mb_rep M (nk_tx s2) (nk_txqs s2) (p :: F) t ∧
  mbuf_data (te_data (nk_tx s2)) p = mbuf_data (te_data (nk_tx s)) p.
Proof.
  intros [(L & W & Ht) [Hpool Ha Hq Hok Hwf] _ _ _ (Hk1 & Hk2 & Hk3) Hap _] Hm1 Hm HP Wd Ld s2.
  assert (same_outside [pkt; resp] (nk_mem s) m) as Hs.
  { eapply same_outside_trans; eapply same_outside_weaken; [exact Hm1|set_solver|exact Hm|set_solver]. }
  destruct (Hap resp ltac:(apply elem_of_cons; by left)) as [Hr1 Hr2].
  assert (∀ x, x ∈ p :: F → x ∈ M) as HFM by (intros x Hx; rewrite <-Ha; apply elem_of_app; by left).
  split; [|split].
  - exists L, W. eapply (tbl_rep_frame tw arp_tbl base n arp_ip_to_idx arp_idx_range (nk_mem s)); [exact Ht|]. intros x o Hx. apply Hs.
    rewrite elem_of_cons, list_elem_of_singleton. by intros [->| ->].
  - split; [|done|done|done|].
    + eapply (pool_rep_frame [pkt; resp]); [exact Hpool|exact Hs|]. intros x Hx%HFM. rewrite elem_of_cons, list_elem_of_singleton. by intros [->| ->].
    + unfold s2, nk_parsed, nk_set_mem. rsimpl. intros x y [[<- <-]|[_ Hy]]%lookup_insert_Some; [by split|by apply (Hwf x)].
  - unfold s2, nk_parsed, nk_set_mem. rsimpl. unfold mbuf_data. rewrite lookup_insert_ne; [done|]. intros ->. apply Hk1, HFM, elem_of_cons. by left.
Qed.

Lemma response_bytes_length m resp : length (response_bytes m resp) = 48%nat.
Proof. done. Qed.

(** ** Theorems *)


(** C38: [ip_setup_header] leaves the fragment field as it was.  In a buffer that last
    held an ARP packet that field is the ARP operation, so the datagram [udp_send]
    builds there is sent, with a valid checksum, as a fragment: no receiver
    delivers it. *)
Theorem arp_buffer_spoils_reply s a r now p F t id data len cookie d op ip mac :
  stack_rep tw arp_tbl base n M s a → mb_rep M (nk_tx s) (nk_txqs s) (p :: F) t → in_pages p MBUF_LEN →
  bytes_wf d → length d = 2048%nat → op = ARP_OP_REQUEST ∨ op = ARP_OP_REPLY → 0 ≤ ip < 2 ^ 32 → 0 ≤ mac < 2 ^ 48 →
  arp_fill C d op ip mac = Some (mbuf_data (te_data (nk_tx s)) p) →
  aa_tbl a !! it_dst_ip id = Some r → ar_valid r = true → 0 ≤ ar_mac r < 2 ^ 48 → tuple_ok id → 0 < len ≤ UDP_MAX_LEN →
  in_pages data len → PGOFF_2MB data + len ≤ PGSIZE_2MB → 2 ≤ etx_cap t →
  ∃ s' t', udp_send C tw arp_tbl arp_timer_handler_fn fuel cpu eth_dev_count now data len id cookie s = Some (0, s') ∧
    nk_txqs s' !! 0%nat = Some t' ∧ etx_bufs t' = etx_bufs t ++ [p] ∧
    udp_headers C id (8 + len) (mbuf_data (te_data (nk_tx s')) p) ∧
    ∀ cfg payload, Z.of_nat (length payload) = len → eth_verdict cfg (42 + len) (wire (mbuf_data (te_data (nk_tx s')) p) payload) = Drop.
Proof.
  intros ((L & W & Ht) & _) Hmb Hpp Wd Ld Hop Hip Hmac Ef Hr Hv Hm Hid Hlen Hd Hoff Hcap.
  destruct (udp_send_ok s a L W r now p F t id data len cookie) as (s' & E & [_ _ _ _ V5 V6 V7 _ V9 _ _ _ _ _]); try done.
  destruct (arp_fill_ok C d op ip mac) as (d' & Ef' & _ & _ & Hf); try done; [destruct Hop as [->| ->]; done|lia|]. rewrite Ef in Ef'. injection Ef' as <-.
  eexists s', _. split; [done|]. split; [rewrite V6; apply list_lookup_insert_eq; apply (lookup_lt_Some _ _ t), (mb_q _ _ _ _ _ Hmb)|]. split; [done|]. split; [done|].
  intros cfg payload Hp. destruct (mbuf_data_wf _ p V5) as [_ L3]. rewrite <-Hp in *. erewrite (udp_headers_verdict C id); [|exact V7|rewrite L3; vm_compute; lia].
  rewrite V9, (af_op _ _ _ _ _ _ _ _ Hf). by destruct Hop as [->| ->].
Qed.
End reply.

(** ** Example *)

(** A request of 192.0.2.2, port 8080, for port 5001, with [runNs] 3 and [genNs] 9. *)
Definition ex_request : bytes :=
  replicate 12 0 ++ [8; 0] ++
  [0x45; 0; 0; 44; 0; 0; 0x40; 0; 64; 17; 0; 0; 192; 0; 2; 2; 192; 0; 2; 1] ++
  [0x1f; 0x90; 0x13; 0x89; 0; 24; 0; 0] ++ [3; 0; 0; 0; 0; 0; 0; 0] ++ [9; 0; 0; 0; 0; 0; 0; 0] ++ replicate 1990 0.

Definition ex_req_pkt : ptr := 0x4000020000.
Definition ex_reply_pkts : list ptr := [0x4000001000; 0x4000002000].
Definition ex_resp_ptr : ptr := 0x4000010000.
Definition ex_pair_pool (a b size : Z) : pool :=
  (mk_mempool_datastore MEMPOOL_MAGIC a a 1 2 size 1 2 1 1 0 0 0, mk_mempool 0 0 size MEMPOOL_MAGIC a 0 0 2 1 2 0 0).
Definition ex_server_cfg : net_cfg := ex_host 0x02AABBCCDDEE 0xC0000201.
Definition ex_server_heap : heap :=
  <[(0x4000001000, HDR_NEXT) := 0x4000002000]> (<[(ex_resp_ptr, HDR_NEXT) := 0x4000010040]> (<[(1000000, HDR_NEXT) := 1000080]>
    (<[(ex_req_pkt, MB_LEN) := 58]> (<[(ex_req_pkt, MB_TIMESTAMP) := 12345]> ∅)))).
Definition ex_server_boot (data : packets) : netstack :=
  mk_netstack (mk_tx_env ex_server_heap (ex_pair_pool 0x4000001000 0x4000002000 2112) (ex_pair_pool ex_resp_ptr 0x4000010040 64) pages_zero data)
    [mk_eth_tx_queue 16 []] ex_arp_pool ex_pool 1000 1008 false false false [].

(** The server after the client's address was entered. *)
Definition ex_server_ops : list arp_op := [AInsert 0xC0000202 0x021122334455].
Definition ex_server (data : packets) : netstack :=
  match arp_steps ex_server_cfg 2000000 3000000 77 4 2 ex_server_ops (ex_server_boot data) with Some (_, s) => s | None => ex_server_boot data end.

Lemma ex_server_layout : arp_layout 2000000 3000000 1000000 2 ex_reply_pkts.
Proof.
  split; [done|unfold NB; lia|unfold ARP_MAX_ENTRIES; lia|unfold NB, ARP_MAX_ENTRIES; lia|].
  intros x Hx. unfold ex_reply_pkts in Hx. rewrite elem_of_cons, list_elem_of_singleton in Hx. unfold NB, ARP_MAX_ENTRIES. lia.
Qed.

Lemma ex_server_mb data : packets_wf data → mb_rep ex_reply_pkts (nk_tx (ex_server_boot data)) (nk_txqs (ex_server_boot data)) ex_reply_pkts (mk_eth_tx_queue 16 []).
Proof.
  intros Hwf. split; [|done|done|done|exact Hwf]. exists [], [], [ex_reply_pkts]. split; [|done]. split; try done; simpl; apply (bool_decide_unpack _); by vm_compute.
Qed.

Lemma ex_server_boot_rep data : packets_wf data →
  stack_rep 2000000 3000000 1000000 2 ex_reply_pkts (ex_server_boot data) (mk_arp_abs ∅ ∅ [1000000; 1000080]).
Proof.
  intros Hwf. eapply (stack_rep_empty _ _ _ _ _ _ _ ex_reply_pkts (mk_eth_tx_queue 16 [])); [exact ex_server_layout|..|by apply ex_server_mb|done].
  - exists [], [], [[1000000; 1000080]]. split; [|done]. split; try done; simpl; apply (bool_decide_unpack _); by vm_compute.
  - intros e He. rewrite elem_of_cons, list_elem_of_singleton in He. destruct He as [->| ->]; [exists 0|exists 1]; lia.
  - intros x o Hx Hn. rewrite elem_of_cons, list_elem_of_singleton in Hn. unfold arp_area, NB, ARP_MAX_ENTRIES in Hx. unfold ex_server_boot, nk_mem, ex_server_heap, ex_resp_ptr, ex_req_pkt. cbn [nk_tx te_mem].
    by rewrite !rd_insert_ne by (left; lia).
Qed.

Lemma ex_server_rep data : packets_wf data →
  stack_rep 2000000 3000000 1000000 2 ex_reply_pkts (ex_server data) (spec_steps ex_server_ops (mk_arp_abs ∅ ∅ [1000000; 1000080])).2.
Proof.
  intros Hwf. destruct (arp_steps_ok ex_server_cfg 2000000 3000000 77 1000000 2 4 2 ex_reply_pkts) with
    (ops := ex_server_ops) (s := ex_server_boot data) (a := mk_arp_abs ∅ ∅ [1000000; 1000080]) as (s' & E & Hs & _).
  - apply ex_server_layout.
  - split; cbn; lia.
  - done.
  - by apply ex_server_boot_rep.
  - done.
  - intros ip r Hr. done.
  - cbn. lia.
  - unfold ex_server. by rewrite E.
Qed.

Definition ex_server_mem : heap := nk_mem (ex_server ∅).
Lemma ex_server_eq data : ex_server data = (nk_set_mem ex_server_mem (ex_server_boot data)) <| nk_arp := nk_arp (ex_server ∅) |>.
Proof. vm_compute. reflexivity. Qed.

Lemma ex_server_pools : pool_rep ex_server_mem (te_mbufs (nk_tx (ex_server_boot ∅))) ex_reply_pkts ∧
  pool_rep ex_server_mem (te_resp (nk_tx (ex_server_boot ∅))) [ex_resp_ptr; 0x4000010040].
Proof.
  split; [exists [], [], [ex_reply_pkts]|exists [], [], [[ex_resp_ptr; 0x4000010040]]]; (split; [|done]); split; try done; simpl; apply (bool_decide_unpack _); by vm_compute.
Qed.

Lemma ex_in_pages x len : (MEM_PHYS_BASE_ADDR <=? x) && (x + len <=? MEM_USER_START) = true → in_pages x len.
Proof. intros [?%Z.leb_le ?%Z.leb_le]%andb_true_iff. done. Qed.

Definition ex_request_data : packets := {[ ex_req_pkt := ex_request ]}.

Lemma ex_request_wf : packets_wf ex_request_data.
Proof.
  unfold ex_request_data. intros x y [<- <-]%lookup_singleton_Some. split; [|done]. unfold bytes_wf. apply (bool_decide_unpack _). by vm_compute.
Qed.

Lemma ex_can_serve :
  can_serve 2000000 3000000 1000000 2 ex_reply_pkts (ex_server ex_request_data) (spec_steps ex_server_ops (mk_arp_abs ∅ ∅ [1000000; 1000080])).2
    ex_req_pkt 0x4000001000 [0x4000002000] (mk_eth_tx_queue 16 []) ex_resp_ptr [0x4000010040].
Proof.
  pose proof (ex_server_rep _ ex_request_wf) as [Ht _]. destruct ex_server_pools as [Hp1 Hp2].
  split; [exact Ht| | |done|..].
  - rewrite ex_server_eq. split; [exact Hp1|done|done|done|exact ex_request_wf].
  - rewrite ex_server_eq. exact Hp2.
  - split_and!; [by apply ex_in_pages..|]. by vm_compute.
  - unfold ex_reply_pkts, arp_area, ex_req_pkt, ex_resp_ptr, NB, ARP_MAX_ENTRIES. rewrite !elem_of_cons, !elem_of_nil. lia.
  - intros x. unfold ex_reply_pkts, arp_area, ex_resp_ptr, NB, ARP_MAX_ENTRIES. rewrite !elem_of_cons, !elem_of_nil. lia.
  - rewrite ex_server_eq. by vm_compute.
Qed.


(** The server whose first free buffer held a request for the client's address. *)
Definition ex_arp_packet : bytes := default [] (arp_fill ex_server_cfg (replicate 2048 0) ARP_OP_REQUEST 0xC0000202 ETH_ADDR_BROADCAST).
Definition ex_stale_data : packets := {[ 0x4000001000 := ex_arp_packet ]}.

Lemma arp_buffer_spoils_reply_witness :
  ∃ s', udp_send ex_server_cfg 2000000 3000000 77 2 0 1 1020 ex_resp_ptr 48 (mk_ip_tuple 0xC0000201 0xC0000202 5001 8080) ex_resp_ptr (ex_server ex_stale_data) = Some (0, s') ∧
    eth_verdict (mk_cfg_params 1 [] [] [8080]) 90 (wire (mbuf_data (te_data (nk_tx s')) 0x4000001000) (response_bytes (nk_mem s') ex_resp_ptr)) = Drop.
Proof.
  assert (packets_wf ex_stale_data) as Hwf.
  { unfold ex_stale_data. intros x y [<- <-]%lookup_singleton_Some. split; [|by vm_compute]. unfold bytes_wf. apply (bool_decide_unpack _). by vm_compute. }
  assert (mb_rep ex_reply_pkts (nk_tx (ex_server ex_stale_data)) (nk_txqs (ex_server ex_stale_data)) ex_reply_pkts (mk_eth_tx_queue 16 [])) as Hmb.
  { rewrite ex_server_eq. destruct ex_server_pools as [Hp1 _]. split; [exact Hp1|done|done|done|exact Hwf]. }
  destruct (arp_buffer_spoils_reply ex_server_cfg 2000000 3000000 77 1000000 2 2 0 1 ex_reply_pkts ex_server_layout ltac:(split; cbn; lia) ltac:(done) ltac:(done)
    (ex_server ex_stale_data) _ (mk_arp_rec 1000000 0x021122334455 6 0) 1020 0x4000001000 [0x4000002000] (mk_eth_tx_queue 16 [])
    (mk_ip_tuple 0xC0000201 0xC0000202 5001 8080) ex_resp_ptr 48 ex_resp_ptr (replicate 2048 0) ARP_OP_REQUEST 0xC0000202 ETH_ADDR_BROADCAST
    (ex_server_rep _ Hwf) Hmb) as (s' & t' & E & _ & _ & _ & Hd); [by apply ex_in_pages|apply Forall_replicate; lia|by vm_compute|by left|done|done|by vm_compute..
    |by vm_compute|done|done|by split_and!; cbn|done|by apply ex_in_pages|by vm_compute|done|].
  exists s'. split; [exact E|]. by apply (Hd (mk_cfg_params 1 [] [] [8080])).
Defined.
