(* ===== verification/Networker.v ===== *)
(** * The networker core (dp/core/networker.c)

    The networker receives a batch of packets and hands it to the dispatcher
    through its mailbox, once the dispatcher has emptied the mailbox; it first
    frees the buffers the dispatcher put there. *)

From S2P Require Import Prelude Stddef Heap Mempool Mbuf Dispatch Dispatcher.
Local Open Scope Z_scope.

(** The shared state and the networker's own pool of packet buffers. *)
Record net_st := mk_net_st { n_world : world; n_mbufs : pool }.

#[export] Instance eta_net_st : Settable net_st := λ s, mk_net_st (n_world s) (n_mbufs s).

Definition net_ptrs (s : net_st) : networker_pointers_t := w_net (n_world s).

Definition set_net (f : networker_pointers_t → networker_pointers_t) : ST net_st unit :=
  st_mod (λ s, s <| n_world ::= λ w, w <| w_net ::= f |> |>).

(** [mbuf_free(networker_pointers.pkts[i])] *)
Definition free_returned (i : nat) : ST net_st unit :=
  λ s, pkt ← np_pkts (net_ptrs s) !! i;
       '(m, P) ← mbuf_free (w_mem (n_world s)) (n_mbufs s) pkt;
       Some (tt, s <| n_world ::= λ w, w <| w_mem := m |> |> <| n_mbufs := P |>).

(** The body of the loop that publishes packet [i] of the batch. *)
Definition post_packet (recv : list (ptr * Z)) (networker_cy : Z) (i : nat) : ST net_st unit :=
  λ s, '(mb, type) ← recv !! i;
       m ← sto (w_mem (n_world s)) mb MB_NETWORKER_CY networker_cy;
       pkts ← arr_set (np_pkts (net_ptrs s)) i mb;
       types ← arr_set (np_types (net_ptrs s)) i (u8 type);
       Some (tt, s <| n_world ::= λ w, w <| w_mem := m |>
                                         <| w_net ::= λ n, n <| np_pkts := pkts |> <| np_types := types |> |> |>).

(** One turn of [do_networking] with the received batch [recv], after the loop
    that waits for [networker_pointers.cnt] to become 0. *)
Definition networker_turn (recv : list (ptr * Z)) (networker_cy : Z) : ST net_st unit :=
  if (length recv =? 0)%nat then mret () else
  s ← st_get;
  st_for (Z.to_nat (np_free_cnt (net_ptrs s))) 0 free_returned;;
  set_net (λ n, n <| np_free_cnt := 0 |>);;
  st_for (length recv) 0 (post_packet recv networker_cy);;
  set_net (λ n, n <| np_cnt := u8 (Z.of_nat (length recv)) |>).

(** ** Effects *)

(** Freeing the returned buffers pushes them on the pool of free buffers. *)
Lemma free_returned_ok s n F :
  pool_rep (w_mem (n_world s)) (n_mbufs s) F → (n ≤ length (np_pkts (net_ptrs s)))%nat →
  NoDup (take n (np_pkts (net_ptrs s)) ++ F) → 0 ∉ take n (np_pkts (net_ptrs s)) →
  ∃ m P F', st_for n 0 free_returned s =
      Some (tt, s <| n_world ::= λ w, w <| w_mem := m |> |> <| n_mbufs := P |>) ∧
    pool_rep m P F' ∧ F' ≡ₚ take n (np_pkts (net_ptrs s)) ++ F ∧
    same_outside (take n (np_pkts (net_ptrs s)) ++ F) (w_mem (n_world s)) m.
Proof.
  intros HF Hn Hnd Hnull. set (pk := np_pkts (net_ptrs s)) in *.
  destruct (st_for_inv (λ i s', ∃ m P F',
      s' = s <| n_world ::= λ w, w <| w_mem := m |> |> <| n_mbufs := P |> ∧
      pool_rep m P F' ∧ F' ≡ₚ take i pk ++ F ∧ same_outside (take n pk ++ F) (w_mem (n_world s)) m)
    free_returned n 0 s) as (s' & E & m & P & F' & -> & ?).
  - exists (w_mem (n_world s)), (n_mbufs s), F. split_and!; try done. by destruct s as [[] ?].
  - intros i s1 Hi (m & P & F' & -> & HF' & HP & Hs). simpl in Hi.
    destruct (lookup_lt_is_Some_2 pk i) as [x Hx]; [lia|].
    assert (take (S i) pk = take i pk ++ [x]) as Et by (by apply take_S_r).
    assert (x ∈ take n pk) as Hxn.
    { apply list_elem_of_lookup. exists i. by rewrite lookup_take_lt by lia. }
    assert (x ∉ F') as HxF.
    { rewrite HP, elem_of_app. apply NoDup_app in Hnd as (Hnd & Hd & _). intros [Hin|Hin]; [|by apply (Hd x)].
      assert (NoDup (take (S i) pk)) as Hnd2.
      { eapply sublist_NoDup; [exact Hnd|]. replace (S i) with (S i `min` n)%nat by lia.
        rewrite <-take_take. apply sublist_take. }
      rewrite Et in Hnd2. apply NoDup_app in Hnd2 as (_ & Hd2 & _). apply (Hd2 x Hin). set_solver. }
    destruct (sa_free_push m P x F' HF') as (m2 & P2 & E2 & HF2 & Hrd); [by intros ->|done|].
    eexists. split.
    { unfold free_returned. change (np_pkts (net_ptrs _)) with pk. rewrite Hx. simpl.
      unfold mbuf_free. rsimpl. rewrite E2. simpl. reflexivity. }
    exists m2, P2, (x :: F'). rewrite Nat.add_1_r, Et. split_and!.
    + by destruct s as [[] ?].
    + done.
    + rewrite HP. solve_Permutation.
    + eapply same_outside_trans; [exact Hs|]. intros y off Hy. apply Hrd.
      intros [[-> _]|[Hin _]]; [set_solver|]. rewrite HP in Hin. apply Hy.
      apply elem_of_app in Hin as [Hin|Hin]; [|set_solver].
      apply elem_of_app. left. apply list_elem_of_lookup in Hin as [a Ha].
      apply lookup_take_Some in Ha as [Ha ?]. apply list_elem_of_lookup. exists a.
      apply lookup_take_Some. split; [done|lia].
  - exists m, P, F'. split; [exact E|]. done.
Qed.

Lemma insert_boundary {A} (l k : list A) i x :
  k !! i = Some x → (i < length l)%nat →
  <[i := x]> (take i k ++ drop i l) = take (S i) k ++ drop (S i) l.
Proof.
  intros Hx Hi. assert (length (take i k) = i) as Hl.
  { apply lookup_lt_Some in Hx. rewrite length_take. lia. }
  destruct (lookup_lt_is_Some_2 l i Hi) as [y Hy]. rewrite (drop_S _ _ _ Hy), (take_S_r _ _ _ Hx).
  rewrite insert_app_r_alt by lia. rewrite Hl, Nat.sub_diag. simpl. by rewrite <-app_assoc.
Qed.

(** Publishing the batch fills the first slots of the mailbox. *)
Lemma post_packets_ok s recv cy :
  let n := net_ptrs s in
  (length recv ≤ length (np_pkts n))%nat → (length recv ≤ length (np_types n))%nat → 0 ∉ recv.*1 →
  ∃ m, st_for (length recv) 0 (post_packet recv cy) s =
      Some (tt, s <| n_world ::= λ w, w <| w_mem := m |>
                   <| w_net := n <| np_pkts := recv.*1 ++ drop (length recv) (np_pkts n) |>
                                 <| np_types := (u8 <$> recv.*2) ++ drop (length recv) (np_types n) |> |> |>) ∧
    same_outside recv.*1 (w_mem (n_world s)) m ∧
    (∀ p off, off ≠ MB_NETWORKER_CY → rd m p off = rd (w_mem (n_world s)) p off).
Proof.
  intros n Hp Ht Hnull.
  destruct (st_for_inv (λ i s', ∃ m, s' = s <| n_world ::= λ w, w <| w_mem := m |>
        <| w_net := n <| np_pkts := take i recv.*1 ++ drop i (np_pkts n) |>
                      <| np_types := take i (u8 <$> recv.*2) ++ drop i (np_types n) |> |> |> ∧
      same_outside recv.*1 (w_mem (n_world s)) m ∧
      (∀ p off, off ≠ MB_NETWORKER_CY → rd m p off = rd (w_mem (n_world s)) p off)) (post_packet recv cy) (length recv) 0 s)
    as (s' & E & m & -> & Hs & Hoff).
  - exists (w_mem (n_world s)). split; [|by split]. subst n. by destruct s as [[? ? ? ? ? ? ? ? ? [] ? ? ?] ?].
  - intros i s1 Hi (m & -> & Hs & Hoff). simpl in Hi.
    destruct (lookup_lt_is_Some_2 recv i) as [[mb ty] Hr]; [lia|].
    assert (recv.*1 !! i = Some mb) as H1 by (by rewrite list_lookup_fmap, Hr).
    assert ((u8 <$> recv.*2) !! i = Some (u8 ty)) as H2 by (by rewrite !list_lookup_fmap, Hr).
    assert (mb ≠ NULL) as Hmb. { intros ->. apply Hnull. by eapply list_elem_of_lookup_2. }
    eexists. split.
    { unfold post_packet. rewrite Hr. simpl. rsimpl. rewrite sto_some by done. simpl.
      unfold arr_set. unfold net_ptrs. rsimpl.
      rewrite !decide_True by (rewrite length_app, length_take, length_drop, ?length_fmap; lia). simpl. reflexivity. }
    exists (<[(mb, MB_NETWORKER_CY) := cy]> m). split_and!.
    + rewrite Nat.add_1_r, <-(insert_boundary (np_pkts n) recv.*1 i mb) by (done || lia).
      rewrite <-(insert_boundary (np_types n) (u8 <$> recv.*2) i (u8 ty)) by (done || lia).
      by destruct s as [[] ?].
    + eapply same_outside_trans; [exact Hs|]. apply same_outside_insert. by eapply list_elem_of_lookup_2.
    + intros p off Hne. rewrite rd_insert_ne by (right; done). by apply Hoff.
  - exists m. split; [|done]. rewrite E. simpl. rewrite !take_ge by (rewrite ?length_fmap; lia). done.
Qed.
