(* ===== verification/System.v ===== *)
(** * The dispatcher and its mailboxes

    The cores share the mailboxes and the store.  The invariant [inv] says that
    every context and every packet buffer that the networker handed over is in
    exactly one place - a queue, a worker, the stack of returned buffers, the
    networker's mailbox - and that the pools are large enough for what is in
    flight.  Every handler of the dispatcher keeps it. *)

From S2P Require Import Prelude Stddef Heap Mempool Float Bytes Mbuf Dispatch Context Dispatcher.
Local Open Scope Z_scope.

(** ** Who holds what *)

(** The context and the buffer a worker has, by the state of its mailboxes: the
    dispatcher handed them over, or the worker offers them back. *)
Definition holds (r : worker_response) (q : dispatcher_request) : option (ptr * ptr) :=
  if wr_flag r =? RUNNING then
    if dr_flag q =? ACTIVE then Some (dr_rnbl q, dr_mbuf q) else None
  else if (wr_flag r =? FINISHED) || (wr_flag r =? PREEMPTED) then Some (wr_rnbl r, wr_mbuf r)
  else None.

Definition slots (w : world) : list (option (ptr * ptr)) := zip_with holds (w_resp w) (w_req w).
Definition held (w : world) : list (ptr * ptr) := concat (option_list <$> slots w).

Definition queued (g : ghost) : list task := concat ((λ l, l.*2) <$> g_queues g).

(** The contexts in use and the buffers between networker and networker. *)
Definition ctxs (w : world) (g : ghost) : list ptr := (t_runnable <$> queued g) ++ (held w).*1.
Definition bufs (w : world) (g : ghost) : list ptr :=
  (t_mbuf <$> queued g) ++ (held w).*2 ++ (g_mq g).*2.

(** The buffers in the networker's mailbox: packets for the dispatcher while
    [cnt] is not 0, buffers on their way back otherwise. *)
Definition inflight (w : world) : list ptr :=
  let n := w_net w in
  take (Z.to_nat (if np_cnt n =? 0 then np_free_cnt n else np_cnt n)) (np_pkts n).

(** A task is for a configured port, and a new packet satisfies [G]. *)
Definition task_ok (G : ptr → Prop) (np : nat) (t : task) : Prop :=
  0 ≤ t_type t < Z.of_nat np ∧ (t_category t = PACKET → G (t_mbuf t)).

(** The mailboxes of a worker: an unanswered request is marked [ACTIVE] only
    while the response says [RUNNING], port numbers are in range, a new packet
    satisfies [G], and what was preempted is no new packet. *)
Definition mail_ok (G : ptr → Prop) (np : nat) (r : worker_response) (q : dispatcher_request) : Prop :=
  (wr_flag r = RUNNING ∨ wr_flag r = FINISHED ∨ wr_flag r = PREEMPTED ∨ wr_flag r = PROCESSED) ∧
  (dr_flag q = WAITING ∨ dr_flag q = ACTIVE) ∧
  (dr_flag q = ACTIVE → wr_flag r = RUNNING ∧ 0 ≤ dr_type q < Z.of_nat np ∧ (dr_category q = PACKET → G (dr_mbuf q))) ∧
  (wr_flag r = PREEMPTED → 0 ≤ wr_type r < Z.of_nat np ∧ wr_category r = CONTEXT).

(** Sizes of the arrays, fixed by the declarations and the configuration. *)
Record sizes (cfg : cfg_params) (w : world) (g : ghost) : Prop := {
  sz_resp : length (w_resp w) = MAX_WORKERS;
  sz_req : length (w_req w) = MAX_WORKERS;
  sz_timestamps : length (w_timestamps w) = MAX_WORKERS;
  sz_check : length (w_preempt_check w) = MAX_WORKERS;
  sz_pkts : length (np_pkts (w_net w)) = ETH_RX_MAX_BATCH;
  sz_types : length (np_types (w_net w)) = ETH_RX_MAX_BATCH;
  sz_ports : (num_ports cfg ≤ length (g_queues g))%nat;
  sz_slos : (num_ports cfg ≤ length (slos cfg))%nat;
}.

Section system.
Context (cfg : cfg_params) (G : ptr → Prop) (Ut Um Uc B : list ptr) (nctx nstack : nat) (m0 : heap).

(** The number of contexts that can be live at once: each needs a stack. *)
Definition cap : nat := nctx `min` nstack.

(** The task and cell pools are dimensioned for the live contexts. *)
Record capacity (g : ghost) : Prop := {
  cp_ctx : (length (g_fctx g) + length (g_live g) = nctx)%nat;
  cp_stack : (length (g_fstack g) + length (g_live g) = nstack)%nat;
  cp_task : (cap ≤ length Ut)%nat;
  cp_mcell : (cap ≤ length Um)%nat;
  cp_batch : (ETH_RX_MAX_BATCH ≤ length Um)%nat;
}.

(** The invariant with [N] for the buffers in the networker's mailbox and [k]
    for the number of packets taken but not balanced by a returned buffer yet. *)
Record inv (N : list ptr) (k : nat) (w : world) (g : ghost) : Prop := {
  iv_rep : disp_rep Ut Um Uc m0 w g;
  iv_sizes : sizes cfg w g;
  iv_cap : capacity g;
  iv_load : (length (g_live g) + length (g_mq g) ≤ cap + k)%nat;
  iv_ctxs : ctxs w g ≡ₚ (g_live g).*1;
  iv_bufs : bufs w g ++ N ≡ₚ B;
  iv_mail : Forall2 (mail_ok G (num_ports cfg)) (w_resp w) (w_req w);
  iv_tasks : Forall (task_ok G (num_ports cfg)) (queued g);
}.

(** *** Bookkeeping *)

Lemma held_update w i r q :
  w_resp w !! i = Some r → w_req w !! i = Some q →
  ∃ rest, held w ≡ₚ option_list (holds r q) ++ rest ∧
    ∀ w' r' q', w_resp w' = <[i := r']> (w_resp w) → w_req w' = <[i := q']> (w_req w) →
      held w' ≡ₚ option_list (holds r' q') ++ rest.
Proof.
  intros Hr Hq. destruct (concat_fmap_insert option_list (slots w) i (holds r q)) as (rest & E1 & E2 & _).
  { unfold slots. apply lookup_zip_with_Some. eauto. }
  exists rest. split; [done|]. intros w' r' q' Er Eq. unfold held, slots.
  by rewrite Er, Eq, <-insert_zip_with.
Qed.

Lemma queued_update g i l :
  g_queues g !! i = Some l →
  ∃ rest, queued g ≡ₚ l.*2 ++ rest ∧ ∀ g' l', g_queues g' = <[i := l']> (g_queues g) → queued g' ≡ₚ l'.*2 ++ rest.
Proof.
  intros Hl. destruct (concat_fmap_insert (λ l : list (ptr * task), l.*2) _ _ _ Hl) as (rest & E1 & E2 & _).
  exists rest. split; [done|]. intros g' l' E. unfold queued. by rewrite E.
Qed.

(** The pools have what the handlers ask for. *)
Lemma pool_sizes w g :
  disp_rep Ut Um Uc m0 w g → capacity g → ctxs w g ≡ₚ (g_live g).*1 →
  (length (g_ftask g) + length (queued g) = length Ut)%nat ∧
  (length (g_fmcell g) + length (g_mq g) = length Um)%nat ∧
  (length (queued g) + length (held w) = length (g_live g))%nat.
Proof.
  intros [_ _ _ _ Hut Hum _ _ _] _ Hc. split_and!.
  - rewrite <-Hut, length_app. f_equal. unfold queued, cells. clear.
    induction (g_queues g) as [|l ls IH]; csimpl; [done|]. rewrite !length_app, !length_fmap. lia.
  - by rewrite <-Hum, length_app, length_fmap.
  - apply Permutation_length in Hc. unfold ctxs in Hc. by rewrite length_app, !length_fmap in Hc.
Qed.

(** *** Handlers of the dispatcher *)

Lemma arr_set_some {A} (l : list A) i a : (i < length l)%nat → arr_set l i a = Some (<[i := a]> l).
Proof. intros H. unfold arr_set. by rewrite decide_True. Qed.

(** The two assignments with which a response is acknowledged. *)
Definition acknowledge (i : nat) : ST world unit :=
  set_preempt_check i false;; set_resp i (λ r, r <| wr_flag := PROCESSED |>).

Lemma acknowledge_run w i r :
  w_resp w !! i = Some r → (i < length (w_preempt_check w))%nat →
  acknowledge i w = Some (tt, w <| w_preempt_check ::= <[i := false]> |>
                                <| w_resp ::= <[i := r <| wr_flag := PROCESSED |>]> |>).
Proof.
  intros Hr Hi. unfold acknowledge, mbind, st_bind, set_preempt_check. rewrite arr_set_some by done. simpl.
  unfold set_resp. rsimpl. rewrite Hr. done.
Qed.

(** Acknowledging keeps everything but the slot of worker [i]. *)
Lemma inv_acknowledge w g w0 i r q :
  same_arrays w w0 → w_resp w !! i = Some r → w_req w !! i = Some q → sizes cfg w g →
  Forall2 (mail_ok G (num_ports cfg)) (w_resp w) (w_req w) → wr_flag r ≠ RUNNING →
  ∃ w', acknowledge i w0 = Some (tt, w') ∧
    (∀ g', disp_rep Ut Um Uc m0 w0 g' → disp_rep Ut Um Uc m0 w' g') ∧
    (∀ g', (num_ports cfg ≤ length (g_queues g'))%nat → sizes cfg w' g') ∧
    Forall2 (mail_ok G (num_ports cfg)) (w_resp w') (w_req w') ∧
    w_net w' = w_net w ∧
    w_resp w' !! i = Some (r <| wr_flag := PROCESSED |>) ∧
    ∃ rest, held w ≡ₚ option_list (holds r q) ++ rest ∧ held w' ≡ₚ rest.
Proof.
  intros [Er Eq En Et Ec _] Hr Hq [] Hmail Hflag.
  assert (i < MAX_WORKERS)%nat as Hi by (apply lookup_lt_Some in Hr; congruence).
  destruct (held_update w i r q Hr Hq) as (rest & E1 & E2).
  eexists. split; [apply acknowledge_run; [by rewrite Er|by rewrite Ec, sz_check0]|]. split_and!.
  - intros g' Hrep. eapply rep_arrays; [exact Hrep|by rsimpl..].
  - intros g' Hp. split; rsimpl; rewrite ?length_insert; congruence.
  - rsimpl. rewrite Er, Eq. rewrite <-(list_insert_id _ _ _ Hq). apply Forall2_insert; [done|].
    destruct (Forall2_lookup_lr _ _ _ _ _ _ Hmail Hr Hq) as (H1 & H2 & H3 & H4).
    split_and!; rsimpl; [auto|done| |done]. intros Ha. by destruct (H3 Ha).
  - by rsimpl.
  - rsimpl. rewrite Er. apply list_lookup_insert_eq. lia.
  - exists rest. split; [done|]. rewrite (E2 _ (r <| wr_flag := PROCESSED |>) q); [done|rsimpl..].
    + by rewrite Er.
    + by rewrite Eq, list_insert_id.
Qed.


(** A finished request returns its context and stack to their pools and its
    buffer to the stack of returned buffers. *)
Lemma handle_finished_inv N k w g i r q :
  inv N k w g → (0 ∉ B) → w_resp w !! i = Some r → w_req w !! i = Some q → wr_flag r = FINISHED → k = 0%nat →
  ∃ w' g', handle_finished i w = Some (tt, w') ∧ inv N k w' g' ∧ w_net w' = w_net w ∧
    w_resp w' !! i = Some (r <| wr_flag := PROCESSED |>).
Proof.
  intros [Hrep Hsz Hcap Hload Hctxs Hbufs Hmail Htasks] Hnull Hr Hq Hf ->.
  destruct (pool_sizes w g Hrep Hcap Hctxs) as (_ & Hm & Hl).
  assert (holds r q = Some (wr_rnbl r, wr_mbuf r)) as Hh by (unfold holds; by rewrite Hf).
  destruct (held_update w i r q Hr Hq) as (rest0 & E0 & _). rewrite Hh in E0. simpl in E0.
  assert (wr_rnbl r ∈ (g_live g).*1) as Hc.
  { rewrite <-Hctxs. unfold ctxs. rewrite E0. set_solver. }
  apply list_elem_of_fmap in Hc as ([c s] & Ec & Hin). simpl in Ec.
  apply list_elem_of_split in Hin as (l1 & l2 & El).
  destruct (do_context_free_ok Ut Um Uc m0 w g l1 c s l2 Hrep El) as (w1 & F1 & Ha1 & Hrep1).
  assert (wr_mbuf r ≠ NULL) as Hb.
  { intros Eb. apply Hnull. rewrite <-Eb, <-Hbufs. unfold bufs. rewrite E0. set_solver. }
  assert (∃ x F, g_fmcell g = x :: F) as (x & F & EF).
  { destruct (g_fmcell g) as [|x F]; [|eauto]. exfalso. destruct Hcap. rewrite E0 in Hl. unfold cap in *. simpl in *. lia. }
  destruct (do_mbuf_enqueue_ok Ut Um Uc m0 w1 _ x F (wr_mbuf r) Hrep1) as (w2 & F2 & Ha2 & Hrep2); [by rsimpl|done|].
  destruct (inv_acknowledge w g w2 i r q) as (w3 & F3 & Hrep3 & Hsz3 & Hmail3 & Hnet3 & Hr3 & rest & E1 & E2);
    [by eapply same_arrays_trans|done..|by rewrite Hf|].
  rewrite Hh in E1. simpl in E1.
  eexists w3, _. split_and!; [|split|done|done].
  - unfold handle_finished, mbind, st_bind, arr_get. rewrite Hr. simpl.
    rewrite Ec, F1, F2. exact F3.
  - apply Hrep3, Hrep2.
  - apply Hsz3. rsimpl. by destruct Hsz.
  - destruct Hcap. rewrite El, length_app in *. split; rsimpl; try done; rewrite length_app; simpl in *; lia.
  - rewrite El, length_app in *. rsimpl. rewrite length_app. simpl in *. lia.
  - unfold ctxs, queued in *. rsimpl. rewrite E2. rewrite E1, El, fmap_app in Hctxs. csimpl in Hctxs.
    rewrite fmap_app. apply (Permutation_cons_inv (a := c)). 
    transitivity (l1.*1 ++ c :: l2.*1); [|symmetry; apply Permutation_middle].
    rewrite <-Hctxs, Ec. solve_Permutation.
  - unfold bufs, queued in *. rsimpl. rewrite E2. rewrite <-Hbufs, E1. csimpl. solve_Permutation.
  - done.
  - unfold queued in *. by rsimpl.
Qed.

(** A preempted request goes to the back of its port's queue. *)
Lemma handle_preempted_inv N k w g i r q :
  inv N k w g → w_resp w !! i = Some r → w_req w !! i = Some q → wr_flag r = PREEMPTED →
  ∃ w' g', handle_preempted i w = Some (tt, w') ∧ inv N k w' g' ∧ w_net w' = w_net w ∧
    w_resp w' !! i = Some (r <| wr_flag := PROCESSED |>).
Proof.
  intros [Hrep Hsz Hcap Hload Hctxs Hbufs Hmail Htasks] Hr Hq Hf.
  destruct (pool_sizes w g Hrep Hcap Hctxs) as (Ht & Hm & Hl).
  assert (holds r q = Some (wr_rnbl r, wr_mbuf r)) as Hh by (unfold holds; by rewrite Hf).
  destruct (Forall2_lookup_lr _ _ _ _ _ _ Hmail Hr Hq) as (_ & _ & _ & Hty). destruct (Hty Hf) as [Hty' Hcat]. clear Hty. rename Hty' into Hty.
  set (j := Z.to_nat (wr_type r)). assert (wr_type r = Z.of_nat j) as Ej by lia.
  destruct (lookup_lt_is_Some_2 (g_queues g) j) as [l Hlj]; [destruct Hsz; lia|].
  destruct (held_update w i r q Hr Hq) as (rest0 & E0 & _). rewrite Hh in E0. simpl in E0.
  assert (∃ x F, g_ftask g = x :: F) as (x & F & EF).
  { destruct (g_ftask g) as [|x F]; [|eauto]. exfalso. destruct Hcap. rewrite E0 in Hl. unfold cap in *. simpl in *. lia. }
  set (t := mk_task (wr_rnbl r) (wr_mbuf r) (wr_type r) (wr_category r) (wr_timestamp r)).
  destruct (do_enqueue_ok Ut Um Uc m0 w g j l x F t Hrep Hlj EF) as (w1 & F1 & Ha1 & Hrep1).
  destruct (inv_acknowledge w g w1 i r q) as (w3 & F3 & Hrep3 & Hsz3 & Hmail3 & Hnet3 & Hr3 & rest & E1 & E2);
    [done..|by rewrite Hf|].
  rewrite Hh in E1. simpl in E1. destruct (queued_update g j l Hlj) as (qrest & Q1 & Q2).
  set (g' := g <| g_ftask := F |> <| g_queues := <[j := l ++ [(x, t)]]> (g_queues g) |>) in *.
  assert (queued g' ≡ₚ t :: queued g) as Q3.
  { rewrite (Q2 g' (l ++ [(x, t)])), Q1, fmap_app by done. simpl. rewrite <-app_assoc. simpl.
    symmetry. apply Permutation_middle. }
  exists w3, g'. split_and!; [|split|done|done].
  - unfold handle_preempted, mbind, st_bind, arr_get. rewrite Hr. simpl. fold t.
    rewrite Ej, F1. exact F3.
  - by apply Hrep3.
  - apply Hsz3. unfold g'. rsimpl. rewrite length_insert. by destruct Hsz.
  - destruct Hcap. unfold g'. split; by rsimpl.
  - unfold g'. by rsimpl.
  - unfold ctxs in *. rewrite Q3, E2. unfold g'. rsimpl. rewrite <-Hctxs, E1. csimpl.
    apply Permutation_middle.
  - unfold bufs in *. rewrite Q3, E2. rewrite <-Hbufs, E1.
    change (g_mq g') with (g_mq g). csimpl. change (t_mbuf t) with (wr_mbuf r). solve_Permutation.
  - done.
  - rewrite Q3. constructor; [|done]. split; [done|]. simpl. by rewrite Hcat.
Qed.

(** The assignments that publish a request. *)
Definition publish (i : nat) (t : task) (cur_time : Z) : ST world unit :=
  set_resp i (λ r, r <| wr_flag := RUNNING |>);;
  set_req i (λ r, r <| dr_rnbl := t_runnable t |>
                    <| dr_mbuf := t_mbuf t |>
                    <| dr_type := t_type t |>
                    <| dr_category := t_category t |>
                    <| dr_timestamp := t_timestamp t |>
                    <| dr_dispatcher_cy :=
                         if t_category t =? PACKET then u64 (cur_time - t_timestamp t) else 0 |>);;
  set_timestamp i cur_time;;
  set_preempt_check i true;;
  set_req i (λ r, r <| dr_flag := ACTIVE |>).

Definition request_of (t : task) (cur_time : Z) : dispatcher_request :=
  mk_dispatcher_request ACTIVE (t_runnable t) (t_mbuf t) (t_type t) (t_category t) (t_timestamp t)
    (if t_category t =? PACKET then u64 (cur_time - t_timestamp t) else 0).

Lemma publish_run w g i r q t cur_time :
  sizes cfg w g → w_resp w !! i = Some r → w_req w !! i = Some q →
  ∃ w', publish i t cur_time w = Some (tt, w') ∧
    (∀ g', disp_rep Ut Um Uc m0 w g' → disp_rep Ut Um Uc m0 w' g') ∧
    w_resp w' = <[i := r <| wr_flag := RUNNING |>]> (w_resp w) ∧
    w_req w' = <[i := request_of t cur_time]> (w_req w) ∧
    w_timestamps w' = <[i := cur_time]> (w_timestamps w) ∧
    w_preempt_check w' = <[i := true]> (w_preempt_check w) ∧
    w_net w' = w_net w ∧ w_ipis w' = w_ipis w.
Proof.
  intros [] Hr Hq. assert (i < MAX_WORKERS)%nat as Hi by (apply lookup_lt_Some in Hr; congruence).
  unfold publish, mbind, st_bind, set_resp, set_req, set_timestamp, set_preempt_check.
  rewrite Hr. simpl. rsimpl. rewrite Hq. simpl. rsimpl.
  rewrite arr_set_some by lia. simpl. rsimpl. rewrite arr_set_some by lia. simpl. rsimpl.
  rewrite list_lookup_insert_eq by lia. simpl.
  eexists. split; [done|]. split_and!; rsimpl; try done.
  - intros g' Hrep. eapply rep_arrays; [exact Hrep|by rsimpl..].
  - by rewrite list_insert_insert_eq.
Qed.

(** Dispatching moves a task from its queue to the mailbox of worker [i]. *)
Lemma dispatch_request_inv N k w g i r q cur_time :
  inv N k w g → w_resp w !! i = Some r → w_req w !! i = Some q → wr_flag r = PROCESSED →
  ∃ w' g', dispatch_request cfg i cur_time w = Some (tt, w') ∧ inv N k w' g' ∧ w_net w' = w_net w.
Proof.
  intros Hinv Hr Hq Hf. pose proof Hinv as [Hrep Hsz Hcap Hload Hctxs Hbufs Hmail Htasks].
  unfold dispatch_request. unfold mbind at 1, st_bind at 1.
  destruct (do_smart_dequeue_ok Ut Um Uc m0 cfg w g cur_time Hrep) as (mx & [j|] & _ & Hres); [by destruct Hsz..| |].
  2:{ rewrite Hres. by exists w, g. }
  destruct Hres as (x & t & l & w1 & Hl & -> & [Er Eq En Et Ec Ei] & Hrep1). fold (publish i t cur_time).
  set (g' := g <| g_ftask := x :: g_ftask g |> <| g_queues := <[j := l]> (g_queues g) |>) in *.
  assert (sizes cfg w1 g') as Hsz1.
  { destruct Hsz. split; unfold g'; rsimpl; rewrite ?length_insert; congruence. }
  destruct (publish_run w1 g' i r q t cur_time Hsz1) as (w2 & E2 & Hrep2 & Er2 & Eq2 & Et2 & Ec2 & En2 & _);
    [by rewrite ?Er, ?Eq..|].
  destruct (held_update w i r q Hr Hq) as (rest & H1 & H2).
  assert (holds r q = None) as Hh by (unfold holds; by rewrite Hf). rewrite Hh in H1. simpl in H1.
  assert (held w2 ≡ₚ (t_runnable t, t_mbuf t) :: rest) as H3.
  { rewrite (H2 w2 (r <| wr_flag := RUNNING |>) (request_of t cur_time)); [done|by rewrite Er2, Er|by rewrite Eq2, Eq]. }
  destruct (queued_update g j _ Hl) as (qrest & Q1 & Q2).
  assert (queued g ≡ₚ t :: queued g') as Q3.
  { rewrite Q1, (Q2 g' l) by done. by csimpl. }
  rewrite Q3 in Htasks. apply Forall_cons in Htasks as [Htt Htasks].
  assert (i < MAX_WORKERS)%nat as Hi by (apply lookup_lt_Some in Hr; destruct Hsz; congruence).
  exists w2, g'. split_and!; [done|split|congruence].
  - by apply Hrep2.
  - destruct Hsz1. split; try done; rewrite ?Er2, ?Eq2, ?Et2, ?Ec2, ?En2, ?length_insert; done.
  - destruct Hcap. unfold g'. split; by rsimpl.
  - unfold g'. by rsimpl.
  - unfold ctxs in *. rewrite H3. change (g_live g') with (g_live g). rewrite <-Hctxs, Q3, H1. csimpl.
    symmetry. apply Permutation_middle.
  - unfold bufs in *. rewrite H3. change (g_mq g') with (g_mq g). rewrite <-Hbufs, Q3, H1. csimpl. solve_Permutation.
  - rewrite Er2, Eq2, Er, Eq. apply Forall2_insert; [done|].
    destruct Htt. split_and!; rsimpl; [by left|by right|done|done].
  - done.
Qed.

Lemma preempt_worker_inv N k w g i cur_time :
  inv N k w g → (i < MAX_WORKERS)%nat → (i + 2 < length (cfg_cpu cfg))%nat →
  ∃ w', preempt_worker cfg i cur_time w = Some (tt, w') ∧ inv N k w' g ∧ w_net w' = w_net w.
Proof.
  intros Hinv Hi Hcpu. pose proof Hinv as [Hrep Hsz Hcap Hload Hctxs Hbufs Hmail Htasks].
  pose proof Hsz as [].
  destruct (lookup_lt_is_Some_2 (w_preempt_check w) i) as [c Hc]; [lia|].
  destruct (lookup_lt_is_Some_2 (w_timestamps w) i) as [ts Hts]; [lia|].
  destruct (lookup_lt_is_Some_2 (cfg_cpu cfg) (i + 2)%nat) as [cpu Hp]; [lia|].
  unfold preempt_worker, mbind, st_bind, arr_get. rewrite Hc. simpl. rewrite Hts. simpl.
  destruct (c && preempt_due cur_time ts); [|by exists w].
  unfold set_preempt_check. rewrite arr_set_some by lia. simpl. unfold st_lift. rewrite Hp. simpl.
  eexists. split; [done|]. split; [|by rsimpl]. split; try done.
  - eapply rep_arrays; [exact Hrep|by rsimpl..].
  - split; rsimpl; rewrite ?length_insert; done.
Qed.

(** *** One worker looked after *)
Lemma handle_worker_inv N w g i cur_time :
  inv N 0 w g → (0 ∉ B) → (i < MAX_WORKERS)%nat → (i + 2 < length (cfg_cpu cfg))%nat →
  ∃ w' g', handle_worker cfg i cur_time w = Some (tt, w') ∧ inv N 0 w' g' ∧ w_net w' = w_net w.
Proof.
  intros Hinv Hnull Hi Hcpu. pose proof Hinv as [_ [Hl1 Hl2 _ _ _ _ _ _] _ _ _ _ Hmail _].
  destruct (lookup_lt_is_Some_2 (w_resp w) i) as [r Hr]; [lia|].
  destruct (lookup_lt_is_Some_2 (w_req w) i) as [q Hq]; [lia|].
  assert (∃ w1 g1, (if wr_flag r =? FINISHED then handle_finished i
      else if wr_flag r =? PREEMPTED then handle_preempted i else mret ()) w = Some (tt, w1) ∧
    inv N 0 w1 g1 ∧ w_net w1 = w_net w ∧
    (wr_flag r ≠ RUNNING → ∃ r', w_resp w1 !! i = Some r' ∧ wr_flag r' = PROCESSED)) as (w1 & g1 & E1 & Hinv1 & En & Hp).
  { destruct (Forall2_lookup_lr _ _ _ _ _ _ Hmail Hr Hq) as (Hf & _).
    destruct (Z.eqb_spec (wr_flag r) FINISHED) as [Ef|Nf].
    { edestruct (handle_finished_inv N 0 w g i r q) as (w1 & g1 & ? & ? & ? & ?); [done..|]. eauto 10. }
    destruct (Z.eqb_spec (wr_flag r) PREEMPTED) as [Ep|Np].
    { edestruct (handle_preempted_inv N 0 w g i r q) as (w1 & g1 & ? & ? & ? & ?); [done..|]. eauto 10. }
    exists w, g. split_and!; [done..|]. intros ?. exists r. split; [done|]. tauto. }
  unfold handle_worker, mbind, st_bind, arr_get. rewrite Hr. simpl.
  destruct (Z.eqb_spec (wr_flag r) RUNNING) as [Er|Nr]; simpl.
  - destruct (preempt_worker_inv N 0 w g i cur_time) as (w' & E & ? & ?); [done..|]. eauto 10.
  - rewrite E1. destruct (Hp Nr) as (r' & Hr' & Hf').
    destruct (lookup_lt_is_Some_2 (w_req w1) i) as [q' Hq'].
    { destruct Hinv1 as [_ [? ? ? ? ? ? ? ?] _ _ _ _ _ _]. lia. }
    destruct (dispatch_request_inv N 0 w1 g1 i r' q' cur_time) as (w' & g' & E & ? & ?); [done..|].
    exists w', g'. split_and!; [done|done|congruence].
Qed.

(** *** The networker's mailbox *)

Lemma held_same w w' : same_arrays w w' → held w' = held w.
Proof. intros []. unfold held, slots. congruence. Qed.

Lemma sizes_same w w' g g' :
  same_arrays w w' → length (g_queues g') = length (g_queues g) → sizes cfg w g → sizes cfg w' g'.
Proof. intros [Er Eq En Et Ec _] Eg []. split; rewrite ?Er, ?Eq, ?En, ?Et, ?Ec, ?Eg; done. Qed.

(** A packet gets a context and joins its port's queue, ... *)
Lemma packet_enqueue_inv pkt N k w g c Fc s Fs w1 j l :
  inv (pkt :: N) k w g → g_fctx g = c :: Fc → g_fstack g = s :: Fs → same_arrays w w1 →
  let g1 := g <| g_fctx := Fc |> <| g_fstack := Fs |> <| g_live := (c, s) :: g_live g |> in
  disp_rep Ut Um Uc m0 w1 g1 → g_queues g !! j = Some l → (j < num_ports cfg)%nat →
  ∀ cat ts, (cat = PACKET → G pkt) →
  ∃ w' g', do_tskq_enqueue_tail (Z.of_nat j) (mk_task c pkt (Z.of_nat j) cat ts) w1 = Some (tt, w') ∧
    inv N (S k) w' g' ∧ w_net w' = w_net w.
Proof.
  intros [Hrep Hsz Hcap Hload Hctxs Hbufs Hmail Htasks] Ec Es Ha g1 Hrep1 Hl Hj cat ts HG.
  destruct (pool_sizes w g Hrep Hcap Hctxs) as (Ht & Hm & Hlen). pose proof Hcap as [C1 C2 C4 C5 C6]. unfold cap in *.
  rewrite Ec in C1. rewrite Es in C2. simpl in C1, C2.
  assert (∃ x F, g_ftask g = x :: F) as (x & F & EF).
  { destruct (g_ftask g) as [|x F]; [|eauto]. exfalso. unfold cap in *. simpl in *. lia. }
  set (t := mk_task c pkt (Z.of_nat j) cat ts).
  destruct (do_enqueue_ok Ut Um Uc m0 w1 g1 j l x F t Hrep1) as (w2 & F2 & Ha2 & Hrep2); [done..|].
  pose proof (same_arrays_trans _ _ _ Ha Ha2) as Ha3.
  set (g' := g1 <| g_ftask := F |> <| g_queues := _ |>) in Hrep2.
  destruct (queued_update g j l Hl) as (qrest & Q1 & Q2).
  assert (queued g' ≡ₚ t :: queued g) as Q3.
  { rewrite (Q2 g' (l ++ [(x, t)])), Q1, fmap_app by done. simpl. rewrite <-app_assoc. simpl.
    symmetry. apply Permutation_middle. }
  exists w2, g'. split_and!; [done| |by destruct Ha3].
  assert (g_mq g' = g_mq g ∧ g_live g' = (c, s) :: g_live g) as [Em El] by done.
  split; [done|..]; rewrite ?Em, ?El.
  - eapply sizes_same; [exact Ha3| |exact Hsz]. unfold g', g1. rsimpl. by rewrite length_insert.
  - split; unfold g', g1; rsimpl; try done; simpl; lia.
  - unfold cap in *. simpl. lia.
  - unfold ctxs in *. rewrite Q3, (held_same _ _ Ha3). csimpl. by rewrite Hctxs.
  - unfold bufs in *. rewrite Q3, (held_same _ _ Ha3), Em. rewrite <-Hbufs.
    csimpl. change (t_mbuf t) with pkt. solve_Permutation.
  - destruct Ha3 as [-> -> _ _ _ _]. done.
  - rewrite Q3. constructor; [|done]. split; simpl; [lia|done].
Qed.

(** ... or, without a context, its buffer goes straight back. *)
Lemma packet_drop_inv pkt N k w g w1 :
  inv (pkt :: N) k w g → 0 ∉ B → g_fctx g = [] ∨ g_fstack g = [] → (k < ETH_RX_MAX_BATCH)%nat →
  same_arrays w w1 → disp_rep Ut Um Uc m0 w1 g →
  ∃ w' g', do_mbuf_enqueue pkt w1 = Some (tt, w') ∧ inv N (S k) w' g' ∧ w_net w' = w_net w.
Proof.
  intros [Hrep Hsz Hcap Hload Hctxs Hbufs Hmail Htasks] Hnull HF Hk Ha Hrep1.
  destruct (pool_sizes w g Hrep Hcap Hctxs) as (Ht & Hm & Hlen). pose proof Hcap as [C1 C2 C4 C5 C6]. unfold cap in *.
  assert (length (g_live g) = cap) as Hfull.
  { unfold cap. destruct HF as [E|E]; rewrite E in *; simpl in *; lia. }
  assert (∃ x F, g_fmcell g = x :: F) as (x & F & EF).
  { destruct (g_fmcell g) as [|x F]; [|eauto]. exfalso. unfold cap in *. simpl in *. lia. }
  assert (pkt ≠ NULL) as Hp. { intros ->. apply Hnull. rewrite <-Hbufs. set_solver. }
  destruct (do_mbuf_enqueue_ok Ut Um Uc m0 w1 g x F pkt Hrep1 EF Hp) as (w2 & F2 & Ha2 & Hrep2).
  pose proof (same_arrays_trans _ _ _ Ha Ha2) as Ha3.
  set (g' := g <| g_fmcell := F |> <| g_mq := _ |>) in Hrep2.
  exists w2, g'. split_and!; [done| |by destruct Ha3].
  assert (queued g' = queued g ∧ g_mq g' = (x, pkt) :: g_mq g ∧ g_live g' = g_live g) as (Eq & Em & El) by done.
  split; [done|..]; rewrite ?Eq, ?Em, ?El; try done.
  - by eapply sizes_same; [exact Ha3| |exact Hsz].
  - unfold cap in *. simpl. lia.
  - unfold ctxs in *. by rewrite Eq, (held_same _ _ Ha3).
  - unfold bufs in *. rewrite Eq, (held_same _ _ Ha3), Em. rewrite <-Hbufs.
    csimpl. solve_Permutation.
  - destruct Ha3 as [-> -> _ _ _ _]. done.
Qed.

Lemma networker_packet_inv pkt N k w g i ty cur_time :
  inv (pkt :: N) k w g → 0 ∉ B → G pkt → (k < ETH_RX_MAX_BATCH)%nat →
  np_pkts (w_net w) !! i = Some pkt → np_types (w_net w) !! i = Some ty → 0 ≤ ty < Z.of_nat (num_ports cfg) →
  ∃ w' g', networker_packet cur_time i w = Some (tt, w') ∧ inv N (S k) w' g' ∧ w_net w' = w_net w.
Proof.
  intros Hinv Hnull HG Hk Hpkt Hty Hr. pose proof Hinv as [Hrep Hsz _ _ _ _ _ _].
  unfold networker_packet, mbind, st_bind, arr_get.
  destruct (decide (g_fctx g = [] ∨ g_fstack g = [])) as [HF|HF].
  - destruct (do_context_alloc_fail Ut Um Uc m0 w g Hrep HF) as (c & w1 & -> & Ha & Hrep1).
    rewrite (sa_net _ _ Ha), Hpkt. simpl. by eapply packet_drop_inv.
  - destruct (g_fctx g) as [|c Fc] eqn:Ec; [tauto|]. destruct (g_fstack g) as [|s Fs] eqn:Es; [tauto|].
    destruct (do_context_alloc_ok Ut Um Uc m0 w g c Fc s Fs Hrep Ec Es) as (w1 & -> & Ha & Hrep1).
    rewrite (sa_net _ _ Ha), Hpkt. simpl. rewrite (sa_net _ _ Ha), Hty. simpl.
    destruct (lookup_lt_is_Some_2 (g_queues g) (Z.to_nat ty)) as [l Hl]; [destruct Hsz; lia|].
    rewrite <-(Z2Nat.id ty) by lia.
    eapply packet_enqueue_inv; done || lia.
Qed.

(** Changing the networker's mailbox. *)
Lemma inv_set_net N k w g n :
  inv N k w g → length (np_pkts n) = ETH_RX_MAX_BATCH → length (np_types n) = ETH_RX_MAX_BATCH →
  inv N k (w <| w_net := n |>) g.
Proof.
  intros [Hrep [] Hcap Hload Hctxs Hbufs Hmail Htasks] Hp Ht. split; try done.
  eapply rep_arrays; [exact Hrep|by rsimpl..].
Qed.

Lemma inv_load N k k' w g :
  inv N k w g → (length (g_live g) + length (g_mq g) ≤ cap + k')%nat → inv N k' w g.
Proof. intros []. by split. Qed.

Lemma return_buffers_S n i :
  return_buffers (S n) i =
    buf ← do_mbuf_dequeue;
    if buf =? NULL then mret () else
    w ← st_get;
    pkts ← st_lift (arr_set (np_pkts (w_net w)) i buf);
    st_mod (λ w, w <| w_net ::= λ p, p <| np_pkts := pkts |> <| np_free_cnt ::= λ c, u8 (c + 1) |> |>);;
    return_buffers n (S i).
Proof. done. Qed.

(** The buffers taken from the stack fill the mailbox from slot 0 on. *)
Lemma return_buffers_inv n i w g k :
  inv (take i (np_pkts (w_net w))) (k - i) w g → (i + n = ETH_RX_MAX_BATCH)%nat → (k ≤ ETH_RX_MAX_BATCH)%nat →
  np_free_cnt (w_net w) = Z.of_nat i →
  ∃ w' g' j, return_buffers n i w = Some (tt, w') ∧ (j ≤ ETH_RX_MAX_BATCH)%nat ∧
    inv (take j (np_pkts (w_net w'))) 0 w' g' ∧ np_free_cnt (w_net w') = Z.of_nat j ∧
    np_cnt (w_net w') = np_cnt (w_net w).
Proof.
  revert i w g. induction n as [|n IH]; intros i w g Hinv Hin Hk Hfree; rewrite ?return_buffers_S.
  { exists w, g, i. split_and!; [done|lia| |done|done]. by replace 0%nat with (k - i)%nat by lia. }
  pose proof Hinv as [Hrep Hsz Hcap Hload Hctxs Hbufs Hmail Htasks]. unfold mbind, st_bind.
  destruct (g_mq g) as [|[x b] l] eqn:Emq.
  { rewrite (do_mbuf_dequeue_empty Ut Um Uc m0 w g Hrep Emq). simpl.
    exists w, g, i. split_and!; [done|lia| |done|done]. eapply inv_load; [done|].
    rewrite Emq. destruct Hcap. unfold cap in *. simpl. lia. }
  destruct (do_mbuf_dequeue_ok Ut Um Uc m0 w g x b l Hrep Emq) as (w1 & -> & Ha & Hb & Hrep1).
  rewrite (proj2 (Z.eqb_neq _ _) Hb). pose proof Hsz as [_ _ _ _ Hlp Hlt _ _].
  unfold st_get, st_lift. rewrite (sa_net _ _ Ha), arr_set_some by lia. cbn [mbind option_bind].
  unfold st_mod.
  set (n1 := (w_net w) <| np_pkts := <[i := b]> (np_pkts (w_net w)) |> <| np_free_cnt ::= λ c, u8 (c + 1) |>).
  set (g1 := g <| g_fmcell := x :: g_fmcell g |> <| g_mq := l |>) in Hrep1.
  set (w2 := set w_net _ w1). assert (w2 = w1 <| w_net := n1 |>) as Ew2.
  { unfold w2, n1. rewrite <-(sa_net _ _ Ha). done. }
  rewrite Ew2. assert (np_pkts n1 = <[i := b]> (np_pkts (w_net w))) as Ep by done.
  destruct (IH (S i) (w1 <| w_net := n1 |>) g1) as (w' & g' & j & E & Hj & Hinv' & Hf' & Hc'); [|lia|done| |].
  - apply inv_set_net; [|by rewrite Ep, length_insert|done].
    change (np_pkts (w_net (w1 <| w_net := n1 |>))) with (<[i := b]> (np_pkts (w_net w))).
    rewrite (take_S_r _ i b) by (apply list_lookup_insert_eq; lia). rewrite take_insert_ge by lia.
    assert (queued g1 = queued g ∧ g_mq g1 = l ∧ g_live g1 = g_live g) as (Eq & Em & El) by done.
    split; rewrite ?Em, ?El; try done.
    + by eapply sizes_same; [exact Ha| |exact Hsz].
    + by destruct Hcap.
    + unfold cap in *. simpl in Hload. lia.
    + unfold ctxs in *. by rewrite Eq, (held_same _ _ Ha).
    + unfold bufs in *. rewrite Eq, Em, (held_same _ _ Ha). rewrite <-Hbufs, Emq. csimpl. solve_Permutation.
    + destruct Ha as [-> -> _ _ _ _]. done.
  - rsimpl. rewrite Hfree. rewrite u8_small; [lia|]. unfold ETH_RX_MAX_BATCH in *. lia.
  - exists w', g', j. split_and!; done.
Qed.

(** What the networker's mailbox may hold. *)
Definition net_ok (w : world) : Prop :=
  let n := w_net w in
  0 ≤ np_cnt n ≤ 6 ∧ 0 ≤ np_free_cnt n ≤ 6 ∧ (np_cnt n ≠ 0 → np_free_cnt n = 0) ∧
  (∀ i, (i < Z.to_nat (np_cnt n))%nat → ∃ ty, np_types n !! i = Some ty ∧ 0 ≤ ty < Z.of_nat (num_ports cfg)) ∧
  Forall G (take (Z.to_nat (np_cnt n)) (np_pkts n)).

Lemma handle_networker_inv w g cur_time :
  inv (inflight w) 0 w g → 0 ∉ B → net_ok w →
  ∃ w' g', handle_networker cur_time w = Some (tt, w') ∧ inv (inflight w') 0 w' g' ∧ net_ok w'.
Proof.
  intros Hinv Hnull Hnet. unfold handle_networker, mbind at 1, st_bind at 1, st_get.
  pose proof Hnet as (Hcnt & Hfree & Hz & Hty & HG). destruct (Z.eqb_spec (np_cnt (w_net w)) 0) as [Ec|Nc]; simpl.
  { by exists w, g. }
  unfold inflight in Hinv. rewrite (proj2 (Z.eqb_neq _ _) Nc) in Hinv.
  set (n := Z.to_nat (np_cnt (w_net w))) in *. set (N := take n (np_pkts (w_net w))) in *.
  assert (length (np_pkts (w_net w)) = ETH_RX_MAX_BATCH) as Hlp by (by destruct Hinv as [_ [] _ _ _ _ _ _]).
  assert (length N = n) as HlN by (unfold N; rewrite length_take; unfold ETH_RX_MAX_BATCH in *; lia).
  destruct (st_for_inv (λ i w1, w_net w1 = w_net w ∧ ∃ g1, inv (drop i N) i w1 g1)
    (networker_packet cur_time) n 0 w) as (w1 & E1 & En1 & g1 & Hinv1).
  { split; [done|]. by exists g. }
  { intros i w1 Hi (En1 & g1 & Hinv1). simpl in Hi.
    destruct (lookup_lt_is_Some_2 N i) as [pkt Hpkt]; [lia|]. rewrite (drop_S _ _ _ Hpkt) in Hinv1.
    destruct (Hty i ltac:(lia)) as (ty & Hty1 & Hty2).
    destruct (networker_packet_inv pkt (drop (S i) N) i w1 g1 i ty cur_time) as (w2 & g2 & E2 & Hinv2 & En2); try done.
    - by eapply Forall_lookup_1 in HG.
    - unfold ETH_RX_MAX_BATCH. lia.
    - rewrite En1. unfold N in Hpkt. by rewrite lookup_take_lt in Hpkt by lia.
    - by rewrite En1.
    - exists w2. rewrite Nat.add_1_r. split_and!; [done|congruence|eauto]. }
  unfold mbind, st_bind. rewrite E1. cbv beta iota. simpl in Hinv1. rewrite drop_ge in Hinv1 by lia.
  destruct (return_buffers_inv ETH_RX_MAX_BATCH 0 w1 g1 n) as (w2 & g2 & j & E2 & Hj & Hinv2 & Hf2 & Hc2).
  { by rewrite Nat.sub_0_r. }
  { done. }
  { unfold ETH_RX_MAX_BATCH. lia. }
  { rewrite En1. by rewrite Hz. }
  rewrite E2. cbv beta iota. unfold st_mod. eexists _, g2. split; [done|]. set (n3 := w_net w2) in *.
  assert (length (np_pkts n3) = ETH_RX_MAX_BATCH ∧ length (np_types n3) = ETH_RX_MAX_BATCH) as [Hl1 Hl2].
  { by destruct Hinv2 as [_ [] _ _ _ _ _ _]. }
  change (set w_net _ w2) with (w2 <| w_net := n3 <| np_cnt := 0 |> |>). split.
  - unfold inflight. rsimpl. rewrite Hf2, Nat2Z.id. by apply inv_set_net.
  - unfold net_ok. rsimpl. unfold ETH_RX_MAX_BATCH in Hj. split_and!; [lia..|intros i Hi; lia|done].
Qed.

End system.

(** The invariant for a weaker condition on the packets in use. *)
Lemma inv_mono cfg (G G' : ptr → Prop) Ut Um Uc B nctx nstack m0 N k w g :
  inv cfg G Ut Um Uc B nctx nstack m0 N k w g → (∀ x, x ∈ B → G x → G' x) →
  inv cfg G' Ut Um Uc B nctx nstack m0 N k w g.
Proof.
  intros [Hrep Hsz Hcap Hload Hctxs Hbufs Hmail Htasks] HG. split; try done.
  - apply Forall2_same_length_lookup_2; [exact (Forall2_length _ _ _ Hmail)|]. intros i r q Hr Hq.
    destruct (Forall2_lookup_lr _ _ _ _ _ _ Hmail Hr Hq) as (H1 & H2 & H3 & H4). refine (conj H1 (conj H2 (conj _ H4))).
    intros Ha. destruct (H3 Ha) as (Hf & Hty & Hg). split; [done|]. split; [done|]. intros Hcat. apply HG; [|auto].
    destruct (held_update w i r q Hr Hq) as (rest & E & _). rewrite <-Hbufs. unfold bufs. rewrite E.
    unfold holds. rewrite Hf, Ha. simpl. set_solver.
  - apply Forall_forall. intros t Ht. pose proof (proj1 (Forall_forall _ _) Htasks t Ht) as [Hty Hg].
    split; [done|]. intros Hcat. apply HG; [|auto]. rewrite <-Hbufs. unfold bufs.
    apply (list_elem_of_fmap_2 t_mbuf) in Ht. set_solver.
Qed.
