(* ===== verification/Steps.v ===== *)
(** * The cores and the network card together

    A step of the system is one handler of the dispatcher, one turn of a worker,
    one part of the networker's loop - polling the ring, taking frames from the
    receive queue, handing a batch to the dispatcher - or a write of the network
    card.  The invariant [sys_inv] says that every packet buffer and every
    context is in exactly one place, and that every packet on its way to a worker
    can be parsed. *)

From S2P Require Import Prelude Stddef Heap Mempool Float Page Bytes Mbuf Dispatch NetInput EthQueue RxRing Context Dispatcher Worker Networker System.
Local Open Scope Z_scope.

(** ** A worker's turn *)

Section worker_turn.
Context (Ut Um Uc Ub : list ptr).

(** Stores outside the pools, such as those to packet headers. *)
Lemma rep_outside m0 X w g m' :
  disp_rep Ut Um Uc m0 w g → same_outside X (w_mem w) m' → (∀ x, x ∈ X → x ∉ Ut ++ Um ++ Uc) →
  disp_rep Ut Um Uc m' (w <| w_mem := m' |>) g.
Proof.
  intros [Hq HP Hm Hc Hut Hum Huc Hnd _] Hs Hd. split; rsimpl; try done.
  - eapply queues_rep_frame; [done| |done]. intros x Hx Hx'. apply (Hd x Hx'). rewrite Hut in Hx. set_solver.
  - eapply pool_rep_frame; [done..|]. intros x Hx Hx'. apply (Hd x Hx').
    assert (x ∈ Um) by (rewrite <-Hum; set_solver). set_solver.
  - eapply mq_frame; [done| |done]. intros x Hx Hx'. apply (Hd x Hx').
    assert (x ∈ Um) by (rewrite <-Hum; set_solver). set_solver.
  - eapply ctx_rep_frame; [done..|]. intros x Hx Hx'. apply (Hd x Hx'). rewrite Huc in Hx. set_solver.
Qed.

Lemma set_link_rep m0 w g c link :
  disp_rep Ut Um Uc m0 w g → c ∈ (g_live g).*1 →
  ∃ m', set_context_link (w_mem w) c link = Some m' ∧ disp_rep Ut Um Uc m0 (w <| w_mem := m' |>) g.
Proof.
  intros Hrep Hc. pose proof Hrep as [_ _ _ Hcx _ _ Huc _ _].
  apply list_elem_of_fmap in Hc as ([c' s] & -> & Hin). simpl.
  destruct (cx_live _ _ _ _ _ _ Hcx _ _ Hin) as (Hc0 & Hs0 & Hsp).
  unfold set_context_link. heap_step. rewrite Hsp, rd_insert_eq. heap_step. eexists. split; [done|].
  pose proof (rep_ctxs Ut Um Uc m0 w g _ _ _ _ _ _ Hrep
    (ctx_rep_poke _ _ _ _ _ _ _ _ (link_slot s (rd (w_mem w) c' UC_SS_SIZE) - s) link link Hcx Hin) Huc) as Hrep'.
  destruct g; destruct w. apply Hrep'. simpl in *.
  assert (c' ∈ Uc ∧ s ∈ Uc) as [H1 H2].
  { rewrite <-Huc. unfold ctx_region. rsimpl.
    apply (list_elem_of_fmap_2 fst) in Hin as H1. apply (list_elem_of_fmap_2 snd) in Hin as H2. set_solver. }
  eapply same_outside_trans; by apply same_outside_insert.
Qed.

(** The store keeps the frame lengths outside the dispatcher's pools. *)
Definition keeps_len (X : list ptr) (m m' : heap) : Prop := ∀ x, x ∉ X → rd m' x MB_LEN = rd m x MB_LEN.

(** The state after [handle_request]: the request is taken, its context is the
    current one, the store changed only in ways that keep the pools, and every
    frame is as it was from its IP header on. *)
Lemma handle_request_run m0 uctx w g data l i q fin :
  disp_rep Ut Um Uc m0 w g → w_req w !! i = Some q → dr_rnbl q ∈ (g_live g).*1 → dr_mbuf q ∈ Ub →
  (∀ x, x ∈ Ub → x ∉ Ut ++ Um ++ Uc) → 0 ∉ Ub → packets_wf data →
  (dr_category q = PACKET → parsable (w_mem w) (mbuf_data data (dr_mbuf q)) (dr_mbuf q)) →
  ∃ m0' m' data' l', handle_request uctx i fin (mk_worker_st w data l) =
      Some (tt, mk_worker_st (w <| w_req ::= <[i := q <| dr_flag := WAITING |>]> |> <| w_mem := m' |>) data' l') ∧
    disp_rep Ut Um Uc m0' (w <| w_mem := m' |>) g ∧ l_cont l' = dr_rnbl q ∧ l_finished l' = fin ∧
    same_outside (dr_mbuf q :: Ut ++ Um ++ Uc) m0 m0' ∧ keeps_len (Ut ++ Um ++ Uc) (w_mem w) m' ∧
    packets_wf data' ∧ (∀ p k, (IP_OFF ≤ k)%nat → mbuf_data data' p !! k = mbuf_data data p !! k).
Proof.
  intros Hrep Hq Hc Hb Hd Hnull Hdata Hparse.
  assert (dr_mbuf q ≠ NULL) as Hb0 by (intros E; by rewrite E in Hb).
  assert (i < length (w_req w))%nat as Hi by (by eapply lookup_lt_Some).
  unfold handle_request, mbind, st_bind, lift_world, set_req, arr_get. simpl. rewrite Hq. simpl. rsimpl.
  rewrite list_lookup_insert_eq by done. simpl. rsimpl.
  destruct (Z.eqb_spec (dr_category q) PACKET) as [Ecat|Ncat].
  - destruct (mbuf_data_wf data (dr_mbuf q) Hdata) as [Hwf Hlen].
    destruct (parse_packet_ok (w_mem w) (mbuf_data data (dr_mbuf q)) (dr_mbuf q)) as (d1 & Ep & L1 & W1 & K1 & _);
      [done|rewrite Hlen; vm_compute; lia|done|by apply Hparse|].
    set (m1 := <[(dr_mbuf q, MB_DONE) := MBUF_DONE_MARK]> (w_mem w)) in Ep.
    assert (same_outside [dr_mbuf q] (w_mem w) m1) as Hs1 by (apply same_outside_insert; set_solver).
    assert (disp_rep Ut Um Uc m1 (w <| w_mem := m1 |>) g) as Hrep1.
    { eapply rep_outside; [done..|]. intros x ->%list_elem_of_singleton. auto. }
    destruct (set_link_rep _ _ g (dr_rnbl q) uctx Hrep1 Hc) as (m2 & E2 & Hrep2). rsimpl.
    unfold handle_new_packet, mbind, st_bind, lift_world, arr_get. rsimpl.
    rewrite list_lookup_insert_eq by done. simpl. rsimpl.
    unfold do_parse_packet. rsimpl. rewrite Ep. simpl.
    unfold mem_ld. rsimpl. rewrite ld_some by done. simpl. unfold set_local, st_mod. rsimpl.
    unfold do_set_context_link. rsimpl. rewrite E2. simpl.
    eexists m1, m2, _, _. split_and!; [reflexivity|done|by rsimpl..| | | |].
    + eapply same_outside_trans; eapply same_outside_weaken; [apply (dr_frame _ _ _ _ _ _ Hrep)|set_solver|done|set_solver].
    + intros x Hx. pose proof (dr_frame _ _ _ _ _ _ Hrep2 x MB_LEN Hx) as E. rsimpl. rewrite E.
      unfold m1. apply rd_insert_ne. right. done.
    + rsimpl. intros p d [[<- <-]|[_ Hp]]%lookup_insert_Some; [|by apply (Hdata p)]. split; [done|congruence].
    + intros p k Hk. rsimpl. unfold mbuf_data at 1. destruct (decide (p = dr_mbuf q)) as [->|Hne].
      * rewrite lookup_insert_eq. simpl. apply K1. unfold IP_OFF in Hk. lia.
      * by rewrite lookup_insert_ne.
  - destruct (set_link_rep _ _ g (dr_rnbl q) uctx Hrep Hc) as (m2 & E2 & Hrep2).
    unfold handle_context, mbind, st_bind, lift_world, arr_get. rsimpl.
    rewrite list_lookup_insert_eq by done. simpl. rsimpl. rewrite (proj2 (Z.eqb_neq _ _) Hb0).
    unfold mem_ld. rsimpl. rewrite ld_some by done. simpl. unfold set_local, st_mod. rsimpl.
    unfold do_set_context_link. rsimpl. rewrite E2. simpl.
    eexists m0, m2, _, _. split_and!; [reflexivity|done|by rsimpl..|done| |done|done].
    intros x Hx. pose proof (dr_frame _ _ _ _ _ _ Hrep2 x MB_LEN Hx) as E. rsimpl. rewrite E.
    symmetry. by apply (dr_frame _ _ _ _ _ _ Hrep).
Qed.
End worker_turn.

(** ** The system *)

(** The shared state; the networker's pool of free buffers, its receive ring and
    queue and the batch it has collected; the packet data; and the workers' local
    variables. *)
Record sys := mk_sys {
  y_world : world;
  y_mbufs : pool;
  y_ring : rx_queue;
  y_rxq : eth_rx_queue;
  y_recv : recv_batch;
  y_data : packets;
  y_local : list worker_local;
}.
#[export] Instance eta_sys : Settable sys :=
  λ s, mk_sys (y_world s) (y_mbufs s) (y_ring s) (y_rxq s) (y_recv s) (y_data s) (y_local s).

Definition y_mem (s : sys) : heap := w_mem (y_world s).
Definition poll_of (s : sys) : poll_st := mk_poll_st (y_mem s) (y_mbufs s) (y_rxq s) (y_ring s).
Definition worker_of (s : sys) (l : worker_local) : worker_st := mk_worker_st (y_world s) (y_data s) l.

(** The new state after the networker or worker [i] ran on its part. *)
Definition after_poll (s : sys) (p : poll_st) : sys :=
  s <| y_world ::= λ w, w <| w_mem := po_mem p |> |> <| y_mbufs := po_mbufs p |>
    <| y_rxq := po_rxq p |> <| y_ring := po_ring p |>.
Definition after_recv (s : sys) (m : heap) (P : pool) (rxq : eth_rx_queue) (b : recv_batch) : sys :=
  s <| y_world ::= λ w, w <| w_mem := m |> |> <| y_mbufs := P |> <| y_rxq := rxq |> <| y_recv := b |>.
Definition after_post (s : sys) (x : net_st) : sys :=
  s <| y_world := n_world x |> <| y_mbufs := n_mbufs x |> <| y_recv := [] |>.
Definition after_worker (s : sys) (i : nat) (x : worker_st) : sys :=
  s <| y_world := x_world x |> <| y_data := x_data x |> <| y_local ::= <[i := x_local x]> |>.
Definition after_card (s : sys) (descs : list rx_desc) (data : packets) : sys :=
  s <| y_ring ::= λ r, r <| rq_ring := descs |> |> <| y_data := data |>.

Section steps.
Context (cfg : cfg_params) (uctx : nat → ptr) (view : rx_desc → rx_view) (pg : pages) (fgs : list Z).

(** No queued frame is freed twice (see [udp_overrun_double_free]). *)
Definition no_overrun (s : sys) : Prop :=
  ∀ q x, rx_rep (y_mem s) (y_rxq s) q → x ∈ q → frame_verdict cfg (y_data s) (y_mem s) x ≠ DropTwice.

Inductive sys_step : sys → sys → Prop :=
  (** The dispatcher looks after worker [i]. *)
  | Step_worker_handled s i t w' :
      (i < length (y_local s))%nat → handle_worker cfg i t (y_world s) = Some (tt, w') →
      sys_step s (s <| y_world := w' |>)
  (** The dispatcher looks into the networker's mailbox. *)
  | Step_networker_handled s t w' :
      handle_networker t (y_world s) = Some (tt, w') → sys_step s (s <| y_world := w' |>)
  (** Worker [i] announces itself. *)
  | Step_worker_init s i l r q x' :
      y_local s !! i = Some l → w_resp (y_world s) !! i = Some r → w_req (y_world s) !! i = Some q →
      wr_flag r = RUNNING → dr_flag q = WAITING →
      init_worker i (worker_of s l) = Some (tt, x') → sys_step s (after_worker s i x')
  (** Worker [i] runs the request in its mailbox, to its end or to a preemption. *)
  | Step_worker_turn s i l q fin x' :
      y_local s !! i = Some l → w_req (y_world s) !! i = Some q → dr_flag q ≠ WAITING →
      worker_turn (uctx i) i fin (worker_of s l) = Some (tt, x') → sys_step s (after_worker s i x')
  (** The card writes descriptors, and frames into the buffers of the ring. *)
  | Step_card s descs data :
      length descs = length (rq_ring (y_ring s)) → packets_wf data →
      (∀ p, p ∉ rq_entries (y_ring s) → data !! p = y_data s !! p) →
      sys_step s (after_card s descs data)
  (** The networker polls the ring ... *)
  | Step_poll s now n p' :
      y_recv s = [] → rx_poll view pg fgs now (poll_of s) = Some (n, p') → sys_step s (after_poll s p')
  (** ... takes frames from the receive queue ... *)
  | Step_recv s m' P' rxq' b :
      y_recv s = [] → no_overrun s →
      eth_process_recv cfg (y_data s) 1 (mk_rx_st (y_mem s) (y_mbufs s) [y_rxq s]) =
        Some (Some (mk_rx_st m' P' [rxq'], b)) →
      sys_step s (after_recv s m' P' rxq' b)
  (** ... and hands them over once the mailbox is empty. *)
  | Step_networker s cy x' :
      y_recv s ≠ [] → np_cnt (w_net (y_world s)) = 0 →
      networker_turn (y_recv s) cy (mk_net_st (y_world s) (y_mbufs s)) = Some (tt, x') →
      sys_step s (after_post s x').

Context (Ut Um Uc Ub : list ptr) (nctx nstack : nat).

(** What the platform provides: distinct buffers outside the dispatcher's pools,
    whose pages the card can address at even addresses; flow groups; a port
    number for every configured port; a descriptor format in which an address is
    not a finished descriptor. *)
Record platform : Prop := {
  pf_nodup : NoDup Ub;
  pf_null : 0 ∉ Ub;
  pf_apart : ∀ x, x ∈ Ub → x ∉ Ut ++ Um ++ Uc;
  pf_mach : ∀ x, x ∈ Ub → ∃ a, page_machaddr pg (mbuf_mtod_off x 0) = Some a ∧ Z.even a = true;
  pf_view : view_clears view;
  pf_fgs : fgs ≠ [];
  pf_ports : (num_ports cfg ≤ length (cfg_ports cfg))%nat;
}.

(** The frame in buffer [x] can be parsed. *)
Definition packet_ok (s : sys) (x : ptr) : Prop := parsable (y_mem s) (mbuf_data (y_data s) x) x.

(** Every packet buffer is free, in the ring, in the receive queue, in the
    networker's batch, or held by exactly one of the dispatcher's queues, the
    workers, the stack of returned buffers and the mailbox. *)
Record sys_inv (s : sys) (m0 : heap) (g : ghost) (B q Fb : list ptr) : Prop := {
  si_platform : platform;
  si_inv : inv cfg (packet_ok s) Ut Um Uc B nctx nstack m0 (inflight (y_world s)) 0 (y_world s) g;
  si_net : net_ok cfg (packet_ok s) (y_world s);
  si_poll : poll_inv (rq_entries (y_ring s) ++ q ++ Fb) q Fb (poll_of s);
  si_recv : Forall (λ e, 0 ≤ e.2 < Z.of_nat (num_ports cfg) ∧ packet_ok s e.1) (y_recv s);
  si_recv_len : (length (y_recv s) ≤ ETH_RX_MAX_BATCH)%nat;
  si_all : (rq_entries (y_ring s) ++ q ++ Fb) ++ (y_recv s).*1 ++ B ≡ₚ Ub;
  si_data : packets_wf (y_data s);
  si_workers : (length (y_local s) ≤ MAX_WORKERS)%nat;
  si_cpus : (length (y_local s) + 2 ≤ length (cfg_cpu cfg))%nat;
}.

(** *** Changes of the state *)

Lemma packet_ok_frame s s' x :
  packet_ok s x → rd (y_mem s') x MB_LEN = rd (y_mem s) x MB_LEN →
  (∀ k, (IP_OFF ≤ k)%nat → mbuf_data (y_data s') x !! k = mbuf_data (y_data s) x !! k) → packet_ok s' x.
Proof. apply parsable_ext. Qed.

Lemma net_ok_mono (G G' : ptr → Prop) w :
  net_ok cfg G w → (∀ x, x ∈ inflight w → G x → G' x) → net_ok cfg G' w.
Proof.
  intros (H1 & H2 & H3 & H4 & H5) HG. split; [done|]. split; [done|]. split; [done|]. split; [done|].
  unfold inflight in HG. destruct (Z.eqb_spec (np_cnt (w_net w)) 0) as [->|Hne]; [by constructor|].
  apply Forall_forall. intros x Hx. apply HG; [done|]. by eapply Forall_forall in H5.
Qed.

Lemma poll_inv_frame X U q F p m' :
  poll_inv U q F p → same_outside X (po_mem p) m' → (∀ x, x ∈ q ++ F → x ∉ X) →
  poll_inv U q F (mk_poll_st m' (po_mbufs p) (po_rxq p) (po_ring p)).
Proof.
  intros [HF Hq Hall Hr Hl Hpow Hh] Hs Hx. split; try done; simpl.
  - eapply pool_rep_frame; [done..|]. set_solver.
  - eapply rx_rep_frame; [done..|]. set_solver.
Qed.

(** The invariant after a change of the dispatcher's or a worker's state. *)
Lemma sys_inv_intro s s' m0 m0' g g' B q Fb :
  sys_inv s m0 g B q Fb →
  inv cfg (packet_ok s) Ut Um Uc B nctx nstack m0' (inflight (y_world s')) 0 (y_world s') g' →
  net_ok cfg (packet_ok s) (y_world s') →
  (∀ x, x ∈ (y_recv s).*1 ++ B → packet_ok s x → packet_ok s' x) →
  (∃ X, same_outside X (y_mem s) (y_mem s') ∧ ∀ x, x ∈ q ++ Fb → x ∉ X) →
  y_mbufs s' = y_mbufs s → y_rxq s' = y_rxq s → y_ring s' = y_ring s → y_recv s' = y_recv s →
  packets_wf (y_data s') → length (y_local s') = length (y_local s) →
  sys_inv s' m0' g' B q Fb.
Proof.
  intros [Hpf Hinv Hnet Hpoll Hrecv Hrl Hall Hdata Hw Hcpu] Hinv' Hnet' HG (X & Hs & HX) Em Eq Er Ec Hd El.
  assert (∀ x, x ∈ B → packet_ok s x → packet_ok s' x) as HGB by (intros x Hx; apply HG; set_solver).
  split; rewrite ?Er, ?Ec, ?El; try done.
  - by eapply inv_mono.
  - eapply net_ok_mono; [done|]. intros x Hx. apply HGB. destruct Hinv' as [_ _ _ _ _ Hb _ _]. rewrite <-Hb. set_solver.
  - unfold poll_of. rewrite Em, Eq, Er. by eapply (poll_inv_frame X _ _ _ (poll_of s)).
  - apply Forall_forall. intros e He. pose proof (proj1 (Forall_forall _ _) Hrecv e He) as [H1 H2]. split; [done|].
    apply HG; [|done]. apply (list_elem_of_fmap_2 fst) in He. set_solver.
Qed.

(** A handler of the dispatcher. *)
Lemma step_dispatcher s m0 g B q Fb w' g' :
  sys_inv s m0 g B q Fb → inv cfg (packet_ok s) Ut Um Uc B nctx nstack m0 (inflight w') 0 w' g' →
  net_ok cfg (packet_ok s) w' → sys_inv (s <| y_world := w' |>) m0 g' B q Fb.
Proof.
  intros Hinv Hi Hn. pose proof Hinv as [[_ _ Hap _ _ _ _] H1 _ _ _ _ Hall Hd _ _].
  assert (same_outside (Ut ++ Um ++ Uc) (y_mem s) (w_mem w')) as Hs.
  { intros x off Hx. destruct H1 as [Hr _ _ _ _ _ _ _], Hi as [Hr' _ _ _ _ _ _ _].
    rewrite (dr_frame _ _ _ _ _ _ Hr' x off Hx). symmetry. by apply (dr_frame _ _ _ _ _ _ Hr). }
  eapply sys_inv_intro; try done.
  - intros x Hx. intros Hp. eapply packet_ok_frame; [done| |done]. apply Hs, Hap. rewrite <-Hall. set_solver.
  - exists (Ut ++ Um ++ Uc). split; [done|]. intros x Hx. apply Hap. rewrite <-Hall. set_solver.
Qed.

Lemma step_worker_handled s m0 g B q Fb i t :
  sys_inv s m0 g B q Fb → (i < length (y_local s))%nat →
  ∃ w' g', handle_worker cfg i t (y_world s) = Some (tt, w') ∧ sys_inv (s <| y_world := w' |>) m0 g' B q Fb.
Proof.
  intros Hinv Hi. pose proof Hinv as [[_ Hnull _ _ _ _ _] H1 H2 _ _ _ Hall _ ? ?].
  destruct (handle_worker_inv cfg (packet_ok s) Ut Um Uc B nctx nstack m0 (inflight (y_world s)) (y_world s) g i t H1)
    as (w' & g' & E & Hinv' & En); [|lia|lia|].
  { intros Hb. apply Hnull. rewrite <-Hall. set_solver. }
  exists w', g'. split; [done|]. apply (step_dispatcher s m0 g); [done|..].
  - unfold inflight in *. by rewrite En.
  - unfold net_ok in *. by rewrite En.
Qed.

Lemma step_networker_handled s m0 g B q Fb t :
  sys_inv s m0 g B q Fb →
  ∃ w' g', handle_networker t (y_world s) = Some (tt, w') ∧ sys_inv (s <| y_world := w' |>) m0 g' B q Fb.
Proof.
  intros Hinv. pose proof Hinv as [[_ Hnull _ _ _ _ _] H1 H2 _ _ _ Hall _ _ _].
  destruct (handle_networker_inv cfg (packet_ok s) Ut Um Uc B nctx nstack m0 (y_world s) g t H1)
    as (w' & g' & E & Hinv' & Hnet'); [|done|].
  { intros Hb. apply Hnull. rewrite <-Hall. set_solver. }
  exists w', g'. split; [done|]. by apply (step_dispatcher s m0 g).
Qed.

(** Replacing the state when the queues and the holdings stay the same. *)
Lemma inv_move G B m0 m0' N k w w' g :
  inv cfg G Ut Um Uc B nctx nstack m0 N k w g → disp_rep Ut Um Uc m0' w' g → sizes cfg w' g →
  held w' ≡ₚ held w → Forall2 (mail_ok G (num_ports cfg)) (w_resp w') (w_req w') →
  inv cfg G Ut Um Uc B nctx nstack m0' N k w' g.
Proof.
  intros [Hrep Hsz Hcap Hload Hctxs Hbufs Hmail Htasks] Hrep' Hsz' Hh Hmail'. split; try done.
  - unfold ctxs in *. by rewrite Hh.
  - unfold bufs in *. by rewrite Hh.
Qed.

(** Stores to buffers outside the dispatcher's pools. *)
Lemma inv_store G B m0 N k w g X m' :
  inv cfg G Ut Um Uc B nctx nstack m0 N k w g → same_outside X (w_mem w) m' →
  (∀ x, x ∈ X → x ∉ Ut ++ Um ++ Uc) →
  inv cfg G Ut Um Uc B nctx nstack m' N k (w <| w_mem := m' |>) g.
Proof.
  intros Hinv Hs Hx. pose proof Hinv as [Hrep [] _ _ _ _ Hmail _].
  eapply inv_move; [exact Hinv|by eapply rep_outside|by split|done|done].
Qed.

(** *** The workers *)

Lemma step_worker_init s m0 g B q0 Fb i l r q :
  sys_inv s m0 g B q0 Fb → y_local s !! i = Some l →
  w_resp (y_world s) !! i = Some r → w_req (y_world s) !! i = Some q → wr_flag r = RUNNING → dr_flag q = WAITING →
  ∃ x', init_worker i (worker_of s l) = Some (tt, x') ∧ sys_inv (after_worker s i x') m0 g B q0 Fb.
Proof.
  intros Hinv Hl Hr Hq Hf Ha. pose proof Hinv as [_ H1 H2 _ _ _ _ Hd _ _].
  unfold init_worker, lift_world, set_resp, worker_of. simpl. rewrite Hr. simpl. eexists. split; [done|].
  pose proof H1 as [Hrep [] _ _ _ _ Hmail _].
  eapply sys_inv_intro; [exact Hinv| | |done| |done..|].
  - unfold after_worker, inflight in *. rsimpl. eapply inv_move; [exact H1| | | |].
    + eapply rep_arrays; [exact Hrep|by rsimpl..].
    + split; rsimpl; rewrite ?length_insert; done.
    + destruct (held_update (y_world s) i r q Hr Hq) as (rest & E1 & E2).
      rewrite (E2 _ (r <| wr_flag := PROCESSED |>) q), E1; [|by rsimpl|by rsimpl; rewrite list_insert_id].
      assert (holds r q = None) as -> by (unfold holds; by rewrite Hf, Ha). done.
    + rsimpl. rewrite <-(list_insert_id _ _ _ Hq). apply Forall2_insert; [done|].
      split_and!; rsimpl; [auto|by left|by rewrite Ha|done].
  - done.
  - exists []. split; [done|set_solver].
  - apply length_insert.
Qed.

Lemma step_worker_turn s m0 g B q0 Fb i l q fin :
  sys_inv s m0 g B q0 Fb → y_local s !! i = Some l → w_req (y_world s) !! i = Some q → dr_flag q ≠ WAITING →
  ∃ x' m0', worker_turn (uctx i) i fin (worker_of s l) = Some (tt, x') ∧ sys_inv (after_worker s i x') m0' g B q0 Fb.
Proof.
  intros Hinv Hl Hq Hw. pose proof Hinv as [[Hnd Hnull Hap _ _ _ _] H1 H2 _ _ _ Hall Hd _ _].
  set (w := y_world s) in *. pose proof H1 as [Hrep Hsz _ _ Hctxs Hbufs Hmail _]. pose proof Hsz as [].
  assert (i < MAX_WORKERS)%nat as Hi by (apply lookup_lt_Some in Hq; lia).
  destruct (lookup_lt_is_Some_2 (w_resp w) i) as [r Hr]; [lia|].
  destruct (Forall2_lookup_lr _ _ _ _ _ _ Hmail Hr Hq) as (_ & [?|Ha] & Hact & _); [done|].
  destruct (Hact Ha) as (Hf & Hty & HG).
  assert (holds r q = Some (dr_rnbl q, dr_mbuf q)) as Hh by (unfold holds; by rewrite Hf, Ha).
  destruct (held_update w i r q Hr Hq) as (rest & E1 & E2). rewrite Hh in E1. simpl in E1.
  assert (dr_rnbl q ∈ (g_live g).*1) as Hc by (rewrite <-Hctxs; unfold ctxs; rewrite E1; set_solver).
  assert (dr_mbuf q ∈ B) as HbB by (rewrite <-Hbufs; unfold bufs; rewrite E1; set_solver).
  assert (dr_mbuf q ∈ Ub) as Hb by (rewrite <-Hall; set_solver).
  destruct (handle_request_run Ut Um Uc Ub m0 (uctx i) w g (y_data s) l i q fin)
    as (m0' & m' & data' & l' & E & Hrep' & Hcont & Hfin & Hso & Hlen & Hd' & Hdata); [done..|].
  eexists _, m0'. split.
  { unfold worker_turn, mbind, st_bind, worker_of. fold w. rewrite E. unfold finish_request, mbind, st_bind, lift_world, arr_get.
    rsimpl. rewrite list_lookup_insert_eq by lia. simpl. unfold set_resp. rsimpl. rewrite Hr. simpl. reflexivity. }
  eapply sys_inv_intro; [exact Hinv| | | | |done..|exact Hd'|apply length_insert].
  - unfold after_worker, inflight in *. rsimpl. eapply inv_move; [exact H1| | | |].
    + eapply rep_arrays; [exact Hrep'|by rsimpl..].
    + split; rsimpl; rewrite ?length_insert; done.
    + rewrite E1, (E2 _ (answer (q <| dr_flag := WAITING |>) l' r) (q <| dr_flag := WAITING |>)); [|done..].
      replace (holds _ _) with (Some (l_cont l', dr_mbuf q)); [by rewrite Hcont|].
      unfold holds, answer. rsimpl. by destruct (l_finished l').
    + rsimpl. apply Forall2_insert; [done|]. unfold answer. split_and!; rsimpl; [|by left|done|done].
      destruct (l_finished l'); auto.
  - done.
  - intros x Hx Hp. eapply packet_ok_frame; [exact Hp| |intros k Hk; by apply Hdata].
    apply Hlen, Hap. rewrite <-Hall. set_solver.
  - exists (dr_mbuf q :: Ut ++ Um ++ Uc). split.
    + intros y off Hy. assert (y ∉ Ut ++ Um ++ Uc) as Hy' by set_solver.
      pose proof (dr_frame _ _ _ _ _ _ Hrep' y off Hy') as F1. unfold y_mem, after_worker. rsimpl. rewrite F1, Hso by done.
      symmetry. by apply (dr_frame _ _ _ _ _ _ Hrep).
    + intros y Hy [->|Hy']%elem_of_cons.
      * rewrite <-Hall in Hnd. apply NoDup_app in Hnd as (_ & Hdis & _). apply (Hdis (dr_mbuf q)); set_solver.
      * apply (Hap y); [|done]. rewrite <-Hall. set_solver.
Qed.

(** *** The card and the networker *)

(** The invariant after a change of the networker's part [U], which keeps what
    the dispatcher has. *)
Lemma sys_inv_net s s' m0 g B q Fb q' Fb' :
  sys_inv s m0 g B q Fb →
  let U := rq_entries (y_ring s) ++ q ++ Fb in
  y_world s' = (y_world s) <| w_mem := y_mem s' |> → same_outside U (y_mem s) (y_mem s') →
  poll_inv (rq_entries (y_ring s') ++ q' ++ Fb') q' Fb' (poll_of s') →
  (∀ x, x ∉ U → mbuf_data (y_data s') x = mbuf_data (y_data s) x) → packets_wf (y_data s') →
  (∀ e, e ∈ y_recv s' → e ∈ y_recv s ∨ (0 ≤ e.2 < Z.of_nat (num_ports cfg) ∧ packet_ok s' e.1)) →
  (length (y_recv s') ≤ ETH_RX_MAX_BATCH)%nat →
  (rq_entries (y_ring s') ++ q' ++ Fb') ++ (y_recv s').*1 ≡ₚ U ++ (y_recv s).*1 →
  y_local s' = y_local s → sys_inv s' (y_mem s') g B q' Fb'.
Proof.
  intros [Hpf Hinv Hnet Hpoll Hrecv Hrl Hall Hdata Hw Hcpu] U Ew Hs Hpoll' Hd Hd' Hrecv' Hrl' Hp El. fold U in Hall.
  pose proof Hpf as [Hnd Hnull Hap _ _ _ _].
  assert (∀ x, x ∈ (y_recv s).*1 ++ B → packet_ok s x → packet_ok s' x) as HG.
  { rewrite <-Hall in Hnd. apply NoDup_app in Hnd as (_ & Hdis & _).
    intros x Hx Hok. assert (x ∉ U) as HxU by (intros ?; by eapply Hdis).
    eapply packet_ok_frame; [done|by apply Hs|]. intros k _. by rewrite Hd. }
  assert (inflight (y_world s') = inflight (y_world s)) as Ei by (by rewrite Ew).
  assert (inv cfg (packet_ok s) Ut Um Uc B nctx nstack (y_mem s') (inflight (y_world s)) 0 (y_world s') g) as Hinv'.
  { rewrite Ew. eapply inv_store; [done..|]. intros x Hx. apply Hap. rewrite <-Hall. set_solver. }
  split; rewrite ?El, ?Ei; try done.
  - eapply inv_mono; [done|]. intros x Hx. apply HG. set_solver.
  - eapply net_ok_mono; [by rewrite Ew|]. intros x Hx. apply HG.
    destruct Hinv as [_ _ _ _ _ Hb _ _]. rewrite Ei in Hx. rewrite <-Hb. set_solver.
  - apply Forall_forall. intros e He. destruct (Hrecv' e He) as [He'|]; [|done].
    pose proof (proj1 (Forall_forall _ _) Hrecv e He') as [H1 H2]. split; [done|]. apply HG; [|done].
    apply (list_elem_of_fmap_2 fst) in He'. set_solver.
  - by rewrite app_assoc, Hp, <-app_assoc.
Qed.

Lemma step_card s m0 g B q Fb descs data :
  sys_inv s m0 g B q Fb → length descs = length (rq_ring (y_ring s)) → packets_wf data →
  (∀ p, p ∉ rq_entries (y_ring s) → data !! p = y_data s !! p) →
  sys_inv (after_card s descs data) (y_mem s) g B q Fb.
Proof.
  intros Hinv Hl Hwf Hd. pose proof Hinv as [_ _ _ Hpoll Hrecv Hrl _ _ _ _].
  eapply (sys_inv_net s (after_card s descs data)); [exact Hinv|..]; try done.
  - unfold y_mem. simpl. by destruct s as [[] ? ? ? ? ? ?].
  - destruct Hpoll as [P1 P2 P3 P4 P5 P6 P7]. split; try done. simpl in *. change (rq_ring _) with descs. congruence.
  - intros x Hx. unfold mbuf_data, after_card. rsimpl. rewrite Hd; [done|]. set_solver.
  - auto.
Qed.

Lemma step_poll s m0 g B q Fb now :
  sys_inv s m0 g B q Fb →
  ∃ n p' q' Fb', rx_poll view pg fgs now (poll_of s) = Some (n, p') ∧ sys_inv (after_poll s p') (po_mem p') g B q' Fb'.
Proof.
  intros Hinv. pose proof Hinv as [[Hnd Hnull _ Hmach Hview Hfgs _] _ _ Hpoll Hrecv Hrl Hall Hdata _ _].
  set (U := rq_entries (y_ring s) ++ q ++ Fb) in *.
  assert (∀ x, x ∈ U → x ∈ Ub) as HU by (intros x Hx; rewrite <-Hall; set_solver).
  destruct (rx_poll_ok view pg fgs U Hview Hfgs) with (now := now) (q := q) (F := Fb) (s := poll_of s) as (p' & Fb' & E & Hp & Hs);
    [|by auto|by auto|done|].
  { rewrite <-Hall in Hnd. by apply NoDup_app in Hnd as (? & _). }
  set (q' := (poll_spec _ _ _ _).2) in *. pose proof Hp as [P1 P2 P3 P4 P5 P6 P7].
  eexists _, p', q', Fb'. split; [exact E|].
  eapply (sys_inv_net s (after_poll s p')); [exact Hinv|..]; try done.
  - by left.
  - change (rq_entries (y_ring (after_poll s p'))) with (rq_entries (po_ring p')). by rewrite P3.
Qed.

Lemma step_recv s m0 g B q Fb :
  sys_inv s m0 g B q Fb → y_recv s = [] → no_overrun s →
  let run := eth_process_recv cfg (y_data s) 1 (mk_rx_st (y_mem s) (y_mbufs s) [y_rxq s]) in
  run = Some None ∨
  ∃ m' P' rxq' b q' Fb', run = Some (Some (mk_rx_st m' P' [rxq'], b)) ∧ sys_inv (after_recv s m' P' rxq' b) m' g B q' Fb'.
Proof.
  intros Hinv Hrecv Hov run. pose proof Hinv as [[Hnd Hnull _ Hmach Hview Hfgs Hports] _ _ Hpoll _ _ Hall Hdata _ _].
  pose proof Hpoll as [HF Hq _ P4 P5 P6 P7]. simpl in HF, Hq.
  assert (NoDup (rq_entries (y_ring s) ++ q ++ Fb)) as HndU by (rewrite <-Hall in Hnd; by apply NoDup_app in Hnd as (? & _)).
  assert (NoDup (q ++ Fb)) as Hnd' by (by apply NoDup_app in HndU as (_ & _ & ?)).
  apply NoDup_app in Hnd' as (Hndq & Hdis & _).
  pose proof (recv_loop_single cfg (y_data s) Hdata Hports ETH_RX_MAX_BATCH (y_mem s) (y_mbufs s) (y_rxq s) q Fb []
    eq_refl ltac:(unfold ETH_RX_MAX_BATCH; lia) Hq HF) as H.
  destruct (take_batch _ _ _) as [[[b dr] rest] quit] eqn:Et. unfold run, eth_process_recv.
  destruct quit; [left; apply H; intros x Hx; split; [auto|by eapply Hov]|].
  destruct H as (m' & P' & rxq' & E & Hq' & HF' & Hs); [intros x Hx; split; [auto|by eapply Hov]|].
  right. exists m', P', rxq', b, rest, (dr ++ Fb). split; [done|].
  destruct (take_batch_parts _ _ _ _ _ _ Et) as (-> & Hlen & _ & Hb).
  eapply (sys_inv_net s (after_recv s m' P' rxq' b)); [exact Hinv|..]; try done.
  - eapply same_outside_weaken; [done|]. intros x [Hx|Hx]%elem_of_app; in_app.
  - intros [x ty] He. right. destruct (Hb x ty He) as (i & Hv & ->). simpl.
    destruct (delivered_parsable _ _ _ _ _ Hv) as [Hok Hi]. split; [lia|].
    eapply (packet_ok_frame s); [exact Hok| |done]. apply Hs.
    apply (list_elem_of_fmap_2 fst) in He. simpl in He. apply not_elem_of_app. split.
    + apply NoDup_app in Hndq as (_ & Hd & _). intros Hx. apply (Hd x He). in_app.
    + apply Hdis. in_app.
  - rewrite Hrecv. simpl. change (y_recv (after_recv s m' P' rxq' b)) with b. clear. solve_Permutation.
Qed.

(** New contents of the networker's mailbox. *)
Lemma inv_mailbox G B m0 N N' k w g n :
  inv cfg G Ut Um Uc B nctx nstack m0 N k w g →
  length (np_pkts n) = ETH_RX_MAX_BATCH → length (np_types n) = ETH_RX_MAX_BATCH →
  inv cfg G Ut Um Uc (bufs w g ++ N') nctx nstack m0 N' k (w <| w_net := n |>) g.
Proof.
  intros [Hrep [] Hcap Hload Hctxs Hbufs Hmail Htasks] H1 H2. split; try done.
  eapply rep_arrays; [exact Hrep|by rsimpl..].
Qed.

(** The final state of the networker's turn. *)
Lemma networker_turn_run w P Fb recv cy :
  pool_rep (w_mem w) P Fb → 0 ∉ Fb ++ inflight w ++ recv.*1 → NoDup (inflight w ++ Fb) →
  np_cnt (w_net w) = 0 → 0 ≤ np_free_cnt (w_net w) ≤ 6 → (0 < length recv ≤ ETH_RX_MAX_BATCH)%nat →
  length (np_pkts (w_net w)) = ETH_RX_MAX_BATCH → length (np_types (w_net w)) = ETH_RX_MAX_BATCH →
  (∀ x, x ∈ recv.*1 → x ∉ inflight w ++ Fb) →
  ∃ m' P' F', networker_turn recv cy (mk_net_st w P) =
    Some (tt, mk_net_st (w <| w_mem := m' |> <| w_net := mk_networker_pointers_t (Z.of_nat (length recv)) 0
       ((u8 <$> recv.*2) ++ drop (length recv) (np_types (w_net w)))
       (recv.*1 ++ drop (length recv) (np_pkts (w_net w))) |>) P') ∧
    pool_rep m' P' F' ∧ F' ≡ₚ inflight w ++ Fb ∧ same_outside (inflight w ++ Fb ++ recv.*1) (w_mem w) m' ∧
    keeps_len (inflight w ++ Fb) (w_mem w) m'.
Proof.
  intros HP Hnull Hnd Hc Hfr Hlen Hlp Hlt Hdis. unfold networker_turn, mbind, st_bind, st_get.
  rewrite (proj2 (Nat.eqb_neq _ _)) by lia. unfold inflight in *. rewrite Hc in *. simpl in *.
  change (np_free_cnt (net_ptrs _)) with (np_free_cnt (w_net w)).
  set (n := Z.to_nat (np_free_cnt (w_net w))) in *.
  destruct (free_returned_ok (mk_net_st w P) n Fb) as (m1 & P1 & F1 & E1 & HF1 & Hp1 & Hs1).
  { done. } { simpl. unfold net_ptrs, ETH_RX_MAX_BATCH in *. simpl. lia. } { done. } { set_solver. }
  rewrite E1. unfold set_net at 1, st_mod. rsimpl.
  set (n1 := (w_net w) <| np_free_cnt := 0 |>).
  set (s2 := mk_net_st (w <| w_mem := m1 |> <| w_net := n1 |>) P1).
  destruct (post_packets_ok s2 recv cy) as (m2 & E2 & Hs2 & Ho2).
  { simpl. change (np_pkts _) with (np_pkts (w_net w)). lia. }
  { simpl. change (np_types _) with (np_types (w_net w)). lia. } { set_solver. }
  match goal with |- context [st_for (length recv) 0 _ ?x] => change x with s2 end. rewrite E2. unfold set_net, st_mod.
  exists m2, P1, F1. split_and!; [| |done| |].
  - do 2 f_equal. rewrite u8_small by (unfold ETH_RX_MAX_BATCH in *; lia). by destruct w.
  - eapply pool_rep_frame; [exact HF1|exact Hs2|]. intros x Hx Hx'. apply (Hdis x Hx'). by rewrite <-Hp1.
  - eapply same_outside_trans; eapply same_outside_weaken; [exact Hs1| |exact Hs2|]; set_solver.
  - intros x Hx. rewrite (Ho2 x MB_LEN) by done. by apply Hs1.
Qed.

Lemma step_networker s m0 g B q Fb cy :
  sys_inv s m0 g B q Fb → y_recv s ≠ [] → np_cnt (w_net (y_world s)) = 0 →
  ∃ x' m0' B' Fb', networker_turn (y_recv s) cy (mk_net_st (y_world s) (y_mbufs s)) = Some (tt, x') ∧
    sys_inv (after_post s x') m0' g B' q Fb'.
Proof.
  intros Hinv Hne Hc. pose proof Hinv as [Hpf H1 H2 Hpoll Hrecv Hrl Hall Hdata Hw1 Hw2].
  pose proof Hpf as [Hnd Hnull Hap _ _ _ _]. pose proof Hpoll as [HF Hq _ P4 P5 P6 P7]. simpl in HF, Hq.
  pose proof H1 as [_ [? ? ? ? Hlp Hlt ? ?] _ _ _ Hbufs _ _]. set (w := y_world s) in *. set (recv := y_recv s) in *.
  set (en := rq_entries (y_ring s)) in *.
  assert (NoDup (recv.*1 ++ (inflight w ++ Fb) ++ en ++ q ++ bufs w g)) as Hnd1.
  { rewrite <-Hall, <-Hbufs in Hnd. eapply NoDup_Permutation_proper; [|exact Hnd]. solve_Permutation. }
  assert (∀ x, x ∈ recv.*1 ++ (inflight w ++ Fb) ++ en ++ q ++ bufs w g → x ∈ Ub) as Hin.
  { intros x Hx. rewrite <-Hall, <-Hbufs. rewrite !elem_of_app in *. tauto. }
  apply NoDup_app in Hnd1 as (_ & Hd1 & Hnd1). apply NoDup_app in Hnd1 as (Hnd1 & Hd2 & _).
  assert (0 < length recv)%nat as Hl0 by (destruct recv; simpl in *; [done|lia]).
  destruct (networker_turn_run w (y_mbufs s) Fb recv cy) as (m' & P' & F' & E & HF' & Hp & Hs & Hk); try done.
  { intros H0. apply Hnull, Hin. rewrite !elem_of_app in *. tauto. }
  { by destruct H2 as (_ & ? & _). }
  { intros x Hx Hx'. apply (Hd1 x Hx). in_app. }
  set (n' := mk_networker_pointers_t (Z.of_nat (length recv)) 0 ((u8 <$> recv.*2) ++ drop (length recv) (np_types (w_net w)))
    (recv.*1 ++ drop (length recv) (np_pkts (w_net w)))) in E.
  eexists _, m', (bufs w g ++ recv.*1), F'. split; [exact E|].
  match goal with |- sys_inv ?x _ _ _ _ _ => set (s' := x) end.
  assert (∀ x, x ∈ recv.*1 ++ bufs w g → packet_ok s x → packet_ok s' x) as HG.
  { intros x Hx Hok. eapply packet_ok_frame; [exact Hok| |done]. apply Hk.
    apply elem_of_app in Hx as [Hx|Hx]; [intros ?; apply (Hd1 x Hx); in_app|intros Hi; apply (Hd2 x Hi); in_app]. }
  assert (∀ {A} (l k : list A) n, length l = n → (n ≤ length k)%nat → length (l ++ drop n k) = length k) as Hll.
  { intros A l k n <- ?. rewrite length_app, length_drop. lia. }
  assert (inflight (y_world s') = recv.*1) as Ei.
  { unfold inflight. simpl. rewrite (proj2 (Z.eqb_neq _ _)) by lia. rewrite Nat2Z.id, take_app_le by (by rewrite length_fmap).
    apply take_ge. by rewrite length_fmap. }
  split; try done.
  - rewrite Ei. eapply inv_mono; [|intros x [Hx|Hx]%elem_of_app; apply HG; in_app].
    change (inv cfg (packet_ok s) Ut Um Uc (bufs (w <| w_mem := m' |>) g ++ recv.*1) nctx nstack m' recv.*1 0
      (w <| w_mem := m' |> <| w_net := n' |>) g).
    apply (inv_mailbox (packet_ok s) (bufs w g ++ inflight w) m' (inflight w) recv.*1 0 (w <| w_mem := m' |>) g); simpl.
    + assert (inv cfg (packet_ok s) Ut Um Uc (bufs w g ++ inflight w) nctx nstack m0 (inflight w) 0 w g) as H1'.
      { destruct H1. by split. }
      eapply inv_store; [exact H1'|exact Hs|]. intros x Hx. apply Hap, Hin. rewrite !elem_of_app in *. tauto.
    + rewrite Hll; [done|by rewrite length_fmap|lia].
    + rewrite Hll; [done|by rewrite !length_fmap|lia].
  - eapply net_ok_mono; [|intros x Hx; rewrite Ei in Hx; apply HG; in_app].
    unfold net_ok. simpl. unfold ETH_RX_MAX_BATCH in *. rewrite Nat2Z.id. split_and!; [lia..| |].
    + intros i Hi. destruct (lookup_lt_is_Some_2 recv i Hi) as [[mb ty] Hr]. exists (u8 ty).
      rewrite lookup_app_l, !list_lookup_fmap, Hr by (by rewrite !length_fmap). split; [done|].
      eapply Forall_lookup_1 in Hrecv as [Hty _]; [|exact Hr]. simpl in *.
      pose proof (u8_range ty). unfold u8, U8_MOD in *. pose proof (Z.mod_le ty 256). lia.
    + rewrite take_app_le, take_ge by (by rewrite length_fmap). apply Forall_fmap. eapply Forall_impl; [exact Hrecv|].
      by intros e [_ ?].
  - split; try done; simpl. eapply rx_rep_frame; [exact Hq|exact Hs|].
    intros x Hx Hx'. assert (x ∈ recv.*1 ∨ x ∈ inflight w ++ Fb) as [Hi|Hi] by (rewrite !elem_of_app in *; tauto);
      [apply (Hd1 x Hi); in_app|apply (Hd2 x Hi); in_app].
  - simpl. lia.
  - simpl. change (rq_entries _) with en. rewrite Hp, <-Hall, <-Hbufs. solve_Permutation.
Qed.
End steps.
