(* ===== verification/Boot.v ===== *)
(** * Start-up (dp/core/init.c)

    [boot] runs the memory initialisers of [init_tbl] in their order, sets up the
    receive ring and fills it, and gives the state in which the cores start: its
    pools are separate, complete and large enough, so the state satisfies the
    invariant of the system. *)

From S2P Require Import Prelude Stddef Heap Mempool Float Page Bytes Mbuf Dispatch NetInput EthQueue RxRing Context Dispatcher Worker Networker System Steps.
Local Open Scope Z_scope.

(** The response pools (dp/core/worker.c): [sizeof(struct response)] is 48. *)
Definition RESPONSE_CAPACITY : Z := 128000.

Definition zero_response : worker_response := mk_worker_response 0 0 0 0 0 0.
Definition zero_request : dispatcher_request := mk_dispatcher_request 0 0 0 0 0 0 0.
Definition zero_local : worker_local := mk_worker_local 0 false 0 0.
Definition zero_pool : pool := (mempool_datastore_zero, mempool_zero).

(** [mbuf_init] and [mbuf_init_cpu]; the mapping of the pages into user space
    only sets the addresses of the mapping. *)
Definition mbuf_init (pa ma : Z → ptr) (m : heap) (P : pool) : option (Z * heap * pool) :=
  '(ret, m, ds) ← mempool_create_datastore pa ma m P.1 MBUF_CAPACITY MBUF_LEN 1 MEMPOOL_DEFAULT_CHUNKSIZE;
  Some (ret, m, (ds, P.2)).
Definition mbuf_init_cpu (P : pool) (cpu_id : Z) : option pool :=
  p ← mempool_create P.1 P.2 MEMPOOL_SANITY_PERCPU cpu_id; Some (P.1, p).

(** [response_init] and [response_init_cpu]. *)
Definition response_init (pa ma : Z → ptr) (m : heap) (P : pool) : option (Z * heap * pool) :=
  '(ret, m, ds) ← mempool_create_datastore pa ma m P.1 RESPONSE_CAPACITY SIZEOF_RESPONSE 1
                    MEMPOOL_DEFAULT_CHUNKSIZE;
  Some (ret, m, (ds, P.2)).
Definition response_init_cpu (P : pool) (cpu_id : Z) : option pool :=
  p ← mempool_create P.1 P.2 MEMPOOL_SANITY_PERCPU cpu_id; Some (P.1, p).

(** The state of the globals before [main]: zeroed, no task queued. *)
Definition start_world (m : heap) (Pt Pm Pc Ps : pool) : world :=
  mk_world m Pt Pm Pc Ps (replicate CFG_MAX_PORTS (mk_task_queue NULL NULL)) NULL
    (replicate MAX_WORKERS zero_response) (replicate MAX_WORKERS zero_request)
    (mk_networker_pointers_t 0 0 (replicate ETH_RX_MAX_BATCH 0) (replicate ETH_RX_MAX_BATCH NULL))
    (replicate MAX_WORKERS 0) (replicate MAX_WORKERS false) [].

(** The entries "mbuf", "taskqueue", "response" and "context" of [init_tbl], and
    the first core's part of "mbuf" and "response"; [pa n] is the page allocator
    at its [n]-th call, and an initialiser that fails ends the program. *)
Definition boot_mem (pa : nat → Z → ptr) (ma : Z → ptr) (sizeof_ucontext cpu_id : Z) :
    option (heap * pool * pool * pool * pool * pool * pool) :=
  '(ret, m, Pb) ← mbuf_init (pa 0%nat) ma ∅ zero_pool;
  if negb (ret =? 0) then None else
  '(ret, m, Pt, Pm) ← taskqueue_init (λ n, pa (1 + n)%nat) ma m zero_pool zero_pool;
  if negb (ret =? 0) then None else
  '(ret, m, Pr) ← response_init (pa 3%nat) ma m zero_pool;
  if negb (ret =? 0) then None else
  '(ret, m, Pc, Ps) ← context_init (λ n, pa (4 + n)%nat) ma sizeof_ucontext m zero_pool zero_pool;
  if negb (ret =? 0) then None else
  Pb ← mbuf_init_cpu Pb cpu_id;
  Pr ← response_init_cpu Pr cpu_id;
  Some (m, Pb, Pt, Pm, Pr, Pc, Ps).

(** Then the networker's core sets up its receive queue and starts the device.
    What DPDK and the operating system return to the set-up are arguments. *)
Definition boot (drv : driver) (pa : nat → Z → ptr) (ma : Z → ptr) (pg : pages) (dpdk_ret page lookup_ret : Z)
    (sizeof_ucontext cpu_id : Z) (workers : nat) : option (sys * pool) :=
  '(m, Pb, Pt, Pm, Pr, Pc, Ps) ← boot_mem pa ma sizeof_ucontext cpu_id;
  match drv_rx_queue_setup drv dpdk_ret page lookup_ret ETH_DEV_RX_QUEUE_SZ with
  | (_, None) => None
  | (_, Some ring) =>
      '(ret, m, Pb, ring) ← drv_alloc_rx_mbufs drv pg m Pb ring;
      if negb (ret =? 0) then None else
      Some (mk_sys (start_world m Pt Pm Pc Ps) Pb ring (mk_eth_rx_queue NULL NULL 0) [] ∅ (replicate workers zero_local), Pr)
  end.

(** ** The page allocator's promise *)

Definition boot_pages (sizeof_ucontext : Z) (k : nat) : Z :=
  match k with
  | 0%nat => ds_pages MBUF_CAPACITY MBUF_LEN
  | 1%nat => ds_pages TASK_CAPACITY SIZEOF_TASK
  | 2%nat => ds_pages MCELL_CAPACITY SIZEOF_MBUF_CELL
  | 3%nat => ds_pages RESPONSE_CAPACITY SIZEOF_RESPONSE
  | 4%nat => ds_pages CONTEXT_CAPACITY sizeof_ucontext
  | _ => ds_pages STACK_CAPACITY STACK_SIZE
  end.

(** Every call returns non-NULL, zeroed pages below the top of the address space,
    and no two calls return overlapping pages. *)
Record good_pages (pa : nat → Z → ptr) (sz : Z) : Prop := {
  gp_fresh : ∀ k, (k ≤ 5)%nat → fresh_pages ∅ (pa k (boot_pages sz k)) (boot_pages sz k);
  gp_disjoint : ∀ i j, (i < j ≤ 5)%nat →
    pages_disjoint (pa i (boot_pages sz i)) (boot_pages sz i) (pa j (boot_pages sz j)) (boot_pages sz j);
}.

(** The pools after start-up, with their elements. *)
Record boot_pools (buf : ptr) (m : heap) (Pb Pt Pm Pr Pc Ps : pool) (Fb Ft Fm Fr Fc Fs : list ptr) : Prop := {
  bp_b : pool_rep m Pb Fb;
  bp_t : pool_rep m Pt Ft;
  bp_m : pool_rep m Pm Fm;
  bp_r : pool_rep m Pr Fr;
  bp_c : pool_rep m Pc Fc;
  bp_s : pool_rep m Ps Fs;
  bp_nodup : NoDup (Fb ++ Ft ++ Fm ++ Fc ++ Fs);
  bp_resp : ∀ x, x ∈ Fr → x ∉ Fb ++ Ft ++ Fm ++ Fc ++ Fs;
  bp_bufs : MBUF_CAPACITY ≤ Z.of_nat (length Fb);
  bp_layout : ds_layout buf (ds_len MBUF_LEN) (ds_pages MBUF_CAPACITY MBUF_LEN) Fb;
  bp_tasks : TASK_CAPACITY ≤ Z.of_nat (length Ft);
  bp_mcells : MCELL_CAPACITY ≤ Z.of_nat (length Fm);
  bp_stacks : Z.of_nat (length Fs) ≤ STACK_CAPACITY;
}.

Lemma layout_range buf len pages F :
  ds_layout buf len pages F → 0 < len → ∀ x, x ∈ F → buf ≤ x < buf + pages * PGSIZE_2MB.
Proof. intros (_ & Hb & _) Hl x Hx. destruct (Hb x Hx) as (? & ? & _). lia. Qed.

Lemma disjoint_sym a n b k : pages_disjoint a n b k → pages_disjoint b k a n.
Proof. unfold pages_disjoint. lia. Qed.

(** Lists of elements from disjoint page ranges have nothing in common. *)
Lemma ranges_apart (F G : list ptr) a n b k :
  (∀ x, x ∈ F → a ≤ x < a + n * PGSIZE_2MB) → (∀ x, x ∈ G → b ≤ x < b + k * PGSIZE_2MB) →
  pages_disjoint a n b k → ∀ x, x ∈ F → x ∉ G.
Proof. intros HF HG Hd x Hx Hx'. specialize (HF x Hx). specialize (HG x Hx'). unfold pages_disjoint in Hd. lia. Qed.

(** The two initialisers that create two pools each, when both creations work. *)
Lemma taskqueue_init_run pa ma m d1 m1 p1 m2 d2 p2 :
  mempool_create_datastore (pa 0%nat) ma m mempool_datastore_zero TASK_CAPACITY SIZEOF_TASK 1
    MEMPOOL_DEFAULT_CHUNKSIZE = Some (0, m1, d1) →
  mempool_create d1 mempool_zero MEMPOOL_SANITY_GLOBAL 0 = Some p1 →
  mempool_create_datastore (pa 1%nat) ma m1 mempool_datastore_zero MCELL_CAPACITY SIZEOF_MBUF_CELL 1
    MEMPOOL_DEFAULT_CHUNKSIZE = Some (0, m2, d2) →
  mempool_create d2 mempool_zero MEMPOOL_SANITY_GLOBAL 0 = Some p2 →
  taskqueue_init pa ma m zero_pool zero_pool = Some (0, m2, (d1, p1), (d2, p2)).
Proof.
  intros E1 E1' E2 E2'. unfold taskqueue_init, task_init_mempool, mcell_init_mempool, zero_pool. cbn [fst snd].
  rewrite E1. cbn [mbind option_bind negb Z.eqb fst snd]. rewrite E1'. cbn [mbind option_bind fst snd].
  rewrite E2. cbn [mbind option_bind negb Z.eqb fst snd]. by rewrite E2'.
Qed.

Lemma context_init_run pa ma sz m d1 m1 p1 m2 d2 p2 :
  mempool_create_datastore (pa 0%nat) ma m mempool_datastore_zero CONTEXT_CAPACITY sz 1
    MEMPOOL_DEFAULT_CHUNKSIZE = Some (0, m1, d1) →
  mempool_create d1 mempool_zero MEMPOOL_SANITY_GLOBAL 0 = Some p1 →
  mempool_create_datastore (pa 1%nat) ma m1 mempool_datastore_zero STACK_CAPACITY STACK_SIZE 1
    MEMPOOL_DEFAULT_CHUNKSIZE = Some (0, m2, d2) →
  mempool_create d2 mempool_zero MEMPOOL_SANITY_GLOBAL 0 = Some p2 →
  context_init pa ma sz m zero_pool zero_pool = Some (0, m2, (d1, p1), (d2, p2)).
Proof.
  intros E1 E1' E2 E2'. unfold context_init, context_init_mempool, stack_init_mempool, zero_pool. cbn [fst snd].
  rewrite E1. cbn [mbind option_bind negb Z.eqb fst snd]. rewrite E1'. cbn [mbind option_bind fst snd].
  rewrite E2. cbn [mbind option_bind negb Z.eqb fst snd]. by rewrite E2'.
Qed.

(** The elements of the pools, each on the pages of its own call. *)
Lemma boot_elements pa sz Fb Ft Fm Fr Fc Fs :
  good_pages pa sz →
  (∀ k F x, [Fb; Ft; Fm; Fr; Fc; Fs] !! k = Some F → x ∈ F →
     pa k (boot_pages sz k) ≤ x < pa k (boot_pages sz k) + boot_pages sz k * PGSIZE_2MB) →
  NoDup Fb → NoDup (Ft ++ Fm) → NoDup (Fc ++ Fs) →
  NoDup (Fb ++ Ft ++ Fm ++ Fc ++ Fs) ∧ ∀ x, x ∈ Fr → x ∉ Fb ++ Ft ++ Fm ++ Fc ++ Fs.
Proof.
  intros [_ Hdis] Hin Hb Htm Hcs.
  assert (∀ i j F G x, (i ≠ j)%nat → (i ≤ 5)%nat → (j ≤ 5)%nat → [Fb; Ft; Fm; Fr; Fc; Fs] !! i = Some F →
    [Fb; Ft; Fm; Fr; Fc; Fs] !! j = Some G → x ∈ F → x ∉ G) as Hap.
  { intros i j F G x Hij Hi Hj EF EG HF HG. pose proof (Hin i F x EF HF). pose proof (Hin j G x EG HG).
    destruct (decide (i < j)%nat); [pose proof (Hdis i j)|pose proof (Hdis j i)]; unfold pages_disjoint in *; lia. }
  split.
  - rewrite (app_assoc Ft). apply NoDup_app. split_and!; [done| |apply NoDup_app; split_and!; [done| |done]].
    + intros x Hx. rewrite !not_elem_of_app.
      split_and!; [apply (Hap 0 1 Fb Ft)%nat|apply (Hap 0 2 Fb Fm)%nat|apply (Hap 0 4 Fb Fc)%nat|apply (Hap 0 5 Fb Fs)%nat]; done || lia.
    + intros x [Hx|Hx]%elem_of_app; rewrite not_elem_of_app; split;
        [apply (Hap 1 4 Ft Fc)%nat|apply (Hap 1 5 Ft Fs)%nat|apply (Hap 2 4 Fm Fc)%nat|apply (Hap 2 5 Fm Fs)%nat]; done || lia.
  - intros x Hx. rewrite !not_elem_of_app.
    split_and!; [apply (Hap 3 0 Fr Fb)%nat|apply (Hap 3 1 Fr Ft)%nat|apply (Hap 3 2 Fr Fm)%nat|apply (Hap 3 4 Fr Fc)%nat|apply (Hap 3 5 Fr Fs)%nat];
      done || lia.
Qed.

Lemma boot_mem_run pa ma sz cpu_id :
  0 < sz ≤ PGSIZE_2MB → good_pages pa sz →
  ∃ m Pb Pt Pm Pr Pc Ps Fb Ft Fm Fr Fc Fs,
    boot_mem pa ma sz cpu_id = Some (m, Pb, Pt, Pm, Pr, Pc, Ps) ∧
    boot_pools (pa 0%nat (ds_pages MBUF_CAPACITY MBUF_LEN)) m Pb Pt Pm Pr Pc Ps Fb Ft Fm Fr Fc Fs.
Proof.
  intros Hsz Hgood. pose proof (gp_fresh _ _ Hgood) as Hfresh.
  assert (∀ i j, (i ≠ j ∧ i ≤ 5 ∧ j ≤ 5)%nat →
    pages_disjoint (pa i (boot_pages sz i)) (boot_pages sz i) (pa j (boot_pages sz j)) (boot_pages sz j)) as D.
  { intros i j Hij. destruct (decide (i < j)%nat); [|apply disjoint_sym]; apply (gp_disjoint _ _ Hgood); lia. }
  destruct (create_pool_fresh (pa 0%nat) ma ∅ MBUF_CAPACITY MBUF_LEN MEMPOOL_SANITY_PERCPU cpu_id)
    as (m1 & db & pb & Fb & Eb & Eb' & HFb & Hcb & Hlb & Xb & Kb & _);
    [by vm_compute|by vm_compute|by vm_compute|exact (Hfresh 0%nat ltac:(lia))|].
  pose proof (λ k H H', Kb _ _ (D 0%nat k H) (Hfresh k H')) as Kb'.
  destruct (create_two_pools (λ n, pa (1 + n)%nat) ma m1 TASK_CAPACITY SIZEOF_TASK MCELL_CAPACITY SIZEOF_MBUF_CELL)
    as (m2 & dt & pt & Ft & m3 & dm & pm & Fm & Et & Et' & Em & Em' & HFt & HFm & Hnd1 & Hct & Hcm & Hlt & Hlm & Kt & Pt);
    [by vm_compute|by vm_compute|by vm_compute|exact (Kb' 1%nat ltac:(lia) ltac:(lia))|by vm_compute|by vm_compute|
     by vm_compute|exact (Kb' 2%nat ltac:(lia) ltac:(lia))|exact (D 1%nat 2%nat ltac:(lia))|].
  pose proof (λ k H1 H2 H H', Kt _ _ (D 1%nat k H1) (D 2%nat k H2) (Kb' k H H')) as Kt'.
  destruct (create_pool_fresh (pa 3%nat) ma m3 RESPONSE_CAPACITY SIZEOF_RESPONSE MEMPOOL_SANITY_PERCPU cpu_id)
    as (m4 & dr & pr & Fr & Er & Er' & HFr & _ & _ & Xr & Kr & Pr);
    [by vm_compute|by vm_compute|by vm_compute|exact (Kt' 3%nat ltac:(lia) ltac:(lia) ltac:(lia) ltac:(lia))|].
  destruct (create_two_pools (λ n, pa (4 + n)%nat) ma m4 CONTEXT_CAPACITY sz STACK_CAPACITY STACK_SIZE)
    as (m5 & dc & pc & Fc & m6 & ds & ps & Fs & Ec & Ec' & Es & Es' & HFc & HFs & Hnd2 & _ & Hcs & Hlc & Hls & _ & Pc);
    [done|by vm_compute|by vm_compute
    |exact (Kr _ _ (D 3%nat 4%nat ltac:(lia)) (Kt' 4%nat ltac:(lia) ltac:(lia) ltac:(lia) ltac:(lia)))|by vm_compute|by vm_compute
    |by vm_compute|exact (Kr _ _ (D 3%nat 5%nat ltac:(lia)) (Kt' 5%nat ltac:(lia) ltac:(lia) ltac:(lia) ltac:(lia)))
    |exact (D 4%nat 5%nat ltac:(lia))|].
  assert (∀ e, 0 < e ≤ PGSIZE_2MB → 0 < ds_len e) as Hlen by (intros e He; destruct (ds_len_bounds e He); lia).
  pose proof (layout_range _ _ _ _ Hlt (Hlen SIZEOF_TASK ltac:(done))) as Xt.
  pose proof (layout_range _ _ _ _ Hlm (Hlen SIZEOF_MBUF_CELL ltac:(done))) as Xm.
  pose proof (layout_range _ _ _ _ Hlc (Hlen sz Hsz)) as Xc.
  pose proof (layout_range _ _ _ _ Hls (Hlen STACK_SIZE ltac:(done))) as Xs.
  assert (∀ k F x, [Fb; Ft; Fm; Fr; Fc; Fs] !! k = Some F → x ∈ F →
    pa k (boot_pages sz k) ≤ x < pa k (boot_pages sz k) + boot_pages sz k * PGSIZE_2MB) as Hin.
  { intros k F x EF.
    destruct k as [|[|[|[|[|[|k]]]]]]; [injection EF as <-..|discriminate EF];
      [exact (Xb x)|exact (Xt x)|exact (Xm x)|exact (Xr x)|exact (Xc x)|exact (Xs x)]. }
  destruct (boot_elements pa sz Fb Ft Fm Fr Fc Fs Hgood Hin) as [Hnd Hr]; [by destruct Hlb|exact Hnd1|exact Hnd2|].
  exists m6, (db, pb), (dt, pt), (dm, pm), (dr, pr), (dc, pc), (ds, ps), Fb, Ft, Fm, Fr, Fc, Fs. split.
  { unfold boot_mem, mbuf_init, response_init. cbn [fst snd zero_pool]. rewrite Eb. cbn [mbind option_bind negb Z.eqb fst snd].
    rewrite (taskqueue_init_run _ _ _ _ _ _ _ _ _ Et Et' Em Em'). cbn [mbind option_bind negb Z.eqb].
    rewrite Er. cbn [mbind option_bind negb Z.eqb fst snd].
    rewrite (context_init_run _ _ _ _ _ _ _ _ _ _ Ec Ec' Es Es'). cbn [mbind option_bind negb Z.eqb].
    unfold mbuf_init_cpu, response_init_cpu. cbn [fst snd]. rewrite Eb'. cbn [mbind option_bind]. by rewrite Er'. }
  assert (∀ k P F, (k ≤ 2)%nat → [Fb; Ft; Fm; Fr; Fc; Fs] !! k = Some F → pool_rep m3 P F → pool_rep m6 P F) as Hup.
  { intros k P F Hk EF HP. pose proof (λ x, Hin k F x EF) as HX.
    apply (Pc _ _ _ _ (D 4%nat k ltac:(lia)) (D 5%nat k ltac:(lia)) HX), (Pr _ _ _ _ (D 3%nat k ltac:(lia)) HX), HP. }
  split; [| | | |exact HFc|exact HFs|exact Hnd|exact Hr| |exact Hlb| | |].
  - apply (Hup 0%nat _ Fb ltac:(lia) eq_refl). exact (Pt _ _ _ _ (D 1%nat 0%nat ltac:(lia)) (D 2%nat 0%nat ltac:(lia)) Xb HFb).
  - exact (Hup 1%nat _ Ft ltac:(lia) eq_refl HFt).
  - exact (Hup 2%nat _ Fm ltac:(lia) eq_refl HFm).
  - exact (Pc _ _ _ _ (D 4%nat 3%nat ltac:(lia)) (D 5%nat 3%nat ltac:(lia)) Xr HFr).
  - by destruct Hcb.
  - by destruct Hct.
  - by destruct Hcm.
  - destruct Hcs as [_ Hcs]. etransitivity; [exact Hcs|]. by vm_compute.
Qed.

(** ** The state after start-up *)

(** The card can address every buffer: the pages of the buffers are mapped, and
    machine addresses have the parity of the offset in them. *)
Definition good_mapping (pg : pages) (buf : ptr) (n : Z) : Prop :=
  ∀ a, buf ≤ a < buf + n * PGSIZE_2MB → ∃ p, page_machaddr pg a = Some p ∧ Z.even p = Z.even (a - buf).

Lemma layout_even buf len n F x :
  ds_layout buf len n F → Z.even len = true → x ∈ F → Z.even (x - buf) = true.
Proof.
  intros (_ & Hb & _) Hl Hx. destruct (Hb x Hx) as (_ & _ & _ & k & Hk).
  rewrite (Z.div_mod (x - buf) PGSIZE_2MB), Hk by done. rewrite Z.even_add, !Z.even_mul, Hl.
  unfold PGSIZE_2MB. simpl. by rewrite orb_true_r.
Qed.

Lemma mbufs_mapped pg buf n F :
  ds_layout buf (ds_len MBUF_LEN) n F → 0 < buf → buf + n * PGSIZE_2MB < U64_MOD → good_mapping pg buf n →
  ∀ x, x ∈ F → ∃ a, page_machaddr pg (mbuf_mtod_off x 0) = Some a ∧ Z.even a = true.
Proof.
  intros Hlay Hbuf Hmax Hmap x Hx. pose proof (layout_even _ _ _ _ x Hlay ltac:(by vm_compute) Hx) as He.
  destruct Hlay as (_ & Hb & _). destruct (Hb x Hx) as (H1 & H2 & _). change (ds_len MBUF_LEN) with 2112 in *.
  unfold mbuf_mtod_off, MBUF_HEADER_LEN. rewrite u64_small by lia.
  destruct (Hmap (x + 64 + 0)) as (p & -> & Ep); [lia|]. exists p. split; [done|]. rewrite Ep.
  replace (x + 64 + 0 - buf) with (x - buf + 64) by lia. by rewrite Z.even_add, He.
Qed.

(** Stores to the packet buffers leave the other pools alone. *)
Lemma boot_pools_store buf m Pb Pt Pm Pr Pc Ps Fb Ft Fm Fr Fc Fs m' :
  boot_pools buf m Pb Pt Pm Pr Pc Ps Fb Ft Fm Fr Fc Fs → same_outside Fb m m' →
  pool_rep m' Pt Ft ∧ pool_rep m' Pm Fm ∧ pool_rep m' Pc Fc ∧ pool_rep m' Ps Fs.
Proof.
  intros [_ Ht Hm _ Hc Hs Hnd _ _ _ _ _ _] Ho. apply NoDup_app in Hnd as (_ & Hd & _).
  split_and!; eapply pool_rep_frame; try done; intros x Hx Hb; apply (Hd x Hb); in_app.
Qed.

(** The dispatcher's part of the invariant. *)
Lemma start_inv cfg G m0 Pt Pm Pc Ps Ft Fm Fc Fs :
  pool_rep m0 Pt Ft → pool_rep m0 Pm Fm → pool_rep m0 Pc Fc → pool_rep m0 Ps Fs → NoDup (Ft ++ Fm ++ Fc ++ Fs) →
  TASK_CAPACITY ≤ Z.of_nat (length Ft) → MCELL_CAPACITY ≤ Z.of_nat (length Fm) → Z.of_nat (length Fs) ≤ STACK_CAPACITY →
  (num_ports cfg ≤ CFG_MAX_PORTS)%nat → (num_ports cfg ≤ length (slos cfg))%nat →
  inv cfg G Ft Fm (Fc ++ Fs) [] (length Fc) (length Fs) m0 [] 0 (start_world m0 Pt Pm Pc Ps)
    (mk_ghost Ft Fm Fc Fs (replicate CFG_MAX_PORTS []) [] []).
Proof.
  intros Ht Hm Hc Hs Hnd Hct Hcm Hcs Hp1 Hp2. split; simpl; try done.
  - split; simpl; try done.
    + split; [done| |].
      * apply (Forall2_replicate (tskq_rep m0) CFG_MAX_PORTS (mk_task_queue NULL NULL) []). split; [done|done|set_solver|apply NoDup_nil_2].
      * change (cells _) with (@nil ptr). rewrite app_nil_r. by apply NoDup_app in Hnd as (? & _).
    + split; [done|set_solver|apply NoDup_nil_2].
    + split; [done|done|set_solver|]. simpl. rewrite app_nil_r.
      apply NoDup_app in Hnd as (_ & _ & Hnd). by apply NoDup_app in Hnd as (_ & _ & ?).
    + change (cells _) with (@nil ptr). by rewrite app_nil_r.
    + by rewrite app_nil_r.
    + unfold ctx_region. simpl. by rewrite app_nil_r.
  - unfold TASK_CAPACITY, MCELL_CAPACITY, STACK_CAPACITY in *.
    split; simpl; unfold cap, ETH_RX_MAX_BATCH; lia.
  - lia.
  - apply (Forall2_replicate (mail_ok G (num_ports cfg)) MAX_WORKERS zero_response zero_request).
    split_and!; simpl; [by left|by left|done|done].
Qed.

Lemma ring_setup_ok drv dpdk_ret page lookup_ret :
  0 ≤ dpdk_ret → page ≠ MAP_FAILED → lookup_ret = 0 →
  ∃ ring, drv_rx_queue_setup drv dpdk_ret page lookup_ret ETH_DEV_RX_QUEUE_SZ = (0, Some ring) ∧
    length (rq_ring ring) = 512%nat ∧ length (rq_entries ring) = 512%nat ∧ rq_len ring = 512 ∧ rq_head ring = 0.
Proof.
  intros Hd Hp ->. eexists. split.
  - assert (drv_rx_queue_setup drv dpdk_ret page 0 ETH_DEV_RX_QUEUE_SZ = ring_setup dpdk_ret page 0 ETH_DEV_RX_QUEUE_SZ) as ->
      by (by destruct drv).
    unfold ring_setup. rewrite (proj2 (Z.ltb_ge _ _)), (proj2 (Z.eqb_neq _ _) Hp) by lia. cbn [negb Z.eqb]. reflexivity.
  - split_and!; by vm_compute.
Qed.

(** Start-up succeeds, and its state satisfies the invariant of the system. *)
Lemma boot_run cfg drv pg fgs pa ma dpdk_ret page lookup_ret sz cpu_id workers :
  0 < sz ≤ PGSIZE_2MB → good_pages pa sz → good_mapping pg (pa 0%nat (boot_pages sz 0)) (boot_pages sz 0) →
  0 ≤ dpdk_ret → page ≠ MAP_FAILED → lookup_ret = 0 → fgs ≠ [] →
  (num_ports cfg ≤ CFG_MAX_PORTS)%nat → (num_ports cfg ≤ length (slos cfg))%nat →
  (num_ports cfg ≤ length (cfg_ports cfg))%nat →
  (workers ≤ MAX_WORKERS)%nat → (workers + 2 ≤ length (cfg_cpu cfg))%nat →
  ∃ s Pr Ut Um Uc Ub nctx nstack m0 g q Fb,
    boot drv pa ma pg dpdk_ret page lookup_ret sz cpu_id workers = Some (s, Pr) ∧
    sys_inv cfg (drv_view drv) pg fgs Ut Um Uc Ub nctx nstack s m0 g [] q Fb.
Proof.
  intros Hsz Hgood Hmap Hdpdk Hpage Hlook Hfgs Hp1 Hp2 Hp3 Hw Hcpu.
  destruct (boot_mem_run pa ma sz cpu_id Hsz Hgood) as (m & Pb & Pt & Pm & Pr & Pc & Ps & Fb & Ft & Fm & Fr & Fc & Fs & E & Hpools).
  destruct (ring_setup_ok drv dpdk_ret page lookup_ret Hdpdk Hpage Hlook) as (ring & Ering & Hr1 & Hr2 & Hr3 & Hr4).
  pose proof Hpools as [HFb _ _ _ _ _ Hnd _ Hcb Hlay Hct Hcm Hcs].
  destruct (gp_fresh _ _ Hgood 0%nat ltac:(lia)) as (Hb0 & _ & Hbm & _). change (boot_pages sz 0) with (ds_pages MBUF_CAPACITY MBUF_LEN) in *.
  set (buf := pa 0%nat (ds_pages MBUF_CAPACITY MBUF_LEN)) in *.
  pose proof (mbufs_mapped pg buf _ Fb Hlay ltac:(lia) ltac:(unfold MAP_FAILED in *; lia) Hmap) as Hmach.
  assert (0 ∉ Fb) as H0 by (intros H0; by apply (sa_non_null _ _ _ 0 HFb) in H0).
  destruct (alloc_rx_mbufs_ok drv pg m Pb ring Fb HFb H0 Hmach) as (ret & m' & Pb' & ring' & Fb' & Ea & HF' & Hs & Hh & Hl & Hl1 & Hl2 & Hres);
    [rewrite Hr2, Hr3; done|congruence|].
  rewrite decide_True in Hres by (rewrite Hr3; unfold MBUF_CAPACITY in *; lia). destruct Hres as [-> Hall].
  destruct (boot_pools_store _ _ _ _ _ _ _ _ _ _ _ _ _ _ m' Hpools Hs) as (Ht & Hm & Hc & Hst).
  eexists _, Pr, Ft, Fm, (Fc ++ Fs), Fb, (length Fc), (length Fs), m', _, [], Fb'. split.
  { unfold boot. rewrite E. cbn [mbind option_bind]. rewrite Ering, Ea. cbn [mbind option_bind negb Z.eqb]. reflexivity. }
  apply NoDup_app in Hnd as (Hndb & Hdb & Hnd).
  clear Hmap E Ering Ea Hgood Hpools Hlay Hb0 Hbm. split.
  - split; [exact Hndb|exact H0|exact Hdb|exact Hmach|apply drv_view_clears|exact Hfgs|exact Hp3].
  - exact (start_inv cfg _ m' Pt Pm Pc Ps Ft Fm Fc Fs Ht Hm Hc Hst Hnd Hct Hcm Hcs Hp1 Hp2).
  - unfold net_ok. cbn. split_and!; [lia..|done|lia|by constructor].
  - split; cbn [poll_of po_mem po_mbufs po_rxq po_ring y_mem y_world y_mbufs y_ring y_rxq start_world w_mem].
    + exact HF'.
    + split; [done|done|done|apply NoDup_nil_2].
    + done.
    + by rewrite Hl1, Hl2, Hr1, Hr2.
    + by rewrite Hl, Hl2, Hr2, Hr3.
    + exists 9. split; [lia|by rewrite Hl, Hr3].
    + rewrite Hh, Hr4. lia.
  - by constructor.
  - cbn. lia.
  - cbn [y_ring y_recv fmap list_fmap app]. by rewrite app_nil_r, Hall.
  - intros p d Hpd. cbn in Hpd. by rewrite lookup_empty in Hpd.
  - cbn [y_local]. by rewrite length_replicate.
  - cbn [y_local]. by rewrite length_replicate.
Qed.
