(* ===== verification/Safety.v ===== *)
(** * Safety of the running system

    The start-up and the steps of the cores combined: in every state the system
    can reach, no handler faults, and no context or packet buffer is lost or
    held twice. *)

From S2P Require Import Prelude Stddef Heap Mempool Float Page Bytes Mbuf Dispatch NetInput EthQueue RxRing Context Dispatcher Worker Networker System Steps Boot.
Local Open Scope Z_scope.

Section running.
Context (cfg : cfg_params) (uctx : nat → ptr) (drv : driver) (pg : pages) (fgs : list Z).

(** The steps with the descriptor format of the driver. *)
Abbreviation step := (sys_step cfg uctx (drv_view drv) pg fgs).
Abbreviation invariant := (sys_inv cfg (drv_view drv) pg fgs).

(** Every step keeps the invariant. *)
Lemma sys_step_inv Ut Um Uc Ub nctx nstack s s' m0 g B q Fb :
  invariant Ut Um Uc Ub nctx nstack s m0 g B q Fb → step s s' →
  ∃ m0' g' B' q' Fb', invariant Ut Um Uc Ub nctx nstack s' m0' g' B' q' Fb'.
Proof.
  intros Hinv Hstep. destruct Hstep as [s i t w' Hi E|s t w' E|s i l r rq x' Hl Hr Hq Hf Ha E|s i l rq fin x' Hl Hq Hw E
    |s descs data Hl Hwf Hd|s now n p' Hr E|s m' P' rxq' b Hr Ho E|s cy x' Hr Hc E].
  - edestruct (step_worker_handled cfg uctx) as (w1 & g' & E' & H); [exact Hinv|exact Hi|]. rewrite E in E'. injection E' as <-. by do 5 eexists.
  - edestruct (step_networker_handled cfg uctx) as (w1 & g' & E' & H); [exact Hinv|]. rewrite E in E'. injection E' as <-. by do 5 eexists.
  - edestruct (step_worker_init cfg uctx) as (x1 & E' & H); [exact Hinv|exact Hl|exact Hr|exact Hq|done|done|]. rewrite E in E'. injection E' as <-. by do 5 eexists.
  - edestruct (step_worker_turn cfg uctx) as (x1 & m1 & E' & H); [exact Hinv|exact Hl|exact Hq|done|]. rewrite E in E'. injection E' as <-. by do 5 eexists.
  - do 5 eexists. by eapply (step_card cfg uctx).
  - edestruct (step_poll cfg uctx) as (n1 & p1 & q' & Fb' & E' & H); [exact Hinv|]. rewrite E in E'. injection E' as _ <-. by do 5 eexists.
  - edestruct (step_recv cfg uctx) as [E'|(m1 & P1 & rxq1 & b1 & q' & Fb' & E' & H)]; [exact Hinv|exact Hr|exact Ho|..].
    + by rewrite E in E'.
    + rewrite E in E'. injection E' as <- <- <- <-. by do 5 eexists.
  - edestruct (step_networker cfg uctx) as (x1 & m1 & B1 & F1 & E' & H); [exact Hinv|exact Hr|exact Hc|]. rewrite E in E'. injection E' as <-. by do 5 eexists.
Qed.

Lemma sys_steps_inv Ut Um Uc Ub nctx nstack s s' m0 g B q Fb :
  rtc step s s' → invariant Ut Um Uc Ub nctx nstack s m0 g B q Fb →
  ∃ m0' g' B' q' Fb', invariant Ut Um Uc Ub nctx nstack s' m0' g' B' q' Fb'.
Proof.
  intros Hsteps. revert m0 g B q Fb. induction Hsteps as [s|s s1 s2 H1 H2 IH]; intros m0 g B q Fb Hinv; [by do 5 eexists|].
  destruct (sys_step_inv _ _ _ _ _ _ _ _ _ _ _ _ _ Hinv H1) as (? & ? & ? & ? & ? & Hinv1). by eapply IH.
Qed.

Context (pa : nat → Z → ptr) (ma : Z → ptr) (dpdk_ret page lookup_ret : Z).
Context (sizeof_ucontext cpu_id : Z) (workers : nat).

(** What the configuration file, the page allocator and DPDK must provide: at
    most [CFG_MAX_PORTS] ports, a number and an SLO for every port, a core for
    the networker, the dispatcher and each worker; separate zeroed pages for
    every pool, those of the packet buffers mapped for the card; and a device
    whose queue set-up works. *)
Record deployment : Prop := {
  dep_ports : (num_ports cfg ≤ CFG_MAX_PORTS)%nat;
  dep_slos : (num_ports cfg ≤ length (slos cfg))%nat;
  dep_portnos : (num_ports cfg ≤ length (cfg_ports cfg))%nat;
  dep_workers : (workers ≤ MAX_WORKERS)%nat;
  dep_cpus : (workers + 2 ≤ length (cfg_cpu cfg))%nat;
  dep_ucontext : 0 < sizeof_ucontext ≤ PGSIZE_2MB;
  dep_pages : good_pages pa sizeof_ucontext;
  dep_mapping : good_mapping pg (pa 0%nat (boot_pages sizeof_ucontext 0)) (boot_pages sizeof_ucontext 0);
  dep_dpdk : 0 ≤ dpdk_ret ∧ page ≠ MAP_FAILED ∧ lookup_ret = 0;
  dep_fgs : fgs ≠ [];
}.

(** The states of the system: start-up, then any interleaving of steps. *)
Definition reachable (s : sys) : Prop :=
  ∃ s0 Pr, boot drv pa ma pg dpdk_ret page lookup_ret sizeof_ucontext cpu_id workers = Some (s0, Pr) ∧ rtc step s0 s.

Lemma reachable_inv :
  deployment → (∃ s, reachable s) ∧
  ∃ Ut Um Uc Ub nctx nstack, ∀ s, reachable s → ∃ m0 g B q Fb, invariant Ut Um Uc Ub nctx nstack s m0 g B q Fb.
Proof.
  intros [Hp1 Hp2 Hp3 Hw Hc Hsz Hpages Hmap (Hd1 & Hd2 & Hd3) Hf].
  destruct (boot_run cfg drv pg fgs pa ma dpdk_ret page lookup_ret sizeof_ucontext cpu_id workers)
    as (s0 & Pr & Ut & Um & Uc & Ub & nctx & nstack & m0 & g & q & Fb & E & Hinv); [assumption..|].
  split; [by exists s0, s0, Pr|]. exists Ut, Um, Uc, Ub, nctx, nstack.
  intros s (s1 & Pr' & E' & Hsteps). rewrite E in E'. injection E' as <- <-. by eapply sys_steps_inv.
Qed.



End running.

(** ** An example deployment *)

(** Two ports, four cores, two workers; the pages of the calls lie 4GB apart. *)
Definition ex_sys_cfg : cfg_params := mk_cfg_params 2 (slo_of_int <$> [10; 1]) [0; 1; 2; 3] [5001; 5002].
Definition ex_pa (n : nat) (pages : Z) : ptr := 0x4000000000 + Z.of_nat n * 0x100000000.
Definition ex_ma (pages : Z) : ptr := 0x200000.
Definition ex_uctx (i : nat) : ptr := 0x1000 + Z.of_nat i * 1024.

Lemma ex_pages_small k : boot_pages 968 k ≤ 1024.
Proof. destruct k as [|[|[|[|[|k]]]]]; by vm_compute. Qed.

(** The pages of a page table that maps every page to machine address 0. *)
Lemma ex_mapping n : 0 ≤ n ≤ 1024 → good_mapping pages_zero 0x4000000000 n.
Proof.
  intros Hn a Ha. unfold page_machaddr. unfold PGSIZE_2MB in *.
  rewrite addr_to_page_ent_ok by (unfold MEM_PHYS_BASE_ADDR, MEM_USER_START; lia). cbn [mbind option_bind].
  eexists. split; [done|]. change (pe_maddr _) with 0. rewrite PGOFF_2MB_mod.
  pose proof (Z.mod_pos_bound a PGSIZE_2MB ltac:(done)) as Hr. rewrite u64_small by (unfold U64_MOD, PGSIZE_2MB in *; lia).
  assert (Z.even a = Z.even (a mod PGSIZE_2MB)) as Ea.
  { rewrite (Z.div_mod a PGSIZE_2MB) at 1 by done. rewrite Z.even_add, Z.even_mul. by destruct (Z.even (a mod _)). }
  rewrite Z.even_sub, Ea, Z.add_0_l. change (Z.even 0x4000000000) with true. by destruct (Z.even (a mod _)).
Qed.

Lemma ex_deployment : deployment ex_sys_cfg pages_zero [0] ex_pa 0 0x200000 0 968 2.
Proof.
  split; [unfold CFG_MAX_PORTS, MAX_WORKERS, PGSIZE_2MB; simpl; lia..| | |done|done].
  - split.
    + intros k Hk. pose proof (ex_pages_small k). split_and!; [unfold ex_pa; lia|done| |done].
      unfold ex_pa, MAP_FAILED, U64_MOD, PGSIZE_2MB. lia.
    + intros i j Hij. left. pose proof (ex_pages_small i). unfold ex_pa, PGSIZE_2MB. lia.
  - apply ex_mapping. by vm_compute.
Qed.



